(** * apiformes: the MQTT v5 wire codec and the broker core

    A shallow embedding of the parts of the apiformes broker that the
    specification talks about:
    - the primitive wire types of [packet/src/data.rs] (also
      [apiformes/src/data.rs], same algorithms),
    - the property table of [packet/src/props.rs],
    - the packet framing of [packet/src/packet.rs] and the packet bodies,
    - the CONNECT decoder of [apiformes/src/packets/connect.rs],
    - the subscription tree of [server-lib/src/topics.rs],
    - the SUBSCRIBE / PUBLISH handling of [server-lib/src/dispatcher.rs].

    Bytes are [Z] values in [0, 256); a buffer ([bytes::Buf]) is the list of
    its remaining bytes, and a decoder returns the decoded value together
    with the bytes it left in the buffer. [usize] and [u32] quantities are
    [Z]; where the source casts with [as u32] the wrap-around is written
    out. *)

From Stdlib Require Import String Ascii ZArith List Bool Lia.
Import ListNotations.
Open Scope Z_scope.

(** ** Errors and results *)

(** [DataParseError] of [packet/src/error.rs] (the variants of
    [apiformes/src/parsable.rs] are a subset). *)
Inductive DataParseError : Type :=
| InsufficientBuffer (needed available : Z)
| BadAuthMessage
| BadMqttUtf8String
| BadMqttVariableBytesInt
| BadMqttBinaryData
| BadPacketType
| BadProperty
| BadReasonCode
| BadConnectMessage
| BadDisconnectMessage
| BadPubAckMessage
| BadPubCompMessage
| BadPublishMessage
| BadPubRecMessage
| BadPubRelMessage
| UnsupportedMqttVersion
| BadQoS
| BadTopic
| BadRetainHandle
| BadSubscribeMessage
| BadSubAckMessage
| BadUnsubscribeMessage
| BadUnsubAckMessage
| BadPing
| BadConnAckMessage.

(** Rust's [Result<A, DataParseError>]. *)
Inductive result (A : Type) : Type :=
| Ok (a : A)
| Err (e : DataParseError).
Arguments Ok {A} a.
Arguments Err {A} e.

Definition bind {A B : Type} (r : result A) (k : A -> result B) : result B :=
  match r with
  | Ok a => k a
  | Err e => Err e
  end.

(** The [?] operator. *)
Notation "x <- r ;; k" := (bind r (fun x => k))
  (at level 61, r at next level, right associativity).

(** A decoder: reads from the front of the buffer, returns the value and
    the rest of the buffer. *)
Definition Decoder (A : Type) := list Z -> result (A * list Z).

(** ** Primitive wire types ([packet/src/data.rs]) *)
Module Wire.

(** [BufMut::put_u8], [put_u16], [put_u32] (big endian). *)
Definition put_u8 (x : Z) : list Z := [x mod 256].
Definition put_u16 (x : Z) : list Z := [(x / 256) mod 256; x mod 256].
Definition put_u32 (x : Z) : list Z :=
  [(x / 2^24) mod 256; (x / 2^16) mod 256; (x / 256) mod 256; x mod 256].

(** The blanket [MqttDeserialize] for fixed-size items: check
    [buf.remaining() >= fixed_size()], then [unchecked_deserialize]. *)
Definition deserialize_one : Decoder Z := fun buf =>
  match buf with
  | b :: rest => Ok (b, rest)
  | [] => Err (InsufficientBuffer 1 0)
  end.

Definition deserialize_two : Decoder Z := fun buf =>
  match buf with
  | b1 :: b2 :: rest => Ok (b1 * 256 + b2, rest)
  | _ => Err (InsufficientBuffer 2 (Z.of_nat (length buf)))
  end.

Definition deserialize_four : Decoder Z := fun buf =>
  match buf with
  | b1 :: b2 :: b3 :: b4 :: rest =>
      Ok (((b1 * 256 + b2) * 256 + b3) * 256 + b4, rest)
  | _ => Err (InsufficientBuffer 4 (Z.of_nat (length buf)))
  end.

(** *** Variable Byte Integer (1.5.5) *)

(** [MqttVariableBytesInt::verify] and [new]. *)
Definition vbi_new (i : Z) : result Z :=
  if i >? 0xfffffff then Err BadMqttVariableBytesInt else Ok i.

(** The [loop] of [MqttVariableBytesInt::serialize]; a [u32] leaves the
    loop after at most 5 iterations, so 5 is enough fuel. *)
Fixpoint vbi_serialize_loop (fuel : nat) (x : Z) : list Z :=
  match fuel with
  | O => []
  | S fuel' =>
      let encoded_byte := Z.land x 0x7f in
      let x' := Z.shiftr x 7 in
      let encoded_byte := if x' >? 0 then Z.lor encoded_byte 0x80
                          else encoded_byte in
      encoded_byte :: (if x' =? 0 then [] else vbi_serialize_loop fuel' x')
  end.

Definition vbi_serialize (i : Z) : list Z := vbi_serialize_loop 5 i.

(** The [loop] of [MqttVariableBytesInt::deserialize].  [remaining] is the
    length of the buffer, so the loop is by recursion on the buffer.
    [value += (encoded_byte & 127) << multiplier] on [u32]. *)
Fixpoint vbi_deserialize_loop (multiplier value : Z) (buf : list Z)
  : result (Z * list Z) :=
  match buf with
  | [] => Err (InsufficientBuffer 1 0)
  | encoded_byte :: rest =>
      let value :=
        (value + Z.land (Z.shiftl (Z.land encoded_byte 127) multiplier)
                        (2^32 - 1)) mod 2^32 in
      if multiplier >? 21 then Err BadMqttVariableBytesInt
      else if Z.land encoded_byte 0x80 =? 0 then Ok (value, rest)
      else vbi_deserialize_loop (multiplier + 7) value rest
  end.

Definition vbi_deserialize : Decoder Z := vbi_deserialize_loop 0 0.

(** [MqttSize for MqttVariableBytesInt]. *)
Definition vbi_size (i : Z) : Z :=
  if i <? 0x80 then 1
  else if i <? 0x4000 then 2
  else if i <? 0x200000 then 3
  else 4.

(** *** UTF-8 Encoded String (1.5.4) *)

(** A Rust [str] is a byte sequence that is well-formed UTF-8 (RFC 3629).
    [utf8_chars] decodes it into its code points, [None] on ill-formed
    input; it is what [std::str::from_utf8] checks and what [str::chars]
    iterates over. *)
Definition cont (b : Z) : bool := (0x80 <=? b) && (b <=? 0xBF).

Fixpoint utf8_chars (l : list Z) : option (list Z) :=
  match l with
  | [] => Some []
  | b1 :: r1 =>
      if b1 <? 0x80 then option_map (cons b1) (utf8_chars r1)
      else if (0xC2 <=? b1) && (b1 <=? 0xDF) then
        match r1 with
        | b2 :: r2 =>
            if cont b2
            then option_map (cons ((b1 - 0xC0) * 64 + (b2 - 0x80)))
                            (utf8_chars r2)
            else None
        | [] => None
        end
      else if (0xE0 <=? b1) && (b1 <=? 0xEF) then
        match r1 with
        | b2 :: b3 :: r3 =>
            let lo := if b1 =? 0xE0 then 0xA0 else 0x80 in
            let hi := if b1 =? 0xED then 0x9F else 0xBF in
            if (lo <=? b2) && (b2 <=? hi) && cont b3
            then option_map
                   (cons (((b1 - 0xE0) * 64 + (b2 - 0x80)) * 64 + (b3 - 0x80)))
                   (utf8_chars r3)
            else None
        | _ => None
        end
      else if (0xF0 <=? b1) && (b1 <=? 0xF4) then
        match r1 with
        | b2 :: b3 :: b4 :: r4 =>
            let lo := if b1 =? 0xF0 then 0x90 else 0x80 in
            let hi := if b1 =? 0xF4 then 0x8F else 0xBF in
            if (lo <=? b2) && (b2 <=? hi) && cont b3 && cont b4
            then option_map
                   (cons ((((b1 - 0xF0) * 64 + (b2 - 0x80)) * 64
                           + (b3 - 0x80)) * 64 + (b4 - 0x80)))
                   (utf8_chars r4)
            else None
        | _ => None
        end
      else None
  end.

(** [std::str::from_utf8]: the same bytes, now known to be a [str]. *)
Definition from_utf8 (bytes : list Z) : result (list Z) :=
  match utf8_chars bytes with
  | Some _ => Ok bytes
  | None => Err BadMqttUtf8String
  end.

(** [char::is_control]: general category Cc. *)
Definition is_control (c : Z) : bool :=
  (c <=? 0x1F) || ((0x7F <=? c) && (c <=? 0x9F)).

(** [MqttUtf8String::verify]: length, then
    [s.find(|c| c.is_control() || c == '\u{0000}')]. *)
Definition utf8_verify (s : list Z) : result unit :=
  if Z.of_nat (length s) >? 65535 then Err BadMqttUtf8String
  else match utf8_chars s with
       | Some cs =>
           if existsb (fun c => is_control c || (c =? 0)) cs
           then Err BadMqttUtf8String else Ok tt
       | None => Err BadMqttUtf8String
       end.

(** [MqttUtf8String::new]; the string is kept as its UTF-8 bytes. *)
Definition utf8_new (s : list Z) : result (list Z) :=
  _ <- utf8_verify s ;; Ok s.

Definition utf8_serialize (s : list Z) : list Z :=
  put_u16 (Z.of_nat (length s)) ++ s.

Definition utf8_deserialize : Decoder (list Z) := fun buf =>
  len_rest <- deserialize_two buf ;;
  let '(len, rest) := len_rest in
  if Z.of_nat (length rest) <? len
  then Err (InsufficientBuffer len (Z.of_nat (length rest)))
  else
    s <- from_utf8 (firstn (Z.to_nat len) rest) ;;
    ret <- utf8_new s ;;
    Ok (ret, skipn (Z.to_nat len) rest).

Definition utf8_size (s : list Z) : Z := 2 + Z.of_nat (length s).

(** *** Binary Data (1.5.6) *)

Definition binary_new (d : list Z) : result (list Z) :=
  if Z.of_nat (length d) >? 65535 then Err BadMqttBinaryData else Ok d.

Definition binary_serialize (d : list Z) : list Z :=
  put_u16 (Z.of_nat (length d)) ++ d.

Definition binary_deserialize : Decoder (list Z) := fun buf =>
  len_rest <- deserialize_two buf ;;
  let '(len, rest) := len_rest in
  if Z.of_nat (length rest) <? len
  then Err (InsufficientBuffer len (Z.of_nat (length rest)))
  else
    d <- binary_new (firstn (Z.to_nat len) rest) ;;
    Ok (d, skipn (Z.to_nat len) rest).

Definition binary_size (d : list Z) : Z := 2 + Z.of_nat (length d).

(** *** UTF-8 String Pair (1.5.7) *)

Definition pair_new (k v : list Z) : result (list Z * list Z) :=
  name <- utf8_new k ;; value <- utf8_new v ;; Ok (name, value).

Definition pair_serialize (p : list Z * list Z) : list Z :=
  utf8_serialize (fst p) ++ utf8_serialize (snd p).

Definition pair_deserialize : Decoder (list Z * list Z) := fun buf =>
  n_r <- utf8_deserialize buf ;;
  let '(name, r) := n_r in
  v_r <- utf8_deserialize r ;;
  let '(value, r') := v_r in
  Ok ((name, value), r').

Definition pair_size (p : list Z * list Z) : Z :=
  utf8_size (fst p) + utf8_size (snd p).

End Wire.

(** ** Properties ([packet/src/props.rs], [apiformes/src/packets/props.rs]) *)
Module Props.
Import Wire.

(** [PropOwner]: one bit per packet kind that may carry properties. *)
Definition AUTH : Z := 0x1.
Definition CONNACK : Z := 0x2.
Definition CONNECT : Z := 0x4.
Definition DISCONNECT : Z := 0x8.
Definition PUBACK : Z := 0x10.
Definition PUBCOMP : Z := 0x20.
Definition PUBLISH : Z := 0x40.
Definition PUBREC : Z := 0x80.
Definition PUBREL : Z := 0x100.
Definition SUBACK : Z := 0x200.
Definition SUBSCRIBE : Z := 0x400.
Definition UNSUBACK : Z := 0x800.
Definition UNSUBSCRIBE : Z := 0x1000.
Definition WILL : Z := 0x2000.
Definition ALL_MESSAGES : Z := 0xFFFF.

(** The fourteen packet kinds. *)
Definition owner_kinds : list Z :=
  [AUTH; CONNACK; CONNECT; DISCONNECT; PUBACK; PUBCOMP; PUBLISH; PUBREC;
   PUBREL; SUBACK; SUBSCRIBE; UNSUBACK; UNSUBSCRIBE; WILL].

(** [MqttPropValueType]. *)
Inductive MqttPropValueType : Type :=
| TBool | TByte | TFourBytesInt | TString | TStringPair | TData | TVarInt
| TTwoBytesInt.
Scheme Equality for MqttPropValueType.

(** [Property] (2.2.2.2). *)
Inductive Property : Type :=
| PayloadFormatIndicator | MessageExpiryInterval | ContentType
| ResponseTopic | CorrelationData | SubscriptionIdentifier
| SessionExpiryInterval | AssignedClientIdentifier | ServerKeepAlive
| AuthenticationMethod | AuthenticationData | RequestProblemInformation
| WillDelayInterval | RequestResponseInformation | ResponseInformation
| ServerReference | ReasonString | ReceiveMaximum | TopicAliasMaximum
| TopicAlias | MaximumQoS | RetainAvailable | UserProperty
| MaximumPacketSize | WildcardSubscriptionAvailable
| SubscriptionIdentifierAvailable | SharedSubscriptionAvailable.
Scheme Equality for Property.

(** The [#[repr(u32)]] discriminant. *)
Definition code (p : Property) : Z :=
  match p with
  | PayloadFormatIndicator => 0x1 | MessageExpiryInterval => 0x2
  | ContentType => 0x3 | ResponseTopic => 0x8 | CorrelationData => 0x9
  | SubscriptionIdentifier => 0xb | SessionExpiryInterval => 0x11
  | AssignedClientIdentifier => 0x12 | ServerKeepAlive => 0x13
  | AuthenticationMethod => 0x15 | AuthenticationData => 0x16
  | RequestProblemInformation => 0x17 | WillDelayInterval => 0x18
  | RequestResponseInformation => 0x19 | ResponseInformation => 0x1a
  | ServerReference => 0x1c | ReasonString => 0x1f | ReceiveMaximum => 0x21
  | TopicAliasMaximum => 0x22 | TopicAlias => 0x23 | MaximumQoS => 0x24
  | RetainAvailable => 0x25 | UserProperty => 0x26
  | MaximumPacketSize => 0x27 | WildcardSubscriptionAvailable => 0x28
  | SubscriptionIdentifierAvailable => 0x29
  | SharedSubscriptionAvailable => 0x2a
  end.

Definition all_properties : list Property :=
  [PayloadFormatIndicator; MessageExpiryInterval; ContentType; ResponseTopic;
   CorrelationData; SubscriptionIdentifier; SessionExpiryInterval;
   AssignedClientIdentifier; ServerKeepAlive; AuthenticationMethod;
   AuthenticationData; RequestProblemInformation; WillDelayInterval;
   RequestResponseInformation; ResponseInformation; ServerReference;
   ReasonString; ReceiveMaximum; TopicAliasMaximum; TopicAlias; MaximumQoS;
   RetainAvailable; UserProperty; MaximumPacketSize;
   WildcardSubscriptionAvailable; SubscriptionIdentifierAvailable;
   SharedSubscriptionAvailable].

(** [Property::auxiliary_data] of the [packet] crate: the owners, the type
    of the value, and whether the property may occur several times. *)
Definition auxiliary_data (p : Property) : Z * MqttPropValueType * bool :=
  match p with
  | PayloadFormatIndicator => (Z.lor PUBLISH WILL, TByte, false)
  | MessageExpiryInterval => (Z.lor PUBLISH WILL, TFourBytesInt, false)
  | ContentType => (Z.lor PUBLISH WILL, TString, false)
  | ResponseTopic => (Z.lor PUBLISH WILL, TString, false)
  | CorrelationData => (Z.lor PUBLISH WILL, TData, false)
  | SubscriptionIdentifier => (Z.lor PUBLISH SUBSCRIBE, TVarInt, false)
  | SessionExpiryInterval =>
      (Z.lor (Z.lor CONNECT CONNACK) DISCONNECT, TFourBytesInt, false)
  | AssignedClientIdentifier => (CONNACK, TString, false)
  | ServerKeepAlive => (CONNACK, TTwoBytesInt, false)
  | AuthenticationMethod => (Z.lor (Z.lor CONNECT CONNACK) AUTH, TString, false)
  | AuthenticationData => (Z.lor (Z.lor CONNECT CONNACK) AUTH, TData, false)
  | RequestProblemInformation => (CONNECT, TBool, false)
  | WillDelayInterval => (WILL, TFourBytesInt, false)
  | RequestResponseInformation => (CONNECT, TBool, false)
  | ResponseInformation => (CONNACK, TString, false)
  | ServerReference => (Z.lor CONNACK DISCONNECT, TString, false)
  | ReasonString =>
      (fold_left Z.lor [CONNACK; PUBACK; PUBREC; PUBREL; PUBCOMP; SUBACK;
                        UNSUBACK; DISCONNECT; AUTH] 0, TString, false)
  | ReceiveMaximum => (Z.lor CONNECT CONNACK, TTwoBytesInt, false)
  | TopicAliasMaximum => (Z.lor CONNECT CONNACK, TTwoBytesInt, false)
  | TopicAlias => (PUBLISH, TTwoBytesInt, false)
  | MaximumQoS => (CONNACK, TByte, false)
  | RetainAvailable => (CONNACK, TByte, false)
  | UserProperty =>
      (fold_left Z.lor [CONNECT; CONNACK; PUBLISH; WILL; PUBACK; PUBREC;
                        PUBREL; PUBCOMP; SUBSCRIBE; SUBACK; UNSUBSCRIBE;
                        UNSUBACK; DISCONNECT; AUTH] 0, TString, true)
  | MaximumPacketSize => (Z.lor CONNECT CONNACK, TFourBytesInt, false)
  | WildcardSubscriptionAvailable => (CONNACK, TBool, false)
  | SubscriptionIdentifierAvailable => (CONNACK, TBool, false)
  | SharedSubscriptionAvailable => (CONNACK, TBool, false)
  end.

(** [Property::auxiliary_data] of the [apiformes] crate: the same table,
    except that the five boolean properties are typed [Byte] (that crate
    has no [Bool] value type). *)
Definition auxiliary_data_apiformes (p : Property) : Z * MqttPropValueType * bool :=
  let '(owners, ty, multiple) := auxiliary_data p in
  (owners, (if MqttPropValueType_beq ty TBool then TByte else ty), multiple).

(** [MqttPropValue]. *)
Inductive MqttPropValue : Type :=
| VBool (b : Z)
| VByte (b : Z)
| VFourBytesInt (x : Z)
| VString (s : list Z)
| VStringPair (p : list Z * list Z)
| VData (d : list Z)
| VVarInt (x : Z)
| VTwoBytesInt (x : Z).

Definition prop_type (v : MqttPropValue) : MqttPropValueType :=
  match v with
  | VBool _ => TBool | VByte _ => TByte | VFourBytesInt _ => TFourBytesInt
  | VString _ => TString | VStringPair _ => TStringPair | VData _ => TData
  | VVarInt _ => TVarInt | VTwoBytesInt _ => TTwoBytesInt
  end.

Definition value_size (v : MqttPropValue) : Z :=
  match v with
  | VBool _ | VByte _ => 1
  | VFourBytesInt _ => 4
  | VString s => utf8_size s
  | VStringPair p => pair_size p
  | VData d => binary_size d
  | VVarInt x => vbi_size x
  | VTwoBytesInt _ => 2
  end.

Definition value_serialize (v : MqttPropValue) : list Z :=
  match v with
  | VBool b | VByte b => put_u8 b
  | VFourBytesInt x => put_u32 x
  | VString s => utf8_serialize s
  | VStringPair p => pair_serialize p
  | VData d => binary_serialize d
  | VVarInt x => vbi_serialize x
  | VTwoBytesInt x => put_u16 x
  end.

Definition map_fst {A B C : Type} (f : A -> B) (r : result (A * C))
  : result (B * C) :=
  match r with Ok (a, c) => Ok (f a, c) | Err e => Err e end.

Definition value_deserialize (ty : MqttPropValueType) : Decoder MqttPropValue :=
  fun buf =>
  match ty with
  | TBool => map_fst VBool (deserialize_one buf)
  | TByte => map_fst VByte (deserialize_one buf)
  | TFourBytesInt => map_fst VFourBytesInt (deserialize_four buf)
  | TString => map_fst VString (utf8_deserialize buf)
  | TStringPair => map_fst VStringPair (pair_deserialize buf)
  | TData => map_fst VData (binary_deserialize buf)
  | TVarInt => map_fst VVarInt (vbi_deserialize buf)
  | TTwoBytesInt => map_fst VTwoBytesInt (deserialize_two buf)
  end.

(** [Parsable for Property]. *)
Definition prop_serialize (p : Property) : list Z := vbi_serialize (code p).

Definition prop_deserialize : Decoder Property := fun buf =>
  i_r <- vbi_deserialize buf ;;
  let '(i, r) := i_r in
  match find (fun p => code p =? i) all_properties with
  | Some p => Ok (p, r)
  | None => Err BadProperty
  end.

Definition prop_size (p : Property) : Z := vbi_size (code p).

(** The [HashMap<Property, Vec<MqttPropValue>>] of a table, as an
    association list with one entry per key. *)
Fixpoint lookup (k : Property) (m : list (Property * list MqttPropValue))
  : option (list MqttPropValue) :=
  match m with
  | [] => None
  | (k', v) :: m' => if Property_beq k k' then Some v else lookup k m'
  end.

(** [HashMap::insert]: replaces the value of a present key, adds it
    otherwise. *)
Fixpoint hm_insert (k : Property) (v : list MqttPropValue)
  (m : list (Property * list MqttPropValue))
  : list (Property * list MqttPropValue) :=
  match m with
  | [] => [(k, v)]
  | (k', v') :: m' =>
      if Property_beq k k' then (k, v) :: m' else (k', v') :: hm_insert k v m'
  end.

(** [Properties]: [size] is the byte length of the serialized entries,
    [valid] the owners mask narrowed by every insertion. *)
Record Properties : Type := mkProperties {
  size : Z;
  valid : Z;
  props : list (Property * list MqttPropValue)
}.

(** The functions of [impl Properties] are the same in both crates up to
    [auxiliary_data], which is a parameter here. *)
Section Table.
Variable aux : Property -> Z * MqttPropValueType * bool.

Definition new : Properties :=
  {| size := 0; valid := ALL_MESSAGES; props := [] |}.

(** [Properties::unchecked_insert]: the updated table and the value it
    returns.  Stored vectors are never empty, so [v[0]] and [v.remove(0)]
    do not panic. *)
Definition unchecked_insert (t : Properties) (key : Property)
  (value : MqttPropValue) (multiple : bool)
  : Properties * option MqttPropValue :=
  if multiple then
    let size' := size t + (prop_size key + value_size value) in
    let props' :=
      match lookup key (props t) with
      | Some old => hm_insert key (old ++ [value]) (props t)
      | None => hm_insert key [value] (props t)
      end in
    ({| size := size'; valid := valid t; props := props' |}, None)
  else
    let size' := size t + value_size value in
    let old := lookup key (props t) in
    let props' := hm_insert key [value] (props t) in
    let size'' :=
      match old with
      | Some (o :: _) => size' - value_size o
      | _ => size' + prop_size key
      end in
    ({| size := size''; valid := valid t; props := props' |},
     match old with Some (o :: _) => Some o | _ => None end).

(** [Properties::insert]: the table after the call (it is [&mut self])
    and the result. *)
Definition insert (t : Properties) (key : Property) (value : MqttPropValue)
  : Properties * result unit :=
  let '(filter, ty, multiple) := aux key in
  if negb (MqttPropValueType_beq (prop_type value) ty) then (t, Err BadProperty)
  else
    let t := {| size := size t; valid := Z.land (valid t) filter;
                props := props t |} in
    match unchecked_insert t key value multiple with
    | (t', Some _) => (t', Err BadProperty)
    | (t', None) => (t', Ok tt)
    end.

(** [Properties::checked_insert]. *)
Definition checked_insert (t : Properties) (key : Property)
  (value : MqttPropValue) (ty : Z) : Properties * result unit :=
  let '(filter, prop_ty, multiple) := aux key in
  if negb (Z.land filter ty =? ty)
     || negb (MqttPropValueType_beq prop_ty (prop_type value))
  then (t, Err BadProperty)
  else
    let t := {| size := size t; valid := Z.land (valid t) filter;
                props := props t |} in
    (fst (unchecked_insert t key value multiple), Ok tt).

Definition is_valid_for (t : Properties) (message : Z) : bool :=
  Z.land (valid t) message =? message.

(** [Properties::iter]: every (key, value) pair. *)
Definition iter (t : Properties) : list (Property * MqttPropValue) :=
  flat_map (fun kv => map (pair (fst kv)) (snd kv)) (props t).

(** [Parsable::serialize] ([self.size as u32]). *)
Definition serialize (t : Properties) : result (list Z) :=
  let n := size t mod 2 ^ 32 in
  _ <- vbi_new n ;;
  Ok (vbi_serialize n ++
      flat_map (fun kv => prop_serialize (fst kv) ++ value_serialize (snd kv))
               (iter t)).

(** The [while size != 0] loop of [Parsable::deserialize], reading from
    the [take(size)] buffer.  Every turn consumes at least one byte, so
    [S (length buf)] turns are enough. *)
Fixpoint deserialize_loop (fuel : nat) (sz : Z) (table : Properties)
  (buf : list Z) : result (Properties * list Z) :=
  match fuel with
  | O => Err (InsufficientBuffer 1 0)
  | S fuel' =>
      if sz =? 0 then Ok (table, buf)
      else
        k_r <- prop_deserialize buf ;;
        let '(key, r1) := k_r in
        let '(_, ty, _) := aux key in
        v_r <- value_deserialize ty r1 ;;
        let '(value, r2) := v_r in
        let sz := sz - (prop_size key + value_size value) in
        let '(table, res) := insert table key value in
        _ <- res ;;
        deserialize_loop fuel' sz table r2
  end.

(** [Parsable::deserialize]; the outer buffer advances by what was read
    through the [take]. *)
Definition deserialize : Decoder Properties := fun buf =>
  n_r <- vbi_deserialize buf ;;
  let '(n, r) := n_r in
  let lim := firstn (Z.to_nat n) r in
  t_r <- deserialize_loop (S (length lim)) n new lim ;;
  let '(table, lim_rest) := t_r in
  Ok (table, skipn (length lim - length lim_rest) r).

(** [Parsable::size]: [VBI::new(self.size as u32).unwrap().size() + size]
    (the [unwrap] holds for tables below 0x0FFFFFFF bytes). *)
Definition props_size (t : Properties) : Z := vbi_size (size t mod 2 ^ 32) + size t.

(** The tables a program can build: [Properties::new], then any sequence
    of [insert] and [checked_insert] calls (whatever their result). *)
Inductive reachable : Properties -> Prop :=
| reachable_new : reachable new
| reachable_insert t key value :
    reachable t -> reachable (fst (insert t key value))
| reachable_checked_insert t key value ty :
    reachable t -> reachable (fst (checked_insert t key value ty)).

End Table.

End Props.

(** ** Quality of service *)
Module Qos.

(** Modelled from the spec: [QoS] ("quality-of-service level 0, 1, or 2")
    is declared in a [qos.rs] that is not part of either crate's sources.
    Its three levels are ordered as their numbers, the order in which
    [topics.rs] compares them with [<]. *)
Inductive QoS : Type := QoS0 | QoS1 | QoS2.

Definition qos_level (q : QoS) : Z :=
  match q with QoS0 => 0 | QoS1 => 1 | QoS2 => 2 end.

Definition qos_ltb (a b : QoS) : bool := qos_level a <? qos_level b.

Definition QoS_eqb (a b : QoS) : bool := qos_level a =? qos_level b.

End Qos.

(** ** The subscription tree ([server-lib/src/topics.rs]) *)
Module Topics.
Import Qos.
Local Open Scope string_scope.

(** [SubscriptionFlags]. *)
Definition NO_LOCAL : Z := 0x1.
Definition RETAIN_AS_PUBLISHED : Z := 0x2.

Record SubscriptionInfo : Type := mkSubscriptionInfo {
  qos : QoS;
  flags : Z
}.

(** A [HashMap<Arc<str>, V>] as an association list with one entry per
    key; [get] and [put] are [HashMap::get] and [HashMap::insert]. *)
Fixpoint get {V : Type} (k : string) (m : list (string * V)) : option V :=
  match m with
  | [] => None
  | (k', v) :: m' => if String.eqb k k' then Some v else get k m'
  end.

Fixpoint put {V : Type} (k : string) (v : V) (m : list (string * V))
  : list (string * V) :=
  match m with
  | [] => [(k, v)]
  | (k', v') :: m' => if String.eqb k k' then (k, v) :: m' else (k', v') :: put k v m'
  end.

#[local] Set Warnings "-register-all".

(** [Block] (with its [BlockInner]). *)
Inductive Block : Type := mkBlock {
  hash_wildcard : list (string * SubscriptionInfo);
  subscribers : list (string * SubscriptionInfo);
  sub_blocks : list (string * Block)
}.

Definition block_new : Block := mkBlock [] [] [].

Definition insert_into_hash (b : Block) (clientid : string) (qos : QoS)
  (flags : Z) : Block :=
  mkBlock (put clientid (mkSubscriptionInfo qos flags) (hash_wildcard b))
          (subscribers b) (sub_blocks b).

Definition insert_into_subs (b : Block) (clientid : string) (qos : QoS)
  (flags : Z) : Block :=
  mkBlock (hash_wildcard b)
          (put clientid (mkSubscriptionInfo qos flags) (subscribers b))
          (sub_blocks b).

Definition create_if_not_existing (b : Block) (subtopic : string) : Block :=
  match get subtopic (sub_blocks b) with
  | Some _ => b
  | None => mkBlock (hash_wildcard b) (subscribers b)
                    (put subtopic block_new (sub_blocks b))
  end.

(** One entry of [collect_hash_wildcard] / [collect_subscribers]: a vacant
    entry is filled, an occupied one is replaced when its QoS is lower. *)
Definition collect_entry (subs : list (string * SubscriptionInfo))
  (entry : string * SubscriptionInfo) : list (string * SubscriptionInfo) :=
  let '(clientid, info) := entry in
  match get clientid subs with
  | None => put clientid info subs
  | Some e => if qos_ltb (qos e) (qos info) then put clientid info subs else subs
  end.

Definition collect (src subs : list (string * SubscriptionInfo))
  : list (string * SubscriptionInfo) :=
  fold_left collect_entry src subs.

(** [Block::visit] with [create = true] and the closure of
    [TopicsTable::topics_add]: the tree after the insertion. *)
Fixpoint topics_add_block (b : Block) (sections : list string)
  (clientid : string) (qos : QoS) (flags : Z) {struct sections} : Block :=
  match sections with
  | [] => insert_into_subs b clientid qos flags
  | section :: rest =>
      if String.eqb section "#" then insert_into_hash b clientid qos flags
      else
        let b := create_if_not_existing b section in
        match get section (sub_blocks b) with
        | Some sub_block =>
            mkBlock (hash_wildcard b) (subscribers b)
              (put section (topics_add_block sub_block rest clientid qos flags)
                   (sub_blocks b))
        | None => b
        end
  end.

(** [Block::collect_subs]. *)
Fixpoint collect_subs (b : Block) (subs : list (string * SubscriptionInfo))
  (sections : list string) {struct sections} : list (string * SubscriptionInfo) :=
  let subs := collect (hash_wildcard b) subs in
  match sections with
  | section :: rest =>
      let subs := match get "+" (sub_blocks b) with
                  | Some sub_block => collect_subs sub_block subs rest
                  | None => subs
                  end in
      match get section (sub_blocks b) with
      | Some sub_block => collect_subs sub_block subs rest
      | None => subs
      end
  | [] => collect (subscribers b) subs
  end.

(** [str::split('/')]: never empty; [""] gives [[""]]. *)
Fixpoint split (s : string) : list string :=
  match s with
  | EmptyString => [EmptyString]
  | String c s' =>
      let r := split s' in
      if Ascii.eqb c "/"%char then EmptyString :: r
      else match r with
           | x :: r' => String c x :: r'
           | [] => [String c EmptyString]
           end
  end.

(** [TopicsTable::topic_to_subtopics]: an empty first section becomes
    ["/"]. *)
Definition topic_to_subtopics (topic : string) : list string :=
  match split topic with
  | first :: rest => (if String.eqb first "" then "/" else first) :: rest
  | [] => []
  end.

Record TopicsTable : Type := mkTopicsTable {
  root_block : Block;
  reverse_index : list (string * list string)
}.

Definition table_new : TopicsTable := mkTopicsTable block_new [].

Definition reverse_index_add (ri : list (string * list string))
  (clientid topic : string) : list (string * list string) :=
  match get clientid ri with
  | Some set => put clientid (if existsb (String.eqb topic) set then set
                              else app set [topic]) ri
  | None => put clientid [topic] ri
  end.

(** [TopicsTable::subscribe]. *)
Definition subscribe (t : TopicsTable) (clientid topic : string) (qos : QoS)
  (flags : Z) : TopicsTable :=
  mkTopicsTable
    (topics_add_block (root_block t) (topic_to_subtopics topic) clientid qos flags)
    (reverse_index_add (reverse_index t) clientid topic).

(** [TopicsTable::get_all_subscribed]. *)
Definition get_all_subscribed (t : TopicsTable) (topic : string)
  : list (string * SubscriptionInfo) :=
  collect_subs (root_block t) [] (topic_to_subtopics topic).

(** [HashMap::remove] (and [HashSet::remove] on a set kept without
    duplicates). *)
Fixpoint remove {V : Type} (k : string) (m : list (string * V)) : list (string * V) :=
  match m with
  | [] => []
  | (k', v) :: m' => if String.eqb k k' then m' else (k', v) :: remove k m'
  end.

Definition remove_from_hash (b : Block) (clientid : string) : Block :=
  mkBlock (remove clientid (hash_wildcard b)) (subscribers b) (sub_blocks b).

Definition remove_from_subs (b : Block) (clientid : string) : Block :=
  mkBlock (hash_wildcard b) (remove clientid (subscribers b)) (sub_blocks b).

(** [Block::visit] with [create = false] and the closure of
    [TopicsTable::topic_remove]: the tree after the removal. *)
Fixpoint topic_remove_block (b : Block) (sections : list string) (clientid : string)
  {struct sections} : Block :=
  match sections with
  | [] => remove_from_subs b clientid
  | section :: rest =>
      if String.eqb section "#" then remove_from_hash b clientid
      else
        match get section (sub_blocks b) with
        | Some sub_block =>
            mkBlock (hash_wildcard b) (subscribers b)
              (put section (topic_remove_block sub_block rest clientid) (sub_blocks b))
        | None => b
        end
  end.

(** [TopicsTable::reverse_index_remove]: the topic leaves the client's
    set, and an emptied set is dropped. *)
Definition reverse_index_remove (ri : list (string * list string))
  (clientid topic : string) : list (string * list string) :=
  match get clientid ri with
  | Some set =>
      let set := filter (fun x => negb (String.eqb topic x)) set in
      let ri := put clientid set ri in
      match set with [] => remove clientid ri | _ :: _ => ri end
  | None => ri
  end.

(** [TopicsTable::unsubscribe]. *)
Definition unsubscribe (t : TopicsTable) (clientid topic : string) : TopicsTable :=
  mkTopicsTable
    (topic_remove_block (root_block t) (topic_to_subtopics topic) clientid)
    (reverse_index_remove (reverse_index t) clientid topic).

(** [TopicsTable::unsubscribe_all]; the [HashSet] is iterated in the
    order of the list that holds it. *)
Definition unsubscribe_all (t : TopicsTable) (clientid : string) : TopicsTable :=
  match get clientid (reverse_index t) with
  | Some topics =>
      mkTopicsTable
        (fold_left (fun b topic => topic_remove_block b (topic_to_subtopics topic) clientid)
           topics (root_block t))
        (remove clientid (reverse_index t))
  | None => t
  end.

End Topics.

(** ** Topic names and filters ([packet/src/topic.rs]) *)
Module Topic.
Local Open Scope char_scope.

(** The loop of [is_valid_topic]; [prev] starts as ['/']. *)
Fixpoint is_valid_topic_loop (prev : ascii) (s : string) : bool :=
  match s with
  | EmptyString => true
  | String c rest =>
      if Ascii.eqb c "#" then
        if negb (Ascii.eqb prev "/") || negb (String.eqb rest EmptyString)
        then false else is_valid_topic_loop c rest
      else if Ascii.eqb c "+" then
        let next := match rest with String n _ => n | EmptyString => "/" end in
        if negb (Ascii.eqb prev "/") || negb (Ascii.eqb next "/")
        then false else is_valid_topic_loop c rest
      else is_valid_topic_loop c rest
  end.

Definition is_valid_topic (topic : string) : bool := is_valid_topic_loop "/" topic.

(** The bytes of a Rust [str] held in a [string]. *)
Definition bytes_of (s : string) : list Z :=
  map (fun c => Z.of_N (N_of_ascii c)) (list_ascii_of_string s).

(** [MqttTopic::new]. *)
Definition topic_new (topic : string) : result string :=
  if negb (is_valid_topic topic) then Err BadTopic
  else _ <- Wire.utf8_new (bytes_of topic) ;; Ok topic.

End Topic.

(** ** SUBSCRIBE options ([packet/src/subscribe.rs]) *)
Module Subscribe.
Import Qos.

(** [SubscriptionOptions]. *)
Definition QOS1 : Z := 0x1.
Definition QOS2 : Z := 0x2.
Definition NO_LOCAL : Z := 0x4.
Definition RETAIN_AS_PUBLISHED : Z := 0x8.
Definition RETAIN_HANDLING1 : Z := 0x10.
Definition RETAIN_HANDLING2 : Z := 0x20.

Inductive RetainHandling : Type := Send | SendIfNotExisting | DoNotSend.

Definition contains (flags bits : Z) : bool := Z.land flags bits =? bits.

(** [TryInto<QoS> for SubscriptionOptions]. *)
Definition options_qos (o : Z) : result QoS :=
  if contains o (Z.lor QOS1 QOS2) then Err BadQoS
  else let q := Z.land o (Z.lor QOS1 QOS2) in
       if q =? QOS1 then Ok QoS1 else if q =? QOS2 then Ok QoS2 else Ok QoS0.

(** [TryInto<RetainHandling> for SubscriptionOptions]. *)
Definition options_retain_handling (o : Z) : result RetainHandling :=
  if contains o (Z.lor RETAIN_HANDLING1 RETAIN_HANDLING2) then Err BadRetainHandle
  else let r := Z.land o (Z.lor RETAIN_HANDLING1 RETAIN_HANDLING2) in
       if r =? RETAIN_HANDLING1 then Ok SendIfNotExisting
       else if r =? RETAIN_HANDLING2 then Ok DoNotSend else Ok Send.

(** [Parsable::deserialize for SubscriptionOptions]: [from_bits] refuses
    the undeclared bits 6 and 7. *)
Definition options_deserialize : Decoder Z := fun buf =>
  raw_r <- Wire.deserialize_one buf ;;
  let '(raw, r) := raw_r in
  if negb (Z.land raw 0x3F =? raw) then Err BadConnectMessage
  else _ <- options_qos raw ;; _ <- options_retain_handling raw ;; Ok (raw, r).

(** [Subscribe] (the fields the dispatcher reads). *)
Record SubscribePacket : Type := mkSubscribe {
  packet_identifier : Z;
  sub_props : list (Props.Property * Props.MqttPropValue);
  topics : list (string * Z)
}.

(** [Subscribe::new] and [Subscribe::add_topic]. *)
Definition subscribe_new (id : Z) : SubscribePacket := mkSubscribe id [] [].

Definition add_topic (s : SubscribePacket) (topic : string) (options : Z)
  : result SubscribePacket :=
  _ <- options_qos options ;;
  _ <- options_retain_handling options ;;
  t <- Topic.topic_new topic ;;
  Ok (mkSubscribe (packet_identifier s) (sub_props s) (app (topics s) [(t, options)])).

End Subscribe.

(** ** The dispatcher ([server-lib/src/dispatcher.rs]) *)
Module Dispatch.
Import Qos Props Subscribe.

(** Modelled from the spec: [ServerError] is declared in an [error.rs]
    that is not part of the sources; the spec gives it a [Misc] message
    variant and a conversion from [DataParseError] used by [?]. *)
Inductive ServerError : Type :=
| Misc (msg : string)
| Parse (e : DataParseError).

(** Modelled from the spec: the [Publish] of the packet crate is not part
    of the sources.  It carries the fixed-header flags (RETAIN = 1,
    QOS1 = 2, QOS2 = 4, DUP = 8, as in the sibling crate), a topic name, a
    payload and its properties in iteration order. *)
Record Publish : Type := mkPublish {
  pub_flags : Z;
  topic_name : string;
  payload : list Z;
  pub_props : list (Property * MqttPropValue)
}.

Definition PUB_RETAIN : Z := 0x1.
Definition PUB_QOS1 : Z := 0x2.
Definition PUB_QOS2 : Z := 0x4.
Definition PUB_DUP : Z := 0x8.

(** [Publish::qos]; the flags of a constructed [Publish] never hold both
    QoS bits. *)
Definition pub_qos (p : Publish) : QoS :=
  let q := Z.land (pub_flags p) (Z.lor PUB_QOS1 PUB_QOS2) in
  if q =? PUB_QOS1 then QoS1 else if q =? PUB_QOS2 then QoS2 else QoS0.

(** [SubAckReasonCode] and [DisconnectReasonCode] values used here. *)
Definition GrantedQoS0 : Z := 0x00.
Definition GrantedQoS1 : Z := 0x01.
Definition GrantedQoS2 : Z := 0x02.
Definition ImplementationSpecificError : Z := 0x83.

(** Packets the dispatcher hands to a client's channel. *)
Inductive OutPacket : Type :=
| ODisconnect (reason : Z)
| OSubAck (packet_identifier : Z) (reason_codes : list Z)
| OPublish (topic : string) (payload : list Z)
    (props : list (Property * MqttPropValue)).

(** The dispatcher's state: the subscription index, the directory of
    connected clients (with [Client::encrypted]) and the packets sent so
    far, oldest first. *)
Record Dispatcher : Type := mkDispatcher {
  topics_table : Topics.TopicsTable;
  clients : list (string * bool);
  sent : list (string * OutPacket)
}.

(** How a call ends: it returns (with [None] for [Ok(())]) or the task
    panics. *)
Inductive Outcome : Type :=
| Returned (d : Dispatcher) (r : option ServerError)
| Panicked.

(** [Client::send]; a closed channel only makes the dispatcher log. *)
Definition send (d : Dispatcher) (target : string) (p : OutPacket) : Dispatcher :=
  mkDispatcher (topics_table d) (clients d) (app (sent d) [(target, p)]).

Definition set_topics (d : Dispatcher) (t : Topics.TopicsTable) : Dispatcher :=
  mkDispatcher t (clients d) (sent d).

(** [Dispatcher::unimplemented]: [clients.get(client).unwrap()]. *)
Definition unimplemented (d : Dispatcher) (client : string) : Outcome :=
  match Topics.get client (clients d) with
  | None => Panicked
  | Some _ => Returned (send d client (ODisconnect ImplementationSpecificError))
                       (Some (Misc "Unimplemented"%string))
  end.

(** The property loop of [process_publish]: [None] when a property calls
    [unimplemented], otherwise the properties copied into the response
    (each already held once by the incoming table, so [add_prop]
    succeeds). *)
Fixpoint forward_props (ps : list (Property * MqttPropValue))
  : option (list (Property * MqttPropValue)) :=
  match ps with
  | [] => Some []
  | (k, v) :: ps' =>
      match k with
      | MessageExpiryInterval | TopicAlias | SubscriptionIdentifier => None
      | PayloadFormatIndicator | ResponseTopic | CorrelationData
      | UserProperty | ContentType =>
          option_map (cons (k, v)) (forward_props ps')
      | _ => forward_props ps'
      end
  end.

(** The delivery loop of [process_publish]. *)
Fixpoint deliver (d : Dispatcher) (client : string) (strict_encryption : bool)
  (resp : OutPacket) (targets : list (string * Topics.SubscriptionInfo))
  : Outcome :=
  match targets with
  | [] => Returned d None
  | (target, info) :: rest =>
      if String.eqb target client
         && contains (Topics.flags info) Topics.NO_LOCAL
      then deliver d client strict_encryption resp rest
      else if contains (Topics.flags info) Topics.RETAIN_AS_PUBLISHED then Panicked
      else match Topics.get target (clients d) with
           | Some encrypted =>
               if strict_encryption && negb encrypted
               then deliver d client strict_encryption resp rest
               else match Topics.qos info with
                    | QoS0 => deliver (send d target resp) client strict_encryption resp rest
                    | _ => Panicked
                    end
           | None => deliver d client strict_encryption resp rest
           end
  end.

(** [Dispatcher::process_publish]; [noise] is the cargo feature and
    [strict] is [cfg.channel_permeability == Permeability::Strict]. *)
Definition process_publish (noise strict : bool) (d : Dispatcher)
  (client : string) (publish : Publish) : Outcome :=
  let pre := if noise then
               match Topics.get client (clients d) with
               | Some c => Some (c && strict)
               | None => None
               end
             else Some false in
  match pre with
  | None => Returned d None
  | Some strict_encryption =>
      match pub_qos publish with
      | QoS1 | QoS2 => unimplemented d client
      | QoS0 =>
          if negb (Z.land (pub_flags publish) (Z.lor PUB_DUP PUB_RETAIN) =? 0)
          then unimplemented d client
          else match forward_props (pub_props publish) with
               | None => unimplemented d client
               | Some ps =>
                   let resp := OPublish (topic_name publish) (payload publish) ps in
                   deliver d client strict_encryption resp
                     (Topics.get_all_subscribed (topics_table d) (topic_name publish))
               end
      end
  end.

(** The [SubscriptionFlags] derived from the options. *)
Definition subscription_flags (options : Z) : Z :=
  Z.lor (if contains options NO_LOCAL then Topics.NO_LOCAL else 0)
        (if contains options RETAIN_AS_PUBLISHED then Topics.RETAIN_AS_PUBLISHED else 0).

Definition granted (q : QoS) : Z :=
  match q with QoS0 => GrantedQoS0 | QoS1 => GrantedQoS1 | QoS2 => GrantedQoS2 end.

(** The topic loop of [process_subscribe]: the index and the reason codes
    so far, or the error of a [?] together with the index as it stands. *)
Fixpoint subscribe_topics (t : Topics.TopicsTable) (client : string)
  (codes : list Z) (entries : list (string * Z))
  : (Topics.TopicsTable * list Z) + (Topics.TopicsTable * DataParseError) :=
  match entries with
  | [] => inl (t, codes)
  | (topic, options) :: rest =>
      match options_qos options with
      | Err e => inr (t, e)
      | Ok qos =>
          match qos with
          | QoS0 =>
              match options_retain_handling options with
              | Err e => inr (t, e)
              | Ok DoNotSend =>
                  let t := Topics.subscribe t client topic qos (subscription_flags options) in
                  subscribe_topics t client (app codes [granted qos]) rest
              | Ok _ =>
                  subscribe_topics t client (app codes [ImplementationSpecificError]) rest
              end
          | _ => subscribe_topics t client (app codes [ImplementationSpecificError]) rest
          end
      end
  end.

(** [Dispatcher::process_subscribe]. *)
Definition process_subscribe (d : Dispatcher) (client : string)
  (sub : SubscribePacket) : Outcome :=
  if existsb (fun kv => Property_beq (fst kv) SubscriptionIdentifier) (sub_props sub)
  then unimplemented d client
  else match subscribe_topics (topics_table d) client [] (topics sub) with
       | inr (t, e) => Returned (set_topics d t) (Some (Parse e))
       | inl (t, codes) =>
           let d := set_topics d t in
           match Topics.get client (clients d) with
           | Some _ => Returned (send d client (OSubAck (packet_identifier sub) codes)) None
           | None => Returned d None
           end
       end.

(** A dispatcher with two unencrypted clients [c] and [d] and an empty
    index. *)
Definition two_clients : Dispatcher :=
  mkDispatcher Topics.table_new [("c"%string, false); ("d"%string, false)] [].

(** The options a SUBSCRIBE entry needs for the dispatcher to take it:
    QoS 0 and retain handling DoNotSend. *)
Definition accepted_options (o : Z) : bool :=
  (Z.land o 3 =? 0) && (Z.land o 0x30 =? RETAIN_HANDLING2).

(** The index after the accepted entries of a SUBSCRIBE, in order. *)
Definition accepted_index (t : Topics.TopicsTable) (client : string)
  (entries : list (string * Z)) : Topics.TopicsTable :=
  fold_left (fun t e => if accepted_options (snd e)
                        then Topics.subscribe t client (fst e) QoS0 (subscription_flags (snd e))
                        else t) entries t.

(** The SUBACK reason codes for the entries of a SUBSCRIBE, in order. *)
Definition accepted_codes (entries : list (string * Z)) : list Z :=
  map (fun e => if accepted_options (snd e) then GrantedQoS0
                else ImplementationSpecificError) entries.

End Dispatch.

(** ** Filter matching as the spec states it *)
Module TopicsSpec.
Import Qos Topics.
Local Open Scope string_scope.

(** MQTT filter levels against topic levels: ["+"] matches one level,
    ["#"] matches the rest of the topic (including no level), any other
    level matches itself. *)
Fixpoint levels_match (f t : list string) : bool :=
  match f with
  | [] => match t with [] => true | _ :: _ => false end
  | fl :: fr =>
      if String.eqb fl "#" then true
      else match t with
           | [] => false
           | tl :: tr => (String.eqb fl "+" || String.eqb fl tl) && levels_match fr tr
           end
  end.

Definition filter_matches (filter topic : string) : bool :=
  levels_match (split filter) (split topic).

(** A level list where ["#"] can only be the last level. *)
Fixpoint hash_last (l : list string) : bool :=
  match l with
  | [] => true
  | x :: r => (negb (String.eqb x "#") || match r with [] => true | _ => false end)
              && hash_last r
  end.

(** A sequence of [TopicsTable::subscribe] calls, oldest first:
    (client id, filter, subscription info). *)
Definition subscribe_all (subs : list (string * string * SubscriptionInfo))
  : TopicsTable :=
  fold_left (fun t s => let '(c, f, i) := s in subscribe t c f (qos i) (flags i))
            subs table_new.

(** The subscription a client holds for a filter after the sequence: the
    last one made, if any. *)
Definition latest (subs : list (string * string * SubscriptionInfo))
  (c f : string) : option SubscriptionInfo :=
  fold_left (fun o s => let '(c', f', i) := s in
                        if String.eqb c' c && String.eqb f' f then Some i else o)
            subs None.

(** Where [topics_add_block] stores a subscription for a level list: the
    path of sub-blocks, and whether it goes into [hash_wildcard]. *)
Fixpoint target (l : list string) : list string * bool :=
  match l with
  | [] => ([], false)
  | x :: r => if String.eqb x "#" then ([], true)
              else let '(p, h) := target r in (x :: p, h)
  end.

(** The subscriptions a tree holds at a path. *)
Fixpoint stored (b : Block) (p : list string) (h : bool)
  : list (string * SubscriptionInfo) :=
  match p with
  | [] => if h then hash_wildcard b else subscribers b
  | x :: r => match get x (sub_blocks b) with
              | Some b' => stored b' r h
              | None => []
              end
  end.

(** The entries [collect_subs] merges, in the order it merges them. *)
Fixpoint reach (b : Block) (sections : list string)
  : list (string * SubscriptionInfo) :=
  app (hash_wildcard b)
    match sections with
    | s :: rest =>
        app (match get "+" (sub_blocks b) with Some sb => reach sb rest | None => [] end)
            (match get s (sub_blocks b) with Some sb => reach sb rest | None => [] end)
    | [] => subscribers b
    end.

(** Whether a storage place is visited for the topic levels. *)
Fixpoint slot_matches (p : list string) (h : bool) (t : list string) : bool :=
  match p with
  | [] => if h then true else match t with [] => true | _ :: _ => false end
  | x :: r => match t with
              | [] => false
              | y :: t' => (String.eqb x "+" || String.eqb x y) && slot_matches r h t'
              end
  end.

(** [split] inverted. *)
Fixpoint join (l : list string) : string :=
  match l with
  | [] => ""
  | [x] => x
  | x :: r => x ++ "/" ++ join r
  end.

(** Equality of storage places is decidable. *)
Definition slot_eq_dec (a b : list string * bool) : {a = b} + {a <> b}.
Proof. decide equality; [apply bool_dec | apply list_eq_dec, string_dec]. Defined.

(** One [subscribe] call seen from one storage place. *)
Definition store_step (p : list string) (h : bool)
  (acc : list (string * SubscriptionInfo)) (s : string * string * SubscriptionInfo)
  : list (string * SubscriptionInfo) :=
  let '(c, f, i) := s in
  if slot_eq_dec (p, h) (target (topic_to_subtopics f)) then put c i acc else acc.

End TopicsSpec.

(** ** Packet framing ([packet/src/packet.rs] and the packet bodies) *)
Module Packets.
Import Wire Props.

(** What [serialize] leaves in the output buffer: everything written
    ([Ok(())]), what was written before a [?] returned [Err e], or a
    panic ([expect], [unwrap]). *)
Inductive written : Type :=
| Written (out : list Z)
| Failed (out : list Z) (e : DataParseError)
| SerPanic.

(** Bytes already in the buffer stay there, whatever comes next. *)
Definition after (out : list Z) (w : written) : written :=
  match w with
  | Written o => Written (out ++ o)
  | Failed o e => Failed (out ++ o) e
  | SerPanic => SerPanic
  end.

(** Statement sequencing: the second step runs only if the first
    returned normally. *)
Definition wseq (w k : written) : written :=
  match w with
  | Written o => after o k
  | Failed o e => Failed o e
  | SerPanic => SerPanic
  end.

Notation "a ;;; b" := (wseq a b) (at level 62, right associativity).

(** [buf.put_*]: appends bytes. *)
Definition put (bs : list Z) : written := Written bs.

(** [let x = r?;] *)
Definition try_ {A : Type} (r : result A) (k : A -> written) : written :=
  match r with Ok a => k a | Err e => Failed [] e end.

(** [let x = r.expect(..);] *)
Definition expect {A : Type} (r : result A) (k : A -> written) : written :=
  match r with Ok a => k a | Err _ => SerPanic end.

(** A size computed with an inner [unwrap]: [None] is the panic. *)
Definition with_size (o : option Z) (k : Z -> written) : written :=
  match o with Some n => k n | None => SerPanic end.

(** [Properties::size]: [VBI::new(self.size as u32).unwrap().size() + self.size]. *)
Definition props_size_checked (t : Properties) : option Z :=
  match vbi_new (size t mod 2 ^ 32) with
  | Ok v => Some (vbi_size v + size t)
  | Err _ => None
  end.

(** [self.props.serialize(buf)?] *)
Definition props_put_q (t : Properties) : written :=
  match Props.serialize t with Ok bs => Written bs | Err e => Failed [] e end.

(** [self.props.serialize(buf);] in an [MqttSerialize] body: the result is
    dropped ([Properties::serialize] fails before writing anything). *)
Definition props_put (t : Properties) : written :=
  match Props.serialize t with Ok bs => Written bs | Err _ => Written [] end.

(** The [size()] of a body: [VBI::new(size as u32).unwrap().size() + size]. *)
Definition framed_size (partial : option Z) : option Z :=
  match partial with
  | Some n =>
      match vbi_new (n mod 2 ^ 32) with
      | Ok v => Some (vbi_size v + n)
      | Err _ => None
      end
  | None => None
  end.

(** *** Acknowledgements: [PubAck], [PubRec], [PubRel], [PubComp]
    (same fields: packet identifier, one-byte reason code, properties). *)
Record Ack : Type := mkAck {
  ack_id : Z;
  ack_reason : Z;
  ack_props : Properties
}.

Definition ack_partial_size (p : Ack) : option Z :=
  option_map (fun ps => 2 + 1 + ps) (props_size_checked (ack_props p)).

(** [MqttSerialize for PubAck] (also [PubRel], [PubComp]). *)
Definition ack_serialize (p : Ack) : written :=
  with_size (ack_partial_size p) (fun n =>
  expect (vbi_new (n mod 2 ^ 32)) (fun length =>
  put (vbi_serialize length) ;;;
  put (put_u16 (ack_id p)) ;;;
  put (put_u8 (ack_reason p)) ;;;
  props_put (ack_props p))).

(** [Parsable for PubRec]. *)
Definition pubrec_serialize (p : Ack) : written :=
  with_size (ack_partial_size p) (fun n =>
  try_ (vbi_new (n mod 2 ^ 32)) (fun length =>
  put (vbi_serialize length) ;;;
  put (put_u16 (ack_id p)) ;;;
  put (put_u8 (ack_reason p)) ;;;
  props_put_q (ack_props p))).

(** *** [Auth] and [Disconnect]: reason code and properties. *)
Record ReasonProps : Type := mkReasonProps {
  rp_reason : Z;
  rp_props : Properties
}.

Definition rp_partial_size (p : ReasonProps) : option Z :=
  option_map (fun ps => 1 + ps) (props_size_checked (rp_props p)).

Definition rp_serialize (p : ReasonProps) : written :=
  with_size (rp_partial_size p) (fun n =>
  expect (vbi_new (n mod 2 ^ 32)) (fun length =>
  put (vbi_serialize length) ;;;
  put (put_u8 (rp_reason p)) ;;;
  props_put (rp_props p))).

(** *** [ConnAck]: flags, reason code, properties. *)
Record ConnAck : Type := mkConnAck {
  connack_flags : Z;
  connack_reason : Z;
  connack_props : Properties
}.

Definition connack_partial_size (p : ConnAck) : option Z :=
  option_map (fun ps => 1 + 1 + ps) (props_size_checked (connack_props p)).

Definition connack_serialize (p : ConnAck) : written :=
  with_size (connack_partial_size p) (fun n =>
  expect (vbi_new (n mod 2 ^ 32)) (fun length =>
  put (vbi_serialize length) ;;;
  put (put_u8 (connack_flags p)) ;;;
  put (put_u8 (connack_reason p)) ;;;
  props_put (connack_props p))).

(** *** [SubAck] and [UnsubAck]: identifier, properties, reason codes. *)
Record Codes : Type := mkCodes {
  codes_id : Z;
  codes_props : Properties;
  reason_codes : list Z
}.

Definition codes_partial_size (p : Codes) : option Z :=
  option_map (fun ps => 2 + ps + Z.of_nat (length (reason_codes p)))
             (props_size_checked (codes_props p)).

(** [Parsable for SubAck]. *)
Definition suback_serialize (p : Codes) : written :=
  with_size (codes_partial_size p) (fun n =>
  try_ (vbi_new (n mod 2 ^ 32)) (fun length =>
  put (vbi_serialize length) ;;;
  put (put_u16 (codes_id p)) ;;;
  props_put_q (codes_props p) ;;;
  put (flat_map put_u8 (reason_codes p)))).

(** [MqttSerialize for UnsubAck]. *)
Definition unsuback_serialize (p : Codes) : written :=
  with_size (codes_partial_size p) (fun n =>
  expect (vbi_new (n mod 2 ^ 32)) (fun length =>
  put (vbi_serialize length) ;;;
  put (put_u16 (codes_id p)) ;;;
  props_put (codes_props p) ;;;
  put (flat_map put_u8 (reason_codes p)))).
(** *** [Subscribe]: identifier, properties, (topic filter, options)
    entries.  A topic is the bytes of its [MqttTopic]. *)
Record SubscribeP : Type := mkSubscribeP {
  sub_id : Z;
  sub_props : Properties;
  sub_topics : list (list Z * Z)
}.

Definition subscribe_partial_size (p : SubscribeP) : option Z :=
  option_map (fun ps => 2 + ps +
    fold_right (fun kv acc => utf8_size (fst kv) + 1 + acc) 0 (sub_topics p))
    (props_size_checked (sub_props p)).

(** [Parsable for Subscribe]. *)
Definition subscribe_serialize (p : SubscribeP) : written :=
  with_size (subscribe_partial_size p) (fun n =>
  try_ (vbi_new (n mod 2 ^ 32)) (fun length =>
  put (vbi_serialize length) ;;;
  put (put_u16 (sub_id p)) ;;;
  props_put_q (sub_props p) ;;;
  put (flat_map (fun kv => utf8_serialize (fst kv) ++ put_u8 (snd kv))
                (sub_topics p)))).

(** *** [Unsubscribe]: identifier, properties, topic filters. *)
Record Unsubscribe : Type := mkUnsubscribe {
  unsub_id : Z;
  unsub_props : Properties;
  unsub_topics : list (list Z)
}.

Definition unsubscribe_partial_size (p : Unsubscribe) : option Z :=
  option_map (fun ps => 2 + ps +
    fold_right (fun t acc => utf8_size t + acc) 0 (unsub_topics p))
    (props_size_checked (unsub_props p)).

(** [Parsable for Unsubscribe]. *)
Definition unsubscribe_serialize (p : Unsubscribe) : written :=
  with_size (unsubscribe_partial_size p) (fun n =>
  try_ (vbi_new (n mod 2 ^ 32)) (fun length =>
  put (vbi_serialize length) ;;;
  put (put_u16 (unsub_id p)) ;;;
  props_put_q (unsub_props p) ;;;
  put (flat_map utf8_serialize (unsub_topics p)))).

(** *** [Ping]: writes the remaining length 0; [fixed_size] is 1. *)
Definition ping_serialize : written := put (put_u8 0).

(** *** CONNECT (Modelled from the spec: [packet/src/connect.rs] is not
    part of the sources.)  Section 4.2: protocol name, version 5, connect
    flags, keep-alive, properties, then client id, the will (properties,
    topic, payload), user name and password when present.  Like the
    other [Parsable] bodies it computes its partial size, writes the
    length with [?], then the fields. *)
Record ConnectP : Type := mkConnectP {
  connect_flags : Z;
  keep_alive : Z;
  connect_props : Properties;
  clientid : list Z;
  will : option (Properties * list Z * list Z);
  username : option (list Z);
  password : option (list Z)
}.

(** ["MQTT"] *)
Definition protocol_name : list Z := [77; 81; 84; 84].

Definition opt_size {A : Type} (f : A -> Z) (o : option A) : Z :=
  match o with Some a => f a | None => 0 end.

Definition opt_bytes {A : Type} (f : A -> list Z) (o : option A) : list Z :=
  match o with Some a => f a | None => [] end.

Definition will_size (w : option (Properties * list Z * list Z)) : option Z :=
  match w with
  | None => Some 0
  | Some (wp, topic, payload) =>
      option_map (fun ps => ps + utf8_size topic + binary_size payload)
                 (props_size_checked wp)
  end.

Definition connect_partial_size (c : ConnectP) : option Z :=
  match props_size_checked (connect_props c), will_size (will c) with
  | Some ps, Some ws =>
      Some (utf8_size protocol_name + 1 + 1 + 2 + ps + utf8_size (clientid c)
            + ws + opt_size utf8_size (username c)
            + opt_size binary_size (password c))
  | _, _ => None
  end.

Definition will_put (w : option (Properties * list Z * list Z)) : written :=
  match w with
  | None => put []
  | Some (wp, topic, payload) =>
      props_put_q wp ;;; put (utf8_serialize topic) ;;;
      put (binary_serialize payload)
  end.

Definition connect_serialize (c : ConnectP) : written :=
  with_size (connect_partial_size c) (fun n =>
  try_ (vbi_new (n mod 2 ^ 32)) (fun length =>
  put (vbi_serialize length) ;;;
  put (utf8_serialize protocol_name) ;;;
  put (put_u8 5) ;;;
  put (put_u8 (connect_flags c)) ;;;
  put (put_u16 (keep_alive c)) ;;;
  props_put_q (connect_props c) ;;;
  put (utf8_serialize (clientid c)) ;;;
  will_put (will c) ;;;
  put (opt_bytes utf8_serialize (username c)) ;;;
  put (opt_bytes binary_serialize (password c)))).

(** *** PUBLISH (Modelled from the spec: [packet/src/publish.rs] is not
    part of the sources.)  Flags in the first byte; topic name, packet
    identifier when QoS > 0, properties, payload. *)
Record PublishP : Type := mkPublishP {
  pub_flags : Z;
  topic_name : list Z;
  pub_id : option Z;
  pub_props : Properties;
  payload : list Z
}.

Definition publish_partial_size (p : PublishP) : option Z :=
  option_map (fun ps => utf8_size (topic_name p) + opt_size (fun _ => 2) (pub_id p)
                        + ps + Z.of_nat (length (payload p)))
             (props_size_checked (pub_props p)).

Definition publish_serialize (p : PublishP) : written :=
  with_size (publish_partial_size p) (fun n =>
  try_ (vbi_new (n mod 2 ^ 32)) (fun length =>
  put (vbi_serialize length) ;;;
  put (utf8_serialize (topic_name p)) ;;;
  put (opt_bytes put_u16 (pub_id p)) ;;;
  props_put_q (pub_props p) ;;;
  put (payload p))).
(** *** [enum Packet] *)
Inductive Packet : Type :=
| PConnect (p : ConnectP)
| PConnAck (p : ConnAck)
| PPublish (p : PublishP)
| PPubAck (p : Ack)
| PPubRec (p : Ack)
| PPubRel (p : Ack)
| PPubComp (p : Ack)
| PSubscribe (p : SubscribeP)
| PSubAck (p : Codes)
| PUnsubscribe (p : Unsubscribe)
| PUnsubAck (p : Codes)
| PPingReq
| PPingRes
| PDisconnect (p : ReasonProps)
| PAuth (p : ReasonProps).

(** [((PacketType::X as u8) << 4) | fixed_flags] (the flags of the
    packet for PUBLISH). *)
Definition first_byte (p : Packet) : Z :=
  match p with
  | PConnect _ => Z.lor (Z.shiftl 1 4) 0
  | PConnAck _ => Z.lor (Z.shiftl 2 4) 0
  | PPublish q => Z.lor (Z.shiftl 3 4) (pub_flags q)
  | PPubAck _ => Z.lor (Z.shiftl 4 4) 0
  | PPubRec _ => Z.lor (Z.shiftl 5 4) 0
  | PPubRel _ => Z.lor (Z.shiftl 6 4) 2
  | PPubComp _ => Z.lor (Z.shiftl 7 4) 0
  | PSubscribe _ => Z.lor (Z.shiftl 8 4) 2
  | PSubAck _ => Z.lor (Z.shiftl 9 4) 0
  | PUnsubscribe _ => Z.lor (Z.shiftl 10 4) 2
  | PUnsubAck _ => Z.lor (Z.shiftl 11 4) 0
  | PPingReq => Z.lor (Z.shiftl 12 4) 0
  | PPingRes => Z.lor (Z.shiftl 13 4) 0
  | PDisconnect _ => Z.lor (Z.shiftl 14 4) 0
  | PAuth _ => Z.lor (Z.shiftl 15 4) 0
  end.

(** [Parsable::serialize for Packet]: the first byte, then the body. *)
Definition serialize (p : Packet) : written :=
  put (put_u8 (first_byte p)) ;;;
  match p with
  | PConnect c => connect_serialize c
  | PConnAck c => connack_serialize c
  | PPublish q => publish_serialize q
  | PPubAck a => ack_serialize a
  | PPubRec a => pubrec_serialize a
  | PPubRel a => ack_serialize a
  | PPubComp a => ack_serialize a
  | PSubscribe s => subscribe_serialize s
  | PSubAck c => suback_serialize c
  | PUnsubscribe u => unsubscribe_serialize u
  | PUnsubAck c => unsuback_serialize c
  | PPingReq | PPingRes => ping_serialize
  | PDisconnect r => rp_serialize r
  | PAuth r => rp_serialize r
  end.

(** [Parsable::size for Packet]: [1 + p.size()]. *)
Definition packet_size (p : Packet) : option Z :=
  option_map (Z.add 1)
  match p with
  | PConnect c => framed_size (connect_partial_size c)
  | PConnAck c => framed_size (connack_partial_size c)
  | PPublish q => framed_size (publish_partial_size q)
  | PPubAck a | PPubRec a | PPubRel a | PPubComp a => framed_size (ack_partial_size a)
  | PSubscribe s => framed_size (subscribe_partial_size s)
  | PSubAck c | PUnsubAck c => framed_size (codes_partial_size c)
  | PUnsubscribe u => framed_size (unsubscribe_partial_size u)
  | PPingReq | PPingRes => Some 1
  | PDisconnect r | PAuth r => framed_size (rp_partial_size r)
  end.

(** The remaining length a packet announces: its [partial_size] (a PING
    has no body, so 0). *)
Definition partial_size (p : Packet) : option Z :=
  match p with
  | PConnect c => connect_partial_size c
  | PConnAck c => connack_partial_size c
  | PPublish q => publish_partial_size q
  | PPubAck a | PPubRec a | PPubRel a | PPubComp a => ack_partial_size a
  | PSubscribe s => subscribe_partial_size s
  | PSubAck c | PUnsubAck c => codes_partial_size c
  | PUnsubscribe u => unsubscribe_partial_size u
  | PPingReq | PPingRes => Some 0
  | PDisconnect r | PAuth r => rp_partial_size r
  end.

(** Property values a program can build: an [MqttVariableBytesInt] only
    exists through [MqttVariableBytesInt::new], so it is at most
    0x0FFFFFFF. *)
Definition value_ok (v : MqttPropValue) : Prop :=
  match v with
  | VVarInt x => 0 <= x <= 0xfffffff
  | _ => True
  end.

(** The property tables a program can build: [Properties::new], then
    [insert] or [checked_insert] (through [add_prop]) of buildable
    values. *)
Inductive built : Properties -> Prop :=
| built_new : built new
| built_insert t key value :
    built t -> value_ok value -> built (fst (insert auxiliary_data t key value))
| built_checked_insert t key value ty :
    built t -> value_ok value ->
    built (fst (checked_insert auxiliary_data t key value ty)).

(** Every property table of the packet is buildable. *)
Definition packet_ok (p : Packet) : Prop :=
  match p with
  | PConnect c =>
      built (connect_props c) /\
      match will c with Some (wp, _, _) => built wp | None => True end
  | PConnAck c => built (connack_props c)
  | PPublish q => built (pub_props q)
  | PPubAck a | PPubRec a | PPubRel a | PPubComp a => built (ack_props a)
  | PSubscribe s => built (sub_props s)
  | PSubAck c | PUnsubAck c => built (codes_props c)
  | PUnsubscribe u => built (unsub_props u)
  | PPingReq | PPingRes => True
  | PDisconnect r | PAuth r => built (rp_props r)
  end.

(** *** Size accounting *)

(** The bytes that the entries of a key take in the table. *)
Definition entry_size (k : Property) (vs : list MqttPropValue) : Z :=
  fold_right (fun v acc => prop_size k + value_size v + acc) 0 vs.

Definition table_size (m : list (Property * list MqttPropValue)) : Z :=
  fold_right (fun kv acc => entry_size (fst kv) (snd kv) + acc) 0 m.

(** What [insert] keeps true: [size] counts every stored entry, stored
    values are buildable, and a single-valued key holds one value. *)
Definition table_inv (t : Properties) : Prop :=
  size t = table_size (props t) /\
  Forall (fun kv => Forall value_ok (snd kv)) (props t) /\
  Forall (fun kv => snd (auxiliary_data (fst kv)) = false ->
                    (length (snd kv) <= 1)%nat) (props t).

(** [w] completes and writes [n] bytes. *)
Definition wlen (w : written) (n : Z) : Prop :=
  exists bs, w = Written bs /\ Z.of_nat (length bs) = n.

(** A body serializer [K] with announced length [sz] frames correctly:
    within the VBI range it writes the length and then exactly that many
    bytes; between 0x0FFFFFFF and 2^32 it does not complete. *)
Definition kind_ok (K : written) (sz : option Z) : Prop :=
  forall n, sz = Some n ->
    0 <= n /\
    (n <= 0xfffffff ->
     exists body, K = Written (vbi_serialize n ++ body) /\ Z.of_nat (length body) = n) /\
    (0xfffffff < n < 2 ^ 32 -> forall out, K <> Written out).

End Packets.

(** ** The CONNECT decoder ([apiformes/src/packets/connect.rs]) *)
Module ConnectDecode.
Import Wire.

(** [ConnectFlags] bits; bit 0 is not declared. *)
Definition CLEAN_START : Z := 0x02.
Definition WILL : Z := 0x04.
Definition WILL_QOS1 : Z := 0x08.
Definition WILL_QOS2 : Z := 0x10.
Definition WILL_RETAIN : Z := 0x20.
Definition PASSWORD : Z := 0x40.
Definition USERNAME : Z := 0x80.
Definition all_bits : Z := 0xFE.

(** [bitflags]' [contains] and [intersects]. *)
Definition contains (f m : Z) : bool := Z.land f m =? m.
Definition intersects (f m : Z) : bool := negb (Z.land f m =? 0).

(** [ConnectFlags::from_bits]: [None] when an undeclared bit is set. *)
Definition from_bits (raw : Z) : option Z :=
  if Z.land raw (Z.lxor 0xFF all_bits) =? 0 then Some raw else None.

(** [TryInto<QoS> for ConnectFlags], as far as its error goes. *)
Definition flags_qos (f : Z) : result unit :=
  if contains f (Z.lor WILL_QOS1 WILL_QOS2) then Err BadQoS else Ok tt.

(** [Parsable::deserialize for ConnectFlags]. *)
Definition flags_deserialize : Decoder Z := fun buf =>
  r_rest <- deserialize_one buf ;;
  let '(raw_flags, rest) := r_rest in
  match from_bits raw_flags with
  | None => Err BadConnectMessage
  | Some flags =>
      _ <- flags_qos flags ;;
      if intersects flags (Z.lor (Z.lor WILL_QOS1 WILL_QOS2) WILL_RETAIN)
         && negb (contains flags WILL)
      then Err BadConnectMessage
      else Ok (flags, rest)
  end.

(** [Will]. *)
Record Will : Type := mkWill {
  will_props : Props.Properties;
  topic : list Z;
  payload : list Z
}.

(** [Parsable::deserialize for Will]. *)
Definition will_deserialize : Decoder Will := fun buf =>
  p_r <- Props.deserialize Props.auxiliary_data_apiformes buf ;;
  let '(props, r) := p_r in
  if Props.is_valid_for props Props.WILL then
    t_r <- utf8_deserialize r ;;
    let '(topic, r1) := t_r in
    d_r <- binary_deserialize r1 ;;
    let '(payload, r2) := d_r in
    Ok (mkWill props topic payload, r2)
  else Err BadProperty.

Definition will_size (w : Will) : Z :=
  Props.props_size (will_props w) + utf8_size (topic w) + binary_size (payload w).

(** [Connect]. *)
Record Connect : Type := mkConnect {
  flags : Z;
  keep_alive : Z;
  props : Props.Properties;
  clientid : list Z;
  will_info : option Will;
  username : option (list Z);
  password : option (list Z)
}.

Definition opt_size {A : Type} (f : A -> Z) (o : option A) : Z :=
  match o with Some a => f a | None => 0 end.

(** [Connect::partial_size]. *)
Definition partial_size (c : Connect) : Z :=
  7 + 1 + 2 + Props.props_size (props c) + utf8_size (clientid c)
  + opt_size will_size (will_info c) + opt_size utf8_size (username c)
  + opt_size binary_size (password c).

(** [if cond { Some(D::deserialize(buf)?) } else { None }]. *)
Definition opt_deserialize {A : Type} (cond : bool) (d : Decoder A)
  : Decoder (option A) := fun buf =>
  if cond then Props.map_fst (@Some A) (d buf) else Ok (None, buf).

Definition list_Z_eqb (a b : list Z) : bool :=
  (length a =? length b)%nat && forallb (fun p => fst p =? snd p) (combine a b).

(** The fields of the body, read from the [take(length)] buffer. *)
Definition body_deserialize (buf : list Z) : result (Connect * list Z) :=
  pn_r <- utf8_deserialize buf ;;
  let '(protocol_name, b1) := pn_r in
  if negb (list_Z_eqb protocol_name [77; 81; 84; 84]) then Err BadConnectMessage else
  v_r <- deserialize_one b1 ;;
  let '(protocol_version, b2) := v_r in
  if negb (protocol_version =? 5) then Err UnsupportedMqttVersion else
  f_r <- flags_deserialize b2 ;;
  let '(flags, b3) := f_r in
  k_r <- deserialize_two b3 ;;
  let '(keep_alive, b4) := k_r in
  p_r <- Props.deserialize Props.auxiliary_data_apiformes b4 ;;
  let '(props, b5) := p_r in
  if negb (Props.is_valid_for props Props.CONNECT) then Err BadProperty else
  c_r <- utf8_deserialize b5 ;;
  let '(clientid, b6) := c_r in
  w_r <- opt_deserialize (contains flags WILL) will_deserialize b6 ;;
  let '(will_info, b7) := w_r in
  u_r <- opt_deserialize (contains flags USERNAME) utf8_deserialize b7 ;;
  let '(username, b8) := u_r in
  pw_r <- opt_deserialize (contains flags PASSWORD) binary_deserialize b8 ;;
  let '(password, b9) := pw_r in
  Ok (mkConnect flags keep_alive props clientid will_info username password, b9).

(** [Parsable::deserialize for Connect]: the outer buffer advances by
    what was read through the [take]; the packet is returned only when
    its [partial_size] is the announced length. *)
Definition connect_deserialize : Decoder Connect := fun buf =>
  l_r <- vbi_deserialize buf ;;
  let '(len, r) := l_r in
  if Z.of_nat (length r) <? len then Err (InsufficientBuffer len (Z.of_nat (length r)))
  else
    let lim := firstn (Z.to_nat len) r in
    c_r <- body_deserialize lim ;;
    let '(packet, lim_rest) := c_r in
    if partial_size packet =? len
    then Ok (packet, skipn (length lim - length lim_rest) r)
    else Err BadConnectMessage.

(** Flag bytes the decoder accepts, bit by bit: reserved bit 0 clear,
    not both will-QoS bits, and will-QoS / will-retain only with WILL. *)
Definition flags_ok (f : Z) : bool :=
  negb (Z.testbit f 0) && negb (Z.testbit f 3 && Z.testbit f 4)
  && (negb (Z.testbit f 3 || Z.testbit f 4 || Z.testbit f 5) || Z.testbit f 2).

(** The protocol name ["MQTT"], the version and the flag byte. *)
Definition protocol_header (f : Z) : list Z :=
  utf8_serialize [77; 81; 84; 84] ++ [5; f].

(** [pb] is the wire form of the property table [t]: decoding it yields
    [t] and leaves what follows, and it is [t.size()] bytes long. *)
Definition props_encoding (pb : list Z) (t : Props.Properties) : Prop :=
  (forall r, Props.deserialize Props.auxiliary_data_apiformes (pb ++ r) = Ok (t, r)) /\
  Z.of_nat (length pb) = Props.props_size t.

Definition opt_bytes {A : Type} (f : A -> list Z) (o : option A) : list Z :=
  match o with Some a => f a | None => [] end.

(** The bytes [Connect::serialize] writes after the length, the two
    property tables being written as [pb] and [wpb]. *)
Definition connect_body (c : Connect) (pb wpb : list Z) : list Z :=
  protocol_header (flags c) ++ put_u16 (keep_alive c) ++ pb
  ++ utf8_serialize (clientid c)
  ++ opt_bytes (fun w => wpb ++ utf8_serialize (topic w) ++ binary_serialize (payload w))
       (will_info c)
  ++ opt_bytes utf8_serialize (username c) ++ opt_bytes binary_serialize (password c).

Definition will_wf (w : Will) (wpb : list Z) : Prop :=
  props_encoding wpb (will_props w) /\ Props.is_valid_for (will_props w) Props.WILL = true /\
  utf8_new (topic w) = Ok (topic w) /\ binary_new (payload w) = Ok (payload w).

(** A well-formed CONNECT: acceptable flags that announce exactly the
    optional fields present, and fields in their canonical encodings. *)
Definition connect_wf (c : Connect) (pb wpb : list Z) : Prop :=
  0 <= flags c < 256 /\ flags_ok (flags c) = true /\ 0 <= keep_alive c < 65536 /\
  props_encoding pb (props c) /\ Props.is_valid_for (props c) Props.CONNECT = true /\
  utf8_new (clientid c) = Ok (clientid c) /\
  match will_info c with
  | Some w => contains (flags c) WILL = true /\ will_wf w wpb
  | None => contains (flags c) WILL = false
  end /\
  match username c with
  | Some u => contains (flags c) USERNAME = true /\ utf8_new u = Ok u
  | None => contains (flags c) USERNAME = false
  end /\
  match password c with
  | Some p => contains (flags c) PASSWORD = true /\ binary_new p = Ok p
  | None => contains (flags c) PASSWORD = false
  end.

End ConnectDecode.

(** ** More of [packet/src/props.rs]: values, accessors, [get] *)

Module PropsModel.
Import Wire Props.

(** The values the constructors of [MqttPropValue] build: [new_bool],
    [new_u8], [new_u16] and [new_u32] take a [bool], [u8], [u16] or [u32];
    [new_string], [new_string_pair], [new_data] and [new_varint] go through
    [MqttUtf8String::new], [MqttUtf8StringPair::new],
    [MqttBinaryData::new] and [MqttVariableBytesInt::new]. *)
Definition value_wf (v : MqttPropValue) : Prop :=
  match v with
  | VBool b | VByte b => 0 <= b < 256
  | VFourBytesInt x => 0 <= x < 2 ^ 32
  | VString s => utf8_new s = Ok s
  | VStringPair (k, w) => pair_new k w = Ok (k, w)
  | VData d => binary_new d = Ok d
  | VVarInt x => 0 <= x <= 0xfffffff
  | VTwoBytesInt x => 0 <= x < 65536
  end.

(** [MqttPropValue::new_*]. *)
Definition new_bool (b : bool) : MqttPropValue := VBool (if b then 1 else 0).
Definition new_u8 (u : Z) : MqttPropValue := VByte u.
Definition new_u32 (u : Z) : MqttPropValue := VFourBytesInt u.
Definition new_string (s : list Z) : result MqttPropValue :=
  x <- utf8_new s ;; Ok (VString x).
Definition new_string_pair (k v : list Z) : result MqttPropValue :=
  p <- pair_new k v ;; Ok (VStringPair p).
Definition new_data (d : list Z) : result MqttPropValue :=
  x <- binary_new d ;; Ok (VData x).
Definition new_varint (u : Z) : result MqttPropValue :=
  x <- vbi_new u ;; Ok (VVarInt x).
Definition new_u16 (u : Z) : MqttPropValue := VTwoBytesInt u.

(** [MqttPropValue::into_*]; [into_bool] matches the [Byte] variant. *)
Definition into_bool (v : MqttPropValue) : option bool :=
  match v with VByte i => Some (i =? 1) | _ => None end.
Definition into_u8 (v : MqttPropValue) : option Z :=
  match v with VByte i => Some i | _ => None end.
Definition into_str (v : MqttPropValue) : option (list Z) :=
  match v with VString s => Some s | _ => None end.
Definition into_str_pair (v : MqttPropValue) : option (list Z * list Z) :=
  match v with VStringPair p => Some p | _ => None end.
Definition into_data (v : MqttPropValue) : option (list Z) :=
  match v with VData d => Some d | _ => None end.
Definition into_u16 (v : MqttPropValue) : option Z :=
  match v with VTwoBytesInt i => Some i | _ => None end.
Definition into_u32 (v : MqttPropValue) : option Z :=
  match v with VVarInt i | VFourBytesInt i => Some i | _ => None end.

(** [Properties::get]: the stored values of a key, in insertion order. *)
Definition get (t : Properties) (key : Property) : option (list MqttPropValue) :=
  lookup key (props t).

(** The tables a program builds from constructed values: [Properties::new],
    then [insert] and [checked_insert] calls, whatever their result. *)
Section Made.
Variable aux : Property -> Z * MqttPropValueType * bool.

Inductive made : Properties -> Prop :=
| made_new : made new
| made_insert t key value :
    made t -> value_wf value -> made (fst (insert aux t key value))
| made_checked_insert t key value ty :
    made t -> value_wf value -> made (fst (checked_insert aux t key value ty)).

End Made.

(** A sequence of [add_prop] calls of one packet kind [ty] on a new
    table, whatever their results: [checked_insert key value ty] each. *)
Definition add_props (aux : Property -> Z * MqttPropValueType * bool) (ty : Z)
  (l : list (Property * MqttPropValue)) : Properties :=
  fold_left (fun t kv => fst (checked_insert aux t (fst kv) (snd kv) ty)) l new.

End PropsModel.

(** ** The rest of [apiformes/src/packets/connect.rs]: constructors,
    setters and [serialize] *)

Module ConnectModel.
Import Wire Qos Packets ConnectDecode.

(** [Will::new]. *)
Definition will_new (t p : list Z) : result Will :=
  topic <- utf8_new t ;; payload <- binary_new p ;; Ok (mkWill Props.new topic payload).

(** [Will::add_prop]. *)
Definition will_add_prop (w : Will) (key : Props.Property) (value : Props.MqttPropValue)
  : Will * result unit :=
  let '(p, r) := Props.checked_insert Props.auxiliary_data_apiformes (will_props w)
                   key value Props.WILL in
  (mkWill p (topic w) (payload w), r).

(** [Will::set_topic] and [Will::set_payload]: the field changes only when
    the new value is accepted. *)
Definition will_set_topic (w : Will) (t : list Z) : Will * result unit :=
  match utf8_new t with
  | Ok x => (mkWill (will_props w) x (payload w), Ok tt)
  | Err e => (w, Err e)
  end.

Definition will_set_payload (w : Will) (p : list Z) : Will * result unit :=
  match binary_new p with
  | Ok x => (mkWill (will_props w) (topic w) x, Ok tt)
  | Err e => (w, Err e)
  end.

(** [Connect::new]: no flags, keep alive 0, empty properties. *)
Definition connect_new (cid : list Z) : result Connect :=
  c <- utf8_new cid ;; Ok (mkConnect 0 0 Props.new c None None None).

(** [Connect::set_will_retain]. *)
Definition set_will_retain (c : Connect) : Connect * result unit :=
  if contains (flags c) WILL then
    (mkConnect (Z.lor (flags c) WILL_RETAIN) (keep_alive c) (props c) (clientid c)
       (will_info c) (username c) (password c), Ok tt)
  else (c, Err BadConnectMessage).

(** [Connect::set_clean_start]. *)
Definition set_clean_start (c : Connect) : Connect :=
  mkConnect (Z.lor (flags c) CLEAN_START) (keep_alive c) (props c) (clientid c)
    (will_info c) (username c) (password c).

(** [Connect::set_username]: the flag is set before [MqttUtf8String::new]
    is tried, and stays set when it fails. *)
Definition set_username (c : Connect) (u : list Z) : Connect * result unit :=
  let c := mkConnect (Z.lor (flags c) USERNAME) (keep_alive c) (props c) (clientid c)
             (will_info c) (username c) (password c) in
  match utf8_new u with
  | Ok s => (mkConnect (flags c) (keep_alive c) (props c) (clientid c)
               (will_info c) (Some s) (password c), Ok tt)
  | Err e => (c, Err e)
  end.

(** [Connect::set_password], in the same way. *)
Definition set_password (c : Connect) (p : list Z) : Connect * result unit :=
  let c := mkConnect (Z.lor (flags c) PASSWORD) (keep_alive c) (props c) (clientid c)
             (will_info c) (username c) (password c) in
  match binary_new p with
  | Ok d => (mkConnect (flags c) (keep_alive c) (props c) (clientid c)
               (will_info c) (username c) (Some d), Ok tt)
  | Err e => (c, Err e)
  end.

(** [Connect::set_keep_alive] (a [u16]). *)
Definition set_keep_alive (c : Connect) (k : Z) : Connect :=
  mkConnect (flags c) k (props c) (clientid c) (will_info c) (username c) (password c).

(** [Connect::set_will]. *)
Definition set_will (c : Connect) (w : Will) : Connect :=
  mkConnect (Z.lor (flags c) WILL) (keep_alive c) (props c) (clientid c)
    (Some w) (username c) (password c).

(** [From<QoS> for ConnectFlags]. *)
Definition qos_flags (q : QoS) : Z :=
  match q with QoS0 => 0 | QoS1 => WILL_QOS1 | QoS2 => WILL_QOS2 end.

(** [Connect::set_will_qos]: [flags -= WILL_QOS1 | WILL_QOS2], then
    [flags |= qos.into()]. *)
Definition set_will_qos (c : Connect) (q : QoS) : Connect * result unit :=
  if contains (flags c) WILL then
    (mkConnect (Z.lor (Z.land (flags c) (Z.lnot (Z.lor WILL_QOS1 WILL_QOS2))) (qos_flags q))
       (keep_alive c) (props c) (clientid c) (will_info c) (username c) (password c),
     Ok tt)
  else (c, Err BadConnectMessage).

(** [Connect::add_prop]. *)
Definition add_prop (c : Connect) (key : Props.Property) (value : Props.MqttPropValue)
  : Connect * result unit :=
  let '(p, r) := Props.checked_insert Props.auxiliary_data_apiformes (props c)
                   key value Props.CONNECT in
  (mkConnect (flags c) (keep_alive c) p (clientid c) (will_info c) (username c)
     (password c), r).

(** [Connect::get_prop]. *)
Definition get_prop (c : Connect) (key : Props.Property) : option (list Props.MqttPropValue) :=
  PropsModel.get (props c) key.

(** [Will::size] and [Connect::partial_size] with the [unwrap] of
    [Properties::size]: [None] is the panic. *)
Definition will_size_checked (w : Will) : option Z :=
  option_map (fun ps => ps + utf8_size (topic w) + binary_size (payload w))
             (props_size_checked (will_props w)).

Definition partial_size_checked (c : Connect) : option Z :=
  match props_size_checked (props c),
        match will_info c with Some w => will_size_checked w | None => Some 0 end with
  | Some ps, Some ws =>
      Some (7 + 1 + 2 + ps + utf8_size (clientid c) + ws
            + opt_size utf8_size (username c) + opt_size binary_size (password c))
  | _, _ => None
  end.

(** [Will::serialize]. *)
Definition will_serialize (w : Will) : written :=
  props_put_q (will_props w) ;;; put (utf8_serialize (topic w)) ;;;
  put (binary_serialize (payload w)).

(** [Connect::serialize]. *)
Definition connect_serialize (c : Connect) : written :=
  with_size (partial_size_checked c) (fun n =>
  try_ (vbi_new (n mod 2 ^ 32)) (fun length =>
  put (vbi_serialize length) ;;;
  try_ (utf8_new [77; 81; 84; 84]) (fun name => put (utf8_serialize name)) ;;;
  put (put_u8 5) ;;;
  put (put_u8 (flags c)) ;;;
  put (put_u16 (keep_alive c)) ;;;
  props_put_q (props c) ;;;
  put (utf8_serialize (clientid c)) ;;;
  match will_info c with Some w => will_serialize w | None => put [] end ;;;
  put (opt_bytes utf8_serialize (username c)) ;;;
  put (opt_bytes binary_serialize (password c)))).

(** [TryInto<QoS> for ConnectFlags]; [None] is the [unreachable!()]
    panic. *)
Definition flags_try_into (f : Z) : option (result QoS) :=
  if contains f (Z.lor WILL_QOS1 WILL_QOS2) then Some (Err BadQoS)
  else
    let m := Z.land f (Z.lor WILL_QOS1 WILL_QOS2) in
    if m =? WILL_QOS1 then Some (Ok QoS1)
    else if m =? WILL_QOS2 then Some (Ok QoS2)
    else if m =? 0 then Some (Ok QoS0)
    else None.

(** The wills and CONNECT packets a program builds: the constructors,
    then setter calls; [set_username] and [set_password] only when they
    succeed. *)
Inductive will_made : Will -> Prop :=
| will_made_new t p w : will_new t p = Ok w -> will_made w
| will_made_add_prop w key value :
    will_made w -> PropsModel.value_wf value -> will_made (fst (will_add_prop w key value))
| will_made_set_topic w t : will_made w -> will_made (fst (will_set_topic w t))
| will_made_set_payload w p : will_made w -> will_made (fst (will_set_payload w p)).

Inductive connect_made : Connect -> Prop :=
| connect_made_new cid c : connect_new cid = Ok c -> connect_made c
| connect_made_clean_start c : connect_made c -> connect_made (set_clean_start c)
| connect_made_keep_alive c k :
    connect_made c -> 0 <= k < 65536 -> connect_made (set_keep_alive c k)
| connect_made_will c w : connect_made c -> will_made w -> connect_made (set_will c w)
| connect_made_will_qos c q : connect_made c -> connect_made (fst (set_will_qos c q))
| connect_made_will_retain c : connect_made c -> connect_made (fst (set_will_retain c))
| connect_made_username c u :
    connect_made c -> snd (set_username c u) = Ok tt -> connect_made (fst (set_username c u))
| connect_made_password c p :
    connect_made c -> snd (set_password c p) = Ok tt -> connect_made (fst (set_password c p))
| connect_made_add_prop c key value :
    connect_made c -> PropsModel.value_wf value -> connect_made (fst (add_prop c key value)).

End ConnectModel.

(** ** [packet/src/subscribe.rs]: building and decoding a SUBSCRIBE *)

Module SubscribeModel.
Import Wire Props Packets.

(** The [str] whose UTF-8 bytes are [l] (the inverse of
    [Topic.bytes_of]). *)
Definition string_of_bytes (l : list Z) : string :=
  string_of_list_ascii (map (fun b => ascii_of_N (Z.to_N b)) l).

(** [MqttDeserialize for MqttTopic]. *)
Definition topic_deserialize : Decoder (list Z) := fun buf =>
  s_r <- utf8_deserialize buf ;;
  let '(s, r) := s_r in
  if negb (Topic.is_valid_topic (string_of_bytes s)) then Err BadTopic
  else Ok (s, r).

(** [Subscribe::new]: identifier, empty properties, no topic. *)
Definition sub_new (id : Z) : SubscribeP := mkSubscribeP id Props.new [].

(** [Subscribe::add_topic]: the entry is pushed only when the options and
    the topic are accepted; the topic is kept as its bytes. *)
Definition sub_add_topic (s : SubscribeP) (topic : string) (options : Z)
  : SubscribeP * result unit :=
  match Subscribe.options_qos options with
  | Err e => (s, Err e)
  | Ok _ =>
      match Subscribe.options_retain_handling options with
      | Err e => (s, Err e)
      | Ok _ =>
          match Topic.topic_new topic with
          | Err e => (s, Err e)
          | Ok t => (mkSubscribeP (sub_id s) (sub_props s)
                       (app (sub_topics s) [(Topic.bytes_of t, options)]), Ok tt)
          end
      end
  end.

(** [Subscribe::add_prop]. *)
Definition sub_add_prop (s : SubscribeP) (key : Property) (value : MqttPropValue)
  : SubscribeP * result unit :=
  let '(p, r) := checked_insert auxiliary_data (sub_props s) key value SUBSCRIBE in
  (mkSubscribeP (sub_id s) p (sub_topics s), r).

(** The [while buf.remaining() != 0] loop of [Subscribe::deserialize] on
    the [take(length)] buffer.  Every turn consumes at least three bytes,
    so [S (length buf)] turns are enough. *)
Fixpoint topics_loop (fuel : nat) (buf : list Z) : result (list (list Z * Z)) :=
  match fuel with
  | O => Err (InsufficientBuffer 1 0)
  | S fuel' =>
      match buf with
      | [] => Ok []
      | _ :: _ =>
          t_r <- topic_deserialize buf ;;
          let '(topic, r1) := t_r in
          o_r <- Subscribe.options_deserialize r1 ;;
          let '(options, r2) := o_r in
          ts <- topics_loop fuel' r2 ;;
          Ok ((topic, options) :: ts)
      end
  end.

(** [Parsable::deserialize for Subscribe]; when the loop ends the [take]
    is exhausted, so the outer buffer advances by [length]. *)
Definition subscribe_deserialize : Decoder SubscribeP := fun buf =>
  l_r <- vbi_deserialize buf ;;
  let '(len, r) := l_r in
  if Z.of_nat (length r) <? len then Err (InsufficientBuffer len (Z.of_nat (length r)))
  else
    let lim := firstn (Z.to_nat len) r in
    i_r <- deserialize_two lim ;;
    let '(packet_identifier, b1) := i_r in
    p_r <- Props.deserialize auxiliary_data b1 ;;
    let '(props, b2) := p_r in
    if negb (is_valid_for props SUBSCRIBE) then Err BadProperty
    else
      topics <- topics_loop (S (length b2)) b2 ;;
      match topics with
      | [] => Err BadSubscribeMessage
      | _ :: _ => Ok (mkSubscribeP packet_identifier props topics, skipn (Z.to_nat len) r)
      end.

(** The SUBSCRIBE packets a program builds: [Subscribe::new] with a [u16],
    then [add_topic] with a [SubscriptionOptions] value (its bits lie in
    0x3F) and [add_prop] with constructed values, whatever their
    results. *)
Inductive sub_made : SubscribeP -> Prop :=
| sub_made_new id : 0 <= id < 65536 -> sub_made (sub_new id)
| sub_made_add_topic s topic options :
    sub_made s -> 0 <= options < 64 -> sub_made (fst (sub_add_topic s topic options))
| sub_made_add_prop s key value :
    sub_made s -> PropsModel.value_wf value -> sub_made (fst (sub_add_prop s key value)).

End SubscribeModel.

(** ** Reading a packet: the fixed header ([packet_type.rs], [packet.rs]) *)

Module PacketDecode.
Import Wire Props Packets SubscribeModel.

(** [helpers::bits_u8]: [len] bits of [data] from bit [start]. *)
Definition bits_u8 (data start len : Z) : Z :=
  Z.land (Z.shiftr data start) (Z.shiftl 2 (len - 1) - 1).

(** [PacketType] (the constructors carry a [T] so that they do not clash
    with the packet records). *)
Inductive PacketType : Type :=
| TReserved | TConnect | TConnAck | TPublish | TPubAck | TPubRec | TPubRel
| TPubComp | TSubscribe | TSubAck | TUnsubscribe | TUnsubAck | TPingReq
| TPingRes | TDisconnect | TAuth.

Definition PacketType_eq_dec (a b : PacketType) : {a = b} + {a <> b}.
Proof. decide equality. Defined.

(** [PacketType::X as u8]. *)
Definition type_code (t : PacketType) : Z :=
  match t with
  | TReserved => 0 | TConnect => 1 | TConnAck => 2 | TPublish => 3
  | TPubAck => 4 | TPubRec => 5 | TPubRel => 6 | TPubComp => 7
  | TSubscribe => 8 | TSubAck => 9 | TUnsubscribe => 10 | TUnsubAck => 11
  | TPingReq => 12 | TPingRes => 13 | TDisconnect => 14 | TAuth => 15
  end.

(** [PacketType::fixed_flags]. *)
Definition fixed_flags (t : PacketType) : Z :=
  match t with
  | TPubRel | TSubscribe | TUnsubscribe => 2
  | _ => 0
  end.

(** [PacketType::flags10]. *)
Definition flags10 (data : Z) : result unit :=
  if bits_u8 data 0 4 =? 2 then Ok tt else Err BadPacketType.

(** [PacketType::all_flags_zero]. *)
Definition all_flags_zero (data : Z) : result unit :=
  if bits_u8 data 0 4 =? 0 then Ok tt else Err BadPacketType.

(** [PacketType::check_flags]. *)
Definition check_flags (t : PacketType) (data : Z) : result unit :=
  match t with
  | TPublish => Ok tt
  | TPubRel | TSubscribe | TUnsubscribe => flags10 data
  | _ => all_flags_zero data
  end.

(** [PacketType::parse]; [None] is the [unreachable!()] arm. *)
Definition parse (data : Z) : option (result PacketType) :=
  let packet_type :=
    match bits_u8 data 4 4 with
    | 0 => Some TReserved | 1 => Some TConnect | 2 => Some TConnAck
    | 3 => Some TPublish | 4 => Some TPubAck | 5 => Some TPubRec
    | 6 => Some TPubRel | 7 => Some TPubComp | 8 => Some TSubscribe
    | 9 => Some TSubAck | 10 => Some TUnsubscribe | 11 => Some TUnsubAck
    | 12 => Some TPingReq | 13 => Some TPingRes | 14 => Some TDisconnect
    | 15 => Some TAuth
    | _ => None
    end in
  match packet_type with
  | None => None
  | Some t =>
      Some (match check_flags t data with
            | Ok _ => Ok t
            | Err e => Err e
            end)
  end.

(** The [PacketType] each arm of [Parsable::serialize for Packet] writes. *)
Definition type_of (p : Packet) : PacketType :=
  match p with
  | PConnect _ => TConnect | PConnAck _ => TConnAck | PPublish _ => TPublish
  | PPubAck _ => TPubAck | PPubRec _ => TPubRec | PPubRel _ => TPubRel
  | PPubComp _ => TPubComp | PSubscribe _ => TSubscribe | PSubAck _ => TSubAck
  | PUnsubscribe _ => TUnsubscribe | PUnsubAck _ => TUnsubAck
  | PPingReq => TPingReq | PPingRes => TPingRes
  | PDisconnect _ => TDisconnect | PAuth _ => TAuth
  end.

(** [MqttDeserialize for Ping] (through [MqttUncheckedDeserialize]): one
    byte, the remaining length, which must be 0. *)
Definition ping_deserialize : Decoder unit := fun buf =>
  l_r <- deserialize_one buf ;;
  let '(length, r) := l_r in
  if length =? 0 then Ok (tt, r) else Err BadPing.

(** The body decoders [Packet::deserialize] calls whose code is not
    modelled here: [Connect] and [Publish] (their files are not part of
    [packet/src]), and the acknowledgements, [Unsubscribe], [Disconnect]
    and [Auth]. *)
Record BodyDecoders : Type := mkBodyDecoders {
  de_connect : Decoder ConnectP;
  de_connack : Decoder ConnAck;
  de_publish : Decoder PublishP;
  de_puback : Decoder Ack;
  de_pubrec : Decoder Ack;
  de_pubrel : Decoder Ack;
  de_pubcomp : Decoder Ack;
  de_suback : Decoder Codes;
  de_unsubscribe : Decoder Unsubscribe;
  de_unsuback : Decoder Codes;
  de_disconnect : Decoder ReasonProps;
  de_auth : Decoder ReasonProps
}.

(** [?] on a body decoder, wrapped in its [Packet] variant. *)
Definition wrap {A : Type} (f : A -> Packet) (r : result (A * list Z))
  : result (Packet * list Z) :=
  match r with
  | Ok (a, rest) => Ok (f a, rest)
  | Err e => Err e
  end.

(** [Parsable::deserialize for Packet]; [None] is the panic of
    [PacketType::parse].  A PUBLISH body is read from the flags nibble
    chained before the buffer; the buffer keeps what the body decoder
    left of it. *)
Definition packet_deserialize (ds : BodyDecoders) (buf : list Z)
  : option (result (Packet * list Z)) :=
  match buf with
  | byte1 :: ((_ :: _) as b) =>
      match parse byte1 with
      | None => None
      | Some (Err e) => Some (Err e)
      | Some (Ok packet_type) =>
          Some (match packet_type with
          | TReserved => Err BadPacketType
          | TConnect => wrap PConnect (de_connect ds b)
          | TConnAck => wrap PConnAck (de_connack ds b)
          | TPublish =>
              let flags := bits_u8 byte1 0 4 in
              match de_publish ds (flags :: b) with
              | Ok (q, rest) =>
                  Ok (PPublish q, if (length rest <=? length b)%nat then rest else b)
              | Err e => Err e
              end
          | TPubAck => wrap PPubAck (de_puback ds b)
          | TPubRec => wrap PPubRec (de_pubrec ds b)
          | TPubRel => wrap PPubRel (de_pubrel ds b)
          | TPubComp => wrap PPubComp (de_pubcomp ds b)
          | TSubscribe => wrap PSubscribe (subscribe_deserialize b)
          | TSubAck => wrap PSubAck (de_suback ds b)
          | TUnsubscribe => wrap PUnsubscribe (de_unsubscribe ds b)
          | TUnsubAck => wrap PUnsubAck (de_unsuback ds b)
          | TPingReq => wrap (fun _ => PPingReq) (ping_deserialize b)
          | TPingRes => wrap (fun _ => PPingRes) (ping_deserialize b)
          | TDisconnect => wrap PDisconnect (de_disconnect ds b)
          | TAuth => wrap PAuth (de_auth ds b)
          end)
      end
  | _ => Some (Err (InsufficientBuffer 2 (Z.of_nat (length buf))))
  end.

End PacketDecode.

(** ** The dispatcher loop ([server-lib/src/dispatcher.rs]) *)

Module DispatchLoop.
Import Qos Props Subscribe Dispatch.

(** The [Packet] of a [PacketInfo] as [process_packet] sees it: a PUBLISH,
    a SUBSCRIBE, or any other variant, which it does not look into. *)
Inductive Incoming : Type :=
| InPublish (p : Publish)
| InSubscribe (s : SubscribePacket)
| InOther.

(** [Dispatcher::process_packet]. *)
Definition process_packet (noise strict : bool) (d : Dispatcher) (client : string)
  (packet : Incoming) : Outcome :=
  match packet with
  | InPublish publish => process_publish noise strict d client publish
  | InSubscribe sub => process_subscribe d client sub
  | InOther => unimplemented d client
  end.

(** [Dispatcher::process_forever] on the packets received before the
    channel closes, as (sender id, packet) pairs: an error is only logged
    and the loop goes on; a panic ends the task. *)
Fixpoint process_forever (noise strict : bool) (d : Dispatcher)
  (incoming : list (string * Incoming)) : Outcome :=
  match incoming with
  | [] => Returned d None
  | (senderid, packet) :: rest =>
      match process_packet noise strict d senderid packet with
      | Returned d' _ => process_forever noise strict d' rest
      | Panicked => Panicked
      end
  end.

End DispatchLoop.

(** * Proofs *)

(** ** Primitive wire types *)
Module WireFacts.
Import Wire.

(** Facts about single bytes, by enumerating the 256 values. *)
Definition all_bytes : list Z := map Z.of_nat (seq 0 256).

Lemma in_all_bytes (b : Z) : 0 <= b < 256 -> In b all_bytes.
Proof.
  intros Hb. unfold all_bytes. apply in_map_iff.
  exists (Z.to_nat b). split; [lia|]. apply in_seq. lia.
Qed.

Lemma byte_forall (P : Z -> bool) :
  forallb P all_bytes = true -> forall b, 0 <= b < 256 -> P b = true.
Proof.
  intros H b Hb. rewrite forallb_forall in H. apply H, in_all_bytes, Hb.
Qed.

Lemma low7_facts (r : Z) : 0 <= r < 128 ->
  Z.land r 127 = r /\ Z.land r 0x80 = 0 /\
  Z.lor r 0x80 = r + 128 /\ Z.land (r + 128) 127 = r /\
  Z.land (r + 128) 0x80 <> 0.
Proof.
  intros Hr.
  assert (H : forallb (fun r => implb (r <? 128)
            ((Z.land r 127 =? r) && (Z.land r 0x80 =? 0) &&
             (Z.lor r 0x80 =? r + 128) && (Z.land (r + 128) 127 =? r) &&
             negb (Z.land (r + 128) 0x80 =? 0))) all_bytes = true)
    by (vm_compute; reflexivity).
  pose proof (byte_forall _ H r ltac:(lia)) as Hb. simpl in Hb.
  replace (r <? 128) with true in Hb by lia. simpl in Hb.
  repeat rewrite andb_true_iff in Hb.
  destruct Hb as [[[[H1 H2] H3] H4] H5].
  apply Z.eqb_eq in H1, H2, H3, H4. apply negb_true_iff, Z.eqb_neq in H5.
  tauto.
Qed.

Lemma land_7f (x : Z) : Z.land x 0x7f = x mod 128.
Proof. change 0x7f with (Z.ones 7). rewrite Z.land_ones; [reflexivity|lia]. Qed.

Lemma shiftr_7 (x : Z) : Z.shiftr x 7 = x / 128.
Proof. rewrite Z.shiftr_div_pow2; [reflexivity|lia]. Qed.

(** One turn of the serializer loop. *)
Lemma vbi_serialize_loop_S (f : nat) (x : Z) : 0 <= x ->
  vbi_serialize_loop (S f) x =
  (if x / 128 =? 0 then [x mod 128]
   else (x mod 128 + 128) :: vbi_serialize_loop f (x / 128)).
Proof.
  intros Hx. simpl. rewrite land_7f, shiftr_7.
  pose proof (Z.mod_pos_bound x 128 ltac:(lia)) as Hm.
  pose proof (Z.div_pos x 128 Hx ltac:(lia)) as Hd.
  destruct (low7_facts (x mod 128) Hm) as (_ & _ & H3 & _).
  destruct (Z.eqb_spec (x / 128) 0) as [E|E].
  - rewrite E. reflexivity.
  - replace (x / 128 >? 0) with true by lia. rewrite H3. reflexivity.
Qed.

(** The decoder loop reads back what the encoder loop wrote, from any
    state with multiplier [m] and partial value [v < 2^m]. *)
Lemma vbi_roundtrip_loop (f : nat) : forall x m v rest,
  0 <= x < 2 ^ (7 * Z.of_nat (S f)) ->
  In m [0; 7; 14; 21] -> 0 <= v < 2 ^ m -> x * 2 ^ m < 2 ^ 28 ->
  vbi_deserialize_loop m v (vbi_serialize_loop (S f) x ++ rest) =
  Ok (v + x * 2 ^ m, rest).
Proof.
  induction f as [|f IH]; intros x m v rest Hx Hm Hv Hxm;
    rewrite vbi_serialize_loop_S by lia;
    pose proof (Z.mod_pos_bound x 128 ltac:(lia)) as Hr;
    pose proof (Z.div_mod x 128 ltac:(lia)) as Hdm;
    pose proof (Z.div_pos x 128 ltac:(lia) ltac:(lia)) as Hq0;
    destruct (low7_facts (x mod 128) Hr) as (H1 & H2 & _ & H4 & H5);
    set (r := x mod 128) in *; set (q := x / 128) in *;
    assert (Hmle : 0 <= m <= 21) by (simpl in Hm; lia);
    assert (Hp : 0 < 2 ^ m <= 2 ^ 21)
      by (split; [apply Z.pow_pos_nonneg|apply Z.pow_le_mono_r]; lia);
    assert (Hshift : forall y, 0 <= y < 128 ->
      Z.land (Z.shiftl y m) (2 ^ 32 - 1) = y * 2 ^ m)
      by (intros y Hy; rewrite Z.shiftl_mul_pow2 by lia;
          change (2 ^ 32 - 1) with (Z.ones 32); rewrite Z.land_ones by lia;
          apply Z.mod_small; split; [nia|]; simpl in Hp; nia);
    assert (Hsmall : (v + r * 2 ^ m) mod 2 ^ 32 = v + r * 2 ^ m)
      by (apply Z.mod_small; simpl in Hp |- *; nia);
    replace (m >? 21) with false in * by lia.
  - (* one byte left *)
    assert (q = 0) by (simpl in Hx; lia).
    replace (q =? 0) with true by lia.
    cbn [app vbi_deserialize_loop]. rewrite H1, Hshift, Hsmall, H2 by lia.
    replace (m >? 21) with false by lia. simpl. do 2 f_equal. nia.
  - destruct (Z.eqb_spec q 0) as [E|E].
    + cbn [app vbi_deserialize_loop]. rewrite H1, Hshift, Hsmall, H2 by lia.
      replace (m >? 21) with false by lia. simpl. do 2 f_equal. nia.
    + cbn [app vbi_deserialize_loop]. rewrite H4, Hshift, Hsmall by lia.
      replace (m >? 21) with false by lia.
      destruct (Z.eqb_spec (Z.land (r + 128) 0x80) 0) as [E'|_];
        [contradiction|].
      assert (Hm7 : 2 ^ (m + 7) = 2 ^ m * 128) by (rewrite Z.pow_add_r; lia).
      assert (Hm' : m <> 21) by (intros ->; simpl in Hxm; lia).
      rewrite IH.
      * f_equal. f_equal. rewrite Hm7. nia.
      * split; [lia|].
        assert (Hf : 2 ^ (7 * Z.of_nat (S (S f))) =
                     2 ^ (7 * Z.of_nat (S f)) * 128).
        { rewrite (Nat2Z.inj_succ (S f)), <- Z.add_1_r, Z.mul_add_distr_l,
            Z.pow_add_r by lia. reflexivity. }
        rewrite Hf in Hx. lia.
      * simpl in Hm |- *. lia.
      * rewrite Hm7. nia.
      * rewrite Hm7. nia.
Qed.

Lemma vbi_serialize_length_S (f : nat) (x : Z) : 0 <= x ->
  length (vbi_serialize_loop (S f) x) =
  (if x / 128 =? 0 then 1%nat else S (length (vbi_serialize_loop f (x / 128)))).
Proof.
  intros Hx. rewrite vbi_serialize_loop_S by lia.
  destruct (x / 128 =? 0); reflexivity.
Qed.

Lemma vbi_serialize_length (i : Z) : 0 <= i <= 0xfffffff ->
  Z.of_nat (length (vbi_serialize i)) = vbi_size i.
Proof.
  intros Hi. unfold vbi_serialize, vbi_size.
  rewrite vbi_serialize_length_S by (Z.div_mod_to_equations; lia).
  destruct (Z.eqb_spec (i / 128) 0); [replace (i <? 0x80) with true by (Z.div_mod_to_equations; lia); reflexivity|].
  replace (i <? 0x80) with false by (Z.div_mod_to_equations; lia).
  rewrite vbi_serialize_length_S by (Z.div_mod_to_equations; lia).
  destruct (Z.eqb_spec (i / 128 / 128) 0);
    [replace (i <? 0x4000) with true by (Z.div_mod_to_equations; lia); reflexivity|].
  replace (i <? 0x4000) with false by (Z.div_mod_to_equations; lia).
  rewrite vbi_serialize_length_S by (Z.div_mod_to_equations; lia).
  destruct (Z.eqb_spec (i / 128 / 128 / 128) 0);
    [replace (i <? 0x200000) with true by (Z.div_mod_to_equations; lia); reflexivity|].
  replace (i <? 0x200000) with false by (Z.div_mod_to_equations; lia).
  rewrite vbi_serialize_length_S by (Z.div_mod_to_equations; lia).
  replace (i / 128 / 128 / 128 / 128 =? 0) with true by (Z.div_mod_to_equations; lia). reflexivity.
Qed.

Lemma vbi_roundtrip (i : Z) (rest : list Z) : 0 <= i <= 0xfffffff ->
  vbi_deserialize (vbi_serialize i ++ rest) = Ok (i, rest).
Proof.
  intros Hi. unfold vbi_deserialize, vbi_serialize.
  rewrite (vbi_roundtrip_loop 4 i 0 0 rest).
  - f_equal. f_equal. lia.
  - simpl. lia.
  - simpl. auto.
  - simpl. lia.
  - simpl. lia.
Qed.

Lemma vbi_new_range (i : Z) : 0 <= i -> vbi_new i = Ok i -> 0 <= i <= 0xfffffff.
Proof.
  unfold vbi_new. intros H0 H. destruct (Z.gtb_spec i 0xfffffff); [discriminate|lia].
Qed.

Lemma deserialize_two_put_u16 (x : Z) (rest : list Z) : 0 <= x < 65536 ->
  deserialize_two (put_u16 x ++ rest) = Ok (x, rest).
Proof. intros Hx. simpl. do 2 f_equal. Z.div_mod_to_equations. lia. Qed.

Lemma utf8_new_ok (s : list Z) : utf8_new s = Ok s ->
  Z.of_nat (length s) <= 65535 /\ exists cs, utf8_chars s = Some cs.
Proof.
  unfold utf8_new, utf8_verify. destruct (Z.gtb_spec (Z.of_nat (length s)) 65535);
    [discriminate|]. destruct (utf8_chars s) as [cs|]; [|discriminate].
  intros _. split; [lia|eauto].
Qed.

Lemma utf8_roundtrip (s rest : list Z) : utf8_new s = Ok s ->
  utf8_deserialize (utf8_serialize s ++ rest) = Ok (s, rest).
Proof.
  intros Hs. destruct (utf8_new_ok s Hs) as [Hlen [cs Hcs]].
  unfold utf8_deserialize, utf8_serialize. rewrite <- app_assoc.
  rewrite deserialize_two_put_u16 by lia. cbn [bind].
  rewrite length_app. replace (Z.of_nat (length s + length rest) <? Z.of_nat (length s))
    with false by (symmetry; apply Z.ltb_ge; lia).
  rewrite Nat2Z.id, firstn_app, Nat.sub_diag, firstn_O, app_nil_r, firstn_all.
  unfold from_utf8. rewrite Hcs. cbn [bind]. rewrite Hs. cbn [bind].
  rewrite skipn_app, Nat.sub_diag, skipn_all. reflexivity.
Qed.

Lemma utf8_serialize_length (s : list Z) :
  Z.of_nat (length (utf8_serialize s)) = utf8_size s.
Proof. unfold utf8_serialize, utf8_size. rewrite length_app. cbn [length put_u16]. lia. Qed.

Lemma binary_roundtrip (d rest : list Z) : binary_new d = Ok d ->
  binary_deserialize (binary_serialize d ++ rest) = Ok (d, rest).
Proof.
  unfold binary_new. intros Hd.
  destruct (Z.gtb_spec (Z.of_nat (length d)) 65535) as [|Hlen]; [discriminate|].
  unfold binary_deserialize, binary_serialize. rewrite <- app_assoc.
  rewrite deserialize_two_put_u16 by lia. cbn [bind].
  rewrite length_app. replace (Z.of_nat (length d + length rest) <? Z.of_nat (length d))
    with false by (symmetry; apply Z.ltb_ge; lia).
  rewrite Nat2Z.id, firstn_app, Nat.sub_diag, firstn_O, app_nil_r, firstn_all.
  unfold binary_new.
  destruct (Z.gtb_spec (Z.of_nat (length d)) 65535); [lia|]. cbn [bind]. rewrite skipn_app, Nat.sub_diag, skipn_all. reflexivity.
Qed.

Lemma pair_new_ok (k v : list Z) (p : list Z * list Z) : pair_new k v = Ok p ->
  p = (k, v) /\ utf8_new k = Ok k /\ utf8_new v = Ok v.
Proof.
  unfold pair_new. destruct (utf8_new k) eqn:Hk; [|discriminate]. cbn [bind].
  destruct (utf8_new v) eqn:Hv; [|discriminate]. cbn [bind]. intros H.
  injection H as <-.
  unfold utf8_new in Hk, Hv. destruct (utf8_verify k); [|discriminate].
  destruct (utf8_verify v); [|discriminate]. simpl in Hk, Hv.
  injection Hk as <-. injection Hv as <-. auto.
Qed.

(** C3: every wire primitive reads back what it wrote, and its [size] is
    the number of bytes written.  For one-, two- and four-byte integers in
    their unsigned range, for a variable byte integer accepted by
    [MqttVariableBytesInt::new], for a UTF-8 string, binary data and a
    string pair accepted by their [new], deserializing the serialization
    followed by any bytes [rest] returns the value and leaves [rest]. *)
Theorem wire_roundtrip :
  (forall x rest, 0 <= x < 256 ->
     deserialize_one (put_u8 x ++ rest) = Ok (x, rest) /\
     length (put_u8 x) = 1%nat) /\
  (forall x rest, 0 <= x < 2 ^ 16 ->
     deserialize_two (put_u16 x ++ rest) = Ok (x, rest) /\
     length (put_u16 x) = 2%nat) /\
  (forall x rest, 0 <= x < 2 ^ 32 ->
     deserialize_four (put_u32 x ++ rest) = Ok (x, rest) /\
     length (put_u32 x) = 4%nat) /\
  (forall i rest, 0 <= i -> vbi_new i = Ok i ->
     vbi_deserialize (vbi_serialize i ++ rest) = Ok (i, rest) /\
     vbi_size i = Z.of_nat (length (vbi_serialize i))) /\
  (forall s rest, utf8_new s = Ok s ->
     utf8_deserialize (utf8_serialize s ++ rest) = Ok (s, rest) /\
     utf8_size s = Z.of_nat (length (utf8_serialize s))) /\
  (forall d rest, binary_new d = Ok d ->
     binary_deserialize (binary_serialize d ++ rest) = Ok (d, rest) /\
     binary_size d = Z.of_nat (length (binary_serialize d))) /\
  (forall k v rest, pair_new k v = Ok (k, v) ->
     pair_deserialize (pair_serialize (k, v) ++ rest) = Ok ((k, v), rest) /\
     pair_size (k, v) = Z.of_nat (length (pair_serialize (k, v)))).
Proof.
  split; [|split; [|split; [|split; [|split; [|split]]]]].
  - intros x rest Hx. simpl. split; [|reflexivity]. rewrite Z.mod_small by lia.
    reflexivity.
  - intros x rest Hx. split; [apply deserialize_two_put_u16; lia|reflexivity].
  - intros x rest Hx. split; [|reflexivity]. simpl. do 2 f_equal.
    Z.div_mod_to_equations. lia.
  - intros i rest H0 Hi. apply vbi_new_range in Hi; [|exact H0]. split.
    + apply vbi_roundtrip; exact Hi.
    + symmetry. apply vbi_serialize_length; exact Hi.
  - intros s rest Hs. split; [apply utf8_roundtrip; exact Hs|].
    symmetry. apply utf8_serialize_length.
  - intros d rest Hd. split; [apply binary_roundtrip; exact Hd|].
    unfold binary_size, binary_serialize. rewrite length_app.
    cbn [length put_u16]. lia.
  - intros k v rest Hp. destruct (pair_new_ok k v _ Hp) as (_ & Hk & Hv).
    split.
    + unfold pair_deserialize, pair_serialize. cbn [fst snd].
      rewrite <- app_assoc, utf8_roundtrip by exact Hk. cbn [bind].
      rewrite utf8_roundtrip by exact Hv. reflexivity.
    + unfold pair_size, pair_serialize. cbn [fst snd]. rewrite length_app.
      rewrite <- !utf8_serialize_length. lia.
Qed.

(** C4, corrected.  The serialized length of a variable byte integer in
    [0, 0x0FFFFFFF] is 1, 2, 3 or 4 by the thresholds 0x80, 0x4000 and
    0x200000; when four bytes with the continuation bit set are followed by
    a fifth byte the decoder fails with [BadMqttVariableBytesInt]; and when
    the buffer ends while every byte read so far has the continuation bit
    set (at most four of them, the empty buffer included) the decoder
    fails with [InsufficientBuffer {needed: 1, available: 0}]. *)
Theorem vbi_sizes_and_errors :
  (forall i, 0 <= i <= 0xfffffff ->
     Z.of_nat (length (vbi_serialize i)) =
     (if i <? 0x80 then 1 else if i <? 0x4000 then 2
      else if i <? 0x200000 then 3 else 4)) /\
  (forall b1 b2 b3 b4 b5 rest,
     Forall (fun b => Z.land b 0x80 <> 0) [b1; b2; b3; b4] ->
     vbi_deserialize (b1 :: b2 :: b3 :: b4 :: b5 :: rest) =
     Err BadMqttVariableBytesInt) /\
  (forall buf, (length buf <= 4)%nat ->
     Forall (fun b => Z.land b 0x80 <> 0) buf ->
     vbi_deserialize buf = Err (InsufficientBuffer 1 0)).
Proof.
  split; [|split].
  - intros i Hi. apply vbi_serialize_length; exact Hi.
  - intros b1 b2 b3 b4 b5 rest Hb.
    repeat match goal with H : Forall _ (_ :: _) |- _ => inversion H; subst; clear H end.
    unfold vbi_deserialize. cbn [vbi_deserialize_loop].
    repeat match goal with
    | H : Z.land ?b 128 <> 0 |- context [Z.land ?b 128 =? 0] =>
        destruct (Z.eqb_spec (Z.land b 128) 0); [contradiction|]
    end. reflexivity.
  - assert (Hgen : forall buf m v, 0 <= m ->
      m + 7 * Z.of_nat (length buf) <= 28 ->
      Forall (fun b => Z.land b 0x80 <> 0) buf ->
      vbi_deserialize_loop m v buf = Err (InsufficientBuffer 1 0)).
    { induction buf as [|b buf IH]; intros m v Hm Hlen Hb; [reflexivity|].
      inversion Hb; subst. cbn [vbi_deserialize_loop].
      cbn [length] in Hlen. rewrite Nat2Z.inj_succ in Hlen.
      destruct (Z.gtb_spec m 21); [lia|].
      destruct (Z.eqb_spec (Z.land b 0x80) 0); [contradiction|].
      apply IH; [lia|lia|assumption]. }
    intros buf Hlen Hb. apply Hgen; [lia|lia|exact Hb].
Qed.

(** C4: the decoder does not reach [BadMqttVariableBytesInt] on four
    continuation bytes that end the buffer: it reports the short buffer. *)
Lemma vbi_four_continuation_bytes_then_end :
  vbi_deserialize [0x80; 0x80; 0x80; 0x80] = Err (InsufficientBuffer 1 0).
Proof. reflexivity. Qed.

End WireFacts.

(** ** Property tables *)
Module PropsFacts.
Import Wire Props.

Lemma Property_beq_true (a b : Property) : Property_beq a b = true <-> a = b.
Proof.
  split; [apply internal_Property_dec_bl|intros ->; apply internal_Property_dec_lb; reflexivity].
Qed.

Lemma Property_beq_refl (a : Property) : Property_beq a a = true.
Proof. apply Property_beq_true. reflexivity. Qed.

Lemma Property_beq_false (a b : Property) : Property_beq a b = false <-> a <> b.
Proof.
  rewrite <- Property_beq_true. destruct (Property_beq a b); split; congruence.
Qed.

Lemma lookup_hm_insert (k k' : Property) v m :
  lookup k (hm_insert k' v m) = if Property_beq k k' then Some v else lookup k m.
Proof.
  induction m as [|[k'' v''] m IH]; simpl.
  - reflexivity.
  - destruct (Property_beq k' k'') eqn:E.
    + apply Property_beq_true in E. subst k''. simpl.
      destruct (Property_beq k k'); reflexivity.
    + simpl. destruct (Property_beq k k'') eqn:E2.
      * apply Property_beq_true in E2. subst k''.
        destruct (Property_beq k k') eqn:E3; [|reflexivity].
        apply Property_beq_true in E3. subst. rewrite Property_beq_refl in E.
        discriminate.
      * exact IH.
Qed.

Lemma MqttPropValueType_beq_true (a b : MqttPropValueType) :
  MqttPropValueType_beq a b = true <-> a = b.
Proof.
  split; [apply internal_MqttPropValueType_dec_bl
         |intros ->; apply internal_MqttPropValueType_dec_lb; reflexivity].
Qed.

(** Tables never store an empty vector. *)
Definition nonempty_entries (t : Properties) : Prop :=
  forall k vs, lookup k (props t) = Some vs -> vs <> [].

Lemma unchecked_insert_nonempty t key value multiple :
  nonempty_entries t -> nonempty_entries (fst (unchecked_insert t key value multiple)).
Proof.
  unfold nonempty_entries, unchecked_insert. intros H k vs.
  destruct multiple; simpl.
  - destruct (lookup key (props t)) as [old|] eqn:Hl; rewrite lookup_hm_insert;
      destruct (Property_beq k key); try apply H; intros E; injection E as <-.
    + destruct old; discriminate.
    + discriminate.
  - rewrite lookup_hm_insert. destruct (Property_beq k key);
      [intros E; injection E as <-; discriminate|apply H].
Qed.

Lemma reachable_nonempty aux t : reachable aux t -> nonempty_entries t.
Proof.
  induction 1 as [|t key value _ IH|t key value ty _ IH].
  - intros k vs H. discriminate.
  - unfold insert. destruct (aux key) as [[filter ty] multiple].
    destruct (negb _); [exact IH|].
    destruct (unchecked_insert _ key value multiple) as [t' o] eqn:E.
    assert (Ht' : nonempty_entries t').
    { change t' with (fst (t', o)). rewrite <- E.
      apply unchecked_insert_nonempty. exact IH. }
    destruct o; exact Ht'.
  - unfold checked_insert. destruct (aux key) as [[filter pty] multiple].
    destruct (_ || _); [exact IH|]. simpl.
    apply unchecked_insert_nonempty. exact IH.
Qed.

Lemma land_kind_nonzero (v f k : Z) : Z.land f k = 0 -> k <> 0 ->
  (Z.land (Z.land v f) k =? k) = false.
Proof.
  intros Hf Hk. rewrite <- Z.land_assoc, Hf, Z.land_0_r.
  apply Z.eqb_neq. congruence.
Qed.

Lemma land_narrow (v f k : Z) : Z.land (Z.land v f) k = k -> Z.land v k = k.
Proof.
  intros H. apply Z.bits_inj'. intros i _.
  pose proof (f_equal (fun z => Z.testbit z i) H) as Hi. simpl in Hi.
  rewrite !Z.land_spec in Hi. rewrite Z.land_spec.
  destruct (Z.testbit v i), (Z.testbit f i), (Z.testbit k i); simpl in *; congruence.
Qed.

Lemma unchecked_insert_valid t key value multiple :
  valid (fst (unchecked_insert t key value multiple)) = valid t.
Proof. unfold unchecked_insert. destruct multiple; reflexivity. Qed.

(** What [insert] leaves in the table: the table itself when the value has
    the wrong type, otherwise the narrowed table updated by
    [unchecked_insert], whatever the result. *)
Lemma insert_table aux t key value :
  fst (insert aux t key value) =
  let '(filter, ty, multiple) := aux key in
  if negb (MqttPropValueType_beq (prop_type value) ty) then t
  else fst (unchecked_insert {| size := size t; valid := Z.land (valid t) filter;
                                props := props t |} key value multiple).
Proof.
  unfold insert. destruct (aux key) as [[filter ty] multiple].
  destruct (negb _); [reflexivity|].
  destruct (unchecked_insert _ key value multiple) as [t' [o|]]; reflexivity.
Qed.

Lemma owner_kinds_nonzero k : In k owner_kinds -> k <> 0.
Proof. simpl. unfold AUTH, CONNACK, CONNECT, DISCONNECT, PUBACK, PUBCOMP,
  PUBLISH, PUBREC, PUBREL, SUBACK, SUBSCRIBE, UNSUBACK, UNSUBSCRIBE, WILL.
  intros H. repeat destruct H as [<-|H]; [discriminate ..|contradiction]. Qed.

(** C6: in both crates, for every table a program can build, inserting a
    single-valued property that is already present fails with
    [BadProperty]; inserting a [UserProperty] string succeeds on every
    table, so it can be inserted any number of times; inserting a
    property (of its declared type) whose owners mask excludes a packet
    kind [k] makes [is_valid_for k] false, and later insertions keep it
    false. *)
Theorem props_insert_rules (aux : Property -> Z * MqttPropValueType * bool) :
  In aux [auxiliary_data; auxiliary_data_apiformes] ->
  (forall t key value, reachable aux t -> lookup key (props t) <> None ->
     snd (aux key) = false -> snd (insert aux t key value) = Err BadProperty) /\
  (forall t s, snd (insert aux t UserProperty (VString s)) = Ok tt) /\
  (forall t key value k, In k owner_kinds ->
     Z.land (fst (fst (aux key))) k = 0 ->
     prop_type value = snd (fst (aux key)) ->
     is_valid_for (fst (insert aux t key value)) k = false) /\
  (forall t key value k, is_valid_for t k = false ->
     is_valid_for (fst (insert aux t key value)) k = false).
Proof.
  intros Haux. split; [|split; [|split]].
  - intros t key value Hr Hpresent Hsingle.
    destruct (lookup key (props t)) as [vs|] eqn:Hl; [|contradiction].
    pose proof (reachable_nonempty aux t Hr key vs Hl) as Hne.
    destruct vs as [|o os]; [contradiction|].
    unfold insert. destruct (aux key) as [[filter ty] multiple].
    simpl in Hsingle. subst multiple.
    destruct (negb _); [reflexivity|].
    unfold unchecked_insert. simpl. rewrite Hl. reflexivity.
  - intros t s. destruct Haux as [<-|[<-|[]]]; reflexivity.
  - intros t key value k Hk Hmask Hty. rewrite insert_table.
    destruct (aux key) as [[filter ty] multiple]. simpl in Hmask, Hty.
    rewrite Hty.
    replace (MqttPropValueType_beq ty ty) with true
      by (symmetry; apply MqttPropValueType_beq_true; reflexivity).
    simpl negb. cbv iota. unfold is_valid_for.
    rewrite unchecked_insert_valid. simpl.
    apply land_kind_nonzero; [exact Hmask|apply owner_kinds_nonzero, Hk].
  - intros t key value k Hk. rewrite insert_table.
    destruct (aux key) as [[filter ty] multiple].
    destruct (negb _); [exact Hk|].
    unfold is_valid_for in *. rewrite unchecked_insert_valid. simpl.
    destruct (Z.eqb_spec (Z.land (Z.land (valid t) filter) k) k) as [E|]; [|reflexivity].
    apply land_narrow in E. rewrite E, Z.eqb_refl in Hk. discriminate.
Qed.

(** C6 at a concrete table: the packet crate's [auxiliary_data], a table
    holding a [ContentType], into which a second [ContentType] goes. *)
Lemma props_insert_rules_witness :
  In auxiliary_data [auxiliary_data; auxiliary_data_apiformes] /\
  snd (insert auxiliary_data
         (fst (insert auxiliary_data new ContentType (VString [97])))
         ContentType (VString [98])) = Err BadProperty.
Proof.
  split; [left; reflexivity|].
  apply (props_insert_rules auxiliary_data (or_introl eq_refl)).
  - apply reachable_insert, reachable_new.
  - vm_compute. discriminate.
  - reflexivity.
Defined.

(** C10: [Properties::insert] of a single-valued property already present
    (with a value of the declared type) returns [BadProperty] and yet
    leaves the table changed: the new value replaces the old one, the
    owners mask is narrowed and the size is updated; with a value other
    than the stored one the table differs from the one before the call. *)
Theorem props_insert_not_atomic (aux : Property -> Z * MqttPropValueType * bool)
  (t : Properties) (key : Property) (value o : MqttPropValue)
  (os : list MqttPropValue) :
  snd (aux key) = false ->
  prop_type value = snd (fst (aux key)) ->
  lookup key (props t) = Some (o :: os) ->
  insert aux t key value =
    ({| size := size t + value_size value - value_size o;
        valid := Z.land (valid t) (fst (fst (aux key)));
        props := hm_insert key [value] (props t) |}, Err BadProperty) /\
  lookup key (props (fst (insert aux t key value))) = Some [value] /\
  (value <> o -> fst (insert aux t key value) <> t).
Proof.
  intros Hsingle Hty Hl.
  assert (Heq : insert aux t key value =
    ({| size := size t + value_size value - value_size o;
        valid := Z.land (valid t) (fst (fst (aux key)));
        props := hm_insert key [value] (props t) |}, Err BadProperty)).
  { unfold insert. destruct (aux key) as [[filter ty] multiple].
    simpl in Hsingle, Hty. subst multiple. rewrite Hty.
    replace (MqttPropValueType_beq ty ty) with true
      by (symmetry; apply MqttPropValueType_beq_true; reflexivity).
    unfold unchecked_insert. simpl. rewrite Hl. reflexivity. }
  rewrite Heq. simpl. rewrite lookup_hm_insert, Property_beq_refl.
  split; [reflexivity|split; [reflexivity|]].
  intros Hne Ht. rewrite <- Ht in Hl. simpl in Hl.
  rewrite lookup_hm_insert, Property_beq_refl in Hl.
  injection Hl as Hvo _. exact (Hne Hvo).
Qed.

(** C10 at a concrete table: a [ContentType] "a" overwritten by "b". *)
Lemma props_insert_not_atomic_witness :
  let t := fst (insert auxiliary_data new ContentType (VString [97])) in
  snd (insert auxiliary_data t ContentType (VString [98])) = Err BadProperty /\
  lookup ContentType (props (fst (insert auxiliary_data t ContentType (VString [98]))))
    = Some [VString [98]].
Proof.
  intros t.
  destruct (props_insert_not_atomic auxiliary_data t ContentType (VString [98])
              (VString [97]) [] eq_refl eq_refl eq_refl) as [H1 [H2 _]].
  split; [rewrite H1; reflexivity|exact H2].
Defined.

End PropsFacts.


(** * The dispatcher on concrete inputs *)
Module DispatchFacts.
Import Qos Props Subscribe Dispatch.

Lemma options_branch (o : Z) q r :
  0 <= o < 256 -> options_qos o = Ok q -> options_retain_handling o = Ok r ->
  accepted_options o = match q, r with QoS0, DoNotSend => true | _, _ => false end.
Proof.
  intros Ho Hq Hr.
  assert (H := WireFacts.byte_forall (fun o =>
    match options_qos o, options_retain_handling o with
    | Ok q, Ok r => Bool.eqb (accepted_options o)
                      match q, r with QoS0, DoNotSend => true | _, _ => false end
    | _, _ => true
    end) ltac:(vm_compute; reflexivity) o Ho).
  cbv beta in H. rewrite Hq, Hr in H. apply Bool.eqb_prop in H. exact H.
Qed.

Definition valid_entry (e : string * Z) : Prop :=
  0 <= snd e < 256 /\ (exists q, options_qos (snd e) = Ok q) /\
  (exists r, options_retain_handling (snd e) = Ok r).

Lemma subscribe_topics_valid t client codes entries :
  Forall valid_entry entries ->
  subscribe_topics t client codes entries =
    inl (accepted_index t client entries, app codes (accepted_codes entries)).
Proof.
  revert t codes. induction entries as [|[f o] es IH]; intros t codes Hall.
  - simpl. rewrite app_nil_r. reflexivity.
  - inversion Hall as [|? ? [Ho [[q Hq] [r Hr]]] Hes]; subst. simpl in Ho, Hq, Hr.
    assert (Hb := options_branch o q r Ho Hq Hr).
    cbn [subscribe_topics accepted_index accepted_codes fold_left map snd fst].
    rewrite Hq, Hb.
    destruct q; [destruct r| |]; rewrite ?Hr;
      (rewrite IH by exact Hes; f_equal; f_equal; rewrite <- app_assoc; reflexivity).
Qed.

(** C8: the empty filter is a valid [MqttTopic] that [add_topic] accepts;
    [process_subscribe] inserts it (under the section ["/"]), answers
    [GrantedQoS0], and the empty publish topic then matches it. *)
Theorem empty_filter_subscribed :
  Topic.topic_new "" = Ok ""%string /\
  add_topic (subscribe_new 1) "" 0x20 = Ok (mkSubscribe 1 [] [(""%string, 0x20)]) /\
  exists d1,
    process_subscribe two_clients "c" (mkSubscribe 1 [] [(""%string, 0x20)]) = Returned d1 None /\
    topics_table d1 <> topics_table two_clients /\
    sent d1 = [("c"%string, OSubAck 1 [GrantedQoS0])] /\
    Topics.get_all_subscribed (topics_table d1) "" =
      [("c"%string, Topics.mkSubscriptionInfo QoS0 0)].
Proof.
  split; [reflexivity|]. split; [reflexivity|].
  eexists. split; [reflexivity|].
  split; [vm_compute; discriminate|]. split; reflexivity.
Qed.

(** C9: client [c] subscribes to [a] with options [0x28]
    (RETAIN_AS_PUBLISHED, retain handling DoNotSend), which pass the
    options decoder and [add_topic]; the dispatcher stores the flag and
    answers [GrantedQoS0]; a QoS 0 publish on [a] by client [d] then
    reaches [unimplemented!()] whatever the noise feature and permeability. *)
Theorem retain_as_published_panics :
  options_deserialize [0x28] = Ok (0x28, []) /\
  add_topic (subscribe_new 1) "a" 0x28 = Ok (mkSubscribe 1 [] [("a"%string, 0x28)]) /\
  exists d1,
    process_subscribe two_clients "c" (mkSubscribe 1 [] [("a"%string, 0x28)]) = Returned d1 None /\
    sent d1 = [("c"%string, OSubAck 1 [GrantedQoS0])] /\
    Topics.get_all_subscribed (topics_table d1) "a" =
      [("c"%string, Topics.mkSubscriptionInfo QoS0 Topics.RETAIN_AS_PUBLISHED)] /\
    forall noise strict,
      process_publish noise strict d1 "d" (mkPublish 0 "a" [0x68] []) = Panicked.
Proof.
  split; [reflexivity|]. split; [reflexivity|].
  eexists. split; [reflexivity|]. split; [reflexivity|]. split; [reflexivity|].
  intros [|] [|]; reflexivity.
Qed.

(** C7: for a SUBSCRIBE without a SubscriptionIdentifier property, whose
    options are decodable bytes, from a client in the directory: the entries
    with QoS 0 and retain handling DoNotSend are inserted, in order, under
    (client, filter) with the flags NO_LOCAL and RETAIN_AS_PUBLISHED copied
    from the options, and get GrantedQoS0; every other entry gets
    ImplementationSpecificError and is not inserted; the SUBACK carrying
    these codes in order is sent and the call returns [Ok]. *)
Theorem process_subscribe_entries d client sub :
  Topics.get client (clients d) <> None ->
  existsb (fun kv => Property_beq (fst kv) SubscriptionIdentifier) (sub_props sub) = false ->
  Forall valid_entry (topics sub) ->
  process_subscribe d client sub =
    Returned (mkDispatcher (accepted_index (topics_table d) client (topics sub))
                (clients d)
                (app (sent d) [(client, OSubAck (packet_identifier sub)
                                          (accepted_codes (topics sub)))]))
             None.
Proof.
  intros Hc Hp Hv. unfold process_subscribe. rewrite Hp.
  rewrite (subscribe_topics_valid _ _ _ _ Hv). cbn [app].
  unfold set_topics. cbn [clients].
  destruct (Topics.get client (clients d)) eqn:E; [reflexivity | congruence].
Qed.

Lemma process_subscribe_entries_witness :
  process_subscribe two_clients "c" (mkSubscribe 7 [] [("a"%string, 0x20); ("b"%string, 0x01)]) =
    Returned (mkDispatcher (accepted_index Topics.table_new "c" [("a"%string, 0x20); ("b"%string, 0x01)])
                (clients two_clients)
                [("c"%string, OSubAck 7 [GrantedQoS0; ImplementationSpecificError])])
             None.
Proof.
  apply (process_subscribe_entries two_clients "c" (mkSubscribe 7 [] [("a"%string, 0x20); ("b"%string, 0x01)])).
  - vm_compute. discriminate.
  - reflexivity.
  - repeat constructor; simpl; try lia; eexists; reflexivity.
Defined.

(** C7, counterexample: options 0x28 request RETAIN_AS_PUBLISHED, which
    publish delivery does not support; the entry is still inserted with
    that flag and answered GrantedQoS0, and the next matching publish
    panics. *)
Lemma subscribe_unsupported_retain_as_published_granted :
  exists d1,
    process_subscribe two_clients "c" (mkSubscribe 2 [] [("t"%string, 0x28)]) = Returned d1 None /\
    sent d1 = [("c"%string, OSubAck 2 [GrantedQoS0])] /\
    Topics.get_all_subscribed (topics_table d1) "t" =
      [("c"%string, Topics.mkSubscriptionInfo QoS0 Topics.RETAIN_AS_PUBLISHED)] /\
    process_publish false false d1 "c" (mkPublish 0 "t" [] []) = Panicked.
Proof.
  eexists. split; [reflexivity|]. split; [reflexivity|]. split; reflexivity.
Qed.

End DispatchFacts.

(** * The subscription tree against filter matching *)
Module TopicsFacts.
Import Qos Topics TopicsSpec.
Local Open Scope string_scope.

Lemma get_put {V : Type} (k k' : string) (v : V) m :
  get k (put k' v m) = if String.eqb k k' then Some v else get k m.
Proof.
  induction m as [|[k1 v1] m IH]; simpl; [reflexivity|].
  destruct (String.eqb_spec k' k1) as [<-|Hne]; simpl.
  - destruct (String.eqb k k'); reflexivity.
  - rewrite IH. destruct (String.eqb_spec k k1), (String.eqb_spec k k'); congruence.
Qed.

Lemma stored_new p h : stored block_new p h = [].
Proof. destruct p, h; reflexivity. Qed.

Lemma create_child b x : exists sb,
  get x (sub_blocks (create_if_not_existing b x)) = Some sb /\
  forall p h, stored sb p h =
    match get x (sub_blocks b) with Some b' => stored b' p h | None => [] end.
Proof.
  unfold create_if_not_existing. destruct (get x (sub_blocks b)) as [b'|] eqn:E.
  - exists b'. split; [exact E | reflexivity].
  - exists block_new. cbn [sub_blocks]. rewrite get_put, String.eqb_refl.
    split; [reflexivity | intros; apply stored_new].
Qed.

Lemma create_other b x y : y <> x ->
  get y (sub_blocks (create_if_not_existing b x)) = get y (sub_blocks b).
Proof.
  intros Hne. unfold create_if_not_existing.
  destruct (get x (sub_blocks b)); [reflexivity|]. cbn [sub_blocks].
  rewrite get_put. destruct (String.eqb_spec y x); congruence.
Qed.

Lemma create_fields b x :
  hash_wildcard (create_if_not_existing b x) = hash_wildcard b /\
  subscribers (create_if_not_existing b x) = subscribers b.
Proof. unfold create_if_not_existing. destruct (get x (sub_blocks b)); split; reflexivity. Qed.

(** Adding a subscription changes exactly the place [target] names. *)
Lemma stored_add b l c q fl p h :
  stored (topics_add_block b l c q fl) p h =
  if slot_eq_dec (p, h) (target l)
  then put c (mkSubscriptionInfo q fl) (stored b p h) else stored b p h.
Proof.
  revert b p. induction l as [|x r IH]; intros b p.
  - destruct p as [|y p']; cbn [topics_add_block target stored insert_into_subs
      hash_wildcard subscribers sub_blocks].
    + destruct h; destruct (slot_eq_dec _ _); congruence.
    + destruct (slot_eq_dec _ _); [congruence | reflexivity].
  - cbn [topics_add_block target]. destruct (String.eqb_spec x "#") as [->|Hx].
    + destruct p as [|y p']; cbn [stored insert_into_hash hash_wildcard subscribers sub_blocks].
      * destruct h; destruct (slot_eq_dec _ _); congruence.
      * destruct (slot_eq_dec _ _); [congruence | reflexivity].
    + destruct (target r) as [p1 h1] eqn:Et.
      destruct (create_child b x) as [sb [Hsb Hst]]. rewrite Hsb.
      destruct (create_fields b x) as [Hhw Hsu].
      destruct p as [|y p']; cbn [stored hash_wildcard subscribers sub_blocks].
      * rewrite Hhw, Hsu. destruct (slot_eq_dec _ _); [congruence | reflexivity].
      * rewrite get_put. destruct (String.eqb_spec y x) as [->|Hy].
        -- rewrite IH, Hst.
           destruct (slot_eq_dec (p', h) (p1, h1)), (slot_eq_dec (x :: p', h) (x :: p1, h1));
             congruence.
        -- rewrite (create_other b x y Hy).
           destruct (slot_eq_dec _ _); [congruence | reflexivity].
Qed.

Lemma collect_app l1 l2 acc : collect (app l1 l2) acc = collect l2 (collect l1 acc).
Proof. unfold collect. apply fold_left_app. Qed.

(** [collect_subs] merges the entries of [reach] into the accumulator. *)
Lemma collect_subs_reach b acc secs :
  collect_subs b acc secs = collect (reach b secs) acc.
Proof.
  revert b acc. induction secs as [|s rest IH]; intros b acc; cbn [collect_subs reach].
  - rewrite collect_app. reflexivity.
  - rewrite collect_app, collect_app.
    destruct (get "+" (sub_blocks b)) as [pb|]; destruct (get s (sub_blocks b)) as [sb|];
      rewrite ?IH; reflexivity.
Qed.

(** The entries [collect_subs] visits are those stored at a place that
    matches the topic levels. *)
Lemma in_reach b t c i :
  In (c, i) (reach b t) <->
  exists p h, slot_matches p h t = true /\ In (c, i) (stored b p h).
Proof.
  revert b. induction t as [|y t' IH]; intros b; cbn [reach].
  - rewrite in_app_iff. split.
    + intros [H|H]; [exists [], true | exists [], false]; split; auto.
    + intros [p [h [Hm Hin]]]. destruct p as [|x p']; [|discriminate].
      destruct h; [left | right]; exact Hin.
  - rewrite in_app_iff, in_app_iff. split.
    + intros [H|[H|H]].
      * exists [], true. split; auto.
      * destruct (get "+" (sub_blocks b)) as [pb|] eqn:E; [|contradiction].
        apply IH in H. destruct H as [p [h [Hm Hin]]].
        exists ("+" :: p), h. cbn [slot_matches stored]. rewrite E, Hm. auto.
      * destruct (get y (sub_blocks b)) as [sb|] eqn:E; [|contradiction].
        apply IH in H. destruct H as [p [h [Hm Hin]]].
        exists (y :: p), h. cbn [slot_matches stored]. rewrite E, Hm, String.eqb_refl.
        rewrite orb_true_r. auto.
    + intros [p [h [Hm Hin]]]. destruct p as [|x p'].
      * destruct h; [left; exact Hin | discriminate].
      * cbn [slot_matches stored] in Hm, Hin. apply andb_true_iff in Hm as [Hx Hm].
        destruct (get x (sub_blocks b)) as [xb|] eqn:E; [|contradiction].
        apply orb_true_iff in Hx as [Hx|Hx]; apply String.eqb_eq in Hx; subst x;
          [right; left | right; right]; rewrite E; apply IH; eauto.
Qed.

(** The place of a filter matches exactly the topics the filter matches. *)
Lemma slot_target l t :
  slot_matches (fst (target l)) (snd (target l)) t = levels_match l t.
Proof.
  revert t. induction l as [|x r IH]; intros t; cbn [target levels_match].
  - reflexivity.
  - destruct (String.eqb x "#"); [reflexivity|].
    specialize (IH). destruct (target r) as [p h] eqn:Et. cbn [fst snd slot_matches].
    destruct t as [|y t']; [reflexivity|]. rewrite <- IH. reflexivity.
Qed.

Lemma get_collect_entry acc c c' i' :
  get c (collect_entry acc (c', i')) =
  if String.eqb c c'
  then Some match get c acc with
            | None => i'
            | Some e => if qos_ltb (qos e) (qos i') then i' else e
            end
  else get c acc.
Proof.
  unfold collect_entry. destruct (String.eqb_spec c c') as [->|Hne].
  - destruct (get c' acc) as [e|] eqn:E.
    + destruct (qos_ltb (qos e) (qos i')); [rewrite get_put, String.eqb_refl|]; auto.
    + rewrite get_put, String.eqb_refl. reflexivity.
  - destruct (get c' acc) as [e|];
      [destruct (qos_ltb (qos e) (qos i'))|]; rewrite ?get_put;
      destruct (String.eqb_spec c c'); congruence.
Qed.

Lemma merge_ge e i' :
  qos_level (qos e) <= qos_level (qos (if qos_ltb (qos e) (qos i') then i' else e)) /\
  qos_level (qos i') <= qos_level (qos (if qos_ltb (qos e) (qos i') then i' else e)).
Proof. unfold qos_ltb. destruct (Z.ltb_spec (qos_level (qos e)) (qos_level (qos i'))); lia. Qed.

(** Merging keeps every client id it sees ... *)
Lemma collect_none src acc c :
  get c (collect src acc) = None <-> get c acc = None /\ forall i, ~ In (c, i) src.
Proof.
  revert acc. induction src as [|[c' i'] src IH]; intros acc; cbn [collect fold_left].
  - split; [intros H; split; [exact H | intros i []] | intros [H _]; exact H].
  - fold (collect src (collect_entry acc (c', i'))). rewrite IH, get_collect_entry.
    destruct (String.eqb_spec c c') as [->|Hne].
    + split; [intros [H _]; discriminate|].
      intros [_ H]. exfalso. apply (H i'). left. reflexivity.
    + split.
      * intros [H1 H2]. split; [exact H1|]. intros i [Heq|Hin]; [congruence | exact (H2 i Hin)].
      * intros [H1 H2]. split; [exact H1|]. intros i Hin. apply (H2 i). right. exact Hin.
Qed.

(** ... and for each one the entry of highest QoS among those it saw. *)
Lemma collect_some src acc c i :
  get c (collect src acc) = Some i ->
  (get c acc = Some i \/ In (c, i) src) /\
  (forall i', get c acc = Some i' \/ In (c, i') src ->
              qos_level (qos i') <= qos_level (qos i)).
Proof.
  revert acc. induction src as [|[c' i'] src IH]; intros acc; cbn [collect fold_left].
  - intros H. split; [left; exact H|]. intros i' [H'|[]]. rewrite H in H'. inversion H'. lia.
  - fold (collect src (collect_entry acc (c', i'))). intros H.
    destruct (IH _ H) as [Hw Hmax]. clear IH H.
    rewrite get_collect_entry in Hw, Hmax.
    destruct (String.eqb_spec c c') as [->|Hne].
    + assert (Hm : forall j, get c' acc = Some j \/ j = i' ->
              qos_level (qos j) <= qos_level (qos i)).
      { intros j Hj. specialize (Hmax _ (or_introl eq_refl)).
        destruct (get c' acc) as [e|].
        - pose proof (merge_ge e i'). destruct Hj as [Hj|Hj]; [injection Hj as <- | subst]; lia.
        - destruct Hj as [Hj|Hj]; [discriminate | subst; lia]. }
      split.
      * destruct Hw as [Hw|Hw]; [|right; right; exact Hw].
        injection Hw as Hw. destruct (get c' acc) as [e|].
        -- destruct (qos_ltb (qos e) (qos i')); subst; [right; left; reflexivity | left; reflexivity].
        -- subst. right. left. reflexivity.
      * intros j [Hj|[Hj|Hj]].
        -- apply Hm. left. exact Hj.
        -- injection Hj as <-. apply Hm. right. reflexivity.
        -- apply Hmax. right. exact Hj.
    + split.
      * destruct Hw as [Hw|Hw]; [left; exact Hw | right; right; exact Hw].
      * intros j [Hj|[Hj|Hj]]; [apply Hmax; left; exact Hj | congruence |
                                 apply Hmax; right; exact Hj].
Qed.

(** ** Level lists of filters and topics *)

Lemma split_cons s : exists x r, split s = x :: r.
Proof.
  destruct s as [|c s']; [eexists _, _; reflexivity|]. simpl.
  destruct (Ascii.eqb c "/"%char); [eexists _, _; reflexivity|].
  destruct (split s'); eexists _, _; reflexivity.
Qed.

Lemma join_cons x r : r <> [] -> join (x :: r) = x ++ "/" ++ join r.
Proof. destruct r; [congruence | reflexivity]. Qed.

Lemma join_split s : join (split s) = s.
Proof.
  induction s as [|c s' IH]; [reflexivity|]. cbn [split].
  destruct (Ascii.eqb_spec c "/"%char) as [->|Hc].
  - destruct (split_cons s') as [x [r E]]. rewrite join_cons by (rewrite E; discriminate).
    rewrite IH. reflexivity.
  - destruct (split s') as [|x r] eqn:E; [destruct (split_cons s') as [? [? E']]; congruence|].
    destruct r as [|y r'].
    + cbn [join] in *. rewrite IH. reflexivity.
    + rewrite join_cons by discriminate. rewrite join_cons in IH by discriminate.
      rewrite <- IH. reflexivity.
Qed.

Lemma split_inj a b : split a = split b -> a = b.
Proof. intros H. rewrite <- (join_split a), <- (join_split b), H. reflexivity. Qed.

Lemma split_no_slash s x : In x (split s) -> x <> "/".
Proof.
  induction s as [|c s' IH]; cbn [split].
  - intros [<-|[]]. discriminate.
  - destruct (Ascii.eqb_spec c "/"%char) as [->|Hc].
    + intros [<-|Hx]; [discriminate | exact (IH Hx)].
    + destruct (split s') as [|y r] eqn:E.
      * intros [<-|[]]. intros H. inversion H. congruence.
      * intros [<-|Hx].
        -- intros H. inversion H. congruence.
        -- apply IH. right. exact Hx.
Qed.

Definition rename_first (x : string) : string := if String.eqb x "" then "/" else x.

Lemma tts_split s :
  exists x r, split s = x :: r /\ topic_to_subtopics s = rename_first x :: r.
Proof.
  destruct (split_cons s) as [x [r E]]. exists x, r. split; [exact E|].
  unfold topic_to_subtopics. rewrite E. reflexivity.
Qed.

Lemma rename_first_eqb x y : x <> "/" -> y <> "/" ->
  String.eqb (rename_first x) (rename_first y) = String.eqb x y.
Proof.
  intros Hx Hy. unfold rename_first.
  destruct (String.eqb_spec x ""), (String.eqb_spec y ""); subst.
  - rewrite !String.eqb_refl. reflexivity.
  - destruct (String.eqb_spec "/" y), (String.eqb_spec "" y); congruence.
  - destruct (String.eqb_spec x "/"), (String.eqb_spec x ""); congruence.
  - reflexivity.
Qed.

Lemma rename_first_lit x l : l <> "/" -> l <> "" ->
  String.eqb (rename_first x) l = String.eqb x l.
Proof.
  intros H1 H2. unfold rename_first.
  destruct (String.eqb_spec x ""); [subst|reflexivity].
  destruct (String.eqb_spec "/" l), (String.eqb_spec "" l); congruence.
Qed.

Lemma tts_inj a b : topic_to_subtopics a = topic_to_subtopics b -> a = b.
Proof.
  destruct (tts_split a) as [x [r [Ea Ta]]], (tts_split b) as [y [q [Eb Tb]]].
  rewrite Ta, Tb. intros H. injection H as Hxy Hrq. apply split_inj. rewrite Ea, Eb, Hrq.
  f_equal. apply String.eqb_eq. rewrite <- rename_first_eqb, Hxy, String.eqb_refl;
    [reflexivity | apply (split_no_slash a) | apply (split_no_slash b)];
    [rewrite Ea | rewrite Eb]; left; reflexivity.
Qed.

Lemma hash_last_tts s : hash_last (topic_to_subtopics s) = hash_last (split s).
Proof.
  destruct (tts_split s) as [x [r [E T]]]. rewrite E, T. cbn [hash_last].
  rewrite rename_first_lit by discriminate. reflexivity.
Qed.

(** Renaming an empty first level to ["/"] does not change matching. *)
Lemma levels_match_tts f t :
  levels_match (topic_to_subtopics f) (topic_to_subtopics t) = filter_matches f t.
Proof.
  unfold filter_matches.
  destruct (tts_split f) as [x [r [E T]]], (tts_split t) as [y [q [E' T']]].
  rewrite E, T, E', T'. cbn [levels_match].
  rewrite !rename_first_lit by discriminate.
  rewrite rename_first_eqb; [reflexivity| |];
    [apply (split_no_slash f) | apply (split_no_slash t)];
    [rewrite E | rewrite E']; left; reflexivity.
Qed.

Lemma target_inj l1 l2 :
  hash_last l1 = true -> hash_last l2 = true -> target l1 = target l2 -> l1 = l2.
Proof.
  revert l2. induction l1 as [|x r IH]; intros l2 H1 H2 Ht.
  - destruct l2 as [|y q]; [reflexivity|]. cbn [target] in Ht.
    destruct (String.eqb y "#"); [discriminate|]. destruct (target q); discriminate.
  - destruct l2 as [|y q].
    + cbn [target] in Ht. destruct (String.eqb x "#"); [discriminate|].
      destruct (target r); discriminate.
    + cbn [hash_last target] in H1, H2, Ht.
      apply andb_true_iff in H1 as [H1 H1']. apply andb_true_iff in H2 as [H2 H2'].
      destruct (String.eqb_spec x "#") as [->|Hx], (String.eqb_spec y "#") as [->|Hy].
      * destruct r; [|discriminate]. destruct q; [reflexivity|discriminate].
      * destruct (target q); discriminate.
      * destruct (target r); discriminate.
      * destruct (target r) as [p h] eqn:Er, (target q) as [p' h'] eqn:Eq.
        injection Ht as -> -> ->. f_equal. apply IH; auto; congruence.
Qed.

Lemma valid_loop_step p c s :
  Topic.is_valid_topic_loop p (String c s) = true ->
  Topic.is_valid_topic_loop c s = true /\ (c = "#"%char -> s = "").
Proof.
  cbn [Topic.is_valid_topic_loop]. destruct (Ascii.eqb_spec c "#") as [->|Hc].
  - destruct (negb (Ascii.eqb p "/") || negb (String.eqb s "")) eqn:E; [discriminate|].
    apply orb_false_iff in E as [_ E]. apply negb_false_iff, String.eqb_eq in E. auto.
  - intros H. split; [|congruence].
    destruct (Ascii.eqb c "+"); [|exact H].
    destruct (_ || _); [discriminate | exact H].
Qed.

(** In a filter [MqttTopic::new] accepts, ["#"] is the last level. *)
Lemma valid_topic_hash_last s :
  Topic.is_valid_topic s = true -> hash_last (split s) = true.
Proof.
  unfold Topic.is_valid_topic. generalize "/"%char as p.
  induction s as [|c s' IH]; intros p H; [reflexivity|].
  apply valid_loop_step in H as [H Hh]. specialize (IH _ H). cbn [split].
  destruct (Ascii.eqb_spec c "/"%char) as [->|Hc]; [exact IH|].
  destruct (split_cons s') as [x [r E]]. rewrite E in *.
  cbn [hash_last] in *. apply andb_true_iff in IH as [_ IH]. rewrite IH, andb_true_r.
  destruct (String.eqb_spec (String c x) "#") as [Hx|Hx]; [|reflexivity].
  inversion Hx; subst. rewrite (Hh eq_refl) in E. cbn in E. injection E as <-. reflexivity.
Qed.

(** ** The index after a sequence of subscriptions *)

Lemma stored_subscribe_fold subs t0 p h :
  stored (root_block (fold_left (fun t s => let '(c, f, i) := s in
                                  subscribe t c f (qos i) (flags i)) subs t0)) p h =
  fold_left (store_step p h) subs (stored (root_block t0) p h).
Proof.
  revert t0. induction subs as [|[[c f] [q fl]] subs IH]; intros t0; [reflexivity|].
  cbn [fold_left]. rewrite IH. f_equal. cbn [subscribe root_block store_step qos flags].
  apply stored_add.
Qed.

Lemma stored_subscribe_all subs p h :
  stored (root_block (subscribe_all subs)) p h = fold_left (store_step p h) subs [].
Proof. unfold subscribe_all. rewrite stored_subscribe_fold. cbn [root_block table_new]. rewrite stored_new. reflexivity. Qed.

Lemma nodup_put {V : Type} k (v : V) m :
  NoDup (map fst m) -> NoDup (map fst (put k v m)).
Proof.
  induction m as [|[k' v'] m IH]; intros H; cbn [put map fst].
  - constructor; [intros []|constructor].
  - inversion H as [|? ? Hn Hd]; subst.
    destruct (String.eqb_spec k k') as [->|Hne]; cbn [map fst]; [constructor; assumption|].
    constructor; [|apply IH; exact Hd].
    intros Hin. apply in_map_iff in Hin as [[k'' v''] [Heq Hin]]. cbn [fst] in Heq. subst k''.
    assert (Hg : get k' (put k v m) <> None).
    { clear -Hin. induction (put k v m) as [|[a b] l IHl]; [destruct Hin|].
      cbn [get]. destruct (String.eqb_spec k' a); [discriminate|].
      destruct Hin as [Hin|Hin]; [injection Hin; congruence | exact (IHl Hin)]. }
    rewrite get_put in Hg. destruct (String.eqb_spec k' k); [congruence|].
    apply Hg. clear -Hn. induction m as [|[a b] l IHl]; [reflexivity|].
    cbn [get]. cbn [map fst] in Hn. destruct (String.eqb_spec k' a); [|apply IHl].
    + exfalso. apply Hn. left. congruence.
    + intros Hl. apply Hn. right. exact Hl.
Qed.

Lemma get_in {V : Type} k (v : V) m : get k m = Some v -> In (k, v) m.
Proof.
  induction m as [|[k' v'] m IH]; cbn [get]; [discriminate|].
  destruct (String.eqb_spec k k') as [->|_]; [intros H; injection H as ->; left; reflexivity|].
  intros H. right. exact (IH H).
Qed.

Lemma in_get {V : Type} k (v : V) m : NoDup (map fst m) -> In (k, v) m -> get k m = Some v.
Proof.
  induction m as [|[k' v'] m IH]; intros Hd Hin; [destruct Hin|].
  inversion Hd as [|? ? Hn Hd']; subst. cbn [get].
  destruct Hin as [Heq|Hin].
  - injection Heq as -> ->. rewrite String.eqb_refl. reflexivity.
  - destruct (String.eqb_spec k k') as [->|_]; [|exact (IH Hd' Hin)].
    exfalso. apply Hn. apply in_map_iff. exists (k', v). auto.
Qed.

Lemma in_put {V : Type} x k (v : V) m : In x (put k v m) -> x = (k, v) \/ In x m.
Proof.
  induction m as [|[k' v'] m IH]; cbn [put].
  - intros [H|[]]. left. symmetry. exact H.
  - destruct (String.eqb k k').
    + intros [H|H]; [left; symmetry; exact H | right; right; exact H].
    + intros [H|H]; [right; left; exact H|]. destruct (IH H); [left | right; right]; assumption.
Qed.

Lemma stored_nodup subs p h acc :
  NoDup (map fst acc) -> NoDup (map fst (fold_left (store_step p h) subs acc)).
Proof.
  revert acc. induction subs as [|[[c f] i] subs IH]; intros acc H; [exact H|].
  cbn [fold_left store_step]. apply IH.
  destruct (slot_eq_dec _ _); [apply nodup_put|]; exact H.
Qed.

Lemma stored_origin subs p h acc x :
  In x (fold_left (store_step p h) subs acc) ->
  In x acc \/ exists c f i, In (c, f, i) subs /\ (p, h) = target (topic_to_subtopics f).
Proof.
  revert acc. induction subs as [|[[c f] i] subs IH]; intros acc H; [left; exact H|].
  cbn [fold_left store_step] in H. apply IH in H as [H|[c' [f' [i' [Hin He]]]]].
  - destruct (slot_eq_dec _ _) as [He|]; [|left; exact H].
    right. exists c, f, i. split; [left; reflexivity | exact He].
  - right. exists c', f', i'. split; [right; exact Hin | exact He].
Qed.

Lemma slot_eq_iff f f' :
  Topic.is_valid_topic f = true -> Topic.is_valid_topic f' = true ->
  target (topic_to_subtopics f) = target (topic_to_subtopics f') <-> f = f'.
Proof.
  intros Hf Hf'. split; [|intros ->; reflexivity].
  intros H. apply tts_inj, target_inj; [| |exact H]; rewrite hash_last_tts;
    apply valid_topic_hash_last; assumption.
Qed.

Lemma get_stored_latest subs c f acc :
  Forall (fun s => Topic.is_valid_topic (snd (fst s)) = true) subs ->
  Topic.is_valid_topic f = true ->
  get c (fold_left (store_step (fst (target (topic_to_subtopics f)))
                               (snd (target (topic_to_subtopics f)))) subs acc) =
  fold_left (fun o s => let '(c', f', i) := s in
                        if String.eqb c' c && String.eqb f' f then Some i else o)
            subs (get c acc).
Proof.
  revert acc. induction subs as [|[[c' f'] i] subs IH]; intros acc Hall Hf; [reflexivity|].
  inversion Hall as [|? ? Hf' Hall']; subst. cbn [fst snd] in Hf'.
  cbn [fold_left store_step]. rewrite IH by assumption. f_equal.
  rewrite <- surjective_pairing.
  destruct (slot_eq_dec _ _) as [He|Hne].
  - apply (slot_eq_iff f f' Hf Hf') in He. subst f'. rewrite String.eqb_refl, andb_true_r.
    rewrite get_put, String.eqb_sym. reflexivity.
  - destruct (String.eqb_spec f' f) as [->|_]; [exfalso; apply Hne; reflexivity|].
    rewrite andb_false_r. reflexivity.
Qed.

Lemma latest_in subs c f i : latest subs c f = Some i -> In (c, f, i) subs.
Proof.
  unfold latest.
  enough (H : forall o, fold_left (fun o s => let '(c', f', i) := s in
                          if String.eqb c' c && String.eqb f' f then Some i else o) subs o = Some i ->
                        o = Some i \/ In (c, f, i) subs).
  { intros Ho. destruct (H None Ho) as [Hn|Hin]; [discriminate | exact Hin]. }
  induction subs as [|[[c' f'] i'] subs IH]; intros o Ho; [left; exact Ho|].
  cbn [fold_left] in Ho. apply IH in Ho as [Ho|Ho]; [|right; right; exact Ho].
  destruct (String.eqb_spec c' c), (String.eqb_spec f' f); cbn [andb] in Ho;
    [|left; exact Ho ..].
  subst. injection Ho as ->. right. left. reflexivity.
Qed.

(** The entries [get_all_subscribed] merges are the latest subscriptions
    of the filters that match the topic. *)
Lemma in_reach_subscribe_all subs t c i :
  Forall (fun s => Topic.is_valid_topic (snd (fst s)) = true) subs ->
  In (c, i) (reach (root_block (subscribe_all subs)) (topic_to_subtopics t)) <->
  exists f, filter_matches f t = true /\ latest subs c f = Some i.
Proof.
  intros Hall. rewrite in_reach. split.
  - intros [p [h [Hm Hin]]]. rewrite stored_subscribe_all in Hin.
    destruct (stored_origin _ _ _ _ _ Hin) as [[]|[c0 [f0 [i0 [Hs Hp]]]]].
    assert (Hf0 : Topic.is_valid_topic f0 = true)
      by (rewrite Forall_forall in Hall; exact (Hall _ Hs)).
    exists f0. rewrite <- levels_match_tts, <- slot_target, <- Hp. split; [exact Hm|].
    apply in_get in Hin; [|apply stored_nodup; constructor].
    replace p with (fst (target (topic_to_subtopics f0))) in Hin by (rewrite <- Hp; reflexivity).
    replace h with (snd (target (topic_to_subtopics f0))) in Hin by (rewrite <- Hp; reflexivity).
    rewrite get_stored_latest in Hin by assumption. exact Hin.
  - intros [f [Hm Hl]].
    assert (Hf : Topic.is_valid_topic f = true).
    { apply latest_in in Hl. rewrite Forall_forall in Hall. exact (Hall _ Hl). }
    exists (fst (target (topic_to_subtopics f))), (snd (target (topic_to_subtopics f))).
    rewrite slot_target, levels_match_tts. split; [exact Hm|].
    rewrite stored_subscribe_all. apply get_in.
    rewrite get_stored_latest by assumption. exact Hl.
Qed.

(** C1: after any sequence of [TopicsTable::subscribe] calls with filters
    that [MqttTopic::new] accepts, [get_all_subscribed t] has an entry for a
    client exactly when one of the client's filters matches [t] (levels
    compared with ["+"] and ["#"] as wildcards, no special case for topics
    starting with ['$']); the entry is the client's current subscription
    (its latest) for one matching filter, and its QoS is the highest among
    the client's current subscriptions for matching filters. *)
Theorem get_all_subscribed_spec subs t c :
  Forall (fun s => Topic.is_valid_topic (snd (fst s)) = true) subs ->
  (get c (get_all_subscribed (subscribe_all subs) t) = None <->
     forall f, filter_matches f t = true -> latest subs c f = None) /\
  (forall i, get c (get_all_subscribed (subscribe_all subs) t) = Some i ->
     exists f, filter_matches f t = true /\ latest subs c f = Some i /\
       forall f' i', filter_matches f' t = true -> latest subs c f' = Some i' ->
                     qos_level (qos i') <= qos_level (qos i)).
Proof.
  intros Hall. unfold get_all_subscribed. rewrite collect_subs_reach. split.
  - rewrite collect_none. split.
    + intros [_ H] f Hm. destruct (latest subs c f) as [i|] eqn:E; [|reflexivity].
      exfalso. apply (H i), in_reach_subscribe_all; [exact Hall|]. eauto.
    + intros H. split; [reflexivity|]. intros i Hin.
      apply in_reach_subscribe_all in Hin as [f [Hm Hl]]; [|exact Hall].
      rewrite (H f Hm) in Hl. discriminate.
  - intros i Hi. apply collect_some in Hi as [[Hi|Hi] Hmax]; [discriminate|].
    apply in_reach_subscribe_all in Hi as [f [Hm Hl]]; [|exact Hall].
    exists f. split; [exact Hm|]. split; [exact Hl|].
    intros f' i' Hm' Hl'. apply Hmax. right.
    apply in_reach_subscribe_all; [exact Hall|]. eauto.
Qed.

Lemma get_all_subscribed_spec_witness :
  let subs := [("c", "a/+", mkSubscriptionInfo QoS1 0); ("c", "#", mkSubscriptionInfo QoS0 1);
               ("d", "b", mkSubscriptionInfo QoS2 0)] in
  (get "c" (get_all_subscribed (subscribe_all subs) "a/x") = None <->
     forall f, filter_matches f "a/x" = true -> latest subs "c" f = None) /\
  (forall i, get "c" (get_all_subscribed (subscribe_all subs) "a/x") = Some i ->
     exists f, filter_matches f "a/x" = true /\ latest subs "c" f = Some i /\
       forall f' i', filter_matches f' "a/x" = true -> latest subs "c" f' = Some i' ->
                     qos_level (qos i') <= qos_level (qos i)).
Proof.
  intros subs. apply (get_all_subscribed_spec subs "a/x" "c").
  repeat constructor.
Defined.

(** C1, counterexample: a filter starting with ["#"] matches a topic
    starting with ['$'], which MQTT v5 excludes; and a second subscription
    of the same client to the same filter replaces the first, so the QoS
    returned is not the maximum of the QoS values subscribed. *)
Lemma get_all_subscribed_dollar_and_resubscribe :
  get_all_subscribed (subscribe_all [("c", "#", mkSubscriptionInfo QoS0 0)]) "$SYS/x" =
    [("c", mkSubscriptionInfo QoS0 0)] /\
  get_all_subscribed (subscribe_all [("c", "a", mkSubscriptionInfo QoS2 0);
                                     ("c", "a", mkSubscriptionInfo QoS0 0)]) "a" =
    [("c", mkSubscriptionInfo QoS0 0)].
Proof. split; reflexivity. Qed.

End TopicsFacts.

(** ** Packet framing *)
Module PacketsFacts.
Import Wire Props Packets WireFacts PropsFacts.

Lemma vbi_size_range (i : Z) : 1 <= vbi_size i <= 4.
Proof.
  unfold vbi_size.
  destruct (i <? 0x80); [lia|]. destruct (i <? 0x4000); [lia|].
  destruct (i <? 0x200000); lia.
Qed.

Lemma value_size_nonneg (v : MqttPropValue) : 0 <= value_size v.
Proof.
  destruct v as [b|b|x|s|[k w]|d|x|x]; cbn [value_size];
    unfold pair_size; cbn [fst snd]; unfold utf8_size, binary_size; try lia.
  pose proof (vbi_size_range x). lia.
Qed.

Lemma prop_serialize_length (k : Property) :
  Z.of_nat (length (prop_serialize k)) = prop_size k.
Proof. destruct k; reflexivity. Qed.

Lemma prop_size_pos (k : Property) : 1 <= prop_size k.
Proof. unfold prop_size. apply vbi_size_range. Qed.

Lemma length_put_u16 (x : Z) : length (put_u16 x) = 2%nat.
Proof. reflexivity. Qed.

Lemma length_utf8_serialize (s : list Z) :
  Z.of_nat (length (utf8_serialize s)) = utf8_size s.
Proof.
  unfold utf8_serialize, utf8_size. rewrite length_app, length_put_u16. lia.
Qed.

Lemma length_binary_serialize (d : list Z) :
  Z.of_nat (length (binary_serialize d)) = binary_size d.
Proof.
  unfold binary_serialize, binary_size. rewrite length_app, length_put_u16. lia.
Qed.

Lemma value_serialize_length (v : MqttPropValue) : value_ok v ->
  Z.of_nat (length (value_serialize v)) = value_size v.
Proof.
  destruct v as [b|b|x|s|[k w]|d|x|x]; cbn [value_serialize value_size value_ok];
    intros H.
  - reflexivity.
  - reflexivity.
  - reflexivity.
  - apply length_utf8_serialize.
  - unfold pair_serialize, pair_size. cbn [fst snd]. rewrite length_app.
    rewrite Nat2Z.inj_add, !length_utf8_serialize. reflexivity.
  - apply length_binary_serialize.
  - apply vbi_serialize_length. exact H.
  - reflexivity.
Qed.

Lemma entry_size_nonneg k vs : 0 <= entry_size k vs.
Proof.
  induction vs as [|v vs IH]; simpl; [lia|].
  pose proof (prop_size_pos k). pose proof (value_size_nonneg v). lia.
Qed.

Lemma table_size_nonneg m : 0 <= table_size m.
Proof.
  induction m as [|kv m IH]; simpl; [lia|].
  pose proof (entry_size_nonneg (fst kv) (snd kv)). lia.
Qed.

Lemma entry_size_app k l1 l2 :
  entry_size k (l1 ++ l2) = entry_size k l1 + entry_size k l2.
Proof. induction l1 as [|v l1 IH]; simpl; lia. Qed.

Lemma table_size_hm_insert k vs m :
  table_size (hm_insert k vs m) =
  table_size m - match lookup k m with Some old => entry_size k old | None => 0 end
  + entry_size k vs.
Proof.
  induction m as [|[k' v'] m IH]; simpl; [lia|].
  destruct (Property_beq k k') eqn:E; simpl.
  - apply Property_beq_true in E. subst k'. lia.
  - rewrite IH. lia.
Qed.

Lemma Forall_hm_insert (P : Property * list MqttPropValue -> Prop) k vs m :
  Forall P m -> P (k, vs) -> Forall P (hm_insert k vs m).
Proof.
  induction m as [|[k' v'] m IH]; simpl; intros Hm Hk.
  - constructor; auto.
  - inversion Hm; subst. destruct (Property_beq k k'); constructor; auto.
Qed.

Lemma Forall_lookup (P : Property * list MqttPropValue -> Prop) k vs m :
  Forall P m -> lookup k m = Some vs -> P (k, vs).
Proof.
  induction m as [|[k' v'] m IH]; simpl; intros Hm Hl; [discriminate|].
  inversion Hm; subst. destruct (Property_beq k k') eqn:E.
  - apply Property_beq_true in E. subst k'. injection Hl as <-. assumption.
  - auto.
Qed.

Lemma entry_size_one k v : entry_size k [v] = prop_size k + value_size v.
Proof. unfold entry_size. cbn [fold_right]. lia. Qed.

Lemma unchecked_insert_inv t key value :
  table_inv t -> value_ok value ->
  table_inv (fst (unchecked_insert t key value (snd (auxiliary_data key)))).
Proof.
  intros [Hs [Hok Hsingle]] Hv.
  unfold unchecked_insert, table_inv. destruct (snd (auxiliary_data key)) eqn:Hm.
  - destruct (lookup key (props t)) as [old|] eqn:Hl; cbn -[prop_size value_size table_size hm_insert entry_size lookup];
      (split; [|split]).
    + rewrite table_size_hm_insert, Hl, entry_size_app, entry_size_one. lia.
    + apply Forall_hm_insert; [exact Hok|]. cbn [snd].
      apply Forall_app. split; [exact (Forall_lookup _ _ _ _ Hok Hl)|].
      constructor; [exact Hv|constructor].
    + apply Forall_hm_insert; [exact Hsingle|]. cbn [fst]. rewrite Hm. discriminate.
    + rewrite table_size_hm_insert, Hl, entry_size_one. lia.
    + apply Forall_hm_insert; [exact Hok|]. cbn [snd].
      constructor; [exact Hv|constructor].
    + apply Forall_hm_insert; [exact Hsingle|]. cbn [fst]. rewrite Hm. discriminate.
  - assert (Hlen : forall old, lookup key (props t) = Some old -> (length old <= 1)%nat).
    { intros old Hl. exact (Forall_lookup _ _ _ _ Hsingle Hl Hm). }
    destruct (lookup key (props t)) as [old|] eqn:Hl.
    + specialize (Hlen old eq_refl).
      destruct old as [|o [|o2 r]]; cbn -[prop_size value_size table_size hm_insert entry_size lookup] in *;
        (split; [|split]); try lia.
      * rewrite table_size_hm_insert, Hl, entry_size_one. cbn [entry_size fold_right]. lia.
      * apply Forall_hm_insert; [exact Hok|]. constructor; [exact Hv|constructor].
      * apply Forall_hm_insert; [exact Hsingle|]. cbn. lia.
      * rewrite table_size_hm_insert, Hl, !entry_size_one. lia.
      * apply Forall_hm_insert; [exact Hok|]. constructor; [exact Hv|constructor].
      * apply Forall_hm_insert; [exact Hsingle|]. cbn. lia.
    + cbn -[prop_size value_size table_size hm_insert entry_size lookup]. split; [|split].
      * rewrite table_size_hm_insert, Hl, entry_size_one. lia.
      * apply Forall_hm_insert; [exact Hok|]. constructor; [exact Hv|constructor].
      * apply Forall_hm_insert; [exact Hsingle|]. cbn. lia.
Qed.

Lemma insert_inv t key value : table_inv t -> value_ok value ->
  table_inv (fst (insert auxiliary_data t key value)).
Proof.
  intros Ht Hv. unfold insert.
  pose proof (unchecked_insert_inv
    {| size := size t; valid := Z.land (valid t) (fst (fst (auxiliary_data key)));
       props := props t |} key value Ht Hv) as H.
  destruct (auxiliary_data key) as [[filter ty] multiple].
  destruct (negb _); [exact Ht|]. cbn [snd fst] in H.
  destruct (unchecked_insert _ key value multiple) as [t' [o|]]; exact H.
Qed.

Lemma checked_insert_inv t key value ty : table_inv t -> value_ok value ->
  table_inv (fst (checked_insert auxiliary_data t key value ty)).
Proof.
  intros Ht Hv. unfold checked_insert.
  pose proof (unchecked_insert_inv
    {| size := size t; valid := Z.land (valid t) (fst (fst (auxiliary_data key)));
       props := props t |} key value Ht Hv) as H.
  destruct (auxiliary_data key) as [[filter pty] multiple].
  destruct (_ || _); [exact Ht|]. exact H.
Qed.

Lemma built_inv t : built t -> table_inv t.
Proof.
  induction 1 as [|t key value _ IH Hv|t key value ty _ IH Hv].
  - split; [reflexivity|split; constructor].
  - apply insert_inv; assumption.
  - apply checked_insert_inv; assumption.
Qed.

Lemma entry_bytes_length k vs : Forall value_ok vs ->
  Z.of_nat (length (flat_map (fun kv => prop_serialize (fst kv) ++ value_serialize (snd kv))
                             (map (pair k) vs))) = entry_size k vs.
Proof.
  induction vs as [|v vs IH]; intros H; [reflexivity|].
  inversion H; subst. cbn [map flat_map fst snd].
  rewrite !length_app, !Nat2Z.inj_add, prop_serialize_length,
    value_serialize_length, IH by assumption. unfold entry_size. cbn [fold_right]. lia.
Qed.

Lemma iter_bytes_length t :
  Forall (fun kv => Forall value_ok (snd kv)) (props t) ->
  Z.of_nat (length (flat_map (fun kv => prop_serialize (fst kv) ++ value_serialize (snd kv))
                             (iter t))) = table_size (props t).
Proof.
  unfold iter. induction (props t) as [|[k vs] m IH]; intros H; [reflexivity|].
  inversion H; subst. cbn [flat_map fst snd].
  rewrite flat_map_app, length_app, Nat2Z.inj_add, IH by assumption.
  rewrite entry_bytes_length by assumption. reflexivity.
Qed.

Lemma vbi_new_ok (i : Z) : 0 <= i <= 0xfffffff -> vbi_new i = Ok i.
Proof. intros H. unfold vbi_new. destruct (Z.gtb_spec i 0xfffffff); [lia|reflexivity]. Qed.

Lemma vbi_new_err (i : Z) : 0xfffffff < i -> vbi_new i = Err BadMqttVariableBytesInt.
Proof. intros H. unfold vbi_new. destruct (Z.gtb_spec i 0xfffffff); [reflexivity|lia]. Qed.

Lemma props_checked t ps : built t -> props_size_checked t = Some ps ->
  0 <= ps /\ (ps <= 0xfffffff -> wlen (props_put_q t) ps /\ wlen (props_put t) ps).
Proof.
  intros Hb Hc. destruct (built_inv t Hb) as [Hs [Hok _]].
  pose proof (table_size_nonneg (props t)).
  unfold props_size_checked in Hc.
  destruct (vbi_new (size t mod 2 ^ 32)) as [v|e] eqn:Hv; [|discriminate].
  injection Hc as <-. pose proof (vbi_size_range v). split; [lia|]. intros Hle.
  assert (Hsz : size t mod 2 ^ 32 = size t) by (apply Z.mod_small; lia).
  rewrite Hsz, vbi_new_ok in Hv by lia. injection Hv as <-.
  assert (Hser : Props.serialize t =
    Ok (vbi_serialize (size t) ++
        flat_map (fun kv => prop_serialize (fst kv) ++ value_serialize (snd kv)) (iter t))).
  { unfold Props.serialize. rewrite Hsz, vbi_new_ok by lia. reflexivity. }
  assert (Hlen : Z.of_nat (length (vbi_serialize (size t) ++
        flat_map (fun kv => prop_serialize (fst kv) ++ value_serialize (snd kv)) (iter t)))
        = vbi_size (size t) + size t).
  { rewrite length_app, Nat2Z.inj_add, vbi_serialize_length, iter_bytes_length by (assumption || lia).
    lia. }
  unfold wlen, props_put_q, props_put. rewrite Hser. split; eexists; split; (reflexivity || exact Hlen).
Qed.

Lemma wlen_put bs : wlen (put bs) (Z.of_nat (length bs)).
Proof. exists bs. split; reflexivity. Qed.

Lemma wlen_seq a b na nb : wlen a na -> wlen b nb -> wlen (a ;;; b) (na + nb).
Proof.
  intros [x [-> Hx]] [y [-> Hy]]. exists (x ++ y). split; [reflexivity|].
  rewrite length_app. lia.
Qed.

Lemma wlen_eq w a b : wlen w a -> a = b -> wlen w b.
Proof. intros H <-. exact H. Qed.

Lemma try_kind (sz : option Z) (R : written) :
  (forall n, sz = Some n -> 0 <= n /\ (n <= 0xfffffff -> wlen R n)) ->
  kind_ok (with_size sz (fun m => try_ (vbi_new (m mod 2 ^ 32))
                                       (fun len => put (vbi_serialize len) ;;; R))) sz.
Proof.
  intros H n Hn. destruct (H n Hn) as [Hpos HR]. subst sz. cbn [with_size].
  split; [exact Hpos|split].
  - intros Hle. destruct (HR Hle) as [bs [-> Hbs]].
    rewrite Z.mod_small, vbi_new_ok by lia. exists bs. split; [reflexivity|exact Hbs].
  - intros Hgt out. rewrite Z.mod_small, vbi_new_err by lia. discriminate.
Qed.

Lemma expect_kind (sz : option Z) (R : written) :
  (forall n, sz = Some n -> 0 <= n /\ (n <= 0xfffffff -> wlen R n)) ->
  kind_ok (with_size sz (fun m => expect (vbi_new (m mod 2 ^ 32))
                                        (fun len => put (vbi_serialize len) ;;; R))) sz.
Proof.
  intros H n Hn. destruct (H n Hn) as [Hpos HR]. subst sz. cbn [with_size].
  split; [exact Hpos|split].
  - intros Hle. destruct (HR Hle) as [bs [-> Hbs]].
    rewrite Z.mod_small, vbi_new_ok by lia. exists bs. split; [reflexivity|exact Hbs].
  - intros Hgt out. rewrite Z.mod_small, vbi_new_err by lia. discriminate.
Qed.

Lemma zlen_u16 x : Z.of_nat (length (put_u16 x)) = 2.
Proof. reflexivity. Qed.

Lemma zlen_u8 x : Z.of_nat (length (put_u8 x)) = 1.
Proof. reflexivity. Qed.

Lemma zlen_codes codes : Z.of_nat (length (flat_map put_u8 codes)) = Z.of_nat (length codes).
Proof.
  induction codes as [|c codes IH]; [reflexivity|].
  cbn [flat_map length]. rewrite length_app, Nat2Z.inj_add, IH, zlen_u8. lia.
Qed.

Lemma zlen_topics (ts : list (list Z * Z)) :
  Z.of_nat (length (flat_map (fun kv => utf8_serialize (fst kv) ++ put_u8 (snd kv)) ts)) =
  fold_right (fun kv acc => utf8_size (fst kv) + 1 + acc) 0 ts.
Proof.
  induction ts as [|kv ts IH]; [reflexivity|].
  cbn [flat_map fold_right]. rewrite !length_app, !Nat2Z.inj_add, IH,
    length_utf8_serialize, zlen_u8. lia.
Qed.

Lemma zlen_unsub (ts : list (list Z)) :
  Z.of_nat (length (flat_map utf8_serialize ts)) =
  fold_right (fun t acc => utf8_size t + acc) 0 ts.
Proof.
  induction ts as [|t ts IH]; [reflexivity|].
  cbn [flat_map fold_right]. rewrite length_app, Nat2Z.inj_add, IH, length_utf8_serialize.
  reflexivity.
Qed.

Lemma zlen_opt {A : Type} (f : A -> list Z) (g : A -> Z) o :
  (forall a, Z.of_nat (length (f a)) = g a) ->
  Z.of_nat (length (opt_bytes f o)) = opt_size g o.
Proof. intros H. destruct o; [apply H|reflexivity]. Qed.

Ltac wl := repeat first [ apply wlen_seq | apply wlen_put | eassumption ].

Ltac zlen := rewrite ?zlen_u16, ?zlen_u8, ?zlen_codes, ?zlen_topics, ?zlen_unsub,
  ?length_utf8_serialize, ?length_binary_serialize,
  ?(zlen_opt utf8_serialize utf8_size _ length_utf8_serialize),
  ?(zlen_opt binary_serialize binary_size _ length_binary_serialize),
  ?(zlen_opt put_u16 (fun _ => 2) _ zlen_u16).

Ltac props_step H :=
  let ps := fresh "ps" in let Hc := fresh "Hc" in
  let Hps := fresh "Hps" in let Hw := fresh "Hw" in
  match type of H with
  | option_map _ (props_size_checked ?t) = Some _ =>
      destruct (props_size_checked t) as [ps|] eqn:Hc; [|discriminate H];
      cbn [option_map] in H;
      match type of H with
      | Some ?x = Some ?y => assert (x = y) by congruence; subst y
      end
  end.

Lemma ack_ok a : built (ack_props a) -> kind_ok (ack_serialize a) (ack_partial_size a).
Proof.
  intros Hb. apply expect_kind. intros n Hn. unfold ack_partial_size in Hn.
  props_step Hn. destruct (props_checked _ _ Hb Hc) as [Hps Hw].
  split; [lia|]. intros Hle. destruct (Hw ltac:(lia)) as [Hq Hu].
  eapply wlen_eq; [wl|]. zlen. unfold utf8_size, binary_size in *. lia.
Qed.

Lemma utf8_size_nonneg s : 0 <= utf8_size s.
Proof. unfold utf8_size. lia. Qed.

Lemma topics_nonneg (ts : list (list Z * Z)) :
  0 <= fold_right (fun kv acc => utf8_size (fst kv) + 1 + acc) 0 ts.
Proof.
  induction ts as [|kv ts IH]; cbn [fold_right]; [lia|].
  pose proof (utf8_size_nonneg (fst kv)). lia.
Qed.

Lemma unsub_nonneg (ts : list (list Z)) :
  0 <= fold_right (fun t acc => utf8_size t + acc) 0 ts.
Proof.
  induction ts as [|t ts IH]; cbn [fold_right]; [lia|].
  pose proof (utf8_size_nonneg t). lia.
Qed.

Lemma opt_size_nonneg {A : Type} (g : A -> Z) o :
  (forall a, 0 <= g a) -> 0 <= opt_size g o.
Proof. intros H. destruct o; cbn [opt_size]; [apply H|lia]. Qed.

Lemma binary_size_nonneg d : 0 <= binary_size d.
Proof. unfold binary_size. lia. Qed.

Lemma pubrec_ok a : built (ack_props a) -> kind_ok (pubrec_serialize a) (ack_partial_size a).
Proof.
  intros Hb. apply try_kind. intros n Hn. unfold ack_partial_size in Hn.
  props_step Hn. destruct (props_checked _ _ Hb Hc) as [Hps Hw].
  split; [lia|]. intros Hle. destruct (Hw ltac:(lia)) as [Hq Hu].
  eapply wlen_eq; [wl|]. zlen. unfold utf8_size, binary_size in *. lia.
Qed.

Lemma rp_ok r : built (rp_props r) -> kind_ok (rp_serialize r) (rp_partial_size r).
Proof.
  intros Hb. apply expect_kind. intros n Hn. unfold rp_partial_size in Hn.
  props_step Hn. destruct (props_checked _ _ Hb Hc) as [Hps Hw].
  split; [lia|]. intros Hle. destruct (Hw ltac:(lia)) as [Hq Hu].
  eapply wlen_eq; [wl|]. zlen. unfold utf8_size, binary_size in *. lia.
Qed.

Lemma connack_ok c : built (connack_props c) ->
  kind_ok (connack_serialize c) (connack_partial_size c).
Proof.
  intros Hb. apply expect_kind. intros n Hn. unfold connack_partial_size in Hn.
  props_step Hn. destruct (props_checked _ _ Hb Hc) as [Hps Hw].
  split; [lia|]. intros Hle. destruct (Hw ltac:(lia)) as [Hq Hu].
  eapply wlen_eq; [wl|]. zlen. unfold utf8_size, binary_size in *. lia.
Qed.

Lemma suback_ok c : built (codes_props c) ->
  kind_ok (suback_serialize c) (codes_partial_size c).
Proof.
  intros Hb. apply try_kind. intros n Hn. unfold codes_partial_size in Hn.
  props_step Hn. destruct (props_checked _ _ Hb Hc) as [Hps Hw].
  split; [lia|]. intros Hle. destruct (Hw ltac:(lia)) as [Hq Hu].
  eapply wlen_eq; [wl|]. zlen. unfold utf8_size, binary_size in *. lia.
Qed.

Lemma unsuback_ok c : built (codes_props c) ->
  kind_ok (unsuback_serialize c) (codes_partial_size c).
Proof.
  intros Hb. apply expect_kind. intros n Hn. unfold codes_partial_size in Hn.
  props_step Hn. destruct (props_checked _ _ Hb Hc) as [Hps Hw].
  split; [lia|]. intros Hle. destruct (Hw ltac:(lia)) as [Hq Hu].
  eapply wlen_eq; [wl|]. zlen. unfold utf8_size, binary_size in *. lia.
Qed.

Lemma subscribe_ok s : built (sub_props s) ->
  kind_ok (subscribe_serialize s) (subscribe_partial_size s).
Proof.
  intros Hb. apply try_kind. intros n Hn. unfold subscribe_partial_size in Hn.
  props_step Hn. destruct (props_checked _ _ Hb Hc) as [Hps Hw].
  pose proof (topics_nonneg (sub_topics s)).
  split; [lia|]. intros Hle. destruct (Hw ltac:(lia)) as [Hq Hu].
  eapply wlen_eq; [wl|]. zlen. unfold utf8_size, binary_size in *. lia.
Qed.

Lemma unsubscribe_ok u : built (unsub_props u) ->
  kind_ok (unsubscribe_serialize u) (unsubscribe_partial_size u).
Proof.
  intros Hb. apply try_kind. intros n Hn. unfold unsubscribe_partial_size in Hn.
  props_step Hn. destruct (props_checked _ _ Hb Hc) as [Hps Hw].
  pose proof (unsub_nonneg (unsub_topics u)).
  split; [lia|]. intros Hle. destruct (Hw ltac:(lia)) as [Hq Hu].
  eapply wlen_eq; [wl|]. zlen. unfold utf8_size, binary_size in *. lia.
Qed.

Lemma publish_ok q : built (pub_props q) ->
  kind_ok (publish_serialize q) (publish_partial_size q).
Proof.
  intros Hb. apply try_kind. intros n Hn. unfold publish_partial_size in Hn.
  props_step Hn. destruct (props_checked _ _ Hb Hc) as [Hps Hw].
  pose proof (utf8_size_nonneg (topic_name q)).
  pose proof (opt_size_nonneg (fun _ : Z => 2) (pub_id q) ltac:(intros; lia)).
  split; [lia|]. intros Hle. destruct (Hw ltac:(lia)) as [Hq Hu].
  eapply wlen_eq; [wl|]. zlen. unfold utf8_size, binary_size in *. lia.
Qed.

Lemma will_ok w ws :
  match w with Some (wp, _, _) => built wp | None => True end ->
  will_size w = Some ws -> 0 <= ws /\ (ws <= 0xfffffff -> wlen (will_put w) ws).
Proof.
  destruct w as [[[wp topic] pl]|]; cbn [will_size will_put]; intros Hb Hw.
  - props_step Hw. destruct (props_checked _ _ Hb Hc) as [Hps Hq].
    pose proof (utf8_size_nonneg topic). pose proof (binary_size_nonneg pl).
    split; [lia|]. intros Hle. destruct (Hq ltac:(lia)) as [Hq' _].
    eapply wlen_eq; [wl|]. zlen. unfold utf8_size, binary_size in *. lia.
  - assert (ws = 0) by congruence. subst ws. split; [lia|]. intros _.
    exists []. split; reflexivity.
Qed.

Lemma connect_ok c : built (connect_props c) ->
  match will c with Some (wp, _, _) => built wp | None => True end ->
  kind_ok (connect_serialize c) (connect_partial_size c).
Proof.
  intros Hb Hwb. apply try_kind. intros n Hn. unfold connect_partial_size in Hn.
  destruct (props_size_checked (connect_props c)) as [ps|] eqn:Hc; [|discriminate].
  destruct (will_size (will c)) as [ws|] eqn:Hws; [|discriminate].
  match type of Hn with
  | Some ?x = Some ?y => assert (x = y) by congruence; subst y
  end.
  destruct (props_checked _ _ Hb Hc) as [Hps Hw].
  destruct (will_ok _ _ Hwb Hws) as [Hws0 Hwl].
  pose proof (utf8_size_nonneg (clientid c)).
  pose proof (utf8_size_nonneg protocol_name).
  pose proof (opt_size_nonneg utf8_size (username c) utf8_size_nonneg).
  pose proof (opt_size_nonneg binary_size (password c) binary_size_nonneg).
  split; [lia|]. intros Hle. destruct (Hw ltac:(lia)) as [Hq _].
  pose proof (Hwl ltac:(lia)).
  eapply wlen_eq; [wl|]. zlen. unfold utf8_size, binary_size in *. lia.
Qed.

Lemma ping_ok : kind_ok ping_serialize (Some 0).
Proof.
  intros n Hn. assert (n = 0) by congruence. subst n.
  split; [lia|split]; [|lia].
  intros _. exists []. split; reflexivity.
Qed.

Lemma frame_packet p K sz n :
  serialize p = put (put_u8 (first_byte p)) ;;; K ->
  packet_size p = option_map (Z.add 1) (framed_size sz) ->
  partial_size p = sz -> kind_ok K sz -> partial_size p = Some n ->
  (n <= 0xfffffff ->
   exists body,
     serialize p = Written (put_u8 (first_byte p) ++ vbi_serialize n ++ body) /\
     Z.of_nat (length body) = n /\
     packet_size p =
       Some (Z.of_nat (length (put_u8 (first_byte p) ++ vbi_serialize n ++ body)))) /\
  (0xfffffff < n < 2 ^ 32 ->
   packet_size p = None /\ forall out, serialize p <> Written out).
Proof.
  intros Hs Hsz Hp HK Hn. subst sz. rewrite Hn in Hsz, HK.
  destruct (HK n eq_refl) as [Hpos [H1 H2]]. split.
  - intros Hle. destruct (H1 Hle) as [body [HKe Hb]]. exists body.
    rewrite Hs, HKe. split; [reflexivity|]. split; [exact Hb|].
    rewrite Hsz. cbn [framed_size]. rewrite Z.mod_small, vbi_new_ok by lia.
    cbn [option_map]. f_equal.
    rewrite !length_app, !Nat2Z.inj_add, zlen_u8, vbi_serialize_length, Hb by lia.
    lia.
  - intros Hgt. split.
    + rewrite Hsz. cbn [framed_size]. rewrite Z.mod_small, vbi_new_err by lia.
      reflexivity.
    + intros out. rewrite Hs. specialize (H2 Hgt).
      destruct K as [o|o e|]; [|discriminate|discriminate].
      exfalso. exact (H2 o eq_refl).
Qed.

(** Above 0x0FFFFFFF the length does not fit a variable byte integer:
    [expect] panics, [?] returns after the first byte. *)
Lemma over_kind p n :
  partial_size p = Some n -> 0xfffffff < n < 2 ^ 32 ->
  serialize p = match p with
     | PConnAck _ | PPubAck _ | PPubRel _ | PPubComp _ | PUnsubAck _
     | PDisconnect _ | PAuth _ => SerPanic
     | _ => Failed (put_u8 (first_byte p)) BadMqttVariableBytesInt
     end.
Proof.
  intros Hn Hgt.
  unfold Packets.serialize; destruct p; cbn [partial_size] in *;
    try (assert (n = 0) by congruence; lia);
    unfold connect_serialize, connack_serialize, publish_serialize, ack_serialize,
      pubrec_serialize, subscribe_serialize, suback_serialize, unsubscribe_serialize,
      unsuback_serialize, rp_serialize;
    rewrite Hn; cbn [with_size];
    rewrite Z.mod_small, vbi_new_err by lia; reflexivity.
Qed.

(** C2 (corrected).  For every packet whose property tables are built by
    [Properties::new], [insert] and [checked_insert] from constructible
    values, and whose body size [partial_size] is [n]: if [n] is at most
    0x0FFFFFFF, [serialize] writes the first byte, the variable byte
    integer [n], then a body of exactly [n] bytes, and [size] is the
    number of bytes written; if [n] is above 0x0FFFFFFF (and below 2^32)
    [size] panics, and [serialize] panics ([expect]) for CONNACK, PUBACK,
    PUBREL, PUBCOMP, UNSUBACK, DISCONNECT and AUTH, and for the other
    kinds returns [BadMqttVariableBytesInt] ([?]) after writing the first
    byte. *)
Theorem packet_framing (p : Packet) (n : Z) :
  packet_ok p -> partial_size p = Some n ->
  (n <= 0xfffffff ->
   exists body,
     serialize p = Written (put_u8 (first_byte p) ++ vbi_serialize n ++ body) /\
     Z.of_nat (length body) = n /\
     packet_size p =
       Some (Z.of_nat (length (put_u8 (first_byte p) ++ vbi_serialize n ++ body)))) /\
  (0xfffffff < n < 2 ^ 32 ->
   packet_size p = None /\
   serialize p = match p with
     | PConnAck _ | PPubAck _ | PPubRel _ | PPubComp _ | PUnsubAck _
     | PDisconnect _ | PAuth _ => SerPanic
     | _ => Failed (put_u8 (first_byte p)) BadMqttVariableBytesInt
     end).
Proof.
  intros Hok Hn.
  cut ((n <= 0xfffffff ->
   exists body,
     serialize p = Written (put_u8 (first_byte p) ++ vbi_serialize n ++ body) /\
     Z.of_nat (length body) = n /\
     packet_size p =
       Some (Z.of_nat (length (put_u8 (first_byte p) ++ vbi_serialize n ++ body)))) /\
  (0xfffffff < n < 2 ^ 32 ->
   packet_size p = None /\ forall out, serialize p <> Written out)).
  { intros [Hf1 Hf2]. split; [exact Hf1|]. intros Hgt.
    split; [exact (proj1 (Hf2 Hgt))|exact (over_kind p n Hn Hgt)]. }
  destruct p as [c|c|q|a|a|a|a|s|c|u|c| | |r|r]; cbn [packet_ok] in Hok.
  - destruct Hok as [Hb Hw].
    apply (frame_packet _ (connect_serialize c) (connect_partial_size c));
      [reflexivity|reflexivity|reflexivity|apply connect_ok; assumption|exact Hn].
  - apply (frame_packet _ (connack_serialize c) (connack_partial_size c));
      [reflexivity|reflexivity|reflexivity|apply connack_ok; assumption|exact Hn].
  - apply (frame_packet _ (publish_serialize q) (publish_partial_size q));
      [reflexivity|reflexivity|reflexivity|apply publish_ok; assumption|exact Hn].
  - apply (frame_packet _ (ack_serialize a) (ack_partial_size a));
      [reflexivity|reflexivity|reflexivity|apply ack_ok; assumption|exact Hn].
  - apply (frame_packet _ (pubrec_serialize a) (ack_partial_size a));
      [reflexivity|reflexivity|reflexivity|apply pubrec_ok; assumption|exact Hn].
  - apply (frame_packet _ (ack_serialize a) (ack_partial_size a));
      [reflexivity|reflexivity|reflexivity|apply ack_ok; assumption|exact Hn].
  - apply (frame_packet _ (ack_serialize a) (ack_partial_size a));
      [reflexivity|reflexivity|reflexivity|apply ack_ok; assumption|exact Hn].
  - apply (frame_packet _ (subscribe_serialize s) (subscribe_partial_size s));
      [reflexivity|reflexivity|reflexivity|apply subscribe_ok; assumption|exact Hn].
  - apply (frame_packet _ (suback_serialize c) (codes_partial_size c));
      [reflexivity|reflexivity|reflexivity|apply suback_ok; assumption|exact Hn].
  - apply (frame_packet _ (unsubscribe_serialize u) (unsubscribe_partial_size u));
      [reflexivity|reflexivity|reflexivity|apply unsubscribe_ok; assumption|exact Hn].
  - apply (frame_packet _ (unsuback_serialize c) (codes_partial_size c));
      [reflexivity|reflexivity|reflexivity|apply unsuback_ok; assumption|exact Hn].
  - apply (frame_packet _ ping_serialize (Some 0));
      [reflexivity|reflexivity|reflexivity|exact ping_ok|exact Hn].
  - apply (frame_packet _ ping_serialize (Some 0));
      [reflexivity|reflexivity|reflexivity|exact ping_ok|exact Hn].
  - apply (frame_packet _ (rp_serialize r) (rp_partial_size r));
      [reflexivity|reflexivity|reflexivity|apply rp_ok; assumption|exact Hn].
  - apply (frame_packet _ (rp_serialize r) (rp_partial_size r));
      [reflexivity|reflexivity|reflexivity|apply rp_ok; assumption|exact Hn].
Qed.


(** A PUBACK with a reason string frames as announced. *)
Lemma packet_framing_witness :
  let p := PPubAck (mkAck 7 0 (fst (insert auxiliary_data new ReasonString
                                              (VString [111; 107])))) in
  packet_ok p /\ partial_size p = Some 9 /\
  (9 <= 0xfffffff ->
   exists body,
     serialize p = Written (put_u8 (first_byte p) ++ vbi_serialize 9 ++ body) /\
     Z.of_nat (length body) = 9 /\
     packet_size p =
       Some (Z.of_nat (length (put_u8 (first_byte p) ++ vbi_serialize 9 ++ body)))) /\
  (0xfffffff < 9 < 2 ^ 32 ->
   packet_size p = None /\ serialize p = SerPanic).
Proof.
  intros p.
  assert (Hok : packet_ok p)
    by exact (built_insert new ReasonString (VString [111; 107]) built_new I).
  assert (Hn : partial_size p = Some 9) by reflexivity.
  split; [exact Hok|split; [exact Hn|]].
  exact (packet_framing p 9 Hok Hn).
Defined.

Lemma oversized_codes_packet codes :
  0xfffffff < 3 + Z.of_nat (length codes) < 2 ^ 32 ->
  serialize (PSubAck (mkCodes 1 new codes)) = Failed [0x90] BadMqttVariableBytesInt /\
  packet_size (PSubAck (mkCodes 1 new codes)) = None /\
  serialize (PUnsubAck (mkCodes 1 new codes)) = SerPanic /\
  packet_size (PUnsubAck (mkCodes 1 new codes)) = None.
Proof.
  intros H.
  assert (Hp : codes_partial_size (mkCodes 1 new codes) =
               Some (2 + 1 + Z.of_nat (length codes))) by reflexivity.
  unfold Packets.serialize, packet_size, suback_serialize, unsuback_serialize.
  rewrite Hp. cbn [with_size framed_size option_map].
  rewrite Z.mod_small, vbi_new_err by lia.
  repeat split; reflexivity.
Qed.

(** C2 counterexample: a SUBACK with 2^28 reason codes (built with
    [add_reason_code]) has a body longer than 0x0FFFFFFF bytes:
    [serialize] writes the first byte and returns
    [BadMqttVariableBytesInt], and [size] panics.  The UNSUBACK with the
    same codes panics in [serialize] ([expect]). *)
Lemma suback_oversized_not_framed :
  let codes := repeat 0 (Z.to_nat (2 ^ 28)) in
  packet_ok (PSubAck (mkCodes 1 new codes)) /\
  serialize (PSubAck (mkCodes 1 new codes)) = Failed [0x90] BadMqttVariableBytesInt /\
  packet_size (PSubAck (mkCodes 1 new codes)) = None /\
  serialize (PUnsubAck (mkCodes 1 new codes)) = SerPanic /\
  packet_size (PUnsubAck (mkCodes 1 new codes)) = None.
Proof.
  intros codes. split; [exact built_new|].
  apply oversized_codes_packet. unfold codes.
  rewrite repeat_length, Z2Nat.id by lia. lia.
Qed.

End PacketsFacts.

(** ** Decoders read a prefix of their input

    A decoder is [stable] when every successful read consumed a prefix
    [used] of the buffer: the same read succeeds on [used] followed by
    anything, and on a strict prefix of [used] it runs out of bytes. *)

Module DecodeStable.
Import Wire.

Definition insufficient {A : Type} (r : result A) : Prop :=
  exists a b, r = Err (InsufficientBuffer a b).

Definition truncates {A : Type} (d : Decoder A) (used : list Z) : Prop :=
  forall q s, used = q ++ s -> s <> [] -> insufficient (d q).

Definition stable {A : Type} (d : Decoder A) : Prop :=
  forall buf x rest, d buf = Ok (x, rest) ->
    exists used, buf = used ++ rest /\
      (forall r, d (used ++ r) = Ok (x, r)) /\ truncates d used.

Lemma insufficient_bind {A B : Type} (r : result A) (k : A -> result B) :
  insufficient r -> insufficient (bind r k).
Proof. intros (a & b & ->). exists a, b. reflexivity. Qed.

Lemma insufficient_map_fst {A B C : Type} (f : A -> B) (r : result (A * C)) :
  insufficient r -> insufficient (Props.map_fst f r).
Proof. intros (a & b & ->). exists a, b. reflexivity. Qed.

Lemma truncates_nil {A : Type} (d : Decoder A) : truncates d [].
Proof. intros q s E Hs. destruct q, s; try discriminate. contradiction. Qed.

Lemma bind_trunc {A B : Type} (d : Decoder A) (k : A -> Decoder B)
  u1 u2 a :
  (forall r, d (u1 ++ r) = Ok (a, r)) -> truncates d u1 ->
  truncates (k a) u2 ->
  truncates (fun buf => bind (d buf) (fun p => let '(x, r) := p in k x r)) (u1 ++ u2).
Proof.
  intros Hr Ht1 Ht2 q s E Hs. apply app_eq_app in E as [l [[E1 E2]|[E1 E2]]].
  - destruct l as [|y l].
    + rewrite app_nil_r in E1. cbn in E2. subst u1 s.
      rewrite <- (app_nil_r q), Hr. cbn. apply (Ht2 [] u2); [reflexivity|exact Hs].
    + apply insufficient_bind. apply (Ht1 q (y :: l)); [exact E1|discriminate].
  - subst q. rewrite Hr. cbn. apply (Ht2 l s); assumption.
Qed.

Lemma stable_bind {A B : Type} (d : Decoder A) (k : A -> Decoder B) :
  stable d -> (forall a, stable (k a)) ->
  stable (fun buf => bind (d buf) (fun p => let '(a, r) := p in k a r)).
Proof.
  intros Hd Hk buf x rest H.
  destruct (d buf) as [[a r1]|e] eqn:E; [|discriminate]. cbn in H.
  destruct (Hd _ _ _ E) as (u1 & Eb & Hr1 & Ht1).
  destruct (Hk a _ _ _ H) as (u2 & Er & Hr2 & Ht2).
  exists (u1 ++ u2). split; [subst; apply app_assoc|split].
  - intros r. rewrite <- app_assoc, Hr1. cbn. apply Hr2.
  - apply bind_trunc with (a := a); assumption.
Qed.

Lemma stable_ret {A : Type} (x : A) : stable (fun r => Ok (x, r)).
Proof.
  intros buf y rest H. injection H as <- <-. exists [].
  split; [reflexivity|split; [reflexivity|apply truncates_nil]].
Qed.

Lemma stable_err {A : Type} (e : DataParseError) : stable (fun _ : list Z => @Err (A * list Z) e).
Proof. intros buf y rest H. discriminate. Qed.

Lemma stable_map_fst {A B : Type} (f : A -> B) (d : Decoder A) :
  stable d -> stable (fun r => Props.map_fst f (d r)).
Proof.
  intros Hd buf y rest H. destruct (d buf) as [[a r1]|e] eqn:E; [|discriminate].
  cbn in H. injection H as <- <-.
  destruct (Hd _ _ _ E) as (u & Eb & Hr & Ht). exists u.
  split; [exact Eb|split].
  - intros r. rewrite Hr. reflexivity.
  - intros q s Eq Hs. apply insufficient_map_fst, (Ht q s Eq Hs).
Qed.

Lemma stable_one : stable deserialize_one.
Proof.
  intros [|b buf] x rest H; [discriminate|]. injection H as <- <-.
  exists [b]. split; [reflexivity|split; [reflexivity|]].
  intros [|y q] s E Hs.
  - exists 1, 0. reflexivity.
  - injection E as -> E. destruct q, s; try discriminate. contradiction.
Qed.

Lemma stable_two : stable deserialize_two.
Proof.
  intros [|b1 [|b2 buf]] x rest H; try discriminate. injection H as <- <-.
  exists [b1; b2]. split; [reflexivity|split; [reflexivity|]].
  intros [|y1 [|y2 q]] s E Hs.
  - exists 2, 0. reflexivity.
  - exists 2, 1. reflexivity.
  - injection E as -> -> E. destruct q, s; try discriminate. contradiction.
Qed.

Lemma stable_four : stable deserialize_four.
Proof.
  intros [|b1 [|b2 [|b3 [|b4 buf]]]] x rest H; try discriminate.
  injection H as <- <-.
  exists [b1; b2; b3; b4]. split; [reflexivity|split; [reflexivity|]].
  intros [|y1 [|y2 [|y3 [|y4 q]]]] s E Hs;
    try (eexists; eexists; reflexivity).
  injection E as -> -> -> -> E. destruct q, s; try discriminate. contradiction.
Qed.

Lemma stable_vbi_loop m v : stable (vbi_deserialize_loop m v).
Proof.
  intros buf. revert m v. induction buf as [|b buf IH]; intros m v x rest H;
    [discriminate|].
  cbn [vbi_deserialize_loop] in H.
  destruct (m >? 21) eqn:Em; [discriminate|].
  set (v' := (v + Z.land (Z.shiftl (Z.land b 127) m) (2 ^ 32 - 1)) mod 2 ^ 32) in H.
  destruct (Z.land b 0x80 =? 0) eqn:Eb.
  - injection H as <- <-. exists [b]. split; [reflexivity|split].
    + intros r. cbn [vbi_deserialize_loop app]. rewrite Em, Eb. reflexivity.
    + intros [|y q] s E Hs.
      * exists 1, 0. reflexivity.
      * injection E as -> E. destruct q, s; try discriminate. contradiction.
  - destruct (IH _ _ _ _ H) as (u & Eu & Hr & Ht). exists (b :: u).
    split; [rewrite Eu; reflexivity|split].
    + intros r. cbn [vbi_deserialize_loop app]. rewrite Em, Eb. apply Hr.
    + intros [|y q] s E Hs.
      * exists 1, 0. reflexivity.
      * injection E as -> E. cbn [vbi_deserialize_loop].
        rewrite Em, Eb. exact (Ht q s E Hs).
Qed.

Lemma stable_vbi : stable vbi_deserialize.
Proof. apply stable_vbi_loop. Qed.

(** [utf8_deserialize] and [binary_deserialize]: a length, then that many
    bytes, then a check on the bytes alone. *)
Lemma stable_counted {A : Type} (chk : list Z -> result A) :
  stable (fun buf =>
    bind (deserialize_two buf) (fun len_rest => let '(len, rest) := len_rest in
    if Z.of_nat (length rest) <? len
    then Err (InsufficientBuffer len (Z.of_nat (length rest)))
    else bind (chk (firstn (Z.to_nat len) rest))
              (fun a => Ok (a, skipn (Z.to_nat len) rest)))).
Proof.
  intros [|b1 [|b2 buf]] x rest H; try discriminate. cbn [deserialize_two bind] in H.
  set (len := b1 * 256 + b2) in H.
  destruct (Z.of_nat (length buf) <? len) eqn:El; [discriminate|].
  apply Z.ltb_ge in El.
  destruct (chk (firstn (Z.to_nat len) buf)) as [a|e] eqn:Ec; [|discriminate].
  cbn [bind] in H. injection H as <- <-.
  set (w := firstn (Z.to_nat len) buf) in *.
  assert (Hw : length w = Z.to_nat len) by (unfold w; rewrite length_firstn; lia).
  exists (b1 :: b2 :: w). split.
  - cbn. f_equal. f_equal. symmetry. apply firstn_skipn.
  - split.
    + intros r. cbn [app deserialize_two bind]. fold len.
      rewrite length_app, Nat2Z.inj_add.
      replace (Z.of_nat (length w) + Z.of_nat (length r) <? len) with false
        by (symmetry; apply Z.ltb_ge; lia).
      rewrite firstn_app, Hw, Nat.sub_diag, firstn_O, app_nil_r,
        <- Hw, firstn_all, Ec. cbn [bind].
      rewrite skipn_app, skipn_all, Nat.sub_diag, skipn_O. reflexivity.
    + intros [|y1 [|y2 q]] s E Hs.
      * exists 2, 0. reflexivity.
      * exists 2, 1. reflexivity.
      * injection E as -> -> E. cbn [deserialize_two bind]. fold len.
        assert (length q < length w)%nat.
        { rewrite E, length_app. destruct s; [contradiction|cbn; lia]. }
        replace (Z.of_nat (length q) <? len) with true
          by (symmetry; apply Z.ltb_lt; lia).
        eexists; eexists; reflexivity.
Qed.

Lemma stable_ext {A : Type} (d1 d2 : Decoder A) :
  (forall buf, d1 buf = d2 buf) -> stable d1 -> stable d2.
Proof.
  intros E H buf x rest Hd. rewrite <- E in Hd.
  destruct (H _ _ _ Hd) as (u & Eu & Hr & Ht). exists u.
  split; [exact Eu|split].
  - intros r. rewrite <- E. apply Hr.
  - intros q s Eq Hs. rewrite <- E. exact (Ht q s Eq Hs).
Qed.

Lemma stable_utf8 : stable utf8_deserialize.
Proof.
  eapply stable_ext; [|exact (stable_counted (fun l => s <- from_utf8 l ;; utf8_new s))].
  intros buf. unfold utf8_deserialize.
  destruct (deserialize_two buf) as [[len rest]|e]; [cbn [bind]|reflexivity].
  destruct (_ <? _); [reflexivity|]. destruct (from_utf8 _); reflexivity.
Qed.

Lemma stable_binary : stable binary_deserialize.
Proof.
  eapply stable_ext; [|exact (stable_counted binary_new)].
  intros buf. unfold binary_deserialize.
  destruct (deserialize_two buf) as [[len rest]|e]; reflexivity.
Qed.

Lemma stable_pair : stable pair_deserialize.
Proof.
  unfold pair_deserialize. apply stable_bind; [exact stable_utf8|intros name].
  apply stable_bind; [exact stable_utf8|intros value]. apply stable_ret.
Qed.

Import Props.

Lemma stable_value ty : stable (value_deserialize ty).
Proof.
  unfold value_deserialize. destruct ty; apply stable_map_fst;
    auto using stable_one, stable_two, stable_four, stable_utf8, stable_pair,
      stable_binary, stable_vbi.
Qed.

Lemma stable_prop : stable prop_deserialize.
Proof.
  unfold prop_deserialize. apply stable_bind; [exact stable_vbi|intros i].
  destruct (find _ _); [apply stable_ret|apply stable_err].
Qed.

Lemma prop_used_nonempty u x :
  (forall r', prop_deserialize (u ++ r') = Ok (x, r')) -> u <> [] .
Proof. intros H ->. specialize (H []). discriminate H. Qed.


(** The property loop, for any fuel above the number of bytes it reads. *)
Lemma stable_loop aux : forall F sz tb buf x rest,
  deserialize_loop aux F sz tb buf = Ok (x, rest) ->
  exists used, buf = used ++ rest /\
    (forall F' r, (length used < F')%nat ->
       deserialize_loop aux F' sz tb (used ++ r) = Ok (x, r)) /\
    (forall F', truncates (deserialize_loop aux F' sz tb) used).
Proof.
  induction F as [|F IH]; intros sz tb buf x rest H; [discriminate|].
  cbn [deserialize_loop] in H. destruct (sz =? 0) eqn:Esz.
  - injection H as <- <-. exists []. split; [reflexivity|split].
    + intros [|F'] r Hl; [cbn in Hl; lia|]. cbn [deserialize_loop app].
      rewrite Esz. reflexivity.
    + intros F'. apply truncates_nil.
  - destruct (prop_deserialize buf) as [[key r1]|e] eqn:Ep; [|discriminate].
    cbn [bind] in H. destruct (aux key) as [[fl ty] mult] eqn:Ea.
    destruct (value_deserialize ty r1) as [[value r2]|e] eqn:Ev; [|discriminate].
    cbn [bind] in H. destruct (insert aux tb key value) as [tb' res] eqn:Ei.
    destruct res as [[]|e]; [|discriminate]. cbn [bind] in H.
    destruct (IH _ _ _ _ _ H) as (u3 & E3 & Hr3 & Ht3).
    destruct (stable_prop _ _ _ Ep) as (u1 & E1 & Hr1 & Ht1).
    destruct (stable_value _ _ _ _ Ev) as (u2 & E2 & Hr2 & Ht2).
    pose proof (prop_used_nonempty _ _ Hr1) as Hu1.
    exists (u1 ++ u2 ++ u3). split; [subst; rewrite !app_assoc; reflexivity|split].
    + intros [|F'] r Hl; [cbn in Hl; lia|]. cbn [deserialize_loop].
      rewrite Esz, <- !app_assoc, Hr1. cbn [bind]. rewrite Ea, Hr2. cbn [bind].
      rewrite Ei. cbn [bind]. apply Hr3.
      destruct u1; [contradiction|]. rewrite !length_app in Hl. cbn in Hl. lia.
    + intros [|F'] q s Eq Hs; [exists 1, 0; reflexivity|].
      cbn [deserialize_loop]. rewrite Esz.
      revert q s Eq Hs. apply bind_trunc with (a := key); [exact Hr1|exact Ht1|].
      intros q s Eq Hs. cbv beta iota. rewrite Ea.
      revert q s Eq Hs. apply bind_trunc with (a := value); [exact Hr2|exact Ht2|].
      intros q s Eq Hs. cbv beta iota. rewrite Ei. cbn [bind].
      exact (Ht3 F' q s Eq Hs).
Qed.

Lemma stable_props aux : stable (deserialize aux).
Proof.
  intros buf x rest H. unfold deserialize in H.
  destruct (vbi_deserialize buf) as [[n r]|e] eqn:Ev; [|discriminate].
  cbn [bind] in H.
  destruct (deserialize_loop aux _ n new _) as [[t lr]|e] eqn:El; [|discriminate].
  cbn [bind] in H. injection H as <- <-.
  destruct (stable_vbi _ _ _ Ev) as (u0 & E0 & Hr0 & Ht0).
  destruct (stable_loop _ _ _ _ _ _ _ El) as (u1 & E1 & Hr1 & Ht1).
  set (N := Z.to_nat n) in *.
  assert (HN : (length u1 <= N)%nat).
  { pose proof (length_firstn N r). rewrite E1, length_app in H. lia. }
  assert (Hr : r = u1 ++ skipn (length u1) r).
  { rewrite <- (firstn_skipn (length u1) r) at 1. f_equal.
    replace (firstn (length u1) r) with (firstn (length u1) (firstn N r))
      by (rewrite firstn_firstn; f_equal; lia).
    rewrite E1, firstn_app, Nat.sub_diag, firstn_O, app_nil_r. apply firstn_all. }
  assert (Hk : (length (firstn N r) - length lr = length u1)%nat)
    by (rewrite E1, length_app; lia).
  rewrite Hk. exists (u0 ++ u1). split; [rewrite E0, <- app_assoc, <- Hr; reflexivity|split].
  - intros r'. unfold deserialize. rewrite <- app_assoc, Hr0. cbn [bind].
    assert (Hf : firstn N (u1 ++ r') = u1 ++ firstn (N - length u1) r').
    { rewrite firstn_app. f_equal. apply firstn_all2. exact HN. }
    fold N. rewrite Hf, Hr1 by (rewrite length_app; lia). cbn [bind].
    rewrite length_app, Nat.add_sub, skipn_app, skipn_all, Nat.sub_diag, skipn_O.
    reflexivity.
  - unfold deserialize. apply bind_trunc with (a := n); [exact Hr0|exact Ht0|].
    intros q s Eq Hs. cbv beta zeta iota. fold N.
    assert (length q < length u1)%nat.
    { rewrite Eq, length_app. destruct s; [contradiction|cbn; lia]. }
    rewrite (firstn_all2 q) by lia.
    apply insufficient_bind. exact (Ht1 _ q s Eq Hs).
Qed.

Import ConnectDecode.

Lemma stable_flags : stable flags_deserialize.
Proof.
  unfold flags_deserialize. apply stable_bind; [exact stable_one|intros raw].
  destruct (from_bits raw) as [f|]; [|apply stable_err].
  destruct (flags_qos f); cbn [bind]; [|apply stable_err].
  destruct (_ && _); [apply stable_err|apply stable_ret].
Qed.

Lemma stable_will : stable will_deserialize.
Proof.
  unfold will_deserialize.
  apply stable_bind; [apply stable_props|intros t].
  destruct (is_valid_for _ _); [|apply stable_err].
  apply stable_bind; [exact stable_utf8|intros topic].
  apply stable_bind; [exact stable_binary|intros payload]. apply stable_ret.
Qed.

Lemma stable_opt {A : Type} (cond : bool) (d : Decoder A) :
  stable d -> stable (opt_deserialize cond d).
Proof.
  intros Hd. unfold opt_deserialize. destruct cond.
  - apply stable_map_fst, Hd.
  - apply stable_ret.
Qed.

Lemma stable_body : stable body_deserialize.
Proof.
  unfold body_deserialize.
  apply stable_bind; [exact stable_utf8|intros name].
  destruct (negb _); [apply stable_err|].
  apply stable_bind; [exact stable_one|intros version].
  destruct (negb _); [apply stable_err|].
  apply stable_bind; [exact stable_flags|intros f].
  apply stable_bind; [exact stable_two|intros ka].
  apply stable_bind; [apply stable_props|intros t].
  destruct (negb _); [apply stable_err|].
  apply stable_bind; [exact stable_utf8|intros cid].
  apply stable_bind; [apply stable_opt, stable_will|intros w].
  apply stable_bind; [apply stable_opt, stable_utf8|intros un].
  apply stable_bind; [apply stable_opt, stable_binary|intros pw].
  apply stable_ret.
Qed.

End DecodeStable.

(** ** The CONNECT decoder *)
Module ConnectFacts.
Import Wire ConnectDecode WireFacts.

Lemma flags_tail f tail :
  flags_deserialize (f :: tail) =
  match flags_deserialize [f] with Ok (x, _) => Ok (x, tail) | Err e => Err e end.
Proof.
  unfold flags_deserialize. cbn [deserialize_one bind].
  destruct (from_bits f) as [fl|]; [|reflexivity]. cbn [bind].
  destruct (flags_qos fl); [|reflexivity]. cbn [bind].
  destruct (_ && _); reflexivity.
Qed.

Ltac err_of H :=
  match type of H with
  | (match ?r with _ => _ end) = true =>
      destruct r as [[? ?]|e]; [discriminate|destruct e; try discriminate; reflexivity]
  end.

Lemma flags_bit0 f : 0 <= f < 256 -> Z.testbit f 0 = true ->
  flags_deserialize [f] = Err BadConnectMessage.
Proof.
  intros Hf H0.
  assert (P : forallb (fun f => negb (Z.testbit f 0) ||
             match flags_deserialize [f] with Err BadConnectMessage => true | _ => false end)
             all_bytes = true) by (vm_compute; reflexivity).
  pose proof (byte_forall _ P f Hf) as H. cbv beta in H. rewrite H0 in H. cbn [negb orb] in H.
  err_of H.
Qed.

Lemma flags_qos_both f : 0 <= f < 256 -> Z.testbit f 0 = false ->
  Z.testbit f 3 = true -> Z.testbit f 4 = true -> flags_deserialize [f] = Err BadQoS.
Proof.
  intros Hf H0 H3 H4.
  assert (P : forallb (fun f => negb (negb (Z.testbit f 0) && Z.testbit f 3 && Z.testbit f 4) ||
             match flags_deserialize [f] with Err BadQoS => true | _ => false end)
             all_bytes = true) by (vm_compute; reflexivity).
  pose proof (byte_forall _ P f Hf) as H. cbv beta in H. rewrite H0, H3, H4 in H. cbn [negb orb andb] in H.
  err_of H.
Qed.

Lemma flags_will_missing f : 0 <= f < 256 -> Z.testbit f 0 = false ->
  (Z.testbit f 3 && Z.testbit f 4) = false ->
  (Z.testbit f 3 || Z.testbit f 4 || Z.testbit f 5) = true -> Z.testbit f 2 = false ->
  flags_deserialize [f] = Err BadConnectMessage.
Proof.
  intros Hf H0 H34 H345 H2.
  assert (P : forallb (fun f => negb (negb (Z.testbit f 0) && negb (Z.testbit f 3 && Z.testbit f 4)
                                     && (Z.testbit f 3 || Z.testbit f 4 || Z.testbit f 5)
                                     && negb (Z.testbit f 2)) ||
             match flags_deserialize [f] with Err BadConnectMessage => true | _ => false end)
             all_bytes = true) by (vm_compute; reflexivity).
  pose proof (byte_forall _ P f Hf) as H. cbv beta in H. rewrite H0, H34, H345, H2 in H.
  cbn [negb orb andb] in H. err_of H.
Qed.

Lemma flags_accepted f : 0 <= f < 256 -> flags_ok f = true ->
  flags_deserialize [f] = Ok (f, []).
Proof.
  intros Hf Hok.
  assert (P : forallb (fun f => negb (flags_ok f) ||
             match flags_deserialize [f] with Ok (x, []) => x =? f | _ => false end)
             all_bytes = true) by (vm_compute; reflexivity).
  pose proof (byte_forall _ P f Hf) as H. cbv beta in H. rewrite Hok in H. cbn [negb orb] in H.
  destruct (flags_deserialize [f]) as [[x [|]]|]; try discriminate.
  apply Z.eqb_eq in H. subst. reflexivity.
Qed.

Lemma mqtt_name_ok : utf8_new [77; 81; 84; 84] = Ok [77; 81; 84; 84].
Proof. reflexivity. Qed.

(** Reads the protocol name, the version and the flag byte. *)
Ltac header Hf :=
  unfold body_deserialize, protocol_header; rewrite <- ?app_assoc;
  rewrite utf8_roundtrip by exact mqtt_name_ok;
  cbn [bind app deserialize_one list_Z_eqb negb length Nat.eqb combine forallb fst snd Z.eqb
       Pos.eqb andb];
  rewrite flags_tail.

Ltac opt_tail Hu Hpw :=
  destruct (username _) as [u|] eqn:Eu;
  [ destruct Hu as [HU Hu']; rewrite HU; cbn [opt_deserialize opt_bytes]; rewrite <- ?app_assoc;
    rewrite utf8_roundtrip by assumption; cbn [bind Props.map_fst]
  | rewrite Hu; cbn [opt_deserialize opt_bytes app bind] ];
  (destruct (password _) as [p|] eqn:Ep;
   [ destruct Hpw as [HP Hp']; rewrite HP; cbn [opt_deserialize opt_bytes];
     rewrite binary_roundtrip by assumption; cbn [bind Props.map_fst]
   | rewrite Hpw; cbn [opt_deserialize opt_bytes app bind] ]).

Lemma body_ok c pb wpb junk : connect_wf c pb wpb ->
  body_deserialize (connect_body c pb wpb ++ junk) = Ok (c, junk).
Proof.
  intros (Hf & Hok & Hk & [Hp _] & Hv & Hc & Hw & Hu & Hpw).
  unfold connect_body. header Hf.
  rewrite flags_accepted by assumption. cbn [bind].
  rewrite <- ?app_assoc, deserialize_two_put_u16 by assumption. cbn [bind].
  rewrite Hp. cbn [bind]. rewrite Hv. cbn [negb].
  rewrite utf8_roundtrip by assumption. cbn [bind].
  destruct (will_info c) as [w|] eqn:Ew.
  - destruct Hw as [HW (Hwp & Hwv & Hwt & Hwd)]. destruct Hwp as [Hwp _].
    rewrite HW. cbn [opt_deserialize opt_bytes]. rewrite <- ?app_assoc.
    unfold will_deserialize. rewrite Hwp. cbn [bind]. rewrite Hwv.
    rewrite utf8_roundtrip by assumption. cbn [bind].
    rewrite binary_roundtrip by assumption. cbn [bind Props.map_fst].
    opt_tail Hu Hpw; destruct c, w; cbn in *; subst; reflexivity.
  - rewrite Hw. cbn [opt_deserialize opt_bytes app bind].
    opt_tail Hu Hpw; destruct c; cbn in *; subst; reflexivity.
Qed.

Lemma zlen_app (a b : list Z) : Z.of_nat (length (a ++ b)) = Z.of_nat (length a) + Z.of_nat (length b).
Proof. rewrite length_app. lia. Qed.

Lemma body_length c pb wpb : connect_wf c pb wpb ->
  Z.of_nat (length (connect_body c pb wpb)) = partial_size c.
Proof.
  intros (Hf & Hok & Hk & [_ Hp] & Hv & Hc & Hw & Hu & Hpw).
  unfold connect_body, partial_size, protocol_header. rewrite !zlen_app.
  rewrite Hp, !PacketsFacts.length_utf8_serialize, PacketsFacts.zlen_u16.
  destruct (will_info c) as [w|]; [destruct Hw as [_ ([_ Hwp] & _)]|];
  destruct (username c); destruct (password c); cbn [opt_bytes opt_size length];
  rewrite ?zlen_app, ?Hwp, ?PacketsFacts.length_utf8_serialize,
    ?PacketsFacts.length_binary_serialize; unfold will_size, utf8_size, binary_size; cbn [length]; lia.
Qed.

(** The length, its check against the buffer and the [take]. *)
Lemma connect_frame (L rest : list Z) : Z.of_nat (length L) <= 0xfffffff ->
  connect_deserialize (vbi_serialize (Z.of_nat (length L)) ++ L ++ rest) =
  match body_deserialize L with
  | Ok (p, lr) => if partial_size p =? Z.of_nat (length L)
                  then Ok (p, skipn (length L - length lr) (L ++ rest))
                  else Err BadConnectMessage
  | Err e => Err e
  end.
Proof.
  intros HL. unfold connect_deserialize.
  rewrite vbi_roundtrip by lia. cbn [bind].
  replace (Z.of_nat (length (L ++ rest)) <? Z.of_nat (length L)) with false
    by (symmetry; apply Z.ltb_ge; rewrite length_app; lia).
  rewrite Nat2Z.id, firstn_app, Nat.sub_diag, firstn_O, app_nil_r, firstn_all.
  destruct (body_deserialize L) as [[p lr]|e]; reflexivity.
Qed.

Lemma body_cut c pb wpb : connect_wf c pb wpb ->
  body_deserialize (protocol_header (flags c) ++ put_u16 (keep_alive c) ++ pb) =
  Err (InsufficientBuffer 2 0).
Proof.
  intros (Hf & Hok & Hk & [Hp _] & Hv & _).
  header Hf. rewrite flags_accepted by assumption. cbn [bind].
  rewrite <- (app_nil_r pb), deserialize_two_put_u16 by assumption. cbn [bind].
  rewrite Hp. cbn [bind]. rewrite Hv. reflexivity.
Qed.

(** C5: the CONNECT decoder (Connect::deserialize with
    ConnectFlags::deserialize).  For a buffer holding a remaining length n,
    then n body bytes that start with the protocol name MQTT, version 5 and
    the flag byte f, and then anything: reserved bit 0 set gives
    BadConnectMessage; both will-QoS bits give BadQoS; a will-QoS or
    will-retain bit without WILL gives BadConnectMessage.  For a well-formed
    body followed by k extra bytes inside n: k = 0 decodes the packet and
    leaves the rest of the buffer, k > 0 gives BadConnectMessage.  When n
    is shorter than a well-formed body whose first n bytes follow it, the
    result is InsufficientBuffer whatever comes after them, not a protocol
    error; when n ends right before the client identifier it is
    InsufficientBuffer (needed 2, available 0). *)
Theorem connect_deserialize_spec :
  (forall f tail rest, 0 <= f < 256 ->
     Z.of_nat (length (protocol_header f ++ tail)) <= 0xfffffff ->
     let r := connect_deserialize (vbi_serialize (Z.of_nat (length (protocol_header f ++ tail)))
                                   ++ protocol_header f ++ tail ++ rest) in
     (Z.testbit f 0 = true -> r = Err BadConnectMessage) /\
     (Z.testbit f 0 = false -> Z.testbit f 3 = true -> Z.testbit f 4 = true -> r = Err BadQoS) /\
     (Z.testbit f 0 = false -> (Z.testbit f 3 && Z.testbit f 4) = false ->
      (Z.testbit f 3 || Z.testbit f 4 || Z.testbit f 5) = true -> Z.testbit f 2 = false ->
      r = Err BadConnectMessage)) /\
  (forall c pb wpb junk rest, connect_wf c pb wpb ->
     Z.of_nat (length (connect_body c pb wpb ++ junk)) <= 0xfffffff ->
     connect_deserialize (vbi_serialize (Z.of_nat (length (connect_body c pb wpb ++ junk)))
                          ++ connect_body c pb wpb ++ junk ++ rest) =
     match junk with [] => Ok (c, rest) | _ :: _ => Err BadConnectMessage end) /\
  (forall c pb wpb rest, connect_wf c pb wpb ->
     let cut := protocol_header (flags c) ++ put_u16 (keep_alive c) ++ pb in
     Z.of_nat (length cut) <= 0xfffffff ->
     connect_deserialize (vbi_serialize (Z.of_nat (length cut)) ++ connect_body c pb wpb ++ rest) =
     Err (InsufficientBuffer 2 0)) /\
  (forall c pb wpb n rest, connect_wf c pb wpb ->
     0 <= n < Z.of_nat (length (connect_body c pb wpb)) -> n <= 0xfffffff ->
     exists needed available,
       connect_deserialize (vbi_serialize n ++ firstn (Z.to_nat n) (connect_body c pb wpb) ++ rest) =
       Err (InsufficientBuffer needed available)).
Proof.
  split; [|split; [|split]].
  - intros f tail rest Hf HL r. subst r. rewrite (app_assoc (protocol_header f) tail rest), connect_frame by exact HL.
    split; [|split].
    + intros H0. header Hf. rewrite flags_bit0 by assumption. reflexivity.
    + intros H0 H3 H4. header Hf. rewrite flags_qos_both by assumption. reflexivity.
    + intros H0 H34 H345 H2. header Hf. rewrite flags_will_missing by assumption. reflexivity.
  - intros c pb wpb junk rest Hwf HL.
    rewrite (app_assoc (connect_body c pb wpb) junk rest), connect_frame, body_ok
      by (exact Hwf || exact HL).
    rewrite zlen_app, <- (body_length c pb wpb Hwf).
    destruct junk as [|j junk].
    + cbn [length]. rewrite Z.add_0_r, Z.eqb_refl, Nat.sub_0_r, app_nil_r, skipn_app,
        Nat.sub_diag, skipn_all. reflexivity.
    + replace (_ =? _) with false by (symmetry; apply Z.eqb_neq; cbn [length]; lia).
      reflexivity.
  - intros c pb wpb rest Hwf cut HL. subst cut.
    unfold connect_body. rewrite <- !app_assoc.
    replace (protocol_header (flags c) ++ put_u16 (keep_alive c) ++ pb ++ _)
      with ((protocol_header (flags c) ++ put_u16 (keep_alive c) ++ pb) ++
            (utf8_serialize (clientid c) ++
             opt_bytes (fun w => wpb ++ utf8_serialize (topic w) ++ binary_serialize (payload w))
               (will_info c) ++
             opt_bytes utf8_serialize (username c) ++ opt_bytes binary_serialize (password c)) ++ rest)
      by (rewrite <- !app_assoc; reflexivity).
    rewrite connect_frame, (body_cut c pb wpb Hwf) by exact HL. reflexivity.
  - intros c pb wpb n rest Hwf Hn Hle. set (body := connect_body c pb wpb) in *.
    set (N := Z.to_nat n).
    assert (HNn : (N < length body)%nat) by (unfold N; lia).
    assert (HN : length (firstn N body) = N) by (rewrite length_firstn; lia).
    unfold connect_deserialize. rewrite vbi_roundtrip by lia. cbn [bind].
    replace (Z.of_nat (length (firstn N body ++ rest)) <? n) with false
      by (symmetry; apply Z.ltb_ge; rewrite length_app, HN; unfold N; lia).
    fold N. rewrite firstn_app, HN, Nat.sub_diag, firstn_O, app_nil_r, firstn_firstn,
      Nat.min_id.
    pose proof (body_ok c pb wpb [] Hwf) as Hb. fold body in Hb.
    destruct (DecodeStable.stable_body _ _ _ Hb) as (u & Eu & _ & Ht).
    apply app_inv_tail in Eu. subst u.
    destruct (Ht (firstn N body) (skipn N body)) as (a & b & Ha).
    + symmetry. apply firstn_skipn.
    + intros E. pose proof (f_equal (@length Z) E) as EL.
      rewrite length_skipn in EL. cbn [length] in EL. lia.
    + exists a, b. rewrite Ha. reflexivity.
Qed.

Lemma connect_deserialize_spec_witness :
  let c := mkConnect 2 0 Props.new [97] None None None in
  (0 <= 1 < 256 /\
   Z.of_nat (length (protocol_header 1 ++ [0; 0; 0; 0; 1; 97])) <= 0xfffffff /\
   connect_deserialize (vbi_serialize (Z.of_nat (length (protocol_header 1 ++ [0; 0; 0; 0; 1; 97])))
                        ++ protocol_header 1 ++ [0; 0; 0; 0; 1; 97] ++ [9]) = Err BadConnectMessage) /\
  (connect_wf c [0] [] /\
   Z.of_nat (length (connect_body c [0] [] ++ [7])) <= 0xfffffff /\
   connect_deserialize (vbi_serialize (Z.of_nat (length (connect_body c [0] [] ++ [7])))
                        ++ connect_body c [0] [] ++ [7] ++ [9]) = Err BadConnectMessage) /\
  (connect_wf c [0] [] /\
   connect_deserialize (vbi_serialize (Z.of_nat (length (connect_body c [0] [] ++ [])))
                        ++ connect_body c [0] [] ++ [] ++ [9]) = Ok (c, [9])) /\
  (connect_wf c [0] [] /\ 0 <= 11 < Z.of_nat (length (connect_body c [0] [])) /\
   exists needed available,
     connect_deserialize (vbi_serialize 11 ++ firstn 11 (connect_body c [0] []) ++ [9]) =
     Err (InsufficientBuffer needed available)).
Proof.
  intros c.
  assert (Hwf : connect_wf c [0] []).
  { subst c. repeat split; try reflexivity; try (cbn; lia). }
  split; [|split; [|split]].
  - assert (H1 : 0 <= 1 < 256) by lia.
    assert (HL : Z.of_nat (length (protocol_header 1 ++ [0; 0; 0; 0; 1; 97])) <= 0xfffffff)
      by (vm_compute; discriminate).
    split; [exact H1|split; [exact HL|]].
    apply (proj1 (proj1 connect_deserialize_spec 1 [0; 0; 0; 0; 1; 97] [9] H1 HL)).
    reflexivity.
  - assert (HL : Z.of_nat (length (connect_body c [0] [] ++ [7])) <= 0xfffffff)
      by (vm_compute; discriminate).
    split; [exact Hwf|split; [exact HL|]].
    apply (proj1 (proj2 connect_deserialize_spec) c [0] [] [7] [9] Hwf HL).
  - assert (HL : Z.of_nat (length (connect_body c [0] [] ++ [])) <= 0xfffffff)
      by (vm_compute; discriminate).
    split; [exact Hwf|].
    apply (proj1 (proj2 connect_deserialize_spec) c [0] [] [] [9] Hwf HL).
  - assert (Hn : 0 <= 11 < Z.of_nat (length (connect_body c [0] []))) by (split; [lia|reflexivity]).
    split; [exact Hwf|split; [exact Hn|]].
    exact (proj2 (proj2 (proj2 connect_deserialize_spec)) c [0] [] 11 [9] Hwf Hn
             ltac:(vm_compute; discriminate)).
Defined.

(** The remaining length 11 of this buffer is shorter than the 14 bytes of
    its CONNECT fields: the decoder reads the client identifier past the
    limit and reports InsufficientBuffer, whatever bytes follow, where a
    protocol error for the length mismatch is expected. *)
Lemma connect_short_length_insufficient :
  let c := mkConnect 2 0 Props.new [97] None None None in
  connect_wf c [0] [] /\
  connect_body c [0] [] = [0; 4; 77; 81; 84; 84; 5; 2; 0; 0; 0; 0; 1; 97] /\
  partial_size c = 14 /\
  forall rest, connect_deserialize ([11] ++ connect_body c [0] [] ++ rest) =
               Err (InsufficientBuffer 2 0).
Proof.
  intros c. split; [|split; [reflexivity|split; [reflexivity|]]].
  - subst c. repeat split; try reflexivity; try (cbn; lia).
  - intros rest. change [11] with (vbi_serialize 11). unfold connect_deserialize.
    rewrite vbi_roundtrip by lia. cbn [bind].
    replace (Z.of_nat (length (connect_body c [0] [] ++ rest)) <? 11) with false
      by (symmetry; apply Z.ltb_ge; rewrite length_app; cbn; lia).
    reflexivity.
Qed.

End ConnectFacts.

(** ** Property tables: round trip, [checked_insert], accessors *)

Module PropsModelFacts.
Import Wire Props Packets PropsModel WireFacts PropsFacts PacketsFacts.

Section Gen.
Variable aux : Property -> Z * MqttPropValueType * bool.

Definition filter_of (k : Property) : Z := fst (fst (aux k)).
Definition ty_of (k : Property) : MqttPropValueType := snd (fst (aux k)).
Definition mult_of (k : Property) : bool := snd (aux k).

Definition valid_of (m : list (Property * list MqttPropValue)) : Z :=
  fold_left (fun acc k => Z.land acc (filter_of k)) (map fst m) ALL_MESSAGES.

Definition entry_ok (kv : Property * list MqttPropValue) : Prop :=
  snd kv <> [] /\ Forall value_wf (snd kv) /\
  Forall (fun v => prop_type v = ty_of (fst kv)) (snd kv) /\
  (mult_of (fst kv) = false -> length (snd kv) = 1%nat).

Definition tinv (t : Properties) : Prop :=
  size t = table_size (props t) /\ valid t = valid_of (props t) /\
  NoDup (map fst (props t)) /\ Forall entry_ok (props t).

Lemma fl_land (l : list Property) a x :
  fold_left (fun acc k => Z.land acc (filter_of k)) l (Z.land a x) =
  Z.land (fold_left (fun acc k => Z.land acc (filter_of k)) l a) x.
Proof.
  revert a. induction l as [|k l IH]; intros a; [reflexivity|]. cbn [fold_left].
  rewrite <- IH. f_equal. rewrite <- !Z.land_assoc. f_equal. apply Z.land_comm.
Qed.

Lemma fl_in (l : list Property) a k : In k l ->
  Z.land (fold_left (fun acc k => Z.land acc (filter_of k)) l a) (filter_of k) =
  fold_left (fun acc k => Z.land acc (filter_of k)) l a.
Proof.
  revert a. induction l as [|k' l IH]; intros a Hin; [destruct Hin|]. cbn [fold_left].
  destruct Hin as [<-|Hin]; [|apply IH; exact Hin].
  rewrite <- fl_land, <- Z.land_assoc, Z.land_diag. reflexivity.
Qed.

Lemma lookup_none_in k m : lookup k m = None -> ~ In k (map fst m).
Proof.
  induction m as [|[k' v] m IH]; simpl; [auto|].
  destruct (Property_beq k k') eqn:E; [discriminate|].
  apply Property_beq_false in E. intros H [->|Hin]; [congruence|]. exact (IH H Hin).
Qed.

Lemma lookup_some_in k m vs : lookup k m = Some vs -> In k (map fst m).
Proof.
  induction m as [|[k' v] m IH]; simpl; [discriminate|].
  destruct (Property_beq k k') eqn:E.
  - apply Property_beq_true in E. auto.
  - auto.
Qed.

Lemma hm_insert_none k vs m : lookup k m = None -> hm_insert k vs m = m ++ [(k, vs)].
Proof.
  induction m as [|[k' v] m IH]; simpl; [reflexivity|].
  destruct (Property_beq k k'); [discriminate|]. intros H. rewrite IH by exact H. reflexivity.
Qed.

Lemma hm_insert_keys k vs m vs' : lookup k m = Some vs' ->
  map fst (hm_insert k vs m) = map fst m.
Proof.
  induction m as [|[k' v] m IH]; simpl; [discriminate|].
  destruct (Property_beq k k') eqn:E.
  - apply Property_beq_true in E. subst. reflexivity.
  - intros H. simpl. rewrite IH by exact H. reflexivity.
Qed.

Lemma lookup_snoc k m acc : ~ In k (map fst m) -> lookup k (m ++ [(k, acc)]) = Some acc.
Proof.
  induction m as [|[k' v] m IH]; simpl; intros Hn.
  - rewrite Property_beq_refl. reflexivity.
  - destruct (Property_beq k k') eqn:E.
    + apply Property_beq_true in E. subst. tauto.
    + apply IH. tauto.
Qed.

Lemma hm_insert_snoc k m acc w : ~ In k (map fst m) ->
  hm_insert k w (m ++ [(k, acc)]) = m ++ [(k, w)].
Proof.
  induction m as [|[k' v] m IH]; simpl; intros Hn.
  - rewrite Property_beq_refl. reflexivity.
  - destruct (Property_beq k k') eqn:E.
    + apply Property_beq_true in E. subst. tauto.
    + rewrite IH by tauto. reflexivity.
Qed.


Lemma valid_of_snoc m k vs :
  valid_of (m ++ [(k, vs)]) = Z.land (valid_of m) (filter_of k).
Proof. unfold valid_of. rewrite map_app, fold_left_app. reflexivity. Qed.

Lemma table_size_app m1 m2 : table_size (m1 ++ m2) = table_size m1 + table_size m2.
Proof.
  induction m1 as [|kv m1 IH]; [change (table_size []) with 0; reflexivity|].
  unfold table_size in *. cbn [app fold_right]. rewrite IH. lia.
Qed.

Lemma unchecked_tinv t key value :
  tinv t -> value_wf value -> prop_type value = ty_of key ->
  tinv (fst (unchecked_insert
    {| size := size t; valid := Z.land (valid t) (filter_of key); props := props t |}
    key value (mult_of key))).
Proof.
  intros [Hs [Hv [Hnd Hok]]] Hw Hty.
  unfold tinv, unchecked_insert. cbv zeta. cbn [props size valid]. destruct (mult_of key) eqn:Hm.
  - destruct (lookup key (props t)) as [old|] eqn:Hl;
      cbn [fst props size valid].
    + pose proof (Forall_lookup _ _ _ _ Hok Hl) as [Hne [Hw' [Hty' _]]]. cbn [snd fst] in *.
      split; [|split; [|split]].
      * rewrite table_size_hm_insert, Hl, entry_size_app, entry_size_one. lia.
      * unfold valid_of. rewrite (hm_insert_keys _ _ _ _ Hl).
        rewrite Hv. apply fl_in. exact (lookup_some_in _ _ _ Hl).
      * rewrite (hm_insert_keys _ _ _ _ Hl). exact Hnd.
      * apply Forall_hm_insert; [exact Hok|]. repeat split; cbn [fst snd].
        -- destruct old; discriminate.
        -- apply Forall_app. auto.
        -- apply Forall_app. auto.
        -- rewrite Hm. discriminate.
    + rewrite hm_insert_none by exact Hl. split; [|split; [|split]].
      * rewrite table_size_app, <- Hs. cbn [table_size fold_right fst snd].
        rewrite entry_size_one. lia.
      * rewrite valid_of_snoc, Hv. reflexivity.
      * rewrite map_app. apply NoDup_app; [exact Hnd|constructor; [auto|constructor]|].
        intros x Hx [<-|[]]. exact (lookup_none_in _ _ Hl Hx).
      * apply Forall_app. split; [exact Hok|]. constructor; [|constructor].
        unfold entry_ok; cbn [fst snd].
        split; [discriminate|split; [auto|split; [auto|rewrite Hm; discriminate]]].
  - destruct (lookup key (props t)) as [old|] eqn:Hl; cbn [fst props size valid].
    + pose proof (Forall_lookup _ _ _ _ Hok Hl) as [Hne [Hw' [Hty' H1]]]. cbn [snd fst] in *.
      specialize (H1 Hm). destruct old as [|o [|o2 r]]; cbn [length] in H1; try discriminate.
      split; [|split; [|split]].
      * rewrite table_size_hm_insert, Hl, !entry_size_one. lia.
      * unfold valid_of. rewrite (hm_insert_keys _ _ _ _ Hl).
        rewrite Hv. apply fl_in. exact (lookup_some_in _ _ _ Hl).
      * rewrite (hm_insert_keys _ _ _ _ Hl). exact Hnd.
      * apply Forall_hm_insert; [exact Hok|]. unfold entry_ok; cbn [fst snd].
        split; [discriminate|split; [auto|split; [auto|reflexivity]]].
    + rewrite hm_insert_none by exact Hl. split; [|split; [|split]].
      * rewrite table_size_app, <- Hs. cbn [table_size fold_right fst snd].
        rewrite entry_size_one. lia.
      * rewrite valid_of_snoc, Hv. reflexivity.
      * rewrite map_app. apply NoDup_app; [exact Hnd|constructor; [auto|constructor]|].
        intros x Hx [<-|[]]. exact (lookup_none_in _ _ Hl Hx).
      * apply Forall_app. split; [exact Hok|]. constructor; [|constructor].
        unfold entry_ok; cbn [fst snd].
        split; [discriminate|split; [auto|split; [auto|reflexivity]]].
Qed.

Lemma insert_tinv t key value : tinv t -> value_wf value -> tinv (fst (insert aux t key value)).
Proof.
  intros Ht Hw. unfold insert.
  pose proof (unchecked_tinv t key value Ht Hw) as H.
  unfold filter_of, ty_of, mult_of in H.
  destruct (aux key) as [[filter ty] multiple]. cbn [fst snd] in H.
  destruct (MqttPropValueType_beq (prop_type value) ty) eqn:E; cbn [negb]; [|exact Ht].
  apply MqttPropValueType_beq_true in E. specialize (H E).
  destruct (unchecked_insert _ key value multiple) as [t' [o|]]; exact H.
Qed.

Lemma checked_insert_tinv t key value ty : tinv t -> value_wf value ->
  tinv (fst (checked_insert aux t key value ty)).
Proof.
  intros Ht Hw. unfold checked_insert.
  pose proof (unchecked_tinv t key value Ht Hw) as H.
  unfold filter_of, ty_of, mult_of in H.
  destruct (aux key) as [[filter pty] multiple]. cbn [fst snd] in H.
  destruct (Z.land filter ty =? ty); cbn [negb orb]; [|exact Ht].
  destruct (MqttPropValueType_beq pty (prop_type value)) eqn:E; cbn [negb]; [|exact Ht].
  apply MqttPropValueType_beq_true in E. exact (H (eq_sym E)).
Qed.

Lemma made_tinv t : made aux t -> tinv t.
Proof.
  induction 1.
  - split; [reflexivity|split; [reflexivity|split; constructor]].
  - apply insert_tinv; assumption.
  - apply checked_insert_tinv; assumption.
Qed.


Lemma prop_roundtrip k r : prop_deserialize (prop_serialize k ++ r) = Ok (k, r).
Proof.
  unfold prop_deserialize, prop_serialize.
  rewrite vbi_roundtrip by (destruct k; cbn; lia). cbn [bind]. destruct k; reflexivity.
Qed.

Lemma value_wf_ok v : value_wf v -> value_ok v.
Proof. destruct v; cbn; tauto. Qed.

Lemma value_roundtrip v r : value_wf v ->
  value_deserialize (prop_type v) (value_serialize v ++ r) = Ok (v, r).
Proof.
  destruct v as [b|b|x|s|[k w]|d|x|x]; cbn [value_wf prop_type value_serialize value_deserialize]; intros H.
  - cbn. rewrite Z.mod_small by lia. reflexivity.
  - cbn. rewrite Z.mod_small by lia. reflexivity.
  - cbn. do 3 f_equal. Z.div_mod_to_equations. lia.
  - rewrite utf8_roundtrip by exact H. reflexivity.
  - destruct (pair_new_ok k w _ H) as (_ & Hk & Hw).
    unfold pair_deserialize, pair_serialize. cbn [fst snd].
    rewrite <- app_assoc, utf8_roundtrip by exact Hk. cbn [bind].
    rewrite utf8_roundtrip by exact Hw. reflexivity.
  - rewrite binary_roundtrip by exact H. reflexivity.
  - rewrite vbi_roundtrip by exact H. reflexivity.
  - rewrite deserialize_two_put_u16 by lia. reflexivity.
Qed.


Fixpoint steps (T : Properties) (l : list (Property * MqttPropValue)) : option Properties :=
  match l with
  | [] => Some T
  | (k, v) :: l' =>
      match insert aux T k v with
      | (T1, Ok _) => steps T1 l'
      | (_, Err _) => None
      end
  end.

Definition enc (l : list (Property * MqttPropValue)) : list Z :=
  flat_map (fun kv => prop_serialize (fst kv) ++ value_serialize (snd kv)) l.

Definition pairs_size (l : list (Property * MqttPropValue)) : Z :=
  fold_right (fun kv acc => prop_size (fst kv) + value_size (snd kv) + acc) 0 l.

Lemma pairs_size_nonneg l : 0 <= pairs_size l.
Proof.
  induction l as [|[k v] l IH]; [cbv; discriminate|].
  unfold pairs_size in *. cbn [fold_right fst snd].
  pose proof (prop_size_pos k). pose proof (value_size_nonneg v). lia.
Qed.

Lemma insert_ok_type T k v T1 u : insert aux T k v = (T1, Ok u) -> prop_type v = ty_of k.
Proof.
  unfold insert, ty_of. destruct (aux k) as [[f ty] m]. cbn [fst snd].
  destruct (MqttPropValueType_beq (prop_type v) ty) eqn:E; cbn [negb].
  - intros _. apply MqttPropValueType_beq_true in E. exact E.
  - discriminate.
Qed.

Lemma loop_steps l : forall T T' r fuel,
  Forall (fun kv => value_wf (snd kv)) l -> steps T l = Some T' -> (length l < fuel)%nat ->
  deserialize_loop aux fuel (pairs_size l) T (enc l ++ r) = Ok (T', r).
Proof.
  induction l as [|[k v] l IH]; intros T T' r fuel Hw Hs Hf;
    (destruct fuel as [|fuel]; [lia|]).
  - cbn in Hs |- *. injection Hs as <-. reflexivity.
  - inversion Hw as [|? ? Hv Hw']; subst. cbn [snd] in Hv.
    cbn [steps] in Hs. destruct (insert aux T k v) as [T1 [u|e]] eqn:Hi; [|discriminate].
    pose proof (insert_ok_type _ _ _ _ _ Hi) as Hty. unfold ty_of in Hty.
    cbn [deserialize_loop].
    pose proof (prop_size_pos k). pose proof (value_size_nonneg v). pose proof (pairs_size_nonneg l).
    cbn [pairs_size fold_right fst snd]. fold (pairs_size l).
    destruct (Z.eqb_spec (prop_size k + value_size v + pairs_size l) 0); [lia|].
    cbn [enc flat_map fst snd]. fold (enc l).
    rewrite <- !app_assoc, prop_roundtrip. cbn [bind].
    destruct (aux k) as [[f ty] m] eqn:Ha. cbn [fst snd] in Hty. subst ty.
    rewrite value_roundtrip by exact Hv. cbn [bind].
    replace (prop_size k + value_size v + pairs_size l - (prop_size k + value_size v))
      with (pairs_size l) by lia.
    rewrite Hi. destruct u. cbn [bind]. apply IH; [exact Hw'|exact Hs|cbn [length] in Hf; lia].
Qed.


Lemma steps_app T l1 l2 :
  steps T (l1 ++ l2) = match steps T l1 with Some T1 => steps T1 l2 | None => None end.
Proof.
  revert T. induction l1 as [|[k v] l1 IH]; intros T; [reflexivity|].
  cbn [app steps]. destruct (insert aux T k v) as [T1 [u|e]]; [apply IH|reflexivity].
Qed.

Lemma not_in_lookup k m : ~ In k (map fst m) -> lookup k m = None.
Proof.
  induction m as [|[k' v] m IH]; simpl; intros Hn; [reflexivity|].
  destruct (Property_beq k k') eqn:E.
  - apply Property_beq_true in E. subst. tauto.
  - apply IH. tauto.
Qed.

Lemma steps_more k vs : forall s x m acc,
  ~ In k (map fst m) -> mult_of k = true -> Forall (fun v => prop_type v = ty_of k) vs ->
  Z.land x (filter_of k) = x ->
  steps {| size := s; valid := x; props := m ++ [(k, acc)] |} (map (pair k) vs) =
  Some {| size := s + entry_size k vs; valid := x; props := m ++ [(k, acc ++ vs)] |}.
Proof.
  induction vs as [|v vs IH]; intros s x m acc Hn Hm Hty Hx.
  - cbn. rewrite app_nil_r, Z.add_0_r. reflexivity.
  - inversion Hty as [|? ? Hv Hty']; subst. cbn [map steps].
    unfold insert. unfold mult_of, ty_of, filter_of in *.
    destruct (aux k) as [[f ty] mu]. cbn [fst snd] in *. subst mu ty.
    rewrite (proj2 (MqttPropValueType_beq_true _ _) eq_refl). cbn [negb].
    unfold unchecked_insert. cbv zeta. cbn [props size valid].
    rewrite lookup_snoc, hm_insert_snoc by exact Hn. rewrite Hx.
    rewrite IH by (assumption || reflexivity).
    rewrite <- app_assoc. cbn [app]. f_equal. f_equal. cbn [entry_size fold_right].
    fold (entry_size k vs). lia.
Qed.

Lemma steps_entry k vs s x m : ~ In k (map fst m) -> entry_ok (k, vs) ->
  steps {| size := s; valid := x; props := m |} (map (pair k) vs) =
  Some {| size := s + entry_size k vs; valid := Z.land x (filter_of k);
          props := m ++ [(k, vs)] |}.
Proof.
  intros Hn [Hne [_ [Hty H1]]]. cbn [fst snd] in *.
  destruct vs as [|v vs]; [congruence|].
  inversion Hty as [|? ? Hv Hty']; subst.
  cbn [map steps]. unfold insert.
  pose proof (steps_more k vs) as Hmore.
  unfold mult_of, ty_of, filter_of in *.
  destruct (aux k) as [[f ty] mu]. cbn [fst snd] in *. subst ty.
  rewrite (proj2 (MqttPropValueType_beq_true _ _) eq_refl). cbn [negb].
  unfold unchecked_insert. cbv zeta. cbn [props size valid].
  rewrite (not_in_lookup _ _ Hn). rewrite hm_insert_none by exact (not_in_lookup _ _ Hn).
  destruct mu.
  - rewrite Hmore by (try assumption; try reflexivity; rewrite <- Z.land_assoc, Z.land_diag; reflexivity).
    cbn [app]. f_equal. f_equal. cbn [entry_size fold_right]. fold (entry_size k vs). lia.
  - specialize (H1 eq_refl). destruct vs; [|discriminate]. cbn [map steps].
    rewrite entry_size_one. f_equal. f_equal. lia.
Qed.


Lemma steps_iter m : NoDup (map fst m) -> Forall entry_ok m ->
  steps new (flat_map (fun kv => map (pair (fst kv)) (snd kv)) m) =
  Some {| size := table_size m; valid := valid_of m; props := m |}.
Proof.
  induction m as [|[k vs] m IH] using rev_ind; intros Hnd Hok; [reflexivity|].
  rewrite map_app in Hnd. cbn [map fst] in Hnd.
  apply Forall_app in Hok as [Hok Hkv]. inversion Hkv as [|? ? Hk _]; subst.
  rewrite flat_map_app, steps_app, IH by (eauto using NoDup_app_remove_r).
  cbn [flat_map fst snd]. rewrite app_nil_r.
  assert (Hnk : ~ In k (map fst m))
    by (intros Hin; apply (NoDup_remove_2 _ [] k Hnd); rewrite app_nil_r; exact Hin).
  rewrite steps_entry by assumption.
  rewrite table_size_app, valid_of_snoc. cbn [table_size fold_right fst snd].
  do 2 f_equal. lia.
Qed.


Lemma pairs_size_app l1 l2 : pairs_size (l1 ++ l2) = pairs_size l1 + pairs_size l2.
Proof.
  induction l1 as [|kv l1 IH]; [reflexivity|].
  cbn [app]. unfold pairs_size in *. cbn [fold_right]. rewrite IH. lia.
Qed.

Lemma pairs_size_entry k vs : pairs_size (map (pair k) vs) = entry_size k vs.
Proof.
  induction vs as [|v vs IH]; [reflexivity|].
  cbn [map]. unfold pairs_size, entry_size in *. cbn [fold_right fst snd]. rewrite IH. lia.
Qed.

Lemma pairs_size_iter m :
  pairs_size (flat_map (fun kv => map (pair (fst kv)) (snd kv)) m) = table_size m.
Proof.
  induction m as [|[k vs] m IH]; [reflexivity|].
  cbn [flat_map fst snd]. rewrite pairs_size_app, pairs_size_entry, IH. reflexivity.
Qed.

Lemma enc_length_ge l : (length l <= length (enc l))%nat.
Proof.
  induction l as [|[k v] l IH]; [cbn; lia|].
  cbn [enc flat_map length fst snd]. fold (enc l). rewrite !length_app.
  pose proof (prop_serialize_length k). pose proof (prop_size_pos k). lia.
Qed.

End Gen.

Lemma iter_wf aux t : tinv aux t -> Forall (fun kv => value_wf (snd kv)) (iter t).
Proof.
  intros (_ & _ & _ & Hok). unfold iter. induction (props t) as [|[k vs] m IH]; [constructor|].
  inversion Hok as [|? ? [_ [Hw _]] Hok']; subst. cbn [flat_map fst snd] in *.
  apply Forall_app. split; [|exact (IH Hok')].
  clear -Hw. induction vs as [|v vs IHv]; [constructor|].
  inversion Hw; subst. constructor; [assumption|auto].
Qed.

Lemma made_roundtrip aux t rest :
  made aux t -> size t <= 0xfffffff ->
  exists bytes, Props.serialize t = Ok bytes /\
    Z.of_nat (length bytes) = props_size t /\
    Props.deserialize aux (bytes ++ rest) = Ok (t, rest).
Proof.
  intros Hm Hle. pose proof (made_tinv aux t Hm) as Ht.
  pose proof (iter_wf aux t Ht) as Hw.
  destruct Ht as (Hs & Hv & Hnd & Hok).
  pose proof (table_size_nonneg (props t)).
  assert (Hsz : size t mod 2 ^ 32 = size t) by (apply Z.mod_small; lia).
  assert (Hlen : Z.of_nat (length (enc (iter t))) = size t).
  { rewrite Hs. unfold enc. apply iter_bytes_length.
    clear -Hok. induction Hok as [|[k vs] m [_ [Hw _]] _ IH]; constructor; [|exact IH].
    cbn [snd] in *. clear -Hw. induction Hw; constructor; [apply value_wf_ok|]; assumption. }
  exists (vbi_serialize (size t) ++ enc (iter t)). split; [|split].
  - unfold Props.serialize. rewrite Hsz, vbi_new_ok by lia. reflexivity.
  - rewrite length_app, Nat2Z.inj_add, vbi_serialize_length, Hlen by lia.
    unfold props_size. rewrite Hsz. reflexivity.
  - unfold Props.deserialize. rewrite <- app_assoc, vbi_roundtrip by lia. cbn [bind].
    assert (Hlim : firstn (Z.to_nat (size t)) (enc (iter t) ++ rest) = enc (iter t)).
    { rewrite firstn_app. replace (Z.to_nat (size t) - length (enc (iter t)))%nat with 0%nat by lia.
      rewrite firstn_O, app_nil_r. apply firstn_all2. lia. }
    rewrite Hlim.
    pose proof (loop_steps aux (iter t) new t [] (S (length (enc (iter t)))) Hw) as Hl.
    rewrite app_nil_r in Hl.
    assert (Hst : steps aux new (iter t) = Some t).
    { unfold iter. rewrite (steps_iter aux (props t) Hnd Hok).
      destruct t as [s x m]. cbn [size valid props] in *. subst s x. reflexivity. }
    assert (Hps : pairs_size (iter t) = size t).
    { unfold iter. rewrite pairs_size_iter. symmetry. exact Hs. }
    rewrite Hps in Hl. pose proof (enc_length_ge (iter t)).
    rewrite Hl by (exact Hst || lia).
    cbn [bind length]. rewrite Nat.sub_0_r, skipn_app, Nat.sub_diag, skipn_all. reflexivity.
Qed.

Lemma unchecked_get t key value m k :
  get (fst (unchecked_insert t key value m)) k =
  if Property_beq k key then
    Some (match lookup key (props t) with
          | Some old => if m then old ++ [value] else [value]
          | None => [value]
          end)
  else get t k.
Proof.
  unfold unchecked_insert, get. destruct m; cbv zeta; cbn [fst props].
  - destruct (lookup key (props t)) eqn:Hl; rewrite lookup_hm_insert; reflexivity.
  - rewrite lookup_hm_insert. destruct (lookup key (props t)); reflexivity.
Qed.

Lemma checked_insert_cases aux t key value ty :
  (snd (checked_insert aux t key value ty) = Ok tt <->
   Z.land (fst (fst (aux key))) ty = ty /\ prop_type value = snd (fst (aux key))) /\
  (forall e, snd (checked_insert aux t key value ty) = Err e ->
   e = BadProperty /\ fst (checked_insert aux t key value ty) = t) /\
  (snd (checked_insert aux t key value ty) = Ok tt ->
   get (fst (checked_insert aux t key value ty)) key =
     Some (match get t key with
           | Some old => if snd (aux key) then old ++ [value] else [value]
           | None => [value]
           end) /\
   (forall k, k <> key -> get (fst (checked_insert aux t key value ty)) k = get t k) /\
   valid (fst (checked_insert aux t key value ty)) = Z.land (valid t) (fst (fst (aux key)))).
Proof.
  unfold checked_insert.
  pose proof (fun k => unchecked_get {| size := size t; valid := Z.land (valid t) (fst (fst (aux key)));
                                        props := props t |} key value (snd (aux key)) k) as Hg.
  destruct (aux key) as [[f pty] m]. cbn [fst snd] in *.
  destruct (Z.eqb_spec (Z.land f ty) ty) as [Hf|Hf]; cbn [negb orb].
  - destruct (MqttPropValueType_beq pty (prop_type value)) eqn:E; cbn [negb snd fst].
    + apply MqttPropValueType_beq_true in E. split; [split; [intros _; auto|reflexivity]|].
      split; [intros e He; discriminate|]. intros _. split; [|split].
      * rewrite Hg, Property_beq_refl. reflexivity.
      * intros k Hk. rewrite Hg. apply Property_beq_false in Hk. rewrite Hk. reflexivity.
      * unfold unchecked_insert. destruct m; reflexivity.
    + split; [split; [discriminate|]|].
      * intros [_ H]. rewrite H, (proj2 (MqttPropValueType_beq_true _ _) eq_refl) in E.
        discriminate.
      * split; [intros e He; injection He as <-; auto|discriminate].
  - cbn [snd fst]. split; [split; [discriminate|intros [H _]; contradiction]|].
    split; [intros e He; injection He as <-; auto|discriminate].
Qed.

Lemma checked_insert_keeps_valid aux t key value ty :
  is_valid_for t ty = true -> is_valid_for (fst (checked_insert aux t key value ty)) ty = true.
Proof.
  intros Ht. destruct (checked_insert_cases aux t key value ty) as [Hiff [Herr Hok]].
  destruct (snd (checked_insert aux t key value ty)) as [u|e] eqn:Hs.
  - destruct u. destruct (proj1 Hiff eq_refl) as [Hf _].
    destruct (Hok eq_refl) as (_ & _ & Hv).
    unfold is_valid_for in *. rewrite Hv.
    apply Z.eqb_eq in Ht. apply Z.eqb_eq.
    rewrite <- Z.land_assoc, Hf. exact Ht.
  - destruct (Herr e eq_refl) as [_ ->]. exact Ht.
Qed.

Lemma new_valid_for ty : In ty owner_kinds -> is_valid_for new ty = true.
Proof. intros Hty. repeat (destruct Hty as [<-|Hty]; [reflexivity|]). destruct Hty. Qed.

(** X1.  A property table built from [Properties::new] by [insert] and
    [checked_insert] calls (whatever their results) on values made by the
    [MqttPropValue] constructors, whose byte size is at most 0x0FFFFFFF,
    serializes without error into [t.size()] bytes, and deserializing
    those bytes followed by any [rest] gives back the same table
    (entries, order, size and owners mask) and leaves [rest]. *)
Theorem props_serialize_roundtrip aux t rest :
  made aux t -> size t <= 0xfffffff ->
  exists bytes, Props.serialize t = Ok bytes /\
    Z.of_nat (length bytes) = props_size t /\
    Props.deserialize aux (bytes ++ rest) = Ok (t, rest).
Proof. apply made_roundtrip. Qed.

Lemma props_serialize_roundtrip_witness :
  let t := fst (insert auxiliary_data
                  (fst (insert auxiliary_data
                     (fst (checked_insert auxiliary_data new MaximumPacketSize
                             (new_u32 1024) CONNECT))
                     UserProperty (VString [97])))
                  UserProperty (VString [98])) in
  made auxiliary_data t /\ size t <= 0xfffffff /\
  exists bytes, Props.serialize t = Ok bytes /\
    Z.of_nat (length bytes) = props_size t /\
    Props.deserialize auxiliary_data (bytes ++ [7]) = Ok (t, [7]).
Proof.
  intros t.
  assert (Hm : made auxiliary_data t).
  { apply made_insert; [apply made_insert; [apply made_checked_insert; [apply made_new|]|]|];
      cbn; (lia || reflexivity). }
  assert (Hs : size t <= 0xfffffff) by (vm_compute; discriminate).
  split; [exact Hm|split; [exact Hs|]].
  exact (props_serialize_roundtrip auxiliary_data t [7] Hm Hs).
Defined.

(** X2.  [Properties::checked_insert] (what every [add_prop] calls)
    succeeds exactly when the property's owners include the requested
    packet kind and the value has the property's type.  On failure it
    returns [BadProperty] and leaves the table unchanged.  On success
    [get] of the key returns the old values with the new one appended for
    a multi-valued property, only the new one for a single-valued one,
    every other key keeps its values, and the owners mask is narrowed by
    the property's owners. *)
Theorem checked_insert_get aux t key value ty :
  (snd (checked_insert aux t key value ty) = Ok tt <->
   Z.land (fst (fst (aux key))) ty = ty /\ prop_type value = snd (fst (aux key))) /\
  (forall e, snd (checked_insert aux t key value ty) = Err e ->
   e = BadProperty /\ fst (checked_insert aux t key value ty) = t) /\
  (snd (checked_insert aux t key value ty) = Ok tt ->
   get (fst (checked_insert aux t key value ty)) key =
     Some (match get t key with
           | Some old => if snd (aux key) then old ++ [value] else [value]
           | None => [value]
           end) /\
   (forall k, k <> key -> get (fst (checked_insert aux t key value ty)) k = get t k) /\
   valid (fst (checked_insert aux t key value ty)) = Z.land (valid t) (fst (fst (aux key)))).
Proof. apply checked_insert_cases. Qed.

(** X3.  A table filled only through [checked_insert] for one packet kind
    (a sequence of [add_prop] calls on a new table, whatever their
    results) is always valid for that kind, so the packet's decoder never
    rejects its properties with [BadProperty]. *)
Theorem add_props_valid_for aux ty l : In ty owner_kinds ->
  is_valid_for (add_props aux ty l) ty = true.
Proof.
  intros Hty. unfold add_props. generalize (new_valid_for ty Hty). generalize new.
  induction l as [|[k v] l IH]; intros t Ht; [exact Ht|].
  cbn [fold_left fst snd]. apply IH. apply checked_insert_keeps_valid. exact Ht.
Qed.

Lemma add_props_valid_for_witness :
  In SUBSCRIBE owner_kinds /\
  is_valid_for (add_props auxiliary_data SUBSCRIBE
                  [(UserProperty, VString [97]); (ContentType, VString [98])]) SUBSCRIBE = true.
Proof.
  assert (H : In SUBSCRIBE owner_kinds) by (cbn; tauto).
  split; [exact H|]. exact (add_props_valid_for auxiliary_data SUBSCRIBE _ H).
Defined.

(** Every value a table holds under a key has the type [aux] gives the key. *)
Definition typed (aux : Property -> Z * MqttPropValueType * bool) (t : Properties) : Prop :=
  forall k vs, get t k = Some vs -> Forall (fun v => prop_type v = snd (fst (aux k))) vs.

Lemma typed_new aux : typed aux new.
Proof. intros k vs H. discriminate H. Qed.

Lemma typed_insert aux t key value : typed aux t -> typed aux (fst (insert aux t key value)).
Proof.
  intros Ht. unfold insert. destruct (aux key) as [[f ty] m] eqn:Ea.
  destruct (MqttPropValueType_beq (prop_type value) ty) eqn:E; cbn [negb]; [|exact Ht].
  apply MqttPropValueType_beq_true in E.
  set (t0 := {| size := size t; valid := Z.land (valid t) f; props := props t |}).
  assert (Ht0 : typed aux t0) by exact Ht.
  assert (H : typed aux (fst (unchecked_insert t0 key value m))).
  { intros k vs Hk. rewrite unchecked_get in Hk.
    destruct (Property_beq k key) eqn:Ek; [|exact (Ht0 k vs Hk)].
    apply Property_beq_true in Ek. subst k. injection Hk as <-. rewrite Ea. cbn [fst snd].
    assert (Hv : Forall (fun v => prop_type v = ty) [value]) by (constructor; [exact E|constructor]).
    destruct (lookup key (props t)) as [old|] eqn:El; [|exact Hv].
    assert (Ho : Forall (fun v => prop_type v = ty) old).
    { specialize (Ht0 key old El). rewrite Ea in Ht0. exact Ht0. }
    destruct m; [apply Forall_app; split; assumption|exact Hv]. }
  destruct (unchecked_insert t0 key value m) as [t' [o|]]; exact H.
Qed.

Lemma typed_loop aux : forall fuel sz t buf t' rest, typed aux t ->
  deserialize_loop aux fuel sz t buf = Ok (t', rest) -> typed aux t'.
Proof.
  induction fuel as [|fuel IH]; intros sz t buf t' rest Ht H; [discriminate|].
  cbn [deserialize_loop] in H. destruct (sz =? 0).
  - injection H as <- _. exact Ht.
  - destruct (prop_deserialize buf) as [[key r1]|e]; [|discriminate]. cbn [bind] in H.
    destruct (aux key) as [[f ty] m].
    destruct (value_deserialize ty r1) as [[value r2]|e]; [|discriminate]. cbn [bind] in H.
    destruct (insert aux t key value) as [t1 res] eqn:Ei.
    destruct res as [u|e]; [|discriminate]. cbn [bind] in H.
    pose proof (typed_insert aux t key value Ht) as H1. rewrite Ei in H1.
    exact (IH _ _ _ _ _ H1 H).
Qed.

(** X4.  In the [packet] crate, [MqttPropValue::into_bool] looks for the
    [Byte] variant: it returns [None] for every value made by [new_bool]
    and for every value stored under the [Bool]-typed property
    [RequestProblemInformation] in a table read by [Properties::deserialize];
    it returns [Some] for [Byte] values. *)
Theorem into_bool_misses_bool :
  (forall b, into_bool (new_bool b) = None) /\
  (forall buf t rest vs, deserialize auxiliary_data buf = Ok (t, rest) ->
     get t RequestProblemInformation = Some vs ->
     Forall (fun v => into_bool v = None) vs) /\
  (forall u, into_bool (new_u8 u) = Some (u =? 1)).
Proof.
  split; [intros b; reflexivity|split; [|intros u; reflexivity]].
  intros buf t rest vs H Hg. unfold deserialize in H.
  destruct (vbi_deserialize buf) as [[n r]|e]; [|discriminate]. cbn [bind] in H.
  destruct (deserialize_loop _ _ _ _ _) as [[t' lr]|e] eqn:El; [|discriminate].
  cbn [bind] in H. injection H as <- _.
  pose proof (typed_loop _ _ _ _ _ _ _ (typed_new auxiliary_data) El _ _ Hg) as Hty.
  cbn in Hty. eapply Forall_impl; [|exact Hty].
  intros v Hv. destruct v; try discriminate Hv; reflexivity.
Qed.

(** The buffer [02 17 00] (length 2, RequestProblemInformation, 0)
    decodes to a table holding [VBool 0], which [into_bool] misses. *)
Lemma into_bool_misses_bool_witness :
  let t := match deserialize auxiliary_data [2; 23; 0] with
           | Ok (t, _) => t | Err _ => new end in
  deserialize auxiliary_data [2; 23; 0] = Ok (t, []) /\
  get t RequestProblemInformation = Some [VBool 0] /\
  Forall (fun v => into_bool v = None) [VBool 0].
Proof.
  intros t.
  assert (H1 : deserialize auxiliary_data [2; 23; 0] = Ok (t, [])) by (vm_compute; reflexivity).
  assert (H2 : get t RequestProblemInformation = Some [VBool 0]) by (vm_compute; reflexivity).
  split; [exact H1|split; [exact H2|]].
  exact (proj1 (proj2 into_bool_misses_bool) _ _ _ _ H1 H2).
Defined.

End PropsModelFacts.

(** ** Building, serializing and reading back CONNECT packets *)

Module ConnectModelFacts.
Import Wire Qos Packets PropsModel WireFacts PacketsFacts PropsModelFacts ConnectFacts
  ConnectDecode ConnectModel.

Ltac bool_facts H :=
  repeat match type of H with
  | (_ && _) = true => apply andb_true_iff in H; destruct H as [H ?H]
  end.

Ltac decode_facts :=
  repeat match goal with
  | H : (_ <=? _) = true |- _ => apply Z.leb_le in H
  | H : (_ <? _) = true |- _ => apply Z.ltb_lt in H
  | H : Bool.eqb _ _ = true |- _ => apply Bool.eqb_prop in H
  end.

(** The flag bits a setter keeps: range, [flags_ok] and the presence bits. *)
Definition flags_kept (f g : Z) (ms : list Z) : bool :=
  (0 <=? g) && (g <? 256) && flags_ok g &&
  forallb (fun m => Bool.eqb (contains g m) (contains f m)) ms.

Lemma flags_kept_spec f g ms : flags_kept f g ms = true ->
  0 <= g < 256 /\ flags_ok g = true /\ forall m, In m ms -> contains g m = contains f m.
Proof.
  unfold flags_kept. intros H. bool_facts H. decode_facts.
  split; [lia|split; [assumption|]]. intros m Hm.
  rewrite forallb_forall in H0. apply Bool.eqb_prop, H0, Hm.
Qed.

Lemma flags_enum (P : Z -> bool) (Q : Z -> bool) :
  forallb (fun f => negb (P f) || Q f) all_bytes = true ->
  forall f, 0 <= f < 256 -> P f = true -> Q f = true.
Proof.
  intros H f Hf Hp. pose proof (byte_forall _ H f Hf) as H'. cbv beta in H'.
  rewrite Hp in H'. exact H'.
Qed.

Lemma clean_start_flags f : 0 <= f < 256 -> flags_ok f = true ->
  flags_kept f (Z.lor f CLEAN_START) [WILL; USERNAME; PASSWORD] = true.
Proof.
  intros Hf Hok.
  exact (flags_enum flags_ok (fun f => flags_kept f (Z.lor f CLEAN_START) [WILL; USERNAME; PASSWORD]) ltac:(vm_compute; reflexivity) f Hf Hok).
Qed.

Lemma will_flags f : 0 <= f < 256 -> flags_ok f = true ->
  flags_kept f (Z.lor f WILL) [USERNAME; PASSWORD] = true /\ contains (Z.lor f WILL) WILL = true.
Proof.
  intros Hf Hok. apply andb_true_iff.
  exact (flags_enum flags_ok (fun f => flags_kept f (Z.lor f WILL) [USERNAME; PASSWORD] && contains (Z.lor f WILL) WILL) ltac:(vm_compute; reflexivity) f Hf Hok).
Qed.

Lemma username_flags f : 0 <= f < 256 -> flags_ok f = true ->
  flags_kept f (Z.lor f USERNAME) [WILL; PASSWORD] = true /\ contains (Z.lor f USERNAME) USERNAME = true.
Proof.
  intros Hf Hok. apply andb_true_iff.
  exact (flags_enum flags_ok (fun f => flags_kept f (Z.lor f USERNAME) [WILL; PASSWORD] && contains (Z.lor f USERNAME) USERNAME) ltac:(vm_compute; reflexivity) f Hf Hok).
Qed.

Lemma password_flags f : 0 <= f < 256 -> flags_ok f = true ->
  flags_kept f (Z.lor f PASSWORD) [WILL; USERNAME] = true /\ contains (Z.lor f PASSWORD) PASSWORD = true.
Proof.
  intros Hf Hok. apply andb_true_iff.
  exact (flags_enum flags_ok (fun f => flags_kept f (Z.lor f PASSWORD) [WILL; USERNAME] && contains (Z.lor f PASSWORD) PASSWORD) ltac:(vm_compute; reflexivity) f Hf Hok).
Qed.

Lemma will_retain_flags f : 0 <= f < 256 -> flags_ok f = true -> contains f WILL = true ->
  flags_kept f (Z.lor f WILL_RETAIN) [WILL; USERNAME; PASSWORD] = true.
Proof.
  intros Hf Hok Hw.
  exact (flags_enum (fun f => flags_ok f && contains f WILL) (fun f => flags_kept f (Z.lor f WILL_RETAIN) [WILL; USERNAME; PASSWORD]) ltac:(vm_compute; reflexivity) f Hf ltac:(cbv beta; rewrite Hok, Hw; reflexivity)).
Qed.

Lemma will_qos_flags f q : 0 <= f < 256 -> flags_ok f = true -> contains f WILL = true ->
  flags_kept f (Z.lor (Z.land f (Z.lnot (Z.lor WILL_QOS1 WILL_QOS2))) (qos_flags q))
    [WILL; USERNAME; PASSWORD] = true.
Proof.
  intros Hf Hok Hw.
  pose proof (flags_enum (fun f => flags_ok f && contains f WILL)
    (fun f => forallb (fun q => flags_kept f (Z.lor (Z.land f (Z.lnot (Z.lor WILL_QOS1 WILL_QOS2))) (qos_flags q))
    [WILL; USERNAME; PASSWORD]) [QoS0; QoS1; QoS2]) ltac:(vm_compute; reflexivity) f Hf
    ltac:(cbv beta; rewrite Hok, Hw; reflexivity)) as H.
  cbv beta in H. rewrite forallb_forall in H. apply H. destruct q; cbn; auto.
Qed.

Lemma utf8_new_same s x : utf8_new s = Ok x -> x = s /\ utf8_new s = Ok s.
Proof.
  unfold utf8_new. destruct (utf8_verify s); [|discriminate]. cbn [bind].
  intros H. injection H as <-. auto.
Qed.

Lemma binary_new_same d x : binary_new d = Ok x -> x = d /\ binary_new d = Ok d.
Proof.
  unfold binary_new. destruct (Z.of_nat (length d) >? 65535); [discriminate|].
  intros H. injection H as <-. auto.
Qed.

(** What holds of every will a program builds. *)
Definition will_inv (w : Will) : Prop :=
  made Props.auxiliary_data_apiformes (will_props w) /\
  Props.is_valid_for (will_props w) Props.WILL = true /\
  utf8_new (topic w) = Ok (topic w) /\ binary_new (payload w) = Ok (payload w).

Definition opt_inv {A : Type} (b : bool) (P : A -> Prop) (o : option A) : Prop :=
  match o with Some a => b = true /\ P a | None => b = false end.

(** What holds of every CONNECT packet a program builds. *)
Definition connect_inv (c : Connect) : Prop :=
  0 <= flags c < 256 /\ flags_ok (flags c) = true /\ 0 <= keep_alive c < 65536 /\
  made Props.auxiliary_data_apiformes (props c) /\
  Props.is_valid_for (props c) Props.CONNECT = true /\
  utf8_new (clientid c) = Ok (clientid c) /\
  opt_inv (contains (flags c) WILL) will_inv (will_info c) /\
  opt_inv (contains (flags c) USERNAME) (fun u => utf8_new u = Ok u) (username c) /\
  opt_inv (contains (flags c) PASSWORD) (fun p => binary_new p = Ok p) (password c).

Lemma will_made_inv w : will_made w -> will_inv w.
Proof.
  induction 1 as [t p w Hn|w key value _ IH Hv|w t _ IH|w p _ IH].
  - unfold will_new in Hn.
    destruct (utf8_new t) as [x|] eqn:Ht; [|discriminate]. cbn [bind] in Hn.
    destruct (binary_new p) as [y|] eqn:Hp; [|discriminate]. cbn [bind] in Hn.
    injection Hn as <-. apply utf8_new_same in Ht as [-> Ht].
    apply binary_new_same in Hp as [-> Hp].
    split; [constructor|split; [apply new_valid_for; cbn; tauto|auto]].
  - destruct IH as (Hm & Hval & Ht & Hp). unfold will_add_prop.
    pose proof (made_checked_insert _ _ key value Props.WILL Hm Hv) as Hm'.
    pose proof (checked_insert_keeps_valid Props.auxiliary_data_apiformes _ key value _ Hval) as Hval'.
    destruct (Props.checked_insert _ _ _ _ _) as [p r]. cbn [fst] in *.
    unfold will_inv. cbn [will_props topic payload]. auto.
  - destruct IH as (Hm & Hval & Ht & Hp). unfold will_set_topic.
    destruct (utf8_new t) as [x|] eqn:Hx; [|exact (conj Hm (conj Hval (conj Ht Hp)))].
    apply utf8_new_same in Hx as [-> Hx]. unfold will_inv; cbn. auto.
  - destruct IH as (Hm & Hval & Ht & Hp). unfold will_set_payload.
    destruct (binary_new p) as [x|] eqn:Hx; [|exact (conj Hm (conj Hval (conj Ht Hp)))].
    apply binary_new_same in Hx as [-> Hx]. unfold will_inv; cbn. auto.
Qed.

Lemma kept3 f g b1 b2 b3 :
  flags_kept f g [WILL; USERNAME; PASSWORD] = true ->
  contains f WILL = b1 -> contains f USERNAME = b2 -> contains f PASSWORD = b3 ->
  0 <= g < 256 /\ flags_ok g = true /\ contains g WILL = b1 /\ contains g USERNAME = b2 /\
  contains g PASSWORD = b3.
Proof.
  intros H <- <- <-. apply flags_kept_spec in H as (Hr & Hok & Hm).
  repeat split; try lia; auto; apply Hm; cbn; tauto.
Qed.

Lemma connect_made_inv c : connect_made c -> connect_inv c.
Proof.
  induction 1 as [cid c Hn|c _ IH|c k _ IH Hk|c w _ IH Hw|c q _ IH|c _ IH|c u _ IH Hu|c p _ IH Hp|c key value _ IH Hv].
  - unfold connect_new in Hn. destruct (utf8_new cid) as [x|] eqn:Hx; [|discriminate].
    cbn [bind] in Hn. injection Hn as <-. apply utf8_new_same in Hx as [-> Hx].
    unfold connect_inv; cbn. repeat split; try lia; auto; try constructor.
  - destruct IH as (Hf & Hok & Hk & Hm & Hval & Hcid & Hw & Hu & Hp).
    destruct (kept3 _ _ _ _ _ (clean_start_flags _ Hf Hok) eq_refl eq_refl eq_refl)
      as (Hf' & Hok' & HW & HU & HP).
    unfold connect_inv, set_clean_start; cbn [flags keep_alive props clientid will_info username password].
    rewrite HW, HU, HP. repeat split; auto; try lia.
  - destruct IH as (Hf & Hok & Hk0 & Hm & Hval & Hcid & Hw & Hu & Hp).
    unfold connect_inv, set_keep_alive; cbn. repeat split; auto; try lia.
  - destruct IH as (Hf & Hok & Hk & Hm & Hval & Hcid & HwI & Hu & Hp).
    destruct (will_flags _ Hf Hok) as [Hkept HW].
    apply flags_kept_spec in Hkept as (Hf' & Hok' & Hm').
    unfold connect_inv, set_will; cbn [flags keep_alive props clientid will_info username password].
    rewrite (Hm' USERNAME), (Hm' PASSWORD) by (cbn; tauto).
    destruct (will_made_inv w Hw) as (? & ? & ? & ?).
    repeat split; auto; try lia.
  - pose proof IH as IH0. destruct IH as (Hf & Hok & Hk & Hm & Hval & Hcid & Hw & Hu & Hp).
    unfold set_will_qos. destruct (contains (flags c) WILL) eqn:HWc;
      [|exact IH0].
    destruct (kept3 _ _ _ _ _ (will_qos_flags _ q Hf Hok HWc) eq_refl eq_refl eq_refl)
      as (Hf' & Hok' & HW & HU & HP).
    unfold connect_inv; cbn [fst flags keep_alive props clientid will_info username password].
    rewrite HW, HU, HP, HWc. repeat split; auto; try lia.
  - pose proof IH as IH0. destruct IH as (Hf & Hok & Hk & Hm & Hval & Hcid & Hw & Hu & Hp).
    unfold set_will_retain. destruct (contains (flags c) WILL) eqn:HWc;
      [|exact IH0].
    destruct (kept3 _ _ _ _ _ (will_retain_flags _ Hf Hok HWc) eq_refl eq_refl eq_refl)
      as (Hf' & Hok' & HW & HU & HP).
    unfold connect_inv; cbn [fst flags keep_alive props clientid will_info username password].
    rewrite HW, HU, HP, HWc. repeat split; auto; try lia.
  - destruct IH as (Hf & Hok & Hk & Hm & Hval & Hcid & Hw & Hu0 & Hp).
    destruct (username_flags _ Hf Hok) as [Hkept HU].
    apply flags_kept_spec in Hkept as (Hf' & Hok' & Hm').
    unfold set_username in *. destruct (utf8_new u) as [x|] eqn:Hx; [|discriminate].
    apply utf8_new_same in Hx as [-> Hx].
    unfold connect_inv; cbn [fst flags keep_alive props clientid will_info username password].
    rewrite (Hm' WILL), (Hm' PASSWORD) by (cbn; tauto).
    repeat split; auto; try lia.
  - destruct IH as (Hf & Hok & Hk & Hm & Hval & Hcid & Hw & Hu & Hp0).
    destruct (password_flags _ Hf Hok) as [Hkept HP].
    apply flags_kept_spec in Hkept as (Hf' & Hok' & Hm').
    unfold set_password in *. destruct (binary_new p) as [x|] eqn:Hx; [|discriminate].
    apply binary_new_same in Hx as [-> Hx].
    unfold connect_inv; cbn [fst flags keep_alive props clientid will_info username password].
    rewrite (Hm' WILL), (Hm' USERNAME) by (cbn; tauto).
    repeat split; auto; try lia.
  - destruct IH as (Hf & Hok & Hk & Hm & Hval & Hcid & Hw & Hu & Hp).
    unfold add_prop.
    pose proof (made_checked_insert _ _ key value Props.CONNECT Hm Hv) as Hm'.
    pose proof (checked_insert_keeps_valid Props.auxiliary_data_apiformes _ key value _ Hval) as Hval'.
    destruct (Props.checked_insert _ _ _ _ _) as [t r]. cbn [fst] in *.
    unfold connect_inv; cbn [flags keep_alive props clientid will_info username password].
    repeat split; auto; try lia.
Qed.

Lemma made_size aux t : made aux t -> 0 <= Props.size t /\ Props.size t < Props.props_size t.
Proof.
  intros Hm. destruct (made_tinv aux t Hm) as [Hs _].
  pose proof (table_size_nonneg (Props.props t)).
  pose proof (vbi_size_range (Props.size t mod 2 ^ 32)). unfold Props.props_size. lia.
Qed.

Lemma made_encoding t : made Props.auxiliary_data_apiformes t -> Props.size t <= 0xfffffff ->
  exists pb, Props.serialize t = Ok pb /\ props_encoding pb t.
Proof.
  intros Hm Hle. destruct (made_roundtrip _ t [] Hm Hle) as (pb & Hser & Hlen & _).
  exists pb. split; [exact Hser|split; [|exact Hlen]]. intros r.
  destruct (made_roundtrip _ t r Hm Hle) as (pb' & Hser' & _ & Hdec).
  rewrite Hser in Hser'. injection Hser' as <-. exact Hdec.
Qed.

Lemma made_size_checked t : made Props.auxiliary_data_apiformes t -> Props.size t <= 0xfffffff ->
  props_size_checked t = Some (Props.props_size t).
Proof.
  intros Hm Hle. destruct (made_size _ t Hm) as [H0 _].
  unfold props_size_checked, Props.props_size.
  rewrite Z.mod_small by lia. rewrite vbi_new_ok by lia. reflexivity.
Qed.

Lemma will_size_pos w : will_inv w -> Props.size (will_props w) < will_size w.
Proof.
  intros [Hm _]. pose proof (made_size _ _ Hm). unfold will_size.
  pose proof (utf8_size_nonneg (topic w)). pose proof (binary_size_nonneg (payload w)). lia.
Qed.

Lemma partial_size_parts c : connect_inv c ->
  Props.size (props c) < partial_size c /\
  match will_info c with Some w => Props.size (will_props w) < partial_size c | None => True end.
Proof.
  intros (_ & _ & _ & Hm & _ & _ & Hw & _ & _).
  pose proof (made_size _ _ Hm) as [Hp0 Hp].
  pose proof (utf8_size_nonneg (clientid c)).
  assert (0 <= opt_size utf8_size (username c))
    by (destruct (username c); cbn; [apply utf8_size_nonneg|lia]).
  assert (0 <= opt_size binary_size (password c))
    by (destruct (password c); cbn; [apply binary_size_nonneg|lia]).
  unfold partial_size. destruct (will_info c) as [w|]; cbn [opt_size].
  - destruct Hw as [_ Hw]. pose proof (will_size_pos w Hw).
    destruct Hw as [Hwm _]. pose proof (made_size _ _ Hwm). split; lia.
  - split; [lia|exact I].
Qed.

Lemma inv_encodings c : connect_inv c -> partial_size c <= 0xfffffff ->
  exists pb wpb, Props.serialize (props c) = Ok pb /\ props_encoding pb (props c) /\
    match will_info c with
    | Some w => Props.serialize (will_props w) = Ok wpb /\ will_wf w wpb
    | None => True
    end /\
    partial_size_checked c = Some (partial_size c) /\ 0 <= partial_size c.
Proof.
  intros Hinv Hle. destruct (partial_size_parts c Hinv) as [Hps Hws].
  pose proof Hinv as (Hf & Hok & Hk & Hm & Hval & Hcid & Hw & Hu & Hp).
  pose proof (made_size _ _ Hm) as [Hs0 _].
  destruct (made_encoding (props c) Hm ltac:(lia)) as (pb & Hser & Hpb).
  assert (Hpc : props_size_checked (props c) = Some (Props.props_size (props c)))
    by (apply made_size_checked; [exact Hm|lia]).
  assert (H0 : 0 <= partial_size c) by lia. destruct Hpb as [Hpb1 Hpb2].
  unfold partial_size_checked. rewrite Hpc. unfold partial_size in *.
  destruct (will_info c) as [w|] eqn:Ew.
  - destruct Hw as [HW (Hwm & Hwv & Hwt & Hwp)].
    destruct (made_encoding (will_props w) Hwm ltac:(lia)) as (wpb & Hwser & Hwpb).
    exists pb, wpb. unfold will_size_checked. rewrite made_size_checked by (assumption || lia).
    cbn [option_map opt_size] in *. destruct Hwpb as [Hwpb1 Hwpb2].
    unfold will_size, will_wf in *. repeat split; auto.
  - exists pb, []. cbn [opt_size] in *. repeat split; auto.
Qed.

Lemma connect_serialize_body c pb wpb :
  0 <= flags c < 256 -> 0 <= partial_size c <= 0xfffffff ->
  partial_size_checked c = Some (partial_size c) ->
  Props.serialize (props c) = Ok pb ->
  match will_info c with Some w => Props.serialize (will_props w) = Ok wpb | None => True end ->
  connect_serialize c = Written (vbi_serialize (partial_size c) ++ connect_body c pb wpb).
Proof.
  intros Hf Hle Hpcs Hser Hwser.
  unfold connect_serialize. rewrite Hpcs. cbn [with_size].
  rewrite Z.mod_small, vbi_new_ok by lia. cbn [try_]. rewrite mqtt_name_ok. cbn [try_].
  unfold props_put_q. rewrite Hser. unfold connect_body, protocol_header, put_u8.
  rewrite (Z.mod_small (flags c)) by lia.
  destruct (will_info c) as [w|].
  - unfold will_serialize, props_put_q. rewrite Hwser. cbn [wseq after put opt_bytes].
    repeat rewrite <- app_assoc. reflexivity.
  - cbn [wseq after put opt_bytes]. repeat rewrite <- app_assoc. reflexivity.
Qed.

Lemma connect_decode_body c pb wpb rest :
  Z.of_nat (length (connect_body c pb wpb)) = partial_size c -> partial_size c <= 0xfffffff ->
  body_deserialize (connect_body c pb wpb ++ []) = Ok (c, []) ->
  connect_deserialize (vbi_serialize (partial_size c) ++ connect_body c pb wpb ++ rest) = Ok (c, rest).
Proof.
  intros Hlen Hle Hb. rewrite <- Hlen. rewrite connect_frame by lia.
  rewrite app_nil_r in Hb. rewrite Hb.
  rewrite Hlen, Z.eqb_refl. cbn [length]. rewrite Nat.sub_0_r.
  rewrite skipn_app, Nat.sub_diag, skipn_all. reflexivity.
Qed.

(** X5.  A CONNECT packet built with [Connect::new] and the setters
    ([set_clean_start], [set_keep_alive], [set_will] with a will built by
    [Will::new] and its setters, [set_will_qos], [set_will_retain],
    successful [set_username] / [set_password], [add_prop] with values
    from the [MqttPropValue] constructors), whose [partial_size] is at most
    0x0FFFFFFF, serializes without error into the length prefix followed
    by [partial_size] bytes, and [Connect::deserialize] reads those bytes,
    followed by anything, back into the same packet and leaves the rest. *)
Theorem connect_serialize_roundtrip c rest :
  connect_made c -> partial_size c <= 0xfffffff ->
  exists body, connect_serialize c = Written (vbi_serialize (partial_size c) ++ body) /\
    Z.of_nat (length body) = partial_size c /\
    connect_deserialize (vbi_serialize (partial_size c) ++ body ++ rest) = Ok (c, rest).
Proof.
  intros Hmade Hle. pose proof (connect_made_inv c Hmade) as Hinv.
  destruct (inv_encodings c Hinv Hle) as (pb & wpb & Hser & Hpb & Hw & Hpcs & Hs0).
  pose proof Hinv as (Hf & Hok & Hk & Hm & Hval & Hcid & Hwi & Hu & Hp).
  assert (Hwf : connect_wf c pb wpb).
  { unfold connect_wf. destruct Hpb as [Hpb1 Hpb2]. destruct (will_info c) as [w|];
      [destruct Hwi as [HW _]; destruct Hw as [_ ((? & ?) & ? & ? & ?)]|];
      repeat split; auto; lia. }
  exists (connect_body c pb wpb).
  pose proof (body_length c pb wpb Hwf) as Hlen.
  split; [|split; [exact Hlen|]].
  - apply connect_serialize_body; auto; try lia. destruct (will_info c); [apply Hw|exact I].
  - apply connect_decode_body; auto. apply body_ok, Hwf.
Qed.

Lemma connect_serialize_roundtrip_witness :
  let w := fst (will_add_prop (mkWill Props.new [116] [1; 2])
                  Props.MessageExpiryInterval (new_u32 60)) in
  let c := fst (set_username
                  (fst (set_will_qos
                     (set_will
                        (fst (add_prop (set_clean_start (mkConnect 0 0 Props.new [99] None None None))
                                Props.MaximumPacketSize (new_u32 1024)))
                        w) QoS1))
                  [117]) in
  connect_made c /\ partial_size c <= 0xfffffff /\
  exists body, connect_serialize c = Written (vbi_serialize (partial_size c) ++ body) /\
    Z.of_nat (length body) = partial_size c /\
    connect_deserialize (vbi_serialize (partial_size c) ++ body ++ [9]) = Ok (c, [9]).
Proof.
  intros w c.
  assert (Hw : will_made w).
  { apply will_made_add_prop; [apply (will_made_new [116] [1; 2]); reflexivity|].
    cbn; lia. }
  assert (Hm : connect_made c).
  { apply connect_made_username; [|reflexivity]. apply connect_made_will_qos.
    apply connect_made_will; [|exact Hw]. apply connect_made_add_prop; [|cbn; lia].
    apply connect_made_clean_start. apply (connect_made_new [99]). reflexivity. }
  assert (Hs : partial_size c <= 0xfffffff) by (vm_compute; discriminate).
  split; [exact Hm|split; [exact Hs|]].
  exact (connect_serialize_roundtrip c [9] Hm Hs).
Defined.

Lemma utf8_reads_binary p s r : binary_new p = Ok p ->
  utf8_deserialize (binary_serialize p) = Ok (s, r) -> r = [].
Proof.
  unfold binary_new. intros Hp.
  destruct (Z.gtb_spec (Z.of_nat (length p)) 65535) as [|Hlen]; [discriminate|].
  unfold utf8_deserialize, binary_serialize.
  rewrite deserialize_two_put_u16 by lia. cbn [bind].
  rewrite Z.ltb_irrefl, Nat2Z.id, firstn_all.
  destruct (from_utf8 p) as [x|]; [|discriminate]. cbn [bind].
  destruct (utf8_new x) as [y|]; [|discriminate]. cbn [bind].
  intros H. injection H as _ <-. apply skipn_all.
Qed.

Ltac missing_tail Hun HU Hpw :=
  rewrite Hun; cbn [opt_bytes app]; rewrite HU; cbn [opt_deserialize]; rewrite ?app_nil_r;
  destruct (password _) as [p|] eqn:Ep; cbn [opt_bytes];
  [ destruct Hpw as [HP Hp'];
    destruct (utf8_deserialize (binary_serialize p)) as [[s r]|e] eqn:Hd;
    cbn [Props.map_fst bind];
    [ rewrite (utf8_reads_binary p s r Hp' Hd), HP; cbn [opt_deserialize];
      eexists; reflexivity
    | eexists; reflexivity ]
  | cbn; eexists; reflexivity ].

Lemma body_missing_username c pb wpb :
  0 <= flags c < 256 -> flags_ok (flags c) = true -> 0 <= keep_alive c < 65536 ->
  props_encoding pb (props c) -> Props.is_valid_for (props c) Props.CONNECT = true ->
  utf8_new (clientid c) = Ok (clientid c) ->
  match will_info c with
  | Some w => contains (flags c) WILL = true /\ will_wf w wpb
  | None => contains (flags c) WILL = false
  end ->
  match password c with
  | Some p => contains (flags c) PASSWORD = true /\ binary_new p = Ok p
  | None => contains (flags c) PASSWORD = false
  end ->
  username c = None -> contains (flags c) USERNAME = true ->
  exists e, body_deserialize (connect_body c pb wpb) = Err e.
Proof.
  intros Hf Hok Hk [Hp _] Hv Hc Hw Hpw Hun HU.
  rewrite <- (app_nil_r (connect_body c pb wpb)).
  unfold connect_body. header Hf.
  rewrite flags_accepted by assumption. cbn [bind].
  rewrite <- ?app_assoc, deserialize_two_put_u16 by assumption. cbn [bind].
  rewrite Hp. cbn [bind]. rewrite Hv. cbn [negb].
  rewrite utf8_roundtrip by assumption. cbn [bind].
  destruct (will_info c) as [w|] eqn:Ew.
  - destruct Hw as [HW (Hwp & Hwv & Hwt & Hwd)]. destruct Hwp as [Hwp _].
    rewrite HW. cbn [opt_deserialize opt_bytes]. rewrite <- ?app_assoc.
    unfold will_deserialize. rewrite Hwp. cbn [bind]. rewrite Hwv.
    rewrite utf8_roundtrip by assumption. cbn [bind].
    rewrite binary_roundtrip by assumption. cbn [bind Props.map_fst].
    missing_tail Hun HU Hpw.
  - rewrite Hw. cbn [opt_deserialize opt_bytes app bind].
    missing_tail Hun HU Hpw.
Qed.

(** X7.  When [Connect::set_username] is given a string that
    [MqttUtf8String::new] rejects, on a packet built as in X5 without a
    user name, it returns that error but leaves the USERNAME flag set and
    no user name; the packet still serializes, and
    [Connect::deserialize] fails on the bytes it produces. *)
Theorem set_username_error_unparsable c u e rest :
  connect_made c -> username c = None -> utf8_new u = Err e ->
  partial_size c <= 0xfffffff ->
  snd (set_username c u) = Err e /\
  contains (flags (fst (set_username c u))) USERNAME = true /\
  username (fst (set_username c u)) = None /\
  exists body,
    connect_serialize (fst (set_username c u)) =
      Written (vbi_serialize (partial_size (fst (set_username c u))) ++ body) /\
    exists e', connect_deserialize
      (vbi_serialize (partial_size (fst (set_username c u))) ++ body ++ rest) = Err e'.
Proof.
  intros Hmade Hun Hu Hle. pose proof (connect_made_inv c Hmade) as Hinv.
  destruct (inv_encodings c Hinv Hle) as (pb & wpb & Hser & Hpb & Hw & Hpcs & Hs0).
  pose proof Hinv as (Hf & Hok & Hk & Hm & Hval & Hcid & Hwi & Hui & Hp).
  destruct (username_flags _ Hf Hok) as [Hkept HU].
  apply flags_kept_spec in Hkept as (Hf' & Hok' & Hm').
  unfold set_username. rewrite Hu. cbn [fst snd flags username].
  set (c' := mkConnect (Z.lor (flags c) USERNAME) (keep_alive c) (props c) (clientid c)
               (will_info c) (username c) (password c)).
  assert (Hsz : partial_size c' = partial_size c) by reflexivity.
  assert (Hchk : partial_size_checked c' = partial_size_checked c) by reflexivity.
  split; [reflexivity|split; [exact HU|split; [exact Hun|]]].
  exists (connect_body c' pb wpb). split.
  - apply connect_serialize_body; cbn [flags props will_info c']; try lia.
    + rewrite Hchk, Hpcs, Hsz. reflexivity.
    + exact Hser.
    + destruct (will_info c); [apply Hw|exact I].
  - rewrite Hsz. destruct Hpb as [Hpb1 Hpb2].
    assert (Hwf : connect_wf c pb wpb).
    { unfold connect_wf. destruct (will_info c) as [w|];
        [destruct Hwi as [HW _]; destruct Hw as [_ ((? & ?) & ? & ? & ?)]|];
        repeat split; auto; lia. }
    pose proof (body_length c pb wpb Hwf) as Hlen.
    assert (Hlen' : Z.of_nat (length (connect_body c' pb wpb)) = partial_size c).
    { rewrite <- Hlen. unfold connect_body, protocol_header. cbn [flags keep_alive props
        clientid will_info username password c']. rewrite !length_app. reflexivity. }
    rewrite <- Hlen'. rewrite connect_frame by lia.
    destruct (body_missing_username c' pb wpb) as [e' He'];
      cbn [flags keep_alive props clientid will_info username password c']; auto.
    + split; assumption.
    + rewrite (Hm' WILL) by (cbn; tauto). apply Hwf.
    + rewrite (Hm' PASSWORD) by (cbn; tauto). apply Hwf.
    + rewrite He'. eexists. reflexivity.
Qed.

Lemma set_username_error_unparsable_witness :
  let c := mkConnect 0 0 Props.new [99] None None None in
  connect_made c /\ username c = None /\ utf8_new [255] = Err BadMqttUtf8String /\
  partial_size c <= 0xfffffff /\
  snd (set_username c [255]) = Err BadMqttUtf8String /\
  contains (flags (fst (set_username c [255]))) USERNAME = true /\
  username (fst (set_username c [255])) = None /\
  exists body,
    connect_serialize (fst (set_username c [255])) =
      Written (vbi_serialize (partial_size (fst (set_username c [255]))) ++ body) /\
    exists e', connect_deserialize
      (vbi_serialize (partial_size (fst (set_username c [255]))) ++ body ++ []) = Err e'.
Proof.
  intros c.
  assert (Hm : connect_made c) by (apply (connect_made_new [99]); reflexivity).
  assert (Hu : utf8_new [255] = Err BadMqttUtf8String) by reflexivity.
  assert (Hs : partial_size c <= 0xfffffff) by (vm_compute; discriminate).
  split; [exact Hm|split; [reflexivity|split; [exact Hu|split; [exact Hs|]]]].
  exact (set_username_error_unparsable c [255] BadMqttUtf8String [] Hm eq_refl Hu Hs).
Defined.

Definition try_into_is (f : Z) (q : QoS) : bool :=
  match flags_try_into f with
  | Some (Ok q') => qos_level q' =? qos_level q
  | _ => false
  end.

Lemma try_into_is_spec f q : try_into_is f q = true -> flags_try_into f = Some (Ok q).
Proof.
  unfold try_into_is. destruct (flags_try_into f) as [[q'|]|]; try discriminate.
  intros H. apply Z.eqb_eq in H. destruct q, q'; cbn in H; try discriminate; reflexivity.
Qed.

(** X9.  [TryInto<QoS> for ConnectFlags] never reaches its
    [unreachable!()] branch, for any flag byte. *)
Theorem flags_try_into_total f : 0 <= f < 256 -> flags_try_into f <> None.
Proof.
  intros Hf.
  pose proof (byte_forall (fun f => match flags_try_into f with None => false | _ => true end)
    ltac:(vm_compute; reflexivity) f Hf) as H.
  cbv beta in H. destruct (flags_try_into f); [discriminate|discriminate H].
Qed.

(** X8.  [Connect::set_will_qos q] on a flag byte with WILL set succeeds,
    keeps WILL, and converting the new flags with [TryInto<QoS>] gives
    back [q]; without WILL it returns [BadConnectMessage] and changes
    nothing. *)
Theorem set_will_qos_try_into c q : 0 <= flags c < 256 ->
  (contains (flags c) WILL = true ->
   snd (set_will_qos c q) = Ok tt /\
   contains (flags (fst (set_will_qos c q))) WILL = true /\
   flags_try_into (flags (fst (set_will_qos c q))) = Some (Ok q)) /\
  (contains (flags c) WILL = false -> set_will_qos c q = (c, Err BadConnectMessage)).
Proof.
  intros Hf. unfold set_will_qos. split; intros HW; rewrite HW; [|reflexivity].
  cbn [fst snd flags]. split; [reflexivity|].
  pose proof (flags_enum (fun f => contains f WILL)
    (fun f => forallb (fun q => try_into_is (Z.lor (Z.land f (Z.lnot (Z.lor WILL_QOS1 WILL_QOS2))) (qos_flags q)) q
      && contains (Z.lor (Z.land f (Z.lnot (Z.lor WILL_QOS1 WILL_QOS2))) (qos_flags q)) WILL)
      [QoS0; QoS1; QoS2]) ltac:(vm_compute; reflexivity) (flags c) Hf HW) as H.
  cbv beta in H. rewrite forallb_forall in H.
  specialize (H q ltac:(destruct q; cbn; tauto)). apply andb_true_iff in H as [H1 H2].
  split; [exact H2|apply try_into_is_spec, H1].
Qed.

Lemma set_will_qos_try_into_witness :
  let c := set_will (mkConnect 0 0 Props.new [99] None None None) (mkWill Props.new [116] []) in
  0 <= flags c < 256 /\
  snd (set_will_qos c QoS2) = Ok tt /\
  contains (flags (fst (set_will_qos c QoS2))) WILL = true /\
  flags_try_into (flags (fst (set_will_qos c QoS2))) = Some (Ok QoS2).
Proof.
  intros c. assert (Hf : 0 <= flags c < 256)
    by (split; [apply Z.leb_le|apply Z.ltb_lt]; reflexivity).
  split; [exact Hf|]. exact (proj1 (set_will_qos_try_into c QoS2 Hf) eq_refl).
Defined.

Lemma flags_try_into_total_witness : 0 <= 0xFF < 256 /\ flags_try_into 0xFF <> None.
Proof. split; [lia|]. exact (flags_try_into_total 0xFF ltac:(lia)). Defined.

Lemma opt_inv_iff {A : Type} (b : bool) (P : A -> Prop) (o : option A) :
  opt_inv b P o -> (b = true <-> o <> None).
Proof.
  destruct o; cbn; intros H; [destruct H as [-> _]|rewrite H]; split; congruence.
Qed.

(** X6.  On a CONNECT packet built with the constructors and setters as
    in X5, the flag byte is one [ConnectFlags::deserialize] accepts, and
    the WILL, USERNAME and PASSWORD flags are set exactly when a will, a
    user name and a password are present. *)
Theorem connect_made_flags c : connect_made c ->
  flags_deserialize [flags c] = Ok (flags c, []) /\
  (contains (flags c) WILL = true <-> will_info c <> None) /\
  (contains (flags c) USERNAME = true <-> username c <> None) /\
  (contains (flags c) PASSWORD = true <-> password c <> None).
Proof.
  intros Hm. destruct (connect_made_inv c Hm) as (Hf & Hok & _ & _ & _ & _ & Hw & Hu & Hp).
  split; [apply flags_accepted; assumption|].
  split; [exact (opt_inv_iff _ _ _ Hw)|split; [exact (opt_inv_iff _ _ _ Hu)|exact (opt_inv_iff _ _ _ Hp)]].
Qed.

Lemma connect_made_flags_witness :
  let c := fst (set_will_retain (set_will (set_clean_start (mkConnect 0 0 Props.new [99] None None None))
                                  (mkWill Props.new [116] []))) in
  connect_made c /\
  flags_deserialize [flags c] = Ok (flags c, []) /\
  (contains (flags c) WILL = true <-> will_info c <> None) /\
  (contains (flags c) USERNAME = true <-> username c <> None) /\
  (contains (flags c) PASSWORD = true <-> password c <> None).
Proof.
  intros c.
  assert (Hm : connect_made c).
  { apply connect_made_will_retain, connect_made_will;
      [apply connect_made_clean_start, (connect_made_new [99]); reflexivity|].
    apply (will_made_new [116] []). reflexivity. }
  split; [exact Hm|exact (connect_made_flags c Hm)].
Defined.

End ConnectModelFacts.

(** ** Unsubscribing ([server-lib/src/topics.rs]) *)

Module TopicsOpsFacts.
Import Qos Topics TopicsSpec TopicsFacts.
Local Open Scope string_scope.

(** Calls of [TopicsTable::subscribe] and [TopicsTable::unsubscribe]. *)
Inductive TopicsOp : Type :=
| OpSubscribe (clientid filter : string) (info : SubscriptionInfo)
| OpUnsubscribe (clientid filter : string).

Definition apply_op (t : TopicsTable) (op : TopicsOp) : TopicsTable :=
  match op with
  | OpSubscribe c f i => subscribe t c f (qos i) (flags i)
  | OpUnsubscribe c f => unsubscribe t c f
  end.

Definition run_ops (ops : list TopicsOp) : TopicsTable := fold_left apply_op ops table_new.

Definition op_filter (op : TopicsOp) : string :=
  match op with OpSubscribe _ f _ | OpUnsubscribe _ f => f end.

Definition current_step (c f : string) (o : option SubscriptionInfo) (op : TopicsOp)
  : option SubscriptionInfo :=
  match op with
  | OpSubscribe c' f' i => if String.eqb c' c && String.eqb f' f then Some i else o
  | OpUnsubscribe c' f' => if String.eqb c' c && String.eqb f' f then None else o
  end.

(** The subscription a client holds for a filter after the calls: set
    by its latest [subscribe], cleared by a later [unsubscribe]. *)
Definition current (ops : list TopicsOp) (c f : string) : option SubscriptionInfo :=
  fold_left (current_step c f) ops None.

Definition op_step (p : list string) (h : bool) (acc : list (string * SubscriptionInfo))
  (op : TopicsOp) : list (string * SubscriptionInfo) :=
  match op with
  | OpSubscribe c f i =>
      if slot_eq_dec (p, h) (target (topic_to_subtopics f)) then put c i acc else acc
  | OpUnsubscribe c f =>
      if slot_eq_dec (p, h) (target (topic_to_subtopics f)) then remove c acc else acc
  end.

(** Removing a subscription changes exactly the place [target] names. *)
Lemma stored_remove b l c p h :
  stored (topic_remove_block b l c) p h =
  if slot_eq_dec (p, h) (target l) then remove c (stored b p h) else stored b p h.
Proof.
  revert b p. induction l as [|x r IH]; intros b p.
  - destruct p as [|y p']; cbn [topic_remove_block target stored remove_from_subs
      hash_wildcard subscribers sub_blocks].
    + destruct h; destruct (slot_eq_dec _ _); congruence.
    + destruct (slot_eq_dec _ _); [congruence | reflexivity].
  - cbn [topic_remove_block target]. destruct (String.eqb_spec x "#") as [->|Hx].
    + destruct p as [|y p']; cbn [stored remove_from_hash hash_wildcard subscribers sub_blocks].
      * destruct h; destruct (slot_eq_dec _ _); congruence.
      * destruct (slot_eq_dec _ _); [congruence | reflexivity].
    + destruct (target r) as [p1 h1] eqn:Et.
      destruct (get x (sub_blocks b)) as [sb|] eqn:Hsb.
      * destruct p as [|y p']; cbn [stored hash_wildcard subscribers sub_blocks].
        -- destruct (slot_eq_dec _ _); [congruence | reflexivity].
        -- rewrite get_put. destruct (String.eqb_spec y x) as [->|Hy].
           ++ rewrite IH, Hsb.
              destruct (slot_eq_dec (p', h) (p1, h1)), (slot_eq_dec (x :: p', h) (x :: p1, h1));
                congruence.
           ++ destruct (slot_eq_dec _ _); [congruence | reflexivity].
      * destruct (slot_eq_dec _ _) as [He|]; [|reflexivity].
        injection He as -> ->. cbn [stored]. rewrite Hsb. reflexivity.
Qed.

Lemma stored_run_ops_fold ops t0 p h :
  stored (root_block (fold_left apply_op ops t0)) p h =
  fold_left (op_step p h) ops (stored (root_block t0) p h).
Proof.
  revert t0. induction ops as [|op ops IH]; intros t0; [reflexivity|].
  cbn [fold_left]. rewrite IH. f_equal. destruct op as [c f [q fl]|c f].
  - cbn [apply_op subscribe root_block op_step qos flags]. apply stored_add.
  - cbn [apply_op unsubscribe root_block op_step]. apply stored_remove.
Qed.

Lemma stored_run_ops ops p h :
  stored (root_block (run_ops ops)) p h = fold_left (op_step p h) ops [].
Proof.
  unfold run_ops. rewrite stored_run_ops_fold. cbn [root_block table_new].
  rewrite stored_new. reflexivity.
Qed.

Lemma in_remove {V : Type} x k (m : list (string * V)) : In x (remove k m) -> In x m.
Proof.
  induction m as [|[k' v'] m IH]; cbn [remove]; [tauto|].
  destruct (String.eqb k k'); [intros H; right; exact H|].
  intros [H|H]; [left; exact H|right; exact (IH H)].
Qed.

Lemma nodup_remove {V : Type} k (m : list (string * V)) :
  NoDup (map fst m) -> NoDup (map fst (remove k m)).
Proof.
  induction m as [|[k' v'] m IH]; intros H; cbn [remove]; [exact H|].
  inversion H as [|? ? Hn Hd]; subst.
  destruct (String.eqb k k'); [exact Hd|]. cbn [map fst]. constructor; [|exact (IH Hd)].
  intros Hin. apply Hn. apply in_map_iff in Hin as [[a b] [Ha Hin]]. cbn [fst] in Ha. subst a.
  apply in_remove in Hin. apply in_map_iff. exists (k', b). auto.
Qed.

Lemma get_none_notin {V : Type} k (m : list (string * V)) :
  ~ In k (map fst m) -> get k m = None.
Proof.
  induction m as [|[k' v'] m IH]; intros Hn; [reflexivity|]. cbn [get].
  destruct (String.eqb_spec k k') as [->|_]; [exfalso; apply Hn; left; reflexivity|].
  apply IH. intros H. apply Hn. right. exact H.
Qed.

Lemma get_remove {V : Type} k k' (m : list (string * V)) : NoDup (map fst m) ->
  get k (remove k' m) = if String.eqb k k' then None else get k m.
Proof.
  induction m as [|[k1 v1] m IH]; intros H; cbn [remove get].
  - destruct (String.eqb k k'); reflexivity.
  - inversion H as [|? ? Hn Hd]; subst.
    destruct (String.eqb_spec k' k1) as [->|Hne].
    + destruct (String.eqb_spec k k1) as [->|Hk]; [|reflexivity].
      apply get_none_notin, Hn.
    + cbn [get]. rewrite IH by exact Hd.
      destruct (String.eqb_spec k k1), (String.eqb_spec k k'); congruence.
Qed.

Lemma op_nodup ops p h acc :
  NoDup (map fst acc) -> NoDup (map fst (fold_left (op_step p h) ops acc)).
Proof.
  revert acc. induction ops as [|[c f i|c f] ops IH]; intros acc H; [exact H| |].
  - cbn [fold_left op_step]. apply IH. destruct (slot_eq_dec _ _); [apply nodup_put|]; exact H.
  - cbn [fold_left op_step]. apply IH. destruct (slot_eq_dec _ _); [apply nodup_remove|]; exact H.
Qed.

Lemma op_origin ops p h acc x :
  In x (fold_left (op_step p h) ops acc) ->
  In x acc \/ exists c f i, In (OpSubscribe c f i) ops /\ (p, h) = target (topic_to_subtopics f).
Proof.
  revert acc. induction ops as [|op ops IH]; intros acc H; [left; exact H|].
  cbn [fold_left] in H. apply IH in H as [H|[c' [f' [i' [Hin He]]]]].
  - destruct op as [c f i|c f]; cbn [op_step] in H.
    + destruct (slot_eq_dec _ _) as [He|]; [|left; exact H].
      apply in_put in H as [->|H]; [|left; exact H].
      right. exists c, f, i. split; [left; reflexivity | exact He].
    + destruct (slot_eq_dec _ _); [apply in_remove in H|]; left; exact H.
  - right. exists c', f', i'. split; [right; exact Hin | exact He].
Qed.

Lemma get_op_current ops c f acc :
  Forall (fun op => Topic.is_valid_topic (op_filter op) = true) ops ->
  Topic.is_valid_topic f = true -> NoDup (map fst acc) ->
  get c (fold_left (op_step (fst (target (topic_to_subtopics f)))
                            (snd (target (topic_to_subtopics f)))) ops acc) =
  fold_left (current_step c f) ops (get c acc).
Proof.
  revert acc. induction ops as [|op ops IH]; intros acc Hall Hf Hnd; [reflexivity|].
  inversion Hall as [|? ? Hop Hall']; subst.
  cbn [fold_left].
  destruct op as [c' f' i|c' f']; cbn [op_filter op_step current_step] in *.
  - rewrite IH by (first [assumption | destruct (slot_eq_dec _ _); [apply nodup_put|]; exact Hnd]).
    f_equal. rewrite <- surjective_pairing. destruct (slot_eq_dec _ _) as [He|Hne].
    + apply (slot_eq_iff f f' Hf Hop) in He. subst f'. rewrite String.eqb_refl, andb_true_r.
      rewrite get_put, String.eqb_sym. reflexivity.
    + destruct (String.eqb_spec f' f) as [->|_]; [exfalso; apply Hne; reflexivity|].
      rewrite andb_false_r. reflexivity.
  - rewrite IH by (first [assumption | destruct (slot_eq_dec _ _); [apply nodup_remove|]; exact Hnd]).
    f_equal. rewrite <- surjective_pairing. destruct (slot_eq_dec _ _) as [He|Hne].
    + apply (slot_eq_iff f f' Hf Hop) in He. subst f'. rewrite String.eqb_refl, andb_true_r.
      rewrite get_remove, String.eqb_sym by exact Hnd. reflexivity.
    + destruct (String.eqb_spec f' f) as [->|_]; [exfalso; apply Hne; reflexivity|].
      rewrite andb_false_r. reflexivity.
Qed.

Lemma current_in ops c f i : current ops c f = Some i -> In (OpSubscribe c f i) ops.
Proof.
  unfold current.
  enough (H : forall o, fold_left (current_step c f) ops o = Some i ->
                        o = Some i \/ In (OpSubscribe c f i) ops).
  { intros Ho. destruct (H None Ho) as [Hn|Hin]; [discriminate | exact Hin]. }
  induction ops as [|op ops IH]; intros o Ho; [left; exact Ho|].
  cbn [fold_left] in Ho. apply IH in Ho as [Ho|Ho]; [|right; right; exact Ho].
  destruct op as [c' f' i'|c' f']; cbn [current_step] in Ho;
    destruct (String.eqb_spec c' c), (String.eqb_spec f' f); cbn [andb] in Ho;
    try (left; exact Ho); try discriminate.
  subst. injection Ho as ->. right. left. reflexivity.
Qed.

Lemma in_reach_run_ops ops t c i :
  Forall (fun op => Topic.is_valid_topic (op_filter op) = true) ops ->
  In (c, i) (reach (root_block (run_ops ops)) (topic_to_subtopics t)) <->
  exists f, filter_matches f t = true /\ current ops c f = Some i.
Proof.
  intros Hall. rewrite in_reach. split.
  - intros [p [h [Hm Hin]]]. rewrite stored_run_ops in Hin.
    destruct (op_origin _ _ _ _ _ Hin) as [[]|[c0 [f0 [i0 [Hs Hp]]]]].
    assert (Hf0 : Topic.is_valid_topic f0 = true)
      by (rewrite Forall_forall in Hall; exact (Hall _ Hs)).
    exists f0. rewrite <- levels_match_tts, <- slot_target, <- Hp. split; [exact Hm|].
    apply in_get in Hin; [|apply op_nodup; constructor].
    replace p with (fst (target (topic_to_subtopics f0))) in Hin by (rewrite <- Hp; reflexivity).
    replace h with (snd (target (topic_to_subtopics f0))) in Hin by (rewrite <- Hp; reflexivity).
    rewrite get_op_current in Hin by (assumption || constructor). exact Hin.
  - intros [f [Hm Hl]].
    assert (Hf : Topic.is_valid_topic f = true).
    { apply current_in in Hl. rewrite Forall_forall in Hall. exact (Hall _ Hl). }
    exists (fst (target (topic_to_subtopics f))), (snd (target (topic_to_subtopics f))).
    rewrite slot_target, levels_match_tts. split; [exact Hm|].
    rewrite stored_run_ops. apply get_in.
    rewrite get_op_current by (assumption || constructor). exact Hl.
Qed.

Lemma run_ops_spec ops t c :
  Forall (fun op => Topic.is_valid_topic (op_filter op) = true) ops ->
  (get c (get_all_subscribed (run_ops ops) t) = None <->
     forall f, filter_matches f t = true -> current ops c f = None) /\
  (forall i, get c (get_all_subscribed (run_ops ops) t) = Some i ->
     exists f, filter_matches f t = true /\ current ops c f = Some i /\
       forall f' i', filter_matches f' t = true -> current ops c f' = Some i' ->
                     qos_level (qos i') <= qos_level (qos i)).
Proof.
  intros Hall. unfold get_all_subscribed. rewrite collect_subs_reach. split.
  - rewrite collect_none. split.
    + intros [_ H] f Hm. destruct (current ops c f) as [i|] eqn:E; [|reflexivity].
      exfalso. apply (H i), in_reach_run_ops; [exact Hall|]. eauto.
    + intros H. split; [reflexivity|]. intros i Hin.
      apply in_reach_run_ops in Hin as [f [Hm Hl]]; [|exact Hall].
      rewrite (H f Hm) in Hl. discriminate.
  - intros i Hi. apply collect_some in Hi as [[Hi|Hi] Hmax]; [discriminate|].
    apply in_reach_run_ops in Hi as [f [Hm Hl]]; [|exact Hall].
    exists f. split; [exact Hm|]. split; [exact Hl|].
    intros f' i' Hm' Hl'. apply Hmax. right.
    apply in_reach_run_ops; [exact Hall|]. eauto.
Qed.

(** X10.  After any sequence of [TopicsTable::subscribe] and
    [TopicsTable::unsubscribe] calls with filters that [MqttTopic::new]
    accepts, [get_all_subscribed t] has an entry for a client exactly when
    the client still holds a subscription (one not unsubscribed since) to
    a filter matching [t]; the entry is such a subscription, and its QoS is
    the highest among them.  An [unsubscribe] removes the client's
    subscription to that filter only. *)
Theorem unsubscribe_get_all_subscribed ops t c :
  Forall (fun op => Topic.is_valid_topic (op_filter op) = true) ops ->
  (get c (get_all_subscribed (run_ops ops) t) = None <->
     forall f, filter_matches f t = true -> current ops c f = None) /\
  (forall i, get c (get_all_subscribed (run_ops ops) t) = Some i ->
     exists f, filter_matches f t = true /\ current ops c f = Some i /\
       forall f' i', filter_matches f' t = true -> current ops c f' = Some i' ->
                     qos_level (qos i') <= qos_level (qos i)).
Proof. apply run_ops_spec. Qed.

Lemma unsubscribe_get_all_subscribed_witness :
  let ops := [OpSubscribe "c" "a/+" (mkSubscriptionInfo QoS1 0);
              OpSubscribe "c" "#" (mkSubscriptionInfo QoS0 1);
              OpUnsubscribe "c" "#"] in
  Forall (fun op => Topic.is_valid_topic (op_filter op) = true) ops /\
  (get "c" (get_all_subscribed (run_ops ops) "a/x") = None <->
     forall f, filter_matches f "a/x" = true -> current ops "c" f = None) /\
  (forall i, get "c" (get_all_subscribed (run_ops ops) "a/x") = Some i ->
     exists f, filter_matches f "a/x" = true /\ current ops "c" f = Some i /\
       forall f' i', filter_matches f' "a/x" = true -> current ops "c" f' = Some i' ->
                     qos_level (qos i') <= qos_level (qos i)).
Proof.
  intros ops. assert (H : Forall (fun op => Topic.is_valid_topic (op_filter op) = true) ops)
    by (repeat constructor).
  split; [exact H|]. exact (unsubscribe_get_all_subscribed ops "a/x" "c" H).
Defined.

(** What the reverse index records about the subscriptions. *)
Definition ri_inv (ops : list TopicsOp) (ri : list (string * list string)) : Prop :=
  NoDup (map fst ri) /\
  (forall c set f, get c ri = Some set -> In f set -> Topic.is_valid_topic f = true) /\
  (forall c f, current ops c f <> None -> exists set, get c ri = Some set /\ In f set).

Lemma current_app ops ops' c f :
  current (app ops ops') c f = fold_left (current_step c f) ops' (current ops c f).
Proof. unfold current. apply fold_left_app. Qed.

Lemma get_reverse_index_add ri c c' topic :
  get c' (reverse_index_add ri c topic) =
  if String.eqb c' c
  then Some (match get c ri with
             | Some set => if existsb (String.eqb topic) set then set else app set [topic]
             | None => [topic]
             end)
  else get c' ri.
Proof.
  unfold reverse_index_add. destruct (get c ri); rewrite get_put; reflexivity.
Qed.

Lemma ri_inv_subscribe ops ri c f i :
  Topic.is_valid_topic f = true -> ri_inv ops ri ->
  ri_inv (app ops [OpSubscribe c f i]) (reverse_index_add ri c f).
Proof.
  intros Hf (Hnd & Hv & Hc). split; [|split].
  - unfold reverse_index_add. destruct (get c ri); apply nodup_put, Hnd.
  - intros c' set f' Hg Hin. rewrite get_reverse_index_add in Hg.
    destruct (String.eqb_spec c' c) as [->|]; [|exact (Hv _ _ _ Hg Hin)].
    injection Hg as <-. destruct (get c ri) as [set0|] eqn:E.
    + destruct (existsb (String.eqb f) set0); [exact (Hv _ _ _ E Hin)|].
      apply in_app_iff in Hin as [Hin|[<-|[]]]; [exact (Hv _ _ _ E Hin)|exact Hf].
    + destruct Hin as [<-|[]]. exact Hf.
  - intros c' f' Hcur. rewrite current_app in Hcur. cbn [fold_left current_step] in Hcur.
    rewrite get_reverse_index_add.
    destruct (String.eqb_spec c c') as [->|Hne]; cbn [andb] in Hcur.
    + rewrite String.eqb_refl. eexists. split; [reflexivity|].
      destruct (String.eqb_spec f f') as [->|Hff].
      * destruct (get c' ri) as [set0|].
        -- destruct (existsb (String.eqb f') set0) eqn:Ex.
           ++ apply existsb_exists in Ex as [x [Hx Hx']]. apply String.eqb_eq in Hx'. subst. exact Hx.
           ++ apply in_app_iff. right. left. reflexivity.
        -- left. reflexivity.
      * destruct (Hc c' f' Hcur) as [set0 [E Hin]]. rewrite E.
        destruct (existsb (String.eqb f) set0); [exact Hin|apply in_app_iff; left; exact Hin].
    + destruct (String.eqb_spec c' c) as [->|_]; [congruence|]. exact (Hc c' f' Hcur).
Qed.

Lemma ri_inv_unsubscribe ops ri c f :
  ri_inv ops ri -> ri_inv (app ops [OpUnsubscribe c f]) (reverse_index_remove ri c f).
Proof.
  intros (Hnd & Hv & Hc). unfold reverse_index_remove.
  destruct (get c ri) as [set|] eqn:E.
  - set (set' := filter (fun x => negb (String.eqb f x)) set).
    assert (Hsub : forall x, In x set' -> In x set /\ x <> f).
    { intros x Hx. unfold set' in Hx. apply filter_In in Hx as [Hx Hn].
      split; [exact Hx|]. intros ->. rewrite String.eqb_refl in Hn. discriminate. }
    assert (Hkeep : forall x, In x set -> x <> f -> In x set').
    { intros x Hx Hne. unfold set'. apply filter_In. split; [exact Hx|].
      destruct (String.eqb_spec f x); [congruence|reflexivity]. }
    assert (Hnd' : NoDup (map fst (put c set' ri))) by (apply nodup_put, Hnd).
    assert (Hcur : forall c' f', current (app ops [OpUnsubscribe c f]) c' f' <> None ->
              current ops c' f' <> None /\ (c' <> c \/ f' <> f)).
    { intros c' f' H. rewrite current_app in H. cbn [fold_left current_step] in H.
      destruct (String.eqb_spec c c'), (String.eqb_spec f f'); cbn [andb] in H;
        try (exfalso; apply H; reflexivity); split; auto; right; congruence. }
    destruct set' as [|x rest] eqn:Es; (split; [|split]).
    + apply nodup_remove, Hnd'.
    + intros c' s f' Hg Hin. rewrite get_remove, get_put in Hg by exact Hnd'.
      destruct (String.eqb_spec c' c); [discriminate|]. exact (Hv _ _ _ Hg Hin).
    + intros c' f' H. apply Hcur in H as [H Hne].
      destruct (Hc c' f' H) as [s [Hg Hin]]. rewrite get_remove, get_put by exact Hnd'.
      destruct (String.eqb_spec c' c) as [->|]; [|eauto].
      rewrite E in Hg. injection Hg as <-. destruct Hne as [Hne|Hne]; [congruence|].
      destruct (Hkeep f' Hin Hne).
    + exact Hnd'.
    + intros c' s f' Hg Hin. rewrite get_put in Hg.
      destruct (String.eqb_spec c' c) as [->|]; [|exact (Hv _ _ _ Hg Hin)].
      injection Hg as <-. apply Hsub in Hin as [Hin _]. exact (Hv _ _ _ E Hin).
    + intros c' f' H. apply Hcur in H as [H Hne].
      destruct (Hc c' f' H) as [s [Hg Hin]]. rewrite get_put.
      destruct (String.eqb_spec c' c) as [->|]; [|eauto].
      rewrite E in Hg. injection Hg as <-. destruct Hne as [Hne|Hne]; [congruence|].
      eexists; split; [reflexivity|]. exact (Hkeep f' Hin Hne).
  - split; [exact Hnd|split; [exact Hv|]].
    intros c' f' H. rewrite current_app in H. cbn [fold_left current_step] in H.
    destruct (String.eqb_spec c c') as [->|], (String.eqb_spec f f') as [->|]; cbn [andb] in H;
      try (exfalso; apply H; reflexivity); apply Hc; exact H.
Qed.

Lemma run_ops_snoc ops op : run_ops (app ops [op]) = apply_op (run_ops ops) op.
Proof. unfold run_ops. rewrite fold_left_app. reflexivity. Qed.

Lemma ri_inv_run_ops ops :
  Forall (fun op => Topic.is_valid_topic (op_filter op) = true) ops ->
  ri_inv ops (reverse_index (run_ops ops)).
Proof.
  induction ops as [|op ops IH] using rev_ind; intros Hall.
  - split; [constructor|split].
    + intros c set f H. discriminate.
    + intros c f H. exfalso. apply H. reflexivity.
  - apply Forall_app in Hall as [Hall Hop]. inversion Hop as [|? ? Hf _]; subst.
    rewrite run_ops_snoc. destruct op as [c f i|c f]; cbn [apply_op subscribe unsubscribe reverse_index].
    + apply ri_inv_subscribe; [exact Hf|exact (IH Hall)].
    + apply ri_inv_unsubscribe, IH, Hall.
Qed.

Lemma current_unsubs c c' f set o :
  fold_left (current_step c' f) (map (OpUnsubscribe c) set) o =
  if String.eqb c c' && existsb (String.eqb f) set then None else o.
Proof.
  revert o. induction set as [|x set IH]; intros o; cbn [map fold_left existsb].
  - destruct (String.eqb c c'); reflexivity.
  - rewrite IH. cbn [current_step]. rewrite (String.eqb_sym x f).
    destruct (String.eqb c c'), (String.eqb f x), (existsb (String.eqb f) set); reflexivity.
Qed.

Lemma unsubscribe_all_root ops c set :
  get c (reverse_index (run_ops ops)) = Some set ->
  root_block (unsubscribe_all (run_ops ops) c) =
  root_block (run_ops (app ops (map (OpUnsubscribe c) set))).
Proof.
  intros E. unfold unsubscribe_all. rewrite E. cbn [root_block].
  unfold run_ops at 2. rewrite fold_left_app. fold (run_ops ops).
  clear E. generalize (run_ops ops). induction set as [|x set IH]; intros t; [reflexivity|].
  cbn [map fold_left]. exact (IH (unsubscribe t c x)).
Qed.

(** What a merge keeps for one client depends only on that client's
    entries, in order. *)
Lemma get_collect_filter c src acc :
  get c (collect src acc) =
  fold_left (fun o (e : string * SubscriptionInfo) =>
               Some match o with
                    | None => snd e
                    | Some x => if qos_ltb (qos x) (qos (snd e)) then snd e else x
                    end)
            (filter (fun e => String.eqb c (fst e)) src) (get c acc).
Proof.
  revert acc. induction src as [|[c' i'] src IH]; intros acc; [reflexivity|].
  cbn [collect fold_left filter fst]. fold (collect src (collect_entry acc (c', i'))).
  rewrite IH, get_collect_entry. destruct (String.eqb c c'); reflexivity.
Qed.

Lemma collect_agree c src1 src2 a1 a2 :
  filter (fun e => String.eqb c (fst e)) src1 = filter (fun e => String.eqb c (fst e)) src2 ->
  get c a1 = get c a2 -> get c (collect src1 a1) = get c (collect src2 a2).
Proof. intros E1 E2. rewrite !get_collect_filter, E1, E2. reflexivity. Qed.

Lemma filter_remove {V : Type} c c' (m : list (string * V)) : c <> c' ->
  filter (fun e => String.eqb c' (fst e)) (remove c m) =
  filter (fun e => String.eqb c' (fst e)) m.
Proof.
  intros Hne. induction m as [|[k v] m IH]; [reflexivity|]. cbn [remove].
  destruct (String.eqb_spec c k) as [<-|Hk].
  - cbn [filter fst]. replace (String.eqb c' c) with false
      by (symmetry; apply String.eqb_neq; congruence). reflexivity.
  - cbn [filter fst]. rewrite IH. reflexivity.
Qed.

(** Two trees give a client the same answer, for every topic and from
    any two starting maps that agree on it. *)
Definition agree_on (c : string) (b1 b2 : Block) : Prop :=
  forall sections a1 a2, get c a1 = get c a2 ->
    get c (collect_subs b1 a1 sections) = get c (collect_subs b2 a2 sections).

Lemma agree_refl c b : agree_on c b b.
Proof.
  intros sections. revert b. induction sections as [|s rest IH]; intros b a1 a2 Ha;
    cbn [collect_subs].
  - apply collect_agree; [reflexivity|]. apply collect_agree; [reflexivity|exact Ha].
  - assert (H0 : get c (collect (hash_wildcard b) a1) = get c (collect (hash_wildcard b) a2))
      by (apply collect_agree; [reflexivity|exact Ha]).
    assert (H1 : get c (match get "+" (sub_blocks b) with
                        | Some sb => collect_subs sb (collect (hash_wildcard b) a1) rest
                        | None => collect (hash_wildcard b) a1 end) =
                 get c (match get "+" (sub_blocks b) with
                        | Some sb => collect_subs sb (collect (hash_wildcard b) a2) rest
                        | None => collect (hash_wildcard b) a2 end))
      by (destruct (get "+" (sub_blocks b)); [apply IH|]; exact H0).
    destruct (get s (sub_blocks b)); [apply IH|]; exact H1.
Qed.

Lemma agree_trans c b1 b2 b3 : agree_on c b1 b2 -> agree_on c b2 b3 -> agree_on c b1 b3.
Proof.
  intros H12 H23 sections a1 a2 Ha. rewrite (H12 sections a1 a2 Ha).
  apply H23. reflexivity.
Qed.

Lemma agree_remove c c' : c <> c' -> forall sections b rs a1 a2,
  get c' a1 = get c' a2 ->
  get c' (collect_subs (topic_remove_block b rs c) a1 sections) =
  get c' (collect_subs b a2 sections).
Proof.
  intros Hne sections. induction sections as [|s rest IH]; intros [h subs sb] rs a1 a2 Ha.
  - destruct rs as [|r rs]; cbn [topic_remove_block].
    + cbn. apply collect_agree; [apply filter_remove, Hne|].
      apply collect_agree; [reflexivity|exact Ha].
    + destruct (String.eqb r "#").
      * cbn. apply collect_agree; [reflexivity|].
        apply collect_agree; [apply filter_remove, Hne|exact Ha].
      * cbn [sub_blocks]. destruct (get r sb); cbn [collect_subs hash_wildcard subscribers];
          apply collect_agree; (reflexivity || (apply collect_agree; [reflexivity|exact Ha])).
  - destruct rs as [|r rs]; cbn [topic_remove_block].
    + apply (agree_refl c' (mkBlock h subs sb) (s :: rest)). exact Ha.
    + destruct (String.eqb r "#").
      * cbn [collect_subs remove_from_hash hash_wildcard sub_blocks].
        assert (H0 : get c' (collect (remove c h) a1) = get c' (collect h a2))
          by (apply collect_agree; [apply filter_remove, Hne|exact Ha]).
        assert (H1 : get c' (match get "+" sb with
                        | Some b => collect_subs b (collect (remove c h) a1) rest
                        | None => collect (remove c h) a1 end) =
                     get c' (match get "+" sb with
                        | Some b => collect_subs b (collect h a2) rest
                        | None => collect h a2 end))
          by (destruct (get "+" sb); [apply (agree_refl c')|]; exact H0).
        destruct (get s sb); [apply (agree_refl c')|]; exact H1.
      * cbn [sub_blocks]. destruct (get r sb) as [x|] eqn:Er;
          [|apply (agree_refl c' _ (s :: rest)); exact Ha].
        cbn [collect_subs hash_wildcard sub_blocks]. rewrite !get_put.
        assert (H0 : get c' (collect h a1) = get c' (collect h a2))
          by (apply collect_agree; [reflexivity|exact Ha]).
        assert (H1 : get c' (match (if String.eqb "+" r
                                    then Some (topic_remove_block x rs c)
                                    else get "+" sb) with
                        | Some b => collect_subs b (collect h a1) rest
                        | None => collect h a1 end) =
                     get c' (match get "+" sb with
                        | Some b => collect_subs b (collect h a2) rest
                        | None => collect h a2 end)).
        { destruct (String.eqb_spec "+" r) as [<-|_].
          - rewrite Er. apply IH, H0.
          - destruct (get "+" sb); [apply (agree_refl c')|]; exact H0. }
        destruct (String.eqb_spec s r) as [<-|_].
        -- rewrite Er. apply IH, H1.
        -- destruct (get s sb); [apply (agree_refl c')|]; exact H1.
Qed.

Lemma unsubscribe_all_others t c c' topic : c' <> c ->
  get c' (get_all_subscribed (unsubscribe_all t c) topic) =
  get c' (get_all_subscribed t topic).
Proof.
  intros Hne. unfold unsubscribe_all, get_all_subscribed.
  destruct (get c (reverse_index t)) as [topics|]; [|reflexivity]. cbn [root_block].
  assert (H : forall b, agree_on c'
            (fold_left (fun b topic => topic_remove_block b (topic_to_subtopics topic) c)
                       topics b) b).
  { induction topics as [|x topics IH]; intros b; [apply agree_refl|].
    cbn [fold_left]. eapply agree_trans; [apply IH|].
    intros sections a1 a2 Ha. apply agree_remove; [congruence|exact Ha]. }
  apply H. reflexivity.
Qed.

(** X11.  After such a sequence of calls, [TopicsTable::unsubscribe_all c]
    removes every subscription of [c] (the reverse index lists all of its
    filters): no topic returns [c] any more, and for every other client
    [get_all_subscribed] answers as before: the same entry, which is
    one of its subscriptions matching the topic with the highest QoS. *)
Theorem unsubscribe_all_spec ops c :
  Forall (fun op => Topic.is_valid_topic (op_filter op) = true) ops ->
  (forall t, get c (get_all_subscribed (unsubscribe_all (run_ops ops) c) t) = None) /\
  (forall c' t, c' <> c ->
     get c' (get_all_subscribed (unsubscribe_all (run_ops ops) c) t) =
     get c' (get_all_subscribed (run_ops ops) t)) /\
  (forall c' t, c' <> c ->
     (get c' (get_all_subscribed (unsubscribe_all (run_ops ops) c) t) = None <->
        forall f, filter_matches f t = true -> current ops c' f = None) /\
     (forall i, get c' (get_all_subscribed (unsubscribe_all (run_ops ops) c) t) = Some i ->
        exists f, filter_matches f t = true /\ current ops c' f = Some i /\
          forall f' i', filter_matches f' t = true -> current ops c' f' = Some i' ->
                        qos_level (qos i') <= qos_level (qos i))).
Proof.
  intros Hall.
  cut ((forall t, get c (get_all_subscribed (unsubscribe_all (run_ops ops) c) t) = None) /\
  (forall c' t, c' <> c ->
     (get c' (get_all_subscribed (unsubscribe_all (run_ops ops) c) t) = None <->
        forall f, filter_matches f t = true -> current ops c' f = None) /\
     (forall i, get c' (get_all_subscribed (unsubscribe_all (run_ops ops) c) t) = Some i ->
        exists f, filter_matches f t = true /\ current ops c' f = Some i /\
          forall f' i', filter_matches f' t = true -> current ops c' f' = Some i' ->
                        qos_level (qos i') <= qos_level (qos i)))).
  { intros [H1 H3]. split; [exact H1|split; [|exact H3]].
    intros c' t Hne. apply unsubscribe_all_others, Hne. }
  pose proof (ri_inv_run_ops ops Hall) as (Hnd & Hv & Hc).
  destruct (get c (reverse_index (run_ops ops))) as [set|] eqn:E.
  - set (ops' := app ops (map (OpUnsubscribe c) set)).
    assert (Hall' : Forall (fun op => Topic.is_valid_topic (op_filter op) = true) ops').
    { apply Forall_app. split; [exact Hall|]. apply Forall_forall.
      intros op Hin. apply in_map_iff in Hin as [f [<- Hin]]. exact (Hv _ _ _ E Hin). }
    assert (Hg : forall t, get_all_subscribed (unsubscribe_all (run_ops ops) c) t =
                           get_all_subscribed (run_ops ops') t).
    { intros t. unfold get_all_subscribed. rewrite (unsubscribe_all_root ops c set E). reflexivity. }
    assert (Hcur : forall c' f, current ops' c' f =
              if String.eqb c c' && existsb (String.eqb f) set then None else current ops c' f).
    { intros c' f. unfold ops'. rewrite current_app. apply current_unsubs. }
    split.
    + intros t. rewrite Hg. apply (proj1 (run_ops_spec ops' t c Hall')).
      intros f _. rewrite Hcur, String.eqb_refl. cbn [andb].
      destruct (existsb (String.eqb f) set) eqn:Ex; [reflexivity|].
      destruct (current ops c f) as [i|] eqn:Ecur; [|reflexivity]. exfalso.
      destruct (Hc c f ltac:(rewrite Ecur; discriminate)) as [s [Es Hin]].
      rewrite E in Es. injection Es as <-.
      assert (existsb (String.eqb f) set = true)
        by (apply existsb_exists; exists f; split; [exact Hin|apply String.eqb_refl]).
      congruence.
    + intros c' t Hne. rewrite Hg.
      assert (Hsame : forall f, current ops' c' f = current ops c' f).
      { intros f. rewrite Hcur. destruct (String.eqb_spec c c'); [congruence|reflexivity]. }
      destruct (run_ops_spec ops' t c' Hall') as [H1 H2]. split.
      * rewrite H1. split; intros H f Hm; [rewrite <- Hsame|rewrite Hsame]; exact (H f Hm).
      * intros i Hi. destruct (H2 i Hi) as [f [Hm [Hl Hmax]]].
        exists f. rewrite <- Hsame. split; [exact Hm|split; [exact Hl|]].
        intros f' i' Hm' Hl'. apply (Hmax f' i' Hm'). rewrite Hsame. exact Hl'.
  - unfold unsubscribe_all. rewrite E. split.
    + intros t. apply (proj1 (run_ops_spec ops t c Hall)).
      intros f _. destruct (current ops c f) as [i|] eqn:Ecur; [|reflexivity]. exfalso.
      destruct (Hc c f ltac:(rewrite Ecur; discriminate)) as [s [Es _]]. congruence.
    + intros c' t _. apply run_ops_spec, Hall.
Qed.

Lemma unsubscribe_all_spec_witness :
  let ops := [OpSubscribe "c" "a/+" (mkSubscriptionInfo QoS1 0);
              OpSubscribe "d" "a/#" (mkSubscriptionInfo QoS2 0);
              OpSubscribe "c" "#" (mkSubscriptionInfo QoS0 1)] in
  Forall (fun op => Topic.is_valid_topic (op_filter op) = true) ops /\
  (forall t, get "c" (get_all_subscribed (unsubscribe_all (run_ops ops) "c") t) = None) /\
  (forall c' t, c' <> "c" ->
     get c' (get_all_subscribed (unsubscribe_all (run_ops ops) "c") t) =
     get c' (get_all_subscribed (run_ops ops) t)) /\
  (forall c' t, c' <> "c" ->
     (get c' (get_all_subscribed (unsubscribe_all (run_ops ops) "c") t) = None <->
        forall f, filter_matches f t = true -> current ops c' f = None) /\
     (forall i, get c' (get_all_subscribed (unsubscribe_all (run_ops ops) "c") t) = Some i ->
        exists f, filter_matches f t = true /\ current ops c' f = Some i /\
          forall f' i', filter_matches f' t = true -> current ops c' f' = Some i' ->
                        qos_level (qos i') <= qos_level (qos i))).
Proof.
  intros ops. assert (H : Forall (fun op => Topic.is_valid_topic (op_filter op) = true) ops)
    by (repeat constructor).
  split; [exact H|]. exact (unsubscribe_all_spec ops "c" H).
Defined.

End TopicsOpsFacts.

(** ** Building and decoding a SUBSCRIBE ([packet/src/subscribe.rs]) *)

Module SubscribeModelFacts.
Import Wire Props Packets PropsModel WireFacts PacketsFacts PropsModelFacts SubscribeModel.

(** What holds of each (topic, options) entry of a built SUBSCRIBE. *)
Definition topic_entry_ok (e : list Z * Z) : Prop :=
  utf8_new (fst e) = Ok (fst e) /\
  Topic.is_valid_topic (string_of_bytes (fst e)) = true /\
  0 <= snd e < 64 /\
  (exists q, Subscribe.options_qos (snd e) = Ok q) /\
  (exists h, Subscribe.options_retain_handling (snd e) = Ok h).

Definition sub_inv (s : SubscribeP) : Prop :=
  0 <= sub_id s < 65536 /\ made auxiliary_data (sub_props s) /\
  is_valid_for (sub_props s) SUBSCRIBE = true /\ Forall topic_entry_ok (sub_topics s).

(** The topic entries as [Subscribe::serialize] writes them. *)
Definition enc_topics (ts : list (list Z * Z)) : list Z :=
  flat_map (fun kv => utf8_serialize (fst kv) ++ put_u8 (snd kv)) ts.

(** The bytes written after the length, the properties being [pb]. *)
Definition sub_body (s : SubscribeP) (pb : list Z) : list Z :=
  put_u16 (sub_id s) ++ pb ++ enc_topics (sub_topics s).

Lemma string_of_bytes_of t : string_of_bytes (Topic.bytes_of t) = t.
Proof.
  induction t as [|c t IH]; [reflexivity|].
  unfold string_of_bytes, Topic.bytes_of in *. cbn [list_ascii_of_string map string_of_list_ascii].
  rewrite IH, N2Z.id, ascii_N_embedding. reflexivity.
Qed.

Lemma topic_new_facts t t' : Topic.topic_new t = Ok t' ->
  t' = t /\ Topic.is_valid_topic t = true /\
  utf8_new (Topic.bytes_of t) = Ok (Topic.bytes_of t).
Proof.
  unfold Topic.topic_new. destruct (Topic.is_valid_topic t); [|discriminate]. cbn [negb].
  unfold utf8_new. destruct (utf8_verify (Topic.bytes_of t)); cbn [bind]; [|discriminate].
  intros H. injection H as <-. auto.
Qed.

Lemma sub_made_inv s : sub_made s -> sub_inv s.
Proof.
  induction 1 as [id Hid|s topic options Hm IH Ho|s key value Hm IH Hv].
  - unfold sub_inv, sub_new. cbn [sub_id sub_props sub_topics].
    split; [lia|split; [apply made_new|split; [|constructor]]].
    apply new_valid_for. cbn. tauto.
  - unfold sub_add_topic.
    destruct (Subscribe.options_qos options) as [q|e] eqn:Eq; [|exact IH].
    destruct (Subscribe.options_retain_handling options) as [h|e] eqn:Eh; [|exact IH].
    destruct (Topic.topic_new topic) as [t|e] eqn:Et; [|exact IH].
    destruct (topic_new_facts _ _ Et) as (-> & Hv & Hu).
    destruct IH as (Hid & Hpm & Hpv & Hts). unfold sub_inv. cbn [fst sub_id sub_props sub_topics].
    split; [exact Hid|split; [exact Hpm|split; [exact Hpv|]]]. apply Forall_app. split; [exact Hts|]. constructor; [|constructor].
    unfold topic_entry_ok. cbn [fst snd]. rewrite string_of_bytes_of.
    repeat split; eauto; lia.
  - unfold sub_add_prop.
    pose proof (made_checked_insert auxiliary_data (sub_props s) key value SUBSCRIBE
                  (proj1 (proj2 IH)) Hv) as Hm'.
    pose proof (checked_insert_keeps_valid auxiliary_data (sub_props s) key value SUBSCRIBE
                  (proj1 (proj2 (proj2 IH)))) as Hv'.
    destruct (checked_insert auxiliary_data (sub_props s) key value SUBSCRIBE) as [p r].
    destruct IH as (Hid & _ & _ & Hts). unfold sub_inv. cbn [fst sub_id sub_props sub_topics] in *.
    auto.
Qed.

Lemma options_deserialize_ok o rest : 0 <= o < 64 ->
  (exists q, Subscribe.options_qos o = Ok q) ->
  (exists h, Subscribe.options_retain_handling o = Ok h) ->
  Subscribe.options_deserialize (put_u8 o ++ rest) = Ok (o, rest).
Proof.
  intros Ho [q Hq] [h Hh]. unfold Subscribe.options_deserialize, put_u8.
  rewrite Z.mod_small by lia. cbn [app Wire.deserialize_one bind].
  assert (Hl : Z.land o 0x3F = o).
  { change 0x3F with (Z.ones 6). rewrite Z.land_ones by lia. apply Z.mod_small. lia. }
  rewrite Hl, Z.eqb_refl. cbn [negb]. rewrite Hq, Hh. reflexivity.
Qed.

Lemma enc_topics_length ts :
  Z.of_nat (length (enc_topics ts)) =
  fold_right (fun kv acc => utf8_size (fst kv) + 1 + acc) 0 ts.
Proof.
  induction ts as [|[t o] ts IH]; [reflexivity|].
  unfold enc_topics in *. cbn [flat_map fold_right fst snd].
  rewrite !length_app, !Nat2Z.inj_add, utf8_serialize_length, IH. cbn [length put_u8]. lia.
Qed.

Lemma topics_loop_enc ts : Forall topic_entry_ok ts ->
  forall fuel, (length (enc_topics ts) < fuel)%nat -> topics_loop fuel (enc_topics ts) = Ok ts.
Proof.
  induction 1 as [|[t o] ts He Hts IH]; intros fuel Hf;
    (destruct fuel as [|fuel]; [lia|]).
  - reflexivity.
  - destruct He as (Hu & Hv & Ho & Hq & Hh). cbn [fst snd] in *.
    unfold enc_topics in *. cbn [flat_map fst snd] in *. fold (enc_topics ts) in *.
    rewrite <- app_assoc.
    remember (utf8_serialize t ++ put_u8 o ++ enc_topics ts) as buf eqn:Eb.
    destruct buf as [|x y]; [unfold utf8_serialize, put_u16 in Eb; discriminate Eb|].
    cbn [topics_loop]. rewrite Eb. unfold topic_deserialize.
    rewrite utf8_roundtrip by exact Hu. cbn [bind]. rewrite Hv. cbn [negb bind].
    rewrite options_deserialize_ok by assumption. cbn [bind].
    rewrite IH; [reflexivity|]. rewrite !length_app in Hf.
    unfold utf8_serialize in Hf. rewrite length_app in Hf. cbn [length put_u16 put_u8] in Hf. lia.
Qed.

Lemma props_size_checked_eq t ps : props_size_checked t = Some ps -> ps = props_size t.
Proof.
  unfold props_size_checked, props_size, vbi_new.
  destruct (size t mod 2 ^ 32 >? 0xfffffff); [discriminate|].
  intros H. injection H as <-. reflexivity.
Qed.

Lemma sub_sizes p n : sub_inv p -> subscribe_partial_size p = Some n ->
  n = 2 + props_size (sub_props p) + Z.of_nat (length (enc_topics (sub_topics p))) /\
  0 <= size (sub_props p) < n.
Proof.
  intros (_ & Hm & _ & _). unfold subscribe_partial_size.
  destruct (props_size_checked (sub_props p)) as [ps|] eqn:E; [|discriminate].
  apply props_size_checked_eq in E. intros H.
  assert (Hn : 2 + ps + fold_right (fun kv acc => utf8_size (fst kv) + 1 + acc) 0 (sub_topics p) = n)
    by (unfold option_map in H; congruence).
  pose proof (enc_topics_length (sub_topics p)) as Hl.
  pose proof (ConnectModelFacts.made_size _ _ Hm). lia.
Qed.

Lemma sub_serialize_body p n pb :
  subscribe_partial_size p = Some n -> 0 <= n <= 0xfffffff ->
  Props.serialize (sub_props p) = Ok pb ->
  subscribe_serialize p = Written (vbi_serialize n ++ sub_body p pb).
Proof.
  intros Hn Hle Hser. unfold subscribe_serialize. rewrite Hn. cbn [with_size].
  rewrite Z.mod_small, vbi_new_ok by lia. cbn [try_].
  unfold props_put_q. rewrite Hser. cbn [wseq after put]. unfold sub_body, enc_topics.
  repeat rewrite <- app_assoc. reflexivity.
Qed.

Lemma sub_decode p pb rest :
  sub_inv p ->
  (forall r, Props.deserialize auxiliary_data (pb ++ r) = Ok (sub_props p, r)) ->
  Z.of_nat (length (sub_body p pb)) <= 0xfffffff ->
  subscribe_deserialize (vbi_serialize (Z.of_nat (length (sub_body p pb))) ++ sub_body p pb ++ rest) =
  match sub_topics p with [] => Err BadSubscribeMessage | _ :: _ => Ok (p, rest) end.
Proof.
  intros (Hid & _ & Hval & Hts) Hpb Hle. unfold subscribe_deserialize.
  rewrite vbi_roundtrip by lia. cbn [bind].
  rewrite length_app, Nat2Z.id.
  destruct (Z.ltb_spec (Z.of_nat (length (sub_body p pb) + length rest))
                       (Z.of_nat (length (sub_body p pb)))); [lia|].
  rewrite firstn_app, Nat.sub_diag, firstn_O, app_nil_r, firstn_all.
  unfold sub_body at 1. rewrite deserialize_two_put_u16 by exact Hid. cbn [bind].
  rewrite Hpb. cbn [bind]. rewrite Hval. cbn [negb].
  rewrite topics_loop_enc by (assumption || lia). cbn [bind].
  rewrite skipn_app, Nat.sub_diag, skipn_all, skipn_O. cbn [app].
  destruct p as [i ps ts]; cbn [sub_topics sub_id sub_props]. destruct ts; reflexivity.
Qed.

Lemma sub_roundtrip_gen p n rest :
  sub_made p -> subscribe_partial_size p = Some n -> n <= 0xfffffff ->
  exists body, subscribe_serialize p = Written (vbi_serialize n ++ body) /\
    Z.of_nat (length body) = n /\
    subscribe_deserialize (vbi_serialize n ++ body ++ rest) =
    match sub_topics p with [] => Err BadSubscribeMessage | _ :: _ => Ok (p, rest) end.
Proof.
  intros Hm Hn Hle. pose proof (sub_made_inv p Hm) as Hinv.
  destruct (sub_sizes p n Hinv Hn) as [Heq Hs].
  pose proof Hinv as (_ & Hpm & _ & _).
  destruct (made_roundtrip _ _ [] Hpm ltac:(lia)) as (pb & Hser & Hlen & _).
  assert (Hpb : forall r, Props.deserialize auxiliary_data (pb ++ r) = Ok (sub_props p, r)).
  { intros r. destruct (made_roundtrip _ _ r Hpm ltac:(lia)) as (pb' & Hser' & _ & Hdec).
    rewrite Hser in Hser'. injection Hser' as <-. exact Hdec. }
  assert (Hbl : Z.of_nat (length (sub_body p pb)) = n).
  { unfold sub_body. rewrite !length_app, !Nat2Z.inj_add, Hlen. cbn [length put_u16]. lia. }
  exists (sub_body p pb). split; [|split; [exact Hbl|]].
  - apply sub_serialize_body; auto; lia.
  - rewrite <- Hbl. apply sub_decode; auto. lia.
Qed.

(** X12.  A SUBSCRIBE packet built with [Subscribe::new], [add_topic] and
    [add_prop] (with values from the [MqttPropValue] constructors) that
    holds at least one topic and whose [partial_size] is at most
    0x0FFFFFFF serializes without error into the length prefix followed
    by [partial_size] bytes, and [Subscribe::deserialize] reads those
    bytes, followed by anything, back into the same packet and leaves the
    rest. *)
Theorem subscribe_serialize_roundtrip p n rest :
  sub_made p -> sub_topics p <> [] -> subscribe_partial_size p = Some n -> n <= 0xfffffff ->
  exists body, subscribe_serialize p = Written (vbi_serialize n ++ body) /\
    Z.of_nat (length body) = n /\
    subscribe_deserialize (vbi_serialize n ++ body ++ rest) = Ok (p, rest).
Proof.
  intros Hm Hne Hn Hle. destruct (sub_roundtrip_gen p n rest Hm Hn Hle) as (body & H1 & H2 & H3).
  exists body. split; [exact H1|split; [exact H2|]]. rewrite H3.
  destruct (sub_topics p); [congruence|reflexivity].
Qed.

(** X13.  A SUBSCRIBE packet built in the same way but without any
    accepted topic (only [Subscribe::new], [add_prop] and rejected
    [add_topic] calls) still serializes without error, but
    [Subscribe::deserialize] refuses the bytes it writes with
    [BadSubscribeMessage]. *)
Theorem subscribe_without_topic_unreadable p n rest :
  sub_made p -> sub_topics p = [] -> subscribe_partial_size p = Some n -> n <= 0xfffffff ->
  exists body, subscribe_serialize p = Written (vbi_serialize n ++ body) /\
    Z.of_nat (length body) = n /\
    subscribe_deserialize (vbi_serialize n ++ body ++ rest) = Err BadSubscribeMessage.
Proof.
  intros Hm He Hn Hle. destruct (sub_roundtrip_gen p n rest Hm Hn Hle) as (body & H1 & H2 & H3).
  exists body. split; [exact H1|split; [exact H2|]]. rewrite H3, He. reflexivity.
Qed.

Lemma subscribe_serialize_roundtrip_witness :
  let p := fst (sub_add_topic
                  (fst (sub_add_topic
                     (fst (sub_add_prop (sub_new 7) SubscriptionIdentifier (VVarInt 300)))
                     "a/+/c"%string 0x25))
                  "#"%string 0x01) in
  sub_made p /\ sub_topics p <> [] /\ subscribe_partial_size p = Some 18 /\ 18 <= 0xfffffff /\
  exists body, subscribe_serialize p = Written (vbi_serialize 18 ++ body) /\
    Z.of_nat (length body) = 18 /\
    subscribe_deserialize (vbi_serialize 18 ++ body ++ [3]) = Ok (p, [3]).
Proof.
  intros p.
  assert (Hm : sub_made p).
  { apply sub_made_add_topic; [|lia]. apply sub_made_add_topic; [|lia].
    apply sub_made_add_prop; [apply sub_made_new; lia|]. cbn. lia. }
  assert (Hne : sub_topics p <> []) by (vm_compute; discriminate).
  assert (Hn : subscribe_partial_size p = Some 18) by (vm_compute; reflexivity).
  split; [exact Hm|split; [exact Hne|split; [exact Hn|split; [lia|]]]].
  exact (subscribe_serialize_roundtrip p 18 [3] Hm Hne Hn ltac:(lia)).
Defined.

Lemma subscribe_without_topic_unreadable_witness :
  let p := fst (sub_add_topic (fst (sub_add_prop (sub_new 7) UserProperty
                                     (VString [107]))) "a/b+"%string 0) in
  sub_made p /\ sub_topics p = [] /\ subscribe_partial_size p = Some 7 /\ 7 <= 0xfffffff /\
  exists body, subscribe_serialize p = Written (vbi_serialize 7 ++ body) /\
    Z.of_nat (length body) = 7 /\
    subscribe_deserialize (vbi_serialize 7 ++ body ++ []) = Err BadSubscribeMessage.
Proof.
  intros p.
  assert (Hm : sub_made p).
  { apply sub_made_add_topic; [|lia].
    apply sub_made_add_prop; [apply sub_made_new; lia|]. vm_compute. reflexivity. }
  assert (He : sub_topics p = []) by (vm_compute; reflexivity).
  assert (Hn : subscribe_partial_size p = Some 7) by (vm_compute; reflexivity).
  split; [exact Hm|split; [exact He|split; [exact Hn|split; [lia|]]]].
  exact (subscribe_without_topic_unreadable p 7 [] Hm He Hn ltac:(lia)).
Defined.

End SubscribeModelFacts.

(** ** Publish delivery ([server-lib/src/dispatcher.rs]) *)

Module PublishFacts.
Import Qos Props Subscribe Dispatch.
Local Open Scope string_scope.

(** Whether [process_publish] hands the packet to [target], whose stored
    subscription is [info], given the directory [cl]. *)
Definition delivered_to (client : string) (strict_encryption : bool)
  (cl : list (string * bool)) (target : string) (info : Topics.SubscriptionInfo) : bool :=
  negb (String.eqb target client && contains (Topics.flags info) Topics.NO_LOCAL) &&
  match Topics.get target cl with
  | Some encrypted => negb (strict_encryption && negb encrypted)
  | None => false
  end.

Lemma forward_props_none ps :
  (exists k v, In (k, v) ps /\ In k [MessageExpiryInterval; TopicAlias; SubscriptionIdentifier]) ->
  forward_props ps = None.
Proof.
  induction ps as [|[k v] ps IH]; intros (k' & v' & Hin & Hk); [destruct Hin|].
  destruct Hin as [Heq|Hin].
  - injection Heq as -> ->. destruct Hk as [<-|[<-|[<-|[]]]]; reflexivity.
  - assert (H : forward_props ps = None) by (apply IH; eauto).
    cbn [forward_props]. rewrite H. destruct k; reflexivity.
Qed.

Lemma deliver_all d client se resp targets :
  (forall t i, In (t, i) targets ->
     Topics.qos i = QoS0 /\ contains (Topics.flags i) Topics.RETAIN_AS_PUBLISHED = false) ->
  deliver d client se resp targets =
  Returned (mkDispatcher (topics_table d) (clients d)
              (app (sent d) (map (fun x => (fst x, resp))
                     (filter (fun x => delivered_to client se (clients d) (fst x) (snd x))
                             targets))))
           None.
Proof.
  revert d. induction targets as [|[t i] targets IH]; intros d Hall.
  - cbn. rewrite app_nil_r. destruct d; reflexivity.
  - destruct (Hall t i (or_introl eq_refl)) as [Hq Hr].
    assert (Hall' : forall t i, In (t, i) targets ->
              Topics.qos i = QoS0 /\ contains (Topics.flags i) Topics.RETAIN_AS_PUBLISHED = false)
      by (intros t0 i0 H0; apply (Hall t0 i0); right; exact H0).
    cbn [deliver filter fst snd]. unfold delivered_to at 1.
    destruct (String.eqb t client && contains (Topics.flags i) Topics.NO_LOCAL) eqn:Enl.
    + cbn [negb andb]. apply IH, Hall'.
    + rewrite Hr. cbn [negb andb].
      destruct (Topics.get t (clients d)) as [enc|] eqn:Ec.
      * destruct (se && negb enc); cbn [negb].
        -- apply IH, Hall'.
        -- rewrite Hq. rewrite IH by exact Hall'. cbn [send topics_table clients sent map].
           rewrite <- app_assoc. reflexivity.
      * apply IH, Hall'.
Qed.

Lemma filter_single {A : Type} (resp : A) (sel : string -> Topics.SubscriptionInfo -> bool)
  (targets : list (string * Topics.SubscriptionInfo)) c :
  NoDup (map fst targets) ->
  filter (fun x => String.eqb (fst x) c)
    (map (fun x => (fst x, resp)) (filter (fun x => sel (fst x) (snd x)) targets)) =
  match Topics.get c targets with
  | Some i => if sel c i then [(c, resp)] else []
  | None => []
  end.
Proof.
  induction targets as [|[t i] targets IH]; intros Hnd; [reflexivity|].
  inversion Hnd as [|? ? Hn Hnd']; subst. cbn [filter fst snd Topics.get].
  destruct (String.eqb_spec c t) as [->|Hne].
  - assert (Hnone : filter (fun x => String.eqb (fst x) t)
              (map (fun x => (fst x, resp)) (filter (fun x => sel (fst x) (snd x)) targets)) = []).
    { clear -Hn. induction targets as [|[t' i'] targets IH]; [reflexivity|].
      cbn [map fst] in Hn. cbn [filter fst snd].
      destruct (sel t' i'); cbn [map filter fst];
        (destruct (String.eqb_spec t' t) as [->|_]; [exfalso; apply Hn; left; reflexivity|]);
        apply IH; intros H; apply Hn; right; exact H. }
    destruct (sel t i); cbn [map filter fst]; rewrite ?String.eqb_refl, Hnone; reflexivity.
  - rewrite <- IH by exact Hnd'.
    destruct (sel t i); cbn [map filter fst]; [|reflexivity].
    destruct (String.eqb_spec t c) as [->|_]; [congruence|reflexivity].
Qed.

Lemma collect_nodup src subs :
  NoDup (map fst subs) -> NoDup (map fst (Topics.collect src subs)).
Proof.
  unfold Topics.collect. revert subs.
  induction src as [|[c i] src IH]; intros subs H; [exact H|].
  cbn [fold_left]. apply IH. unfold Topics.collect_entry.
  destruct (Topics.get c subs) as [e|]; [destruct (qos_ltb _ _)|];
    first [apply TopicsFacts.nodup_put; exact H | exact H].
Qed.

Lemma collect_subs_nodup b subs sections :
  NoDup (map fst subs) -> NoDup (map fst (Topics.collect_subs b subs sections)).
Proof.
  revert b subs. induction sections as [|s rest IH]; intros b subs H; cbn [Topics.collect_subs].
  - apply collect_nodup, collect_nodup, H.
  - pose proof (collect_nodup (Topics.hash_wildcard b) subs H) as H1.
    assert (H2 : NoDup (map fst (match Topics.get "+" (Topics.sub_blocks b) with
                                 | Some sb => Topics.collect_subs sb
                                                (Topics.collect (Topics.hash_wildcard b) subs) rest
                                 | None => Topics.collect (Topics.hash_wildcard b) subs
                                 end)))
      by (destruct (Topics.get "+" (Topics.sub_blocks b)); [apply IH|]; exact H1).
    destruct (Topics.get s (Topics.sub_blocks b)); [apply IH|]; exact H2.
Qed.

(** X14.  [Dispatcher::process_publish] refuses a PUBLISH with QoS 1 or 2,
    with the DUP or RETAIN flag, or carrying a MessageExpiryInterval,
    TopicAlias or SubscriptionIdentifier property: for a client in the
    directory it only sends that client a DISCONNECT with
    ImplementationSpecificError and returns [Misc("Unimplemented")],
    delivering nothing and leaving the index as it is.  For a client
    missing from the directory the task panics (the [unwrap] of
    [unimplemented]) without the [noise] feature, and returns [Ok(())]
    having done nothing with it. *)
Theorem publish_unsupported_rejected noise strict d client publish :
  (pub_qos publish <> QoS0 \/
   Z.land (pub_flags publish) (Z.lor PUB_DUP PUB_RETAIN) <> 0 \/
   exists k v, In (k, v) (pub_props publish) /\
               In k [MessageExpiryInterval; TopicAlias; SubscriptionIdentifier]) ->
  (forall encrypted, Topics.get client (clients d) = Some encrypted ->
     process_publish noise strict d client publish =
     Returned (send d client (ODisconnect ImplementationSpecificError))
              (Some (Misc "Unimplemented"))) /\
  (Topics.get client (clients d) = None ->
     process_publish false strict d client publish = Panicked /\
     process_publish true strict d client publish = Returned d None).
Proof.
  intros Hbad.
  assert (Hun : forall se, Topics.get client (clients d) = Some se ->
            unimplemented d client =
            Returned (send d client (ODisconnect ImplementationSpecificError))
                     (Some (Misc "Unimplemented"))).
  { intros se Hc. unfold unimplemented. rewrite Hc. reflexivity. }
  assert (Hrej : forall se : bool,
            match pub_qos publish with
            | QoS1 | QoS2 => unimplemented d client
            | QoS0 =>
                if negb (Z.eqb (Z.land (pub_flags publish) (Z.lor PUB_DUP PUB_RETAIN)) 0)
                then unimplemented d client
                else match forward_props (pub_props publish) with
                     | None => unimplemented d client
                     | Some ps =>
                         deliver d client se
                           (OPublish (topic_name publish) (payload publish) ps)
                           (Topics.get_all_subscribed (topics_table d) (topic_name publish))
                     end
            end = unimplemented d client).
  { intros se. destruct (pub_qos publish); try reflexivity.
    destruct Hbad as [Hq|[Hf|Hp]]; [congruence| |].
    - destruct (Z.eqb_spec (Z.land (pub_flags publish) (Z.lor PUB_DUP PUB_RETAIN)) 0);
        [congruence|reflexivity].
    - rewrite (forward_props_none _ Hp).
      destruct (negb (Z.eqb _ 0)); reflexivity. }
  split.
  - intros enc Hc. unfold process_publish. destruct noise; [rewrite Hc|];
      rewrite Hrej; exact (Hun _ Hc).
  - intros Hc. unfold process_publish. rewrite Hc. split; [|reflexivity].
    rewrite Hrej. unfold unimplemented. rewrite Hc. reflexivity.
Qed.

(** X15.  A QoS 0 PUBLISH without DUP / RETAIN and without a refused
    property, from a client in the directory, when every subscription
    matching its topic is QoS 0 without RETAIN_AS_PUBLISHED: the call
    returns [Ok(())], leaves the index and the directory unchanged, and
    sends each client exactly one copy (same topic, payload and forwarded
    properties) when it has a matching subscription, is connected, is not
    the publisher with NO_LOCAL, and is not an unencrypted client under
    strict permeability; no other client receives anything. *)
Theorem publish_delivered_once noise strict d client publish encrypted ps :
  Topics.get client (clients d) = Some encrypted ->
  pub_qos publish = QoS0 ->
  Z.land (pub_flags publish) (Z.lor PUB_DUP PUB_RETAIN) = 0 ->
  forward_props (pub_props publish) = Some ps ->
  (forall c i, Topics.get c (Topics.get_all_subscribed (topics_table d) (topic_name publish)) = Some i ->
     Topics.qos i = QoS0 /\ contains (Topics.flags i) Topics.RETAIN_AS_PUBLISHED = false) ->
  exists out,
    process_publish noise strict d client publish =
      Returned (mkDispatcher (topics_table d) (clients d) (app (sent d) out)) None /\
    forall c, filter (fun x => String.eqb (fst x) c) out =
      match Topics.get c (Topics.get_all_subscribed (topics_table d) (topic_name publish)) with
      | Some i =>
          if delivered_to client (if noise then encrypted && strict else false) (clients d) c i
          then [(c, OPublish (topic_name publish) (payload publish) ps)]
          else []
      | None => []
      end.
Proof.
  intros Hc Hq Hf Hp Hall.
  set (gas := Topics.get_all_subscribed (topics_table d) (topic_name publish)) in *.
  set (se := if noise then encrypted && strict else false).
  set (resp := OPublish (topic_name publish) (payload publish) ps).
  assert (Hnd : NoDup (map fst gas)) by (apply collect_subs_nodup; constructor).
  assert (Hall' : forall t i, In (t, i) gas ->
            Topics.qos i = QoS0 /\ contains (Topics.flags i) Topics.RETAIN_AS_PUBLISHED = false)
    by (intros t i Hin; apply (Hall t), TopicsFacts.in_get; assumption).
  exists (map (fun x => (fst x, resp))
            (filter (fun x => delivered_to client se (clients d) (fst x) (snd x)) gas)).
  split.
  - unfold process_publish. rewrite Hq, Hf, Hp. cbn [negb Z.eqb].
    replace (match noise with
             | true => match Topics.get client (clients d) with
                       | Some c => Some (c && strict) | None => None end
             | false => Some false end) with (Some se)
      by (unfold se; destruct noise; [rewrite Hc|]; reflexivity).
    apply deliver_all, Hall'.
  - intros c. apply (filter_single resp (delivered_to client se (clients d)) gas c Hnd).
Qed.

Lemma publish_unsupported_rejected_witness :
  let p := mkPublish PUB_QOS1 "a/b" [1] [] in
  pub_qos p <> QoS0 /\
  (forall encrypted, Topics.get "c" (clients two_clients) = Some encrypted ->
     process_publish true true two_clients "c" p =
     Returned (send two_clients "c" (ODisconnect ImplementationSpecificError))
              (Some (Misc "Unimplemented"))) /\
  (Topics.get "c" (clients two_clients) = None ->
     process_publish false true two_clients "c" p = Panicked /\
     process_publish true true two_clients "c" p = Returned two_clients None).
Proof.
  intros p. assert (H : pub_qos p <> QoS0) by (vm_compute; discriminate).
  split; [exact H|]. exact (publish_unsupported_rejected true true two_clients "c" p (or_introl H)).
Defined.

Lemma publish_delivered_once_witness :
  let d := set_topics two_clients
             (Topics.subscribe (Topics.subscribe Topics.table_new "c" "a/+" QoS0 Topics.NO_LOCAL)
                "d" "a/#" QoS0 0) in
  let p := mkPublish 0 "a/b" [1] [] in
  Topics.get "c" (clients d) = Some false /\ pub_qos p = QoS0 /\
  Z.land (pub_flags p) (Z.lor PUB_DUP PUB_RETAIN) = 0 /\ forward_props (pub_props p) = Some [] /\
  (forall c i, Topics.get c (Topics.get_all_subscribed (topics_table d) (topic_name p)) = Some i ->
     Topics.qos i = QoS0 /\ contains (Topics.flags i) Topics.RETAIN_AS_PUBLISHED = false) /\
  exists out,
    process_publish false false d "c" p =
      Returned (mkDispatcher (topics_table d) (clients d) (app (sent d) out)) None /\
    forall c, filter (fun x => String.eqb (fst x) c) out =
      match Topics.get c (Topics.get_all_subscribed (topics_table d) (topic_name p)) with
      | Some i =>
          if delivered_to "c" false (clients d) c i
          then [(c, OPublish (topic_name p) (payload p) [])]
          else []
      | None => []
      end.
Proof.
  intros d p.
  assert (H1 : Topics.get "c" (clients d) = Some false) by reflexivity.
  assert (H2 : pub_qos p = QoS0) by reflexivity.
  assert (H3 : Z.land (pub_flags p) (Z.lor PUB_DUP PUB_RETAIN) = 0) by reflexivity.
  assert (H4 : forward_props (pub_props p) = Some []) by reflexivity.
  assert (H5 : forall c i,
            Topics.get c (Topics.get_all_subscribed (topics_table d) (topic_name p)) = Some i ->
            Topics.qos i = QoS0 /\ contains (Topics.flags i) Topics.RETAIN_AS_PUBLISHED = false).
  { intros c i H. apply TopicsFacts.get_in in H. vm_compute in H.
    destruct H as [H|[H|[]]]; injection H as <- <-; split; reflexivity. }
  split; [exact H1|split; [exact H2|split; [exact H3|split; [exact H4|split; [exact H5|]]]]].
  exact (publish_delivered_once false false d "c" p false [] H1 H2 H3 H4 H5).
Defined.

End PublishFacts.

(** ** Decoders of the wire types: what they accept *)

Module WireDecodeFacts.
Import Wire WireFacts.

Definition is_byte (b : Z) : Prop := 0 <= b < 256.

Lemma two_bytes_canonical b1 b2 :
  is_byte b1 -> is_byte b2 -> put_u16 (b1 * 256 + b2) = [b1; b2].
Proof.
  unfold is_byte, put_u16. intros H1 H2. f_equal; [|f_equal].
  - rewrite Z.div_add_l by lia. rewrite (Z.div_small b2) by lia. rewrite Z.add_0_r.
    apply Z.mod_small. lia.
  - rewrite Z.add_comm, Z.mod_add by lia. apply Z.mod_small. lia.
Qed.

(** Reading a length-prefixed field: the field is [firstn len rest] and the
    bytes read are its encoding. *)
Lemma prefixed_canonical b1 b2 rest :
  is_byte b1 -> is_byte b2 ->
  (Z.of_nat (length rest) <? b1 * 256 + b2) = false ->
  b1 :: b2 :: rest =
  put_u16 (Z.of_nat (length (firstn (Z.to_nat (b1 * 256 + b2)) rest)))
    ++ firstn (Z.to_nat (b1 * 256 + b2)) rest ++ skipn (Z.to_nat (b1 * 256 + b2)) rest.
Proof.
  intros H1 H2 Hlen. apply Z.ltb_ge in Hlen. unfold is_byte in *.
  rewrite firstn_skipn, length_firstn.
  replace (Z.of_nat (Nat.min (Z.to_nat (b1 * 256 + b2)) (length rest))) with (b1 * 256 + b2) by lia.
  rewrite two_bytes_canonical by assumption. reflexivity.
Qed.

Lemma utf8_deserialize_canonical buf s r :
  Forall is_byte buf -> utf8_deserialize buf = Ok (s, r) ->
  utf8_new s = Ok s /\ buf = utf8_serialize s ++ r.
Proof.
  intros Hb. unfold utf8_deserialize.
  destruct buf as [|b1 [|b2 rest]]; cbn [deserialize_two bind]; try discriminate.
  inversion Hb as [|? ? H1 Hb']; subst. inversion Hb' as [|? ? H2 _]; subst.
  destruct (Z.of_nat (length rest) <? b1 * 256 + b2) eqn:Hlen; [discriminate|].
  unfold from_utf8. destruct (utf8_chars _); cbn [bind]; [|discriminate].
  destruct (utf8_new (firstn (Z.to_nat (b1 * 256 + b2)) rest)) as [x|e] eqn:Hn;
    cbn [bind]; [|discriminate].
  intros H. injection H as <- <-.
  assert (x = firstn (Z.to_nat (b1 * 256 + b2)) rest)
    by (unfold utf8_new in Hn; destruct (utf8_verify _); cbn [bind] in Hn; congruence).
  subst x. split; [exact Hn|]. unfold utf8_serialize. rewrite <- app_assoc.
  apply prefixed_canonical; assumption.
Qed.

Lemma binary_deserialize_canonical buf d r :
  Forall is_byte buf -> binary_deserialize buf = Ok (d, r) ->
  binary_new d = Ok d /\ buf = binary_serialize d ++ r.
Proof.
  intros Hb. unfold binary_deserialize.
  destruct buf as [|b1 [|b2 rest]]; cbn [deserialize_two bind]; try discriminate.
  inversion Hb as [|? ? H1 Hb']; subst. inversion Hb' as [|? ? H2 _]; subst.
  destruct (Z.of_nat (length rest) <? b1 * 256 + b2) eqn:Hlen; [discriminate|].
  destruct (binary_new (firstn (Z.to_nat (b1 * 256 + b2)) rest)) as [x|e] eqn:Hn;
    cbn [bind]; [|discriminate].
  intros H. injection H as <- <-.
  assert (x = firstn (Z.to_nat (b1 * 256 + b2)) rest)
    by (unfold binary_new in Hn; destruct (_ >? _); congruence).
  subst x. split; [exact Hn|]. unfold binary_serialize. rewrite <- app_assoc.
  apply prefixed_canonical; assumption.
Qed.

Lemma forall_is_byte_app l r : Forall is_byte (l ++ r) -> Forall is_byte r.
Proof. intros H. apply Forall_app in H. apply H. Qed.

(** The [loop] of [MqttVariableBytesInt::deserialize] after [j] bytes. *)
Lemma vbi_loop_range j : forall buf v v' r,
  (j <= 3)%nat -> 0 <= v < 2 ^ (7 * Z.of_nat j) ->
  vbi_deserialize_loop (7 * Z.of_nat j) v buf = Ok (v', r) ->
  exists pre, buf = pre ++ r /\ (1 <= length pre <= 4 - j)%nat /\
    0 <= v' < 2 ^ (7 * Z.of_nat (j + length pre)).
Proof.
  induction j as [j IHj] using (well_founded_induction (Nat.gt_wf 4)).
  intros buf v v' r Hj Hv. destruct buf as [|b rest]; cbn [vbi_deserialize_loop]; [discriminate|].
  set (x := Z.land b 127).
  assert (Hx : 0 <= x < 128) by (unfold x; change 127 with (Z.ones 7);
    rewrite Z.land_ones by lia; change 128 with (2 ^ 7); apply Z.mod_pos_bound; reflexivity).
  assert (Hpow : 2 ^ (7 * Z.of_nat j) * 128 = 2 ^ (7 * Z.of_nat (S j))).
  { rewrite Nat2Z.inj_succ, Z.mul_succ_r, Z.pow_add_r by lia. reflexivity. }
  assert (Hp28 : 2 ^ (7 * Z.of_nat (S j)) <= 2 ^ 28)
    by (apply Z.pow_le_mono_r; lia).
  assert (Hsh : Z.land (Z.shiftl x (7 * Z.of_nat j)) (2 ^ 32 - 1) = x * 2 ^ (7 * Z.of_nat j)).
  { rewrite Z.shiftl_mul_pow2 by lia. change (2 ^ 32 - 1) with (Z.ones 32).
    rewrite Z.land_ones by lia. apply Z.mod_small. nia. }
  fold x. rewrite Hsh.
  assert (Hm : (v + x * 2 ^ (7 * Z.of_nat j)) mod 2 ^ 32 = v + x * 2 ^ (7 * Z.of_nat j))
    by (apply Z.mod_small; nia).
  rewrite Hm.
  destruct (Z.gtb_spec (7 * Z.of_nat j) 21); [lia|].
  destruct (Z.land b 0x80 =? 0).
  - intros Hr.
    assert (E : v' = v + x * 2 ^ (7 * Z.of_nat j) /\ r = rest) by (split; congruence).
    destruct E as [-> ->]. exists [b]. split; [reflexivity|].
    split; [cbn [length]; lia|]. replace (j + length [b])%nat with (S j) by (cbn [length]; lia).
    rewrite <- Hpow. nia.
  - intros Hr. destruct (Nat.eq_dec j 3) as [->|Hj3].
    + destruct rest; cbn in Hr; discriminate.
    + replace (7 * Z.of_nat j + 7) with (7 * Z.of_nat (S j)) in Hr by lia.
      destruct (IHj (S j) ltac:(lia) rest (v + x * 2 ^ (7 * Z.of_nat j)) v' r ltac:(lia) ltac:(rewrite <- Hpow; nia) Hr)
        as (pre & -> & Hl & Hv').
      exists (b :: pre). cbn [length app]. split; [reflexivity|]. split; [lia|].
      replace (j + S (length pre))%nat with (S j + length pre)%nat by lia. exact Hv'.
Qed.

Lemma vbi_overlong_bits : forallb (fun i => negb (i <? 128) ||
  ((Z.land (Z.lor i 0x80) 127 =? i) && negb (Z.land (Z.lor i 0x80) 0x80 =? 0))) all_bytes = true.
Proof. vm_compute. reflexivity. Qed.

(** X16. The three length-prefixed decoders ([MqttUtf8String],
    [MqttBinaryData] and [StringPair] [deserialize]) only return values that
    the matching [new] accepts, and on a buffer of bytes the part they consume
    is exactly the serialization of the value read: a read of [v] leaving [r]
    means the buffer was [serialize v ++ r]. *)
Theorem decoders_canonical :
  (forall buf s r, Forall is_byte buf -> utf8_deserialize buf = Ok (s, r) ->
     utf8_new s = Ok s /\ buf = utf8_serialize s ++ r) /\
  (forall buf d r, Forall is_byte buf -> binary_deserialize buf = Ok (d, r) ->
     binary_new d = Ok d /\ buf = binary_serialize d ++ r) /\
  (forall buf p r, Forall is_byte buf -> pair_deserialize buf = Ok (p, r) ->
     pair_new (fst p) (snd p) = Ok p /\ buf = pair_serialize p ++ r).
Proof.
  split; [exact utf8_deserialize_canonical|split; [exact binary_deserialize_canonical|]].
  intros buf [k v] r Hb. unfold pair_deserialize.
  destruct (utf8_deserialize buf) as [[k' r1]|e] eqn:E1; cbn [bind]; [|discriminate].
  destruct (utf8_deserialize r1) as [[v' r2]|e] eqn:E2; cbn [bind]; [|discriminate].
  intros H. injection H as <- <- <-.
  destruct (utf8_deserialize_canonical _ _ _ Hb E1) as [Hk ->].
  destruct (utf8_deserialize_canonical _ _ _ (forall_is_byte_app _ _ Hb) E2) as [Hv ->].
  split.
  - cbn [fst snd]. unfold pair_new. rewrite Hk. cbn [bind]. rewrite Hv. reflexivity.
  - unfold pair_serialize. cbn [fst snd]. rewrite app_assoc. reflexivity.
Qed.

(** X17. A successful [MqttVariableBytesInt::deserialize] returns a value
    that [MqttVariableBytesInt::new] accepts (at most [0xfffffff]), read from
    a prefix of at least [size] and at most 4 bytes, the rest of the buffer
    being left as it was. The decoder does not insist on the shortest form:
    a value [i < 128] written as [i | 0x80] followed by a zero byte is read
    back as [i], consuming both bytes. *)
Theorem vbi_deserialize_range :
  (forall buf v r, vbi_deserialize buf = Ok (v, r) ->
     vbi_new v = Ok v /\
     exists pre, buf = pre ++ r /\ vbi_size v <= Z.of_nat (length pre) <= 4) /\
  (forall i rest, 0 <= i < 128 ->
     vbi_deserialize (Z.lor i 0x80 :: 0 :: rest) = Ok (i, rest)).
Proof.
  split.
  - intros buf v r H.
    destruct (vbi_loop_range 0 buf 0 v r ltac:(lia) ltac:(cbn; lia) H) as (pre & -> & Hl & Hv).
    cbn [Nat.add] in Hv.
    assert (Hv28 : v < 2 ^ 28).
    { eapply Z.lt_le_trans; [apply Hv|]. apply Z.pow_le_mono_r; lia. }
    split.
    + unfold vbi_new. destruct (Z.gtb_spec v 0xfffffff); [lia|reflexivity].
    + exists pre. split; [reflexivity|]. unfold vbi_size.
      destruct pre as [|b1 [|b2 [|b3 [|b4 [|b5 pre]]]]]; cbn [length] in Hl |- *; try lia;
        cbn in Hv;
        destruct (Z.ltb_spec v 0x80); try lia; destruct (Z.ltb_spec v 0x4000); try lia;
        destruct (Z.ltb_spec v 0x200000); lia.
  - intros i rest Hi.
    pose proof (byte_forall _ vbi_overlong_bits i ltac:(lia)) as Hb. cbv beta in Hb.
    destruct (Z.ltb_spec i 128); [|lia]. cbn [negb orb] in Hb.
    apply andb_true_iff in Hb as [H1 H2]. apply Z.eqb_eq in H1.
    unfold vbi_deserialize. cbn [vbi_deserialize_loop]. rewrite H1.
    destruct (Z.land (Z.lor i 0x80) 0x80 =? 0); [discriminate|].
    cbn. rewrite Z.add_0_r. change 4294967295 with (Z.ones 32). rewrite (Z.land_ones i 32) by lia. change (2^32) with 4294967296. rewrite !(Z.mod_small i) by lia. reflexivity.
Qed.

Lemma decoders_canonical_witness :
  pair_new [107] [118] = Ok ([107], [118]) /\
  [0; 1; 107; 0; 1; 118; 9] = pair_serialize ([107], [118]) ++ [9].
Proof.
  apply (proj2 (proj2 decoders_canonical) [0; 1; 107; 0; 1; 118; 9] ([107], [118]) [9]).
  - repeat apply Forall_cons; try apply Forall_nil; unfold is_byte; lia.
  - vm_compute. reflexivity.
Defined.

Lemma vbi_deserialize_range_witness :
  vbi_new 128 = Ok 128 /\
  exists pre, [0x80; 0x01; 7] = pre ++ [7] /\ vbi_size 128 <= Z.of_nat (length pre) <= 4.
Proof.
  apply (proj1 vbi_deserialize_range [0x80; 0x01; 7] 128 [7]).
  vm_compute. reflexivity.
Defined.

End WireDecodeFacts.

(** ** Reading a packet: the fixed header *)

Module PacketDecodeFacts.
Import Wire Props Packets WireFacts PacketsFacts SubscribeModel SubscribeModelFacts PacketDecode.

Definition all_types : list PacketType :=
  [TReserved; TConnect; TConnAck; TPublish; TPubAck; TPubRec; TPubRel; TPubComp;
   TSubscribe; TSubAck; TUnsubscribe; TUnsubAck; TPingReq; TPingRes; TDisconnect; TAuth].

Lemma in_all_types t : In t all_types.
Proof. destruct t; cbn; tauto. Qed.

Definition parses_to (data : Z) (t : PacketType) : bool :=
  match parse data with
  | Some (Ok t') => if PacketType_eq_dec t t' then true else false
  | _ => false
  end.

Definition is_publish (t : PacketType) : bool :=
  match t with TPublish => true | _ => false end.

Lemma parse_table :
  forallb (fun d => forallb (fun t =>
     Bool.eqb (parses_to d t)
       ((Z.shiftr d 4 =? type_code t) && (is_publish t || (Z.land d 15 =? fixed_flags t))))
     all_types) all_bytes = true.
Proof. vm_compute. reflexivity. Qed.

Lemma parse_total_table :
  forallb (fun d => match parse d with
                    | Some (Ok _) | Some (Err BadPacketType) => true
                    | _ => false end) all_bytes = true.
Proof. vm_compute. reflexivity. Qed.

Lemma parses_to_iff d t : parses_to d t = true <-> parse d = Some (Ok t).
Proof.
  unfold parses_to. destruct (parse d) as [[t'|e]|]; try (split; congruence).
  destruct (PacketType_eq_dec t t'); split; congruence.
Qed.

Lemma parse_spec data t : 0 <= data < 256 ->
  parse data = Some (Ok t) <->
  Z.shiftr data 4 = type_code t /\ (t = TPublish \/ Z.land data 15 = fixed_flags t).
Proof.
  intros Hd. pose proof (byte_forall _ parse_table data Hd) as H.
  cbv beta in H. rewrite forallb_forall in H.
  specialize (H t (in_all_types t)). apply Bool.eqb_prop in H.
  rewrite <- parses_to_iff, H, andb_true_iff, orb_true_iff, !Z.eqb_eq.
  destruct t; cbn [is_publish]; intuition congruence.
Qed.

Lemma parse_total data : 0 <= data < 256 ->
  parse data = Some (Err BadPacketType) \/ exists t, parse data = Some (Ok t).
Proof.
  intros Hd. pose proof (byte_forall _ parse_total_table data Hd) as H.
  cbv beta in H. destruct (parse data) as [[t|e]|]; [eauto| |discriminate].
  destruct e; try discriminate. auto.
Qed.

Lemma publish_flags_table :
  forallb (fun f => negb (f <? 16) ||
     match parse (Z.lor (Z.shiftl 3 4) f) with Some (Ok TPublish) => true | _ => false end)
    all_bytes = true.
Proof. vm_compute. reflexivity. Qed.

(** X18. [PacketType::parse] on a byte accepts exactly the headers whose
    high nibble is the code of a packet type and whose low nibble is that
    type's [fixed_flags], any low nibble being accepted for PUBLISH; every
    other byte gives [BadPacketType] and none reaches [unreachable!()].
    The first byte [Packet::serialize] writes parses back to the type of
    the packet (for PUBLISH, when its flags fit in four bits). *)
Theorem packet_type_parse :
  (forall data t, 0 <= data < 256 ->
     (parse data = Some (Ok t) <->
      Z.shiftr data 4 = type_code t /\ (t = TPublish \/ Z.land data 15 = fixed_flags t))) /\
  (forall data, 0 <= data < 256 ->
     parse data = Some (Err BadPacketType) \/ exists t, parse data = Some (Ok t)) /\
  (forall p, (forall q, p = PPublish q -> 0 <= pub_flags q < 16) ->
     parse (first_byte p) = Some (Ok (type_of p))).
Proof.
  split; [exact parse_spec|split; [exact parse_total|]].
  intros p Hp. destruct p; try reflexivity.
  specialize (Hp p eq_refl).
  pose proof (byte_forall _ publish_flags_table (pub_flags p) ltac:(lia)) as H.
  cbv beta in H. destruct (Z.ltb_spec (pub_flags p) 16); [|lia]. cbn [negb orb] in H.
  cbn [first_byte type_of]. destruct (parse _) as [[[]|]|]; congruence.
Qed.

(** X19. A SUBSCRIBE packet built with [Subscribe::new], [add_topic] and
    [add_prop] that holds a topic and whose [partial_size] fits a variable
    byte integer goes through [Packet::serialize] and comes back from
    [Packet::deserialize], whatever follows it and whatever the decoders of
    the other packet types do; [Packet::size] is the number of bytes
    written. *)
Theorem packet_roundtrip ds p n rest :
  sub_made p -> sub_topics p <> [] -> subscribe_partial_size p = Some n -> n <= 0xfffffff ->
  exists bytes, serialize (PSubscribe p) = Written bytes /\
    packet_size (PSubscribe p) = Some (Z.of_nat (length bytes)) /\
    packet_deserialize ds (bytes ++ rest) = Some (Ok (PSubscribe p, rest)).
Proof.
  intros Hm Hne Hn Hle.
  destruct (sub_roundtrip_gen p n rest Hm Hn Hle) as (body & Hser & Hlen & Hdec).
  assert (Hn0 : 0 <= n) by lia.
  exists (130 :: vbi_serialize n ++ body). split; [|split].
  - unfold serialize. rewrite Hser. reflexivity.
  - unfold packet_size, framed_size. rewrite Hn.
    rewrite Z.mod_small by lia. rewrite vbi_new_ok by lia.
    cbn [option_map length]. rewrite length_app, Nat2Z.inj_succ, Nat2Z.inj_add.
    rewrite vbi_serialize_length by lia. f_equal. lia.
  - destruct (sub_topics p) eqn:Et; [congruence|].
    pose proof (vbi_serialize_length n ltac:(lia)) as Hl.
    pose proof (vbi_size_range n) as Hr.
    destruct (vbi_serialize n) as [|x xs] eqn:Ev; [cbn in Hl; lia|].
    cbn [app]. cbn [app] in Hdec. rewrite <- !app_assoc in *.
    unfold packet_deserialize. cbn [app].
    change (parse 130) with (Some (@Ok PacketType TSubscribe)). cbv iota beta.
    rewrite Hdec. reflexivity.
Qed.

Lemma type_code_inj t t' : type_code t = type_code t' -> t = t'.
Proof. destruct t, t'; cbn; congruence. Qed.

(** X20. [Packet::deserialize] answers a buffer of fewer than two bytes
    with [InsufficientBuffer { needed: 2, available }]; on a buffer of bytes
    it never panics; and a first byte with type 0 ([Reserved]) or with
    flags other than the fixed flags of its non-PUBLISH type is refused with
    [BadPacketType] before any body decoder runs. *)
Theorem packet_header_errors ds :
  (forall buf, (length buf < 2)%nat ->
     packet_deserialize ds buf = Some (Err (InsufficientBuffer 2 (Z.of_nat (length buf))))) /\
  (forall byte1 b, 0 <= byte1 < 256 -> b <> [] -> packet_deserialize ds (byte1 :: b) <> None) /\
  (forall byte1 b, 0 <= byte1 < 256 -> b <> [] ->
     (Z.shiftr byte1 4 = 0 \/
      exists t, Z.shiftr byte1 4 = type_code t /\ t <> TPublish /\
                Z.land byte1 15 <> fixed_flags t) ->
     packet_deserialize ds (byte1 :: b) = Some (Err BadPacketType)).
Proof.
  split; [|split].
  - intros buf Hl. destruct buf as [|x [|y buf]]; cbn in Hl |- *; [reflexivity|reflexivity|lia].
  - intros byte1 b Hd Hb. destruct b as [|y b]; [congruence|].
    unfold packet_deserialize.
    destruct (parse_total byte1 Hd) as [H|[t H]]; rewrite H; [discriminate|].
    destruct t; try discriminate; destruct (_ : result _) as [[]|]; discriminate.
  - intros byte1 b Hd Hb Hbad. destruct b as [|y b]; [congruence|].
    unfold packet_deserialize.
    destruct (parse_total byte1 Hd) as [H|[t H]]; rewrite H; [reflexivity|].
    apply (parse_spec byte1 t Hd) in H as [Hc Hf].
    destruct Hbad as [H0|(t' & Hc' & Hp & Hf')].
    + rewrite H0 in Hc. destruct t; cbn in Hc; try discriminate. reflexivity.
    + rewrite Hc in Hc'. apply type_code_inj in Hc'. subst t'.
      destruct Hf as [->|Hf]; congruence.
Qed.

Definition reject_all {A : Type} : Decoder A := fun _ => Err BadPacketType.

Definition rejecting_decoders : BodyDecoders :=
  mkBodyDecoders reject_all reject_all reject_all reject_all reject_all reject_all
                 reject_all reject_all reject_all reject_all reject_all reject_all.

Lemma packet_roundtrip_witness :
  let p := fst (sub_add_topic (sub_new 9) "x/#"%string 0x00) in
  sub_made p /\ sub_topics p <> [] /\ subscribe_partial_size p = Some 9 /\ 9 <= 0xfffffff /\
  exists bytes, serialize (PSubscribe p) = Written bytes /\
    packet_size (PSubscribe p) = Some (Z.of_nat (length bytes)) /\
    packet_deserialize rejecting_decoders (bytes ++ [5]) = Some (Ok (PSubscribe p, [5])).
Proof.
  intros p.
  assert (Hm : sub_made p).
  { apply sub_made_add_topic; [apply sub_made_new; lia|lia]. }
  assert (Hne : sub_topics p <> []) by (vm_compute; discriminate).
  assert (Hn : subscribe_partial_size p = Some 9) by (vm_compute; reflexivity).
  split; [exact Hm|split; [exact Hne|split; [exact Hn|split; [lia|]]]].
  exact (packet_roundtrip rejecting_decoders p 9 [5] Hm Hne Hn ltac:(lia)).
Defined.

End PacketDecodeFacts.

(** ** The dispatcher loop: a subscription, then a publication *)

Module DispatchLoopFacts.
Import Qos Props Subscribe Dispatch DispatchLoop.
Local Open Scope string_scope.

Lemma single_key_list {A : Type} (l : list (string * A)) x :
  NoDup (map fst l) -> (forall y, In y l -> y = x) -> l = [] \/ l = [x].
Proof.
  intros Hnd Hall. destruct l as [|a [|b l]]; [left; reflexivity|right|].
  - rewrite (Hall a (or_introl eq_refl)). reflexivity.
  - exfalso. rewrite (Hall a (or_introl eq_refl)), (Hall b (or_intror (or_introl eq_refl))) in Hnd.
    inversion Hnd as [|? ? Hn _]. apply Hn. left. reflexivity.
Qed.

Lemma get_all_subscribed_single c f i t :
  Topic.is_valid_topic f = true ->
  Topics.get_all_subscribed (TopicsSpec.subscribe_all [(c, f, i)]) t =
  if TopicsSpec.filter_matches f t then [(c, i)] else [].
Proof.
  intros Hf.
  assert (Hv : Forall (fun s => Topic.is_valid_topic (snd (fst s)) = true) [(c, f, i)])
    by (repeat constructor; exact Hf).
  set (L := Topics.get_all_subscribed _ t).
  assert (Hnd : NoDup (map fst L))
    by (apply PublishFacts.collect_subs_nodup; constructor).
  assert (Hel : forall y, In y L -> y = (c, i) /\ TopicsSpec.filter_matches f t = true).
  { intros [k v] Hin. apply TopicsFacts.in_get in Hin; [|exact Hnd].
    unfold L, Topics.get_all_subscribed in Hin. rewrite TopicsFacts.collect_subs_reach in Hin.
    apply TopicsFacts.collect_some in Hin as [[Hin|Hin] _]; [discriminate|].
    apply TopicsFacts.in_reach_subscribe_all in Hin as [f' [Hm Hl]]; [|exact Hv].
    unfold TopicsSpec.latest in Hl. cbn [fold_left] in Hl.
    destruct (String.eqb_spec c k) as [->|]; [|discriminate].
    destruct (String.eqb_spec f f') as [->|]; [|discriminate].
    cbn in Hl. injection Hl as ->. split; [reflexivity|exact Hm]. }
  destruct (TopicsSpec.filter_matches f t) eqn:Em.
  - destruct (single_key_list L (c, i) Hnd (fun y H => proj1 (Hel y H))) as [HL|HL]; [|exact HL].
    exfalso.
    assert (Hin : In (c, i) (TopicsSpec.reach (Topics.root_block (TopicsSpec.subscribe_all [(c, f, i)]))
                               (Topics.topic_to_subtopics t))).
    { apply TopicsFacts.in_reach_subscribe_all; [exact Hv|]. exists f. split; [exact Em|].
      unfold TopicsSpec.latest. cbn. rewrite !String.eqb_refl. reflexivity. }
    assert (Hg : Topics.get c L = None) by (rewrite HL; reflexivity).
    unfold L, Topics.get_all_subscribed in Hg. rewrite TopicsFacts.collect_subs_reach in Hg.
    apply TopicsFacts.collect_none in Hg as [_ Hg]. exact (Hg i Hin).
  - destruct L as [|y L'] eqn:EL; [reflexivity|].
    exfalso. destruct (Hel y (or_introl eq_refl)) as [_ H]. congruence.
Qed.

Lemma no_subscription_identifier (props : list (Property * MqttPropValue)) :
  ~ In SubscriptionIdentifier (map fst props) ->
  existsb (fun kv => Property_beq (fst kv) SubscriptionIdentifier) props = false.
Proof.
  intros Hn. destruct (existsb _ props) eqn:E; [|reflexivity].
  apply existsb_exists in E as [[k v] [Hin Hb]].
  apply PropsFacts.Property_beq_true in Hb. cbn in Hb. subst k.
  exfalso. apply Hn. apply in_map_iff. exists (SubscriptionIdentifier, v). auto.
Qed.

(** X21. From an empty index, when client [c] sends a SUBSCRIBE (without
    SubscriptionIdentifier) for one valid filter [f] with options that ask
    for QoS 0, retain handling DoNotSend and no RETAIN_AS_PUBLISHED, and
    then client [s] sends a supported QoS 0 PUBLISH, [process_forever]
    stores the subscription, sends [c] a SUBACK with GrantedQoS0 and then
    sends [c] the publication once if [f] matches its topic, unless [c] is
    [s] and asked for NoLocal, or the channel is strict and [s] is
    encrypted while [c] is not; nothing else is sent. *)
Theorem subscribe_then_publish noise strict d c s id props f o pub enc_c enc_s ps :
  topics_table d = Topics.table_new ->
  Topics.get c (clients d) = Some enc_c -> Topics.get s (clients d) = Some enc_s ->
  ~ In SubscriptionIdentifier (map fst props) ->
  Topic.is_valid_topic f = true ->
  options_qos o = Ok QoS0 -> options_retain_handling o = Ok DoNotSend ->
  contains o RETAIN_AS_PUBLISHED = false ->
  pub_qos pub = QoS0 -> Z.land (pub_flags pub) (Z.lor PUB_DUP PUB_RETAIN) = 0 ->
  forward_props (pub_props pub) = Some ps ->
  process_forever noise strict d
    [(c, InSubscribe (mkSubscribe id props [(f, o)])); (s, InPublish pub)] =
  Returned (mkDispatcher (Topics.subscribe Topics.table_new c f QoS0 (subscription_flags o))
              (clients d)
              (app (sent d)
                 ((c, OSubAck id [GrantedQoS0]) ::
                  if TopicsSpec.filter_matches f (topic_name pub)
                     && negb (String.eqb c s && contains o NO_LOCAL)
                     && negb ((if noise then enc_s && strict else false) && negb enc_c)
                  then [(c, OPublish (topic_name pub) (payload pub) ps)] else [])))
           None.
Proof.
  intros Ht Hc Hs Hp Hf Hq Hr Hrap Hpq Hpf Hps.
  set (info := Topics.mkSubscriptionInfo QoS0 (subscription_flags o)).
  set (t1 := Topics.subscribe Topics.table_new c f QoS0 (subscription_flags o)).
  assert (Hsub : process_subscribe d c (mkSubscribe id props [(f, o)]) =
                 Returned (send (set_topics d t1) c (OSubAck id [GrantedQoS0])) None).
  { unfold process_subscribe. cbn [Subscribe.sub_props Subscribe.topics].
    rewrite (no_subscription_identifier props Hp). cbn [subscribe_topics].
    rewrite Hq, Hr, Ht. cbn [subscribe_topics app granted].
    cbn [set_topics Dispatch.clients]. rewrite Hc. reflexivity. }
  assert (Hflags : Topics.flags info = subscription_flags o) by reflexivity.
  assert (Hrap' : contains (subscription_flags o) Topics.RETAIN_AS_PUBLISHED = false).
  { unfold subscription_flags. rewrite Hrap. destruct (contains o NO_LOCAL); reflexivity. }
  assert (Hnl : contains (subscription_flags o) Topics.NO_LOCAL = contains o NO_LOCAL).
  { unfold subscription_flags. rewrite Hrap. destruct (contains o NO_LOCAL); reflexivity. }
  assert (Hgas : Topics.get_all_subscribed t1 (topic_name pub) =
                 if TopicsSpec.filter_matches f (topic_name pub) then [(c, info)] else []).
  { exact (get_all_subscribed_single c f info (topic_name pub) Hf). }
  set (d1 := send (set_topics d t1) c (OSubAck id [GrantedQoS0])).
  set (se := if noise then enc_s && strict else false).
  assert (Hpub : process_publish noise strict d1 s pub =
    deliver d1 s se (OPublish (topic_name pub) (payload pub) ps)
      (Topics.get_all_subscribed t1 (topic_name pub))).
  { unfold process_publish. subst se.
    replace (clients d1) with (clients d) by reflexivity. rewrite Hpq, Hpf, Hps.
    cbn [Z.eqb negb]. destruct noise; [rewrite Hs|]; reflexivity. }
  cbn [process_forever process_packet]. rewrite Hsub. fold d1. rewrite Hpub.
  rewrite PublishFacts.deliver_all.
  2:{ intros t0 i0 Hin. rewrite Hgas in Hin.
      destruct (TopicsSpec.filter_matches f (topic_name pub)); [|destruct Hin].
      destruct Hin as [Heq|[]]. injection Heq as _ <-. split; [reflexivity|exact Hrap']. }
  rewrite Hgas. cbn [process_forever].
  unfold d1. cbn [send set_topics topics_table clients sent].
  rewrite <- app_assoc. cbn [app]. f_equal. f_equal. f_equal. f_equal.
  destruct (TopicsSpec.filter_matches f (topic_name pub)); cbn [filter andb]; [|reflexivity].
  unfold PublishFacts.delivered_to. cbn [fst snd]. rewrite Hflags, Hnl, Hc.
  rewrite (String.eqb_sym c s).
  destruct (String.eqb s c && contains o NO_LOCAL); cbn [negb andb]; [reflexivity|].
  destruct (se && negb enc_c); reflexivity.
Qed.

Lemma subscribe_then_publish_witness :
  let d := two_clients in
  let pub := mkPublish 0 "a/b" [7] [] in
  topics_table d = Topics.table_new /\
  Topics.get "c" (clients d) = Some false /\ Topics.get "d" (clients d) = Some false /\
  ~ In SubscriptionIdentifier (map fst (@nil (Property * MqttPropValue))) /\
  Topic.is_valid_topic "a/+" = true /\
  options_qos 0x24 = Ok QoS0 /\ options_retain_handling 0x24 = Ok DoNotSend /\
  contains 0x24 RETAIN_AS_PUBLISHED = false /\
  pub_qos pub = QoS0 /\ Z.land (pub_flags pub) (Z.lor PUB_DUP PUB_RETAIN) = 0 /\
  forward_props (pub_props pub) = Some [] /\
  process_forever true true d
    [("c", InSubscribe (mkSubscribe 5 [] [("a/+", 0x24)])); ("d", InPublish pub)] =
  Returned (mkDispatcher (Topics.subscribe Topics.table_new "c" "a/+" QoS0 (subscription_flags 0x24))
              (clients d)
              (app (sent d)
                 (("c", OSubAck 5 [GrantedQoS0]) ::
                  if TopicsSpec.filter_matches "a/+" (topic_name pub)
                     && negb (String.eqb "c" "d" && contains 0x24 NO_LOCAL)
                     && negb ((if true then false && true else false) && negb false)
                  then [("c", OPublish (topic_name pub) (payload pub) [])] else [])))
           None.
Proof.
  intros d pub.
  assert (H1 : topics_table d = Topics.table_new) by reflexivity.
  assert (H2 : Topics.get "c" (clients d) = Some false) by reflexivity.
  assert (H3 : Topics.get "d" (clients d) = Some false) by reflexivity.
  assert (H4 : ~ In SubscriptionIdentifier (map fst (@nil (Property * MqttPropValue))))
    by (intros []).
  assert (H5 : Topic.is_valid_topic "a/+" = true) by reflexivity.
  assert (H6 : options_qos 0x24 = Ok QoS0) by reflexivity.
  assert (H7 : options_retain_handling 0x24 = Ok DoNotSend) by reflexivity.
  assert (H8 : contains 0x24 RETAIN_AS_PUBLISHED = false) by reflexivity.
  assert (H9 : pub_qos pub = QoS0) by reflexivity.
  assert (H10 : Z.land (pub_flags pub) (Z.lor PUB_DUP PUB_RETAIN) = 0) by reflexivity.
  assert (H11 : forward_props (pub_props pub) = Some []) by reflexivity.
  repeat (split; [assumption|]).
  exact (subscribe_then_publish true true d "c" "d" 5 [] "a/+" 0x24 pub false false []
           H1 H2 H3 H4 H5 H6 H7 H8 H9 H10 H11).
Defined.

End DispatchLoopFacts.
